(* ===== verification/_CoqProject ===== *)
-Q . S2P
Prelude.v
GoStrings.v
Utils.v
Policy.v
FilePath.v
Image.v
Kube.v
Json.v
JsonPatch.v
Caching.v
Metrics.v
Channels.v
Validator.v
Validation.v
History.v
Auth.v
Cosign.v
NotaryServer.v
Notary.v
Notation.v
Alerting.v
Settings.v
Mutate.v
Wiring.v
Server.v
