(* ===== verification/Prelude.v ===== *)
(** * Connaisseur: a verification development

    Connaisseur is an admission webhook for Kubernetes.  For every workload object it
    finds the images, selects for each image the most specific policy rule and its
    validator, lets the validator establish a digest (signatures of cosign, notary v1
    or notation, or a static verdict), caches the result, sends alerts, and answers
    with a denial or with a JSON patch that replaces the image references by references
    with the validated digests.

    This library models the Go code under [src/internal] and
    [src/cmd/connaisseur/main.go] as functions on values, with explicit state where the
    code has state, and two transition systems: one for the goroutines of a request, one
    for all validations of a server over time.

    ** Conventions

    - A Go call that returns an error is a value of [res] (this file): [Ok], [Err] with
      the text of the error, or [Panic].  A panic is never caught by the error handling
      of the code, and also stands for the end of the process by [logrus.Fatal].  In the
      goroutine of a request [net/http] recovers it and drops the connection; in the
      goroutines that the code starts nothing does, and the process ends.
    - A Go string is a sequence of bytes ([string]); machine integers are [Z] with the
      wrap-around written out where it can happen ([GoStrings.wrap64]).
    - A Go map is a [gmap]; its iteration order is the class [Utils.MapOrder], and the
      arrival order of values from goroutines is [Cosign.ArrivalOrder]: the theorems
      hold for every order.
    - Code outside of the repository is a parameter: the classes [Image.NameLib]
      (go-containerregistry), [Kube.Decoder], [Caching.RedisClient], [Cosign.CosignLib]
      (sigstore), [NotaryServer.TufLib] and [NotaryServer.NotaryHttp] (notary, HTTP),
      [Notary.KeyLib] (x509), [Notation.NotationLib] (notation-go), [FilePath.FileSystem],
      [Settings.StructLib] (go-playground/validator) and the arguments [glob], [verify] and
      the like.  Hypotheses on them state documented behaviour: that Redis keeps what was
      stored until it expires ([Caching.RedisSpec], in terms of the entries of the server
      and the time they have left), that the struct validator reports a violation exactly
      when a tag is not satisfied ([Settings.StructSpec]; [Settings.satisfies] is the
      meaning of the tags), that an accepted image reference needs no escaping in JSON,
      that [notation.Verify] returns the digest of its reference.  The witnesses
      instantiate them with concrete functions.
    - Recursion is structural throughout (on strings, lists of tokens, lists of rounds),
      so that no definition has fuel.

    ** Files

    - [Prelude]: results, loops over fallible bodies, automation, list lemmas.
    - [GoStrings]: [strings], [strconv], [fmt] on byte strings.
    - [Utils]: [utils/strings.go], [list.go], [int.go], [feature.go], [logging.go].
    - [Policy]: [policy/rule.go], [policy/match.go] and [MatchingRule], [Validator] of
      [config/config.go].
    - [FilePath]: [path/filepath] and [utils/files.go].
    - [Image]: [image/image.go], [image/registry.go].
    - [Kube]: [kubernetes/*.go].
    - [Json]: UTF-8, the encoder and decoder of [encoding/json] as far as they are used,
      [JsonEscapeString], [JsonEscapeStruct], the verb [%+q]; [JsonPatch]: JSON pointers
      and the patch as the API server applies it.
    - [Caching]: [caching/*.go]; [Metrics]: the counters of [handler] and
      [handler/validation].
    - [Channels]: the goroutine pattern of [ValidateWorkloadObject]/[mutateReview], of
      [EvalAndSendNotifications] and of the notary downloads.
    - [Validator]: [validator/validator.go], [staticvalidator]; [Auth]:
      [validator/auth/*.go]; [Cosign]: [cosignvalidator/*.go]; [NotaryServer] and
      [Notary]: [notaryv1/*]; [Notation]: [notation/*.go].
    - [Validation]: [handler/validation/validation.go], [skip.go].
    - [History]: the same code as steps of many concurrent validations on one Redis
      cache, with time, expiry and restarts, and the ledger of verdicts it refines.
      The phases [resolve], [check], [judge] and [put] are cut where the code touches
      shared state; [validate_body_phases] says that together they are [validate_body].
    - [Alerting]: [alert/*.go].
    - [Settings]: [utils/validation.go] and the [validate] tags of the configuration
      structs, described as values with tags; what a well-formed configuration is.
    - [Mutate]: [handler/mutate.go], [health.go], [admission_metrics.go].
    - [Wiring]: [config.Load], [alert.LoadConfig], [loadConfigs] and [startServer] of
      [main.go], the specific validators of the dispatch, and theorems that connect
      valid configurations with validators and the patch.
    - [Server]: [main], the routes and time limits of the server, logging set-up.

    The definitions keep the names of the source.  A loop body or a switch that the code
    writes in line is a definition of its own ([match_step], [store_base], [conclude]).
    A validator is a value of [Validator.Validate], the interface of the code; the image
    is passed by pointer there, so the image after the call is part of the result.

    ** Theorems

    - Admission ([Mutate]): an allowed object has a validation ground for each of its
      images; applying the patch of the response puts exactly the validated references
      in place; the verdict of the handler after alerts and modes
      ([Mutate.HandleMutate_verdict]: detection mode admits even when an alert that must
      succeed failed, unlike what the chart and the documentation of alerts say); which
      receivers decide about the alerts ([Alerting.EvalAndSendNotifications_result]).
    - Validation ([Validation]): the grounds on which an image is reported without an
      error; static denials have precedence; a cached result is the result.
    - Validations over time ([History]): the server refines a ledger that has neither
      cache nor phases ([server_refines_ledger], a forward simulation); so an answer
      from the cache is a verdict of the right validator that was stored less than a
      lifetime ago ([cached_answer_recent]), though perhaps under the configuration of
      before a restart; and every entry of the cache is such a verdict
      ([cache_entries_recent]).  The lemma [History.thread_runs] checks the cut into steps
      against the function of [Validation]; [Wiring.deployment_original] says that the
      validators of the program meet the condition of these theorems.
    - Validators: what an accepted image rests on ([Cosign.cosign_accepts], an
      equivalence; [Cosign.accepted_signature], the key or the identity that cosign was
      asked for; [Notary.ValidateImage_trusted]); the certificates of a notation
      policy; behaviour that deviates from the documentation, as theorems
      ([Cosign.star_accepts_one_signer], [Notary.missing_delegation_falls_back], [Notation.client_remembers],
      [Wiring.notation_tag_not_patched]).
    - Policy ([Policy]): the selected rule is the most specific matching one, for a
      reference order; when there is none, when matching panics and when it cannot.
    - Concurrency ([Channels]): with a [select] the collector always returns and
      returns what the goroutines sent; with a check before a blocking receive it can
      block for ever.  [Channels.measure] bounds the number of steps.  The validation of
      an image always ends with an output ([Validation.ValidateImage_total]), and the
      order of arrival does not matter ([NotaryServer.DownloadBaseTrustData_order],
      [Cosign.cosign_accepts]).
    - Workloads ([Kube]): all containers are listed, with their positions; outcomes of
      parsing; parents approve only with a matching UID.
    - Configuration: validation accepts exactly the well-formed configurations
      ([Settings.validated_iff_well_formed]), and what the handlers may then rely on
      ([Wiring.valid_configuration]); credentials by longest prefix, trust roots by name,
      cache lifetime within 64 bits; what [SafeFileName] returns for elements that do not
      climb ([FilePath.SafeFileName_contained]); how both configuration files load and
      what ends the process ([Wiring.loadConfigs_files]); and a start that serves
      ([Server.main_serves]).
    - Text: JSON escaping round trip, tags of references with digests
      ([Image.New_tag_and_digest], and [Image.New_docker_alias] where the code loses
      them), common prefixes and overlaps.

    ** Not modelled

    Reflection and translation inside the struct validator are a parameter; so are text
    templates ([text/template]) and YAML decoding.  Listening, TLS and the writing of
    logs are I/O; routing is modelled for paths without percent-encoding.  The tools
    that create test data, the test helpers and the charts are not part of the program.
    Cancellation inside library calls is seen only through their errors.
    [strings.ToLower] is modelled on ASCII.  The data race of concurrent notation
    validations on the shared client is modelled by its sequential part only; [History]
    treats the verdict of a validator as a function of time, read at one moment of the
    call. *)
From stdpp Require Export base list strings gmap sets sorting pretty.
From Stdlib Require Export ZArith Lia.

(** * Results of Go calls

    [Ok v] is a call that returned [v] with a nil error, [Err e] one that
    returned the non-nil error whose [Error()] text is [e], and [Panic why] one
    that ran into a Go run-time panic (index out of range, nil dereference,
    explicit [panic]).  A panic is not an error value: no [if err != nil] of the
    code catches it. *)
Inductive res (A : Type) : Type :=
  | Ok (a : A)
  | Err (e : string)
  | Panic (why : string).
Arguments Ok {A} a.
Arguments Err {A} e.
Arguments Panic {A} why.

#[export] Instance res_ret : MRet res := fun A a => Ok a.
#[export] Instance res_bind : MBind res := fun A B f r =>
  match r with Ok a => f a | Err e => Err e | Panic w => Panic w end.
#[export] Instance res_fmap : FMap res := fun A B f r =>
  match r with Ok a => Ok (f a) | Err e => Err e | Panic w => Panic w end.

#[export] Instance res_eq_dec `{EqDecision A} : EqDecision (res A).
Proof. solve_decision. Defined.

(** [map_err f r] is Go's [if err != nil { return fmt.Errorf(.., err) }]. *)
Definition map_err {A} (f : string -> string) (r : res A) : res A :=
  match r with Ok a => Ok a | Err e => Err (f e) | Panic w => Panic w end.

(** A pointer or an interface value that is not nil. *)
Definition is_set {A} (o : option A) : bool :=
  match o with Some _ => true | None => false end.

Definition is_ok {A} (r : res A) : bool :=
  match r with Ok _ => true | _ => false end.

(** A call that does not panic. *)
Definition safe {A} (r : res A) : Prop := forall w, r <> Panic w.

(** [of_opt e o]: a missing value becomes the error [e]. *)
Definition of_opt {A} (e : string) (o : option A) : res A :=
  match o with Some a => Ok a | None => Err e end.

(** [l[i]] of a Go slice: out of range is a panic. *)
Definition index {A} (l : list A) (i : nat) : res A :=
  match l !! i with
  | Some a => Ok a
  | None => Panic "index out of range"
  end.

Fixpoint mapM_res {A B} (f : A -> res B) (l : list A) : res (list B) :=
  match l with
  | [] => Ok []
  | a :: l' => b ← f a; bs ← mapM_res f l'; Ok (b :: bs)
  end.

Fixpoint foldM_res {A B} (f : A -> B -> res A) (acc : A) (l : list B) : res A :=
  match l with
  | [] => Ok acc
  | b :: l' => a' ← f acc b; foldM_res f a' l'
  end.

(** * Automation *)
Create HintDb go.

(** Case analysis on the calls and tests of a handler, discarding the branches
    that contradict the context. *)
Ltac res_simpl :=
  unfold mbind, mret, fmap, res_bind, res_ret, res_fmap in *;
  simpl in *; simplify_eq.
Ltac step_match :=
  match goal with
  | |- context [match ?x with _ => _ end] => destruct x eqn:?
  | H : context [match ?x with _ => _ end] |- _ => destruct x eqn:?
  end.
Ltac go_cases := repeat (first [progress res_simpl | step_match]; simplify_eq).

Lemma bind_Ok {A B} (f : A -> res B) (r : res A) (b : B) :
  r ≫= f = Ok b <-> exists a, r = Ok a /\ f a = Ok b.
Proof. destruct r; cbn; naive_solver. Qed.

Lemma bind_Err {A B} (f : A -> res B) (r : res A) (e : string) :
  r ≫= f = Err e <-> r = Err e \/ exists a, r = Ok a /\ f a = Err e.
Proof. destruct r; cbn; naive_solver. Qed.

Lemma bind_Panic {A B} (f : A -> res B) (r : res A) (w : string) :
  r ≫= f = Panic w <-> r = Panic w \/ exists a, r = Ok a /\ f a = Panic w.
Proof. destruct r; cbn; naive_solver. Qed.

Lemma bind_assoc {A B C} (r : res A) (f : A -> res B) (g : B -> res C) :
  (r ≫= f) ≫= g = r ≫= (fun a => f a ≫= g).
Proof. by destruct r. Qed.

Lemma map_err_Ok {A} f (r : res A) a : map_err f r = Ok a <-> r = Ok a.
Proof. destruct r; naive_solver. Qed.

Lemma safe_Ok {A} (a : A) : safe (Ok a).
Proof. by intros w. Qed.
Lemma safe_Err {A} e : safe (Err (A := A) e).
Proof. by intros w. Qed.
Lemma safe_bind {A B} (f : A -> res B) (r : res A) :
  safe r -> (forall a, r = Ok a -> safe (f a)) -> safe (r ≫= f).
Proof. destruct r; cbn; intros H1 H2; auto using safe_Err. by destruct (H1 why). Qed.
Lemma safe_map_err {A} f (r : res A) : safe r -> safe (map_err f r).
Proof. destruct r; cbn; auto using safe_Ok, safe_Err. Qed.
#[export] Hint Resolve safe_Ok safe_Err safe_bind safe_map_err : go.

Lemma index_Ok {A} (l : list A) i a : index l i = Ok a <-> l !! i = Some a.
Proof. unfold index. destruct (l !! i); naive_solver. Qed.

Lemma index_safe {A} (l : list A) i : i < length l -> exists a, index l i = Ok a.
Proof.
  intros H. destruct (lookup_lt_is_Some_2 l i H) as [a Ha].
  exists a. by apply index_Ok.
Qed.

Lemma mapM_res_Ok {A B} (f : A -> res B) l bs :
  mapM_res f l = Ok bs <-> Forall2 (fun a b => f a = Ok b) l bs.
Proof.
  revert bs. induction l as [|a l IH]; intros bs; cbn [mapM_res].
  - split; [intros [= <-]; constructor|by inversion 1].
  - rewrite bind_Ok. split.
    + intros (b & Hb & H). apply bind_Ok in H as (bs' & H & [= <-]).
      constructor; [done|by apply IH].
    + inversion 1 as [|? b ? bs' Hb Hbs]; subst. exists b. split; [done|].
      apply bind_Ok. exists bs'. by rewrite IH.
Qed.

Lemma mapM_res_safe {A B} (f : A -> res B) l :
  Forall (fun a => safe (f a)) l -> safe (mapM_res f l).
Proof. induction 1; cbn [mapM_res]; auto 6 with go. Qed.

Lemma mapM_res_Panic {A B} (f : A -> res B) l1 x l2 w :
  (forall a, a ∈ l1 -> exists b, f a = Ok b) -> f x = Panic w ->
  mapM_res f (l1 ++ x :: l2) = Panic w.
Proof.
  intros Hl1 Hx. induction l1 as [|a l1 IH]; cbn [app mapM_res].
  - by rewrite Hx.
  - destruct (Hl1 a) as [b ->]; [by left|]. cbn [mbind res_bind].
    rewrite IH; [done|]. intros a' Ha'. apply Hl1. by right.
Qed.

Lemma foldM_res_app {A B} (f : A -> B -> res A) acc l1 l2 :
  foldM_res f acc (l1 ++ l2) = foldM_res f acc l1 ≫= (fun a => foldM_res f a l2).
Proof.
  revert acc. induction l1 as [|b l1 IH]; intros acc; [done|]. cbn.
  destruct (f acc b) as [a| |]; cbn; auto.
Qed.

(** Rule induction for loops: an invariant that every iteration keeps. *)
Lemma foldM_res_inv {A B} (P : list B -> A -> Prop) (f : A -> B -> res A) acc l a :
  P [] acc ->
  (forall done b acc acc', P done acc -> b ∈ l -> f acc b = Ok acc' ->
     P (done ++ [b]) acc') ->
  foldM_res f acc l = Ok a -> P l a.
Proof.
  intros Hinit Hstep. enough (Haux : forall rest done acc,
    (forall b, b ∈ rest -> b ∈ l) -> P done acc -> foldM_res f acc rest = Ok a ->
    P (done ++ rest) a) by (intros H; by apply (Haux l [] acc)).
  induction rest as [|b rest IH]; intros done acc' Hin HP; cbn.
  - intros [= <-]. by rewrite app_nil_r.
  - intros H. apply bind_Ok in H as (a' & Ha & H).
    rewrite (cons_middle b done rest), app_assoc. eapply IH; [|eapply Hstep|]; eauto.
    + intros b' Hb'. apply Hin. by right.
    + apply Hin. by left.
Qed.

(** A loop that does not return normally stopped in one of its iterations. *)
Lemma foldM_res_stop {A B} (f : A -> B -> res A) acc l :
  (exists a, foldM_res f acc l = Ok a) \/
  exists done b rest a, l = done ++ b :: rest /\ foldM_res f acc done = Ok a /\
    (forall a', f a b <> Ok a') /\ foldM_res f acc l = f a b.
Proof.
  revert acc. induction l as [|b l IH]; intros acc; [by left; exists acc|]. cbn.
  destruct (f acc b) as [a| |] eqn:E; cbn.
  - destruct (IH a) as [H|(d & b' & rest & a' & -> & H1 & H2 & H3)]; [by left|].
    right. exists (b :: d), b', rest, a'. cbn. by rewrite E.
  - right. exists [], b, l, acc. cbn. by rewrite E.
  - right. exists [], b, l, acc. cbn. by rewrite E.
Qed.

(** * List lemmas shared by the components *)
Lemma NoDup_fst_inj {A B} (l : list (A * B)) a b b' :
  NoDup l.*1 -> (a, b) ∈ l -> (a, b') ∈ l -> b = b'.
Proof.
  induction l as [|[x y] l IH]; cbn; intros Hnd H1 H2.
  - by apply elem_of_nil in H1.
  - apply NoDup_cons in Hnd as [Hx Hnd].
    apply elem_of_cons in H1 as [[= -> ->]|H1], H2 as [H2|H2].
    + congruence.
    + destruct Hx. apply list_elem_of_fmap. by exists (x, b').
    + injection H2 as -> ->. destruct Hx. apply list_elem_of_fmap. by exists (x, b).
    + by apply IH.
Qed.

Lemma Forall2_names {A B} (f : B -> A) l l' :
  Forall2 (fun a b => f b = a) l l' <-> f <$> l' = l.
Proof.
  revert l'. induction l as [|a l IH]; intros [|b l']; cbn; split; intros H;
    inversion H; subst; try done.
  - f_equal. by apply IH.
  - constructor; [done|]. by apply IH.
Qed.

Lemma forallb_false {A} (f : A -> bool) l :
  forallb f l = false -> exists a, a ∈ l /\ f a = false.
Proof.
  induction l as [|a l IH]; cbn; [done|]. intros [Ha|Hl]%andb_false_iff.
  - exists a. by split; [left|].
  - destruct (IH Hl) as (b & ? & ?). exists b. by split; [right|].
Qed.

(** A loop whose rounds commute gives the same result for every order. *)
Lemma foldM_res_perm {A B} (f : A -> B -> res A) l l' :
  l ≡ₚ l' ->
  (forall acc a b r, a ∈ l -> b ∈ l -> f acc a ≫= (fun x => f x b) = Ok r ->
     f acc b ≫= (fun x => f x a) = Ok r) ->
  forall acc r, foldM_res f acc l = Ok r -> foldM_res f acc l' = Ok r.
Proof.
  induction 1 as [|x l l' _ IH|x y l|l1 l2 l3 H12 IH12 H23 IH23]; intros Hc acc r; cbn; [done| | |].
  - intros (a & Ha & Hf)%bind_Ok. rewrite Ha. cbn. apply IH; [|done].
    intros acc' b c r' Hb Hc'. apply Hc; by right.
  - intros (a & Ha & Hf)%bind_Ok. apply bind_Ok in Hf as (b & Hb & Hf).
    apply bind_Ok.
    assert (Hxy : f acc x ≫= (fun z => f z y) = Ok b).
    { apply Hc; [by left|right; by left|]. rewrite Ha. exact Hb. }
    apply bind_Ok in Hxy as (z & Hz & Hb'). exists z. split; [done|]. by rewrite Hb'.
  - intros Hf. apply IH23; [|by apply IH12].
    intros acc' a b r' Ha Hb. apply Hc; by rewrite H12.
Qed.
