(* ===== verification/GoStrings.v ===== *)
(** Go strings and the functions of Go's standard packages [strings],
    [strconv], [fmt] and [slices] that the source calls on them.

    A Go string is a sequence of bytes; it is modelled by [string], whose
    characters are the 256 bytes.  [len], indexing and slicing are on bytes, as
    in Go. *)
From S2P Require Import Prelude.
From Stdlib Require Import Ascii.

Declare Scope go_scope.
Delimit Scope go_scope with go.
Open Scope go_scope.

(** * Concatenation *)
Lemma app_cons c s t : String c s +:+ t = String c (s +:+ t).
Proof. reflexivity. Qed.
Lemma app_empty_l s : "" +:+ s = s.
Proof. reflexivity. Qed.
Lemma app_empty_r s : s +:+ "" = s.
Proof. induction s as [|c s IH]; [done|]. by rewrite app_cons, IH. Qed.
Lemma str_app_assoc s t u : (s +:+ t) +:+ u = s +:+ (t +:+ u).
Proof. induction s as [|c s IH]; [done|]. by rewrite !app_cons, IH. Qed.
Lemma str_length_app s t : String.length (s +:+ t) = String.length s + String.length t.
Proof. induction s as [|c s IH]; [done|]. rewrite app_cons. cbn. by rewrite IH. Qed.
Lemma str_app_inj_l s t u : s +:+ t = s +:+ u -> t = u.
Proof. induction s as [|c s IH]; [done|]. rewrite !app_cons. intros [= H]. auto. Qed.
Lemma str_app_inj s t s' t' :
  String.length s = String.length s' -> s +:+ t = s' +:+ t' -> s = s' /\ t = t'.
Proof.
  revert s'. induction s as [|c s IH]; intros [|c' s'] Hl; try done.
  rewrite !app_cons. cbn in Hl. intros [= -> H].
  destruct (IH s') as [-> ->]; auto.
Qed.
Lemma str_app_inj_r s s' t : s +:+ t = s' +:+ t -> s = s'.
Proof.
  intros H. assert (Hl : String.length s = String.length s').
  { apply (f_equal String.length) in H. rewrite !str_length_app in H. lia. }
  by destruct (str_app_inj _ _ _ _ Hl H).
Qed.
Lemma str_app_eq_self s t : s +:+ t = t -> s = "".
Proof. intros H. apply (str_app_inj_r s "" t). by rewrite H. Qed.
Create HintDb go_str.
#[export] Hint Rewrite app_cons app_empty_l app_empty_r str_app_assoc str_length_app : go_str.

(** * Prefixes and suffixes (package [strings]) *)
Fixpoint strip_prefix (p s : string) : option string :=
  match p, s with
  | EmptyString, _ => Some s
  | String a p', String b s' => if decide (a = b) then strip_prefix p' s' else None
  | String _ _, EmptyString => None
  end.

Fixpoint strip_suffix (x s : string) : option string :=
  if decide (s = x) then Some "" else
  match s with
  | EmptyString => None
  | String c s' => String c <$> strip_suffix x s'
  end.

(** [strings.HasPrefix(s, p)], [strings.TrimPrefix], [strings.HasSuffix],
    [strings.TrimSuffix]. *)
Definition has_prefix (s p : string) : bool := bool_decide (is_Some (strip_prefix p s)).
Definition trim_prefix (s p : string) : string := default s (strip_prefix p s).
Definition has_suffix (s x : string) : bool := bool_decide (is_Some (strip_suffix x s)).
Definition trim_suffix (s x : string) : string := default s (strip_suffix x s).

(** [strings.Contains(s, sub)]. *)
Fixpoint contains (s sub : string) : bool :=
  has_prefix s sub ||
  match s with EmptyString => false | String _ s' => contains s' sub end.

Lemma strip_prefix_Some p s r : strip_prefix p s = Some r <-> s = p +:+ r.
Proof.
  revert s. induction p as [|a p IH]; intros [|b s]; cbn; rewrite ?app_cons, ?app_empty_l.
  - naive_solver.
  - naive_solver.
  - naive_solver.
  - case_decide; subst; [rewrite IH|]; naive_solver.
Qed.
Lemma strip_prefix_app p r : strip_prefix p (p +:+ r) = Some r.
Proof. by apply strip_prefix_Some. Qed.

Lemma strip_suffix_Some x s r : strip_suffix x s = Some r <-> s = r +:+ x.
Proof.
  revert r. induction s as [|c s IH]; intros r; cbn; case_decide as Hx; subst.
  - rewrite app_empty_r. naive_solver.
  - split; [done|]. destruct r as [|c' r]; [by rewrite app_empty_l|by rewrite app_cons].
  - split; [by intros [= <-]|]. intros H. symmetry in H.
    by apply str_app_eq_self in H as ->.
  - rewrite fmap_Some. split.
    + intros (r' & Hr & ->). apply IH in Hr as ->. by rewrite app_cons.
    + destruct r as [|c' r]; [by rewrite app_empty_l|].
      rewrite app_cons. intros [= -> ->]. exists r. by rewrite IH.
Qed.

Lemma has_prefix_true s p : has_prefix s p = true <-> exists r, s = p +:+ r.
Proof.
  unfold has_prefix. rewrite bool_decide_eq_true. unfold is_Some.
  by setoid_rewrite strip_prefix_Some.
Qed.
Lemma has_prefix_app s t : has_prefix (s +:+ t) s = true.
Proof. apply has_prefix_true. by exists t. Qed.
Lemma has_prefix_refl s : has_prefix s s = true.
Proof. apply has_prefix_true. exists "". by rewrite app_empty_r. Qed.
Lemma has_prefix_length s p : has_prefix s p = true -> String.length p <= String.length s.
Proof. intros [r ->]%has_prefix_true. rewrite str_length_app. lia. Qed.
Lemma has_prefix_eq s p q :
  has_prefix s p = true -> has_prefix s q = true ->
  String.length p = String.length q -> p = q.
Proof.
  intros [r ->]%has_prefix_true [r' H]%has_prefix_true Hl.
  by destruct (str_app_inj _ _ _ _ Hl H).
Qed.
Lemma has_suffix_true s x : has_suffix s x = true <-> exists r, s = r +:+ x.
Proof.
  unfold has_suffix. rewrite bool_decide_eq_true. unfold is_Some.
  by setoid_rewrite strip_suffix_Some.
Qed.
Lemma trim_prefix_app p r : trim_prefix (p +:+ r) p = r.
Proof. unfold trim_prefix. by rewrite strip_prefix_app. Qed.
Lemma trim_prefix_id s p : has_prefix s p = false -> trim_prefix s p = s.
Proof.
  unfold has_prefix, trim_prefix. rewrite bool_decide_eq_false.
  destruct (strip_prefix p s); [|done]. intros []. by eexists.
Qed.
Lemma trim_suffix_app r x : trim_suffix (r +:+ x) x = r.
Proof.
  unfold trim_suffix. replace (strip_suffix x (r +:+ x)) with (Some r); [done|].
  symmetry. by apply strip_suffix_Some.
Qed.
#[export] Hint Resolve has_prefix_app has_prefix_refl : go.

(** * Slicing and searching *)

(** [s[:n]] and [s[n:]] for [n] within bounds. *)
Fixpoint str_take (n : nat) (s : string) : string :=
  match n, s with
  | S n', String c s' => String c (str_take n' s')
  | _, _ => ""
  end.
Fixpoint str_drop (n : nat) (s : string) : string :=
  match n, s with
  | S n', String _ s' => str_drop n' s'
  | 0, _ => s
  | _, EmptyString => ""
  end.

Lemma str_take_drop n s : str_take n s +:+ str_drop n s = s.
Proof.
  revert s. induction n as [|n IH]; intros [|c s]; try done. cbn.
  by rewrite app_cons, IH.
Qed.
Lemma str_drop_length n s : String.length (str_drop n s) = String.length s - n.
Proof. revert s. induction n as [|n IH]; intros [|c s]; cbn; auto. Qed.
Lemma str_drop_app n s t : n = String.length s -> str_drop n (s +:+ t) = t.
Proof.
  intros ->. induction s as [|c s IH]; [done|]. by rewrite app_cons.
Qed.

(** [strings.Index(s, string(c))] for a one-byte separator. *)
Fixpoint index_byte (c : ascii) (s : string) : option nat :=
  match s with
  | EmptyString => None
  | String a s' => if decide (a = c) then Some 0 else S <$> index_byte c s'
  end.

(** [strings.Split(s, string(c))] for a one-byte separator. *)
Fixpoint split (c : ascii) (s : string) : list string :=
  match s with
  | EmptyString => [""]
  | String a s' =>
      if decide (a = c) then "" :: split c s' else
      match split c s' with
      | x :: xs => String a x :: xs
      | [] => [String a ""]
      end
  end.

(** [strings.Join(l, sep)]. *)
Fixpoint join (sep : string) (l : list string) : string :=
  match l with
  | [] => ""
  | [s] => s
  | s :: l' => s +:+ sep +:+ join sep l'
  end.

Fixpoint count_byte (c : ascii) (s : string) : nat :=
  match s with
  | EmptyString => 0
  | String a s' => (if decide (a = c) then 1 else 0) + count_byte c s'
  end.

Lemma index_byte_Some c s i :
  index_byte c s = Some i ->
  s = str_take i s +:+ String c (str_drop (S i) s) /\ count_byte c (str_take i s) = 0.
Proof.
  revert i. induction s as [|a s IH]; intros i; cbn; [done|].
  case_decide as Ha; [intros [= <-]; by subst|].
  rewrite fmap_Some. intros (j & Hj & ->). destruct (IH j Hj) as [H1 H2].
  change (str_take (S j) (String a s)) with (String a (str_take j s)).
  change (str_drop (S (S j)) (String a s)) with (str_drop (S j) s).
  split; [rewrite app_cons; by f_equal|]. cbn. by rewrite decide_False.
Qed.
Lemma index_byte_None c s : index_byte c s = None <-> count_byte c s = 0.
Proof.
  induction s as [|a s IH]; cbn; [done|]. case_decide; [done|].
  rewrite fmap_None. apply IH.
Qed.
Lemma split_not_nil c s : split c s <> [].
Proof. destruct s; cbn; [done|]. case_decide; [done|]. by destruct (split c s). Qed.
Lemma split_length c s : length (split c s) = S (count_byte c s).
Proof.
  induction s as [|a s IH]; cbn; [done|]. case_decide; cbn; [by rewrite IH|].
  destruct (split c s) eqn:E; [by apply split_not_nil in E|]. exact IH.
Qed.
Lemma count_byte_app c s t : count_byte c (s +:+ t) = count_byte c s + count_byte c t.
Proof. induction s as [|a s IH]; [done|]. rewrite app_cons. cbn. rewrite IH. lia. Qed.
Lemma join_split c s : join (String c "") (split c s) = s.
Proof.
  induction s as [|a s IH]; [done|]. cbn [split]. case_decide as Ha.
  - subst. destruct (split c s) as [|x xs] eqn:E; [by apply split_not_nil in E|].
    change (join (String c "") ("" :: x :: xs))
      with ("" +:+ String c "" +:+ join (String c "") (x :: xs)).
    by rewrite IH.
  - destruct (split c s) as [|x xs] eqn:E; [by apply split_not_nil in E|].
    destruct xs; cbn in IH |- *; subst; by rewrite ?app_cons.
Qed.

(** The one-character strings that a literal cannot hold. *)
Definition dq : string := String (ascii_of_nat 34) "".
Definition nl : string := String (ascii_of_nat 10) "".

(** * [fmt.Sprintf] with the verbs [%s] and [%d] on non-negative integers *)
Inductive arg : Type := AStr (s : string) | AInt (n : nat).
Definition show_arg (a : arg) : string :=
  match a with AStr s => s | AInt n => pretty n end.
Fixpoint sprintf (format : string) (args : list arg) : string :=
  match format with
  | String "%" (String "s" f') | String "%" (String "d" f') =>
      match args with
      | a :: args' => show_arg a +:+ sprintf f' args'
      | [] => "%!s(MISSING)" +:+ sprintf f' []
      end
  | String c f' => String c (sprintf f' args)
  | EmptyString => ""
  end.

(** A slice of strings (or of errors) under [%s], [%v] and [%+v]. *)
Definition show_slice (l : list string) : string := "[" +:+ join " " l +:+ "]".

(** * [strings.ToLower] on ASCII text (bytes from 0x80 on are left alone) *)
Definition lower_byte (c : ascii) : ascii :=
  let n := nat_of_ascii c in
  if (65 <=? n) && (n <=? 90) then ascii_of_nat (n + 32) else c.
Fixpoint to_lower (s : string) : string :=
  match s with
  | EmptyString => ""
  | String c s' => String (lower_byte c) (to_lower s')
  end.

(** * [strconv] *)

(** [strconv.ParseBool]; [None] is the syntax error (the value returned beside
    it is [false]). *)
Definition parse_bool (s : string) : option bool :=
  if decide (s ∈ ["1"; "t"; "T"; "TRUE"; "true"; "True"]) then Some true
  else if decide (s ∈ ["0"; "f"; "F"; "FALSE"; "false"; "False"]) then Some false
  else None.

Definition digit (c : ascii) : option Z :=
  let n := Z.of_nat (nat_of_ascii c) in
  if ((48 <=? n) && (n <=? 57))%Z then Some (n - 48)%Z else None.
Fixpoint parse_digits (acc : Z) (s : string) : option Z :=
  match s with
  | EmptyString => Some acc
  | String c s' => d ← digit c; parse_digits (10 * acc + d)%Z s'
  end.
Definition parse_unsigned (s : string) : option Z :=
  match s with EmptyString => None | _ => parse_digits 0 s end.
Definition min_int64 : Z := (- 2 ^ 63)%Z.
Definition max_int64 : Z := (2 ^ 63 - 1)%Z.
(** [strconv.ParseInt(s, 10, 64)]; [None] for the syntax and the range error. *)
Definition parse_int64 (s : string) : option Z :=
  z ← match s with
      | String "+" s' => parse_unsigned s'
      | String "-" s' => Z.opp <$> parse_unsigned s'
      | _ => parse_unsigned s
      end;
  if decide (min_int64 <= z <= max_int64)%Z then Some z else None.

(** Two's complement wrap-around of an [int64] operation. *)
Definition wrap64 (z : Z) : Z := ((z + 2 ^ 63) mod 2 ^ 64 - 2 ^ 63)%Z.
Lemma wrap64_id z : (min_int64 <= z <= max_int64)%Z -> wrap64 z = z.
Proof. unfold wrap64, min_int64, max_int64. intros H. rewrite Z.mod_small; lia. Qed.

(** * ASCII strings and conversions from bytes *)
Definition is_ascii_byte (c : ascii) : bool := nat_of_ascii c <? 128.
Fixpoint is_ascii (s : string) : bool :=
  match s with EmptyString => true | String c s' => is_ascii_byte c && is_ascii s' end.

(** [string(b)] for a byte [b]: the UTF-8 encoding of the code point [b], which
    has two bytes from 0x80 on. *)
Definition string_of_byte (c : ascii) : string :=
  let n := nat_of_ascii c in
  if n <? 128 then String c ""
  else String (ascii_of_nat (192 + n / 64)) (String (ascii_of_nat (128 + n mod 64)) "").

Lemma string_of_byte_ascii c : is_ascii_byte c = true -> string_of_byte c = String c "".
Proof. unfold is_ascii_byte, string_of_byte. by intros ->. Qed.

Lemma string_of_byte_inj c d : string_of_byte c = string_of_byte d -> c = d.
Proof.
  intros H. enough (E : forall a b, bool_decide (string_of_byte a = string_of_byte b)
    = bool_decide (a = b)).
  { specialize (E c d). rewrite bool_decide_eq_true_2 in E by done.
    symmetry in E. by apply bool_decide_eq_true in E. }
  clear. intros a b. unfold string_of_byte.
  pose proof (ascii_nat_embedding a) as Ha. pose proof (ascii_nat_embedding b) as Hb.
  pose proof (nat_ascii_bounded a) as Ba. pose proof (nat_ascii_bounded b) as Bb.
  set (n := nat_of_ascii a) in *. set (m := nat_of_ascii b) in *.
  assert (Hnm : n = m <-> a = b) by (split; [congruence|by intros ->]).
  destruct (n <? 128) eqn:En, (m <? 128) eqn:Em;
    apply bool_decide_ext; rewrite <- ?Hnm; try (split; [done|]).
  - split; [by intros [= ->%Hnm]|]. intros ->%Hnm. done.
  - apply Nat.ltb_lt in En. apply Nat.ltb_ge in Em. lia.
  - apply Nat.ltb_lt in Em. apply Nat.ltb_ge in En. lia.
  - split; [|by intros ->]. intros H0.
    assert (H1 : ascii_of_nat (192 + n / 64) = ascii_of_nat (192 + m / 64)) by congruence.
    assert (H2 : ascii_of_nat (128 + n mod 64) = ascii_of_nat (128 + m mod 64)) by congruence.
    apply (f_equal nat_of_ascii) in H1, H2. apply Nat.ltb_ge in En, Em.
    pose proof (Nat.Div0.div_lt_upper_bound n 64 4 ltac:(lia)).
    pose proof (Nat.Div0.div_lt_upper_bound m 64 4 ltac:(lia)).
    pose proof (Nat.mod_upper_bound n 64 ltac:(lia)).
    pose proof (Nat.mod_upper_bound m 64 ltac:(lia)).
    rewrite !nat_ascii_embedding in H1 by lia. rewrite !nat_ascii_embedding in H2 by lia.
    pose proof (Nat.div_mod_eq n 64). pose proof (Nat.div_mod_eq m 64). lia.
Qed.
