(* ===== verification/Utils.v ===== *)
(** [internal/utils]: string helpers ([strings.go], [int.go]), list helpers
    ([list.go]), feature flags ([feature.go]) and log levels ([logging.go]).
    [files.go] and the JSON helpers of [strings.go] have files of their own. *)
From S2P Require Import Prelude GoStrings.
From Stdlib Require Import Ascii.

(** * Go's [range] over a map

    The language leaves the order open, and two loops over one map may differ:
    [range n s] is the order in which the [n]-th loop visits the key set [s]. *)
Class MapOrder := {
  range : nat -> gset string -> list string;
  range_perm n s : range n s ≡ₚ elements s;
}.

#[export] Instance elements_order : MapOrder | 100 :=
  {| range _ s := elements s; range_perm _ _ := Permutation_refl _ |}.

Lemma elem_of_range `{MapOrder} n s x : x ∈ range n s <-> x ∈ s.
Proof. rewrite range_perm. apply elem_of_elements. Qed.
Lemma NoDup_range `{MapOrder} n s : NoDup (range n s).
Proof. rewrite range_perm. apply NoDup_elements. Qed.
Lemma length_range `{MapOrder} n s : length (range n s) = size s.
Proof. by rewrite range_perm. Qed.

(** * strings.go and int.go *)

(** [slices.Sort] on strings: the byte-wise order. *)
Definition slices_sort (l : list string) : list string := merge_sort String.le l.

(** The [for] loop of [LongestCommonPrefix]; [last[i]] is checked. *)
Fixpoint lcp_loop (first last : string) : res string :=
  match first with
  | EmptyString => Ok ""
  | String f first' =>
      match last with
      | EmptyString => Panic "index out of range"
      | String l last' =>
          if decide (string_of_byte l = string_of_byte f)
          then rest ← lcp_loop first' last'; Ok (string_of_byte l +:+ rest)
          else Ok ""
      end
  end.

Definition LongestCommonPrefix (strs : list string) : res string :=
  if 0 <? length strs then
    let strs := slices_sort strs in
    first ← index strs 0;
    last ← index strs (length strs - 1);
    lcp_loop first last
  else Ok "".

Definition Max (x y : Z) : Z := if (x >? y)%Z then x else y.

(** The loop [for i := ..; i < len(a); i++] with [n = len(a) - i] rounds left. *)
Fixpoint overlap_loop (n i : nat) (a b : string) : string :=
  match n with
  | 0 => ""
  | S n' => if has_prefix b (str_drop i a) then str_drop i a
            else overlap_loop n' (S i) a b
  end.

Definition StringOverlap (a b : string) : string :=
  let i := Z.to_nat (Max 0 (Z.of_nat (String.length a) - Z.of_nat (String.length b))) in
  overlap_loop (String.length a - i) i a b.

Definition HasPrefixes (s : string) (prefixes : list string) : bool :=
  existsb (fun prefix => has_prefix s prefix) prefixes.

Definition TrimPrefixes (s : string) (prefixes : list string) : string :=
  foldl trim_prefix s prefixes.

Definition StringDefault (s default_ : string) : string :=
  if decide (s = "") then default_ else s.

(** * list.go (at the type [string], the only one it is used at) *)
Section ListGo.
Context `{MapOrder}.

Definition uniq (loop : nat) (a : list string) : list string :=
  let hash : gset string := foldl (fun hash v => {[v]} ∪ hash) ∅ a in
  range loop hash.

Definition SetSubstract (a b : list string) : list string :=
  let aSet := uniq 0 a in
  let bSet := uniq 1 b in
  let hash : gset string := foldl (fun hash v => {[v]} ∪ hash) ∅ bSet in
  List.filter (fun v => negb (bool_decide (v ∈ hash))) aSet.
End ListGo.

(** [Map] appends [f(v)] for each element of the list. *)
Definition Map {T K} (list : list T) (f : T -> K) : Datatypes.list K :=
  foldl (fun out v => out ++ [f v]) [] list.

(** * feature.go *)

(** The process environment; [os.LookupEnv] is the map itself. *)
Definition environ : Type := string -> option string.
Definition getenv (env : environ) (key : string) : string := default "" (env key).

Definition AutomaticChildApproval := "AUTOMATIC_CHILD_APPROVAL".
Definition AutomaticUnchangedApproval := "AUTOMATIC_UNCHANGED_APPROVAL".
Definition DetectionMode := "DETECTION_MODE".
Definition ResourceValidationMode := "RESOURCE_VALIDATION_MODE".

Definition FeatureFlagOn (env : environ) (flagKey : string) : bool :=
  match parse_bool (getenv env flagKey) with
  | Some flag => flag
  | None =>
      if decide (flagKey = AutomaticChildApproval) then true
      else if decide (flagKey = AutomaticUnchangedApproval) then false
      else if decide (flagKey = DetectionMode) then false
      else false
  end.

Definition BlockAllResources (env : environ) : bool :=
  let rvm := to_lower (getenv env ResourceValidationMode) in
  if decide (rvm = "all") then true
  else if decide (rvm = "podsonly") then false
  else true.

(** * logging.go *)
Inductive Level : Type :=
  | PanicLevel | FatalLevel | ErrorLevel | WarnLevel | InfoLevel | DebugLevel | TraceLevel.
#[export] Instance Level_eq_dec : EqDecision Level.
Proof. solve_decision. Defined.

Definition LogLevel (logLevel : string) : Level :=
  let l := to_lower logLevel in
  if decide (l = "debug") then DebugLevel
  else if decide (l = "info") then InfoLevel
  else if decide (l = "warn") then WarnLevel
  else if decide (l = "error") then ErrorLevel
  else if decide (l = "fatal") then FatalLevel
  else InfoLevel.

Definition ConnaisseurLogLevel (env : environ) : Level := LogLevel (getenv env "LOG_LEVEL").

Inductive ConnaisseurLogFormat : Type := LogFormatJson | LogFormatJsonPretty.

Definition logFormat (logFormat : string) : ConnaisseurLogFormat :=
  let l := to_lower logFormat in
  if decide (l = "json") then LogFormatJson
  else if decide (l = "json-pretty") then LogFormatJsonPretty
  else LogFormatJsonPretty.

(** The position in [logLevels], the last one if there were several, else -1. *)
Definition level_index (level : Level) : Z :=
  let logLevels := [DebugLevel; InfoLevel; WarnLevel; ErrorLevel; FatalLevel] in
  foldl (fun idx '(i, l) => if decide (level = l) then i else idx)
        (-1)%Z (zip [0; 1; 2; 3; 4]%Z logLevels).

Definition compare (level1 level2 : Level) : Z :=
  let diff := (level_index level1 - level_index level2)%Z in
  if (diff <? 0)%Z then (-1)%Z else if (diff >? 0)%Z then 1%Z else 0%Z.

(** Which of the third-party logs [(Debug, Progress, Warn)] are redirected. *)
Definition InitiateThirdPartyLibraryLogging (env : environ) : bool * bool * bool :=
  let currentLevel := ConnaisseurLogLevel env in
  ((compare DebugLevel currentLevel >=? 0)%Z,
   (compare InfoLevel currentLevel >=? 0)%Z,
   (compare WarnLevel currentLevel >=? 0)%Z).

(** * The longest common prefix *)

(** [p] is a common prefix of [strs], and every common prefix is one of [p]. *)
Definition is_lcp (strs : list string) (p : string) : Prop :=
  (forall s, s ∈ strs -> has_prefix s p = true) /\
  (forall q, (forall s, s ∈ strs -> has_prefix s q = true) -> has_prefix p q = true).

(** A string rebuilt byte by byte with [string(b)]: what Go's [+=] of
    [string(last[i])] accumulates. *)
Fixpoint reencode (s : string) : string :=
  match s with EmptyString => "" | String c s' => string_of_byte c +:+ reencode s' end.

Fixpoint common_prefix (s t : string) : string :=
  match s, t with
  | String a s', String b t' => if decide (a = b) then String a (common_prefix s' t') else ""
  | _, _ => ""
  end.

Lemma reencode_ascii s : is_ascii s = true -> reencode s = s.
Proof.
  induction s as [|c s IH]; cbn; [done|]. intros [Hc Hs]%andb_prop.
  by rewrite (string_of_byte_ascii _ Hc), IH.
Qed.

Lemma str_le_cons a b s t :
  String.le (String a s) (String b t) <->
  Ascii.compare a b = Lt \/ (a = b /\ String.le s t).
Proof.
  unfold String.le, String.leb. cbn. destruct (Ascii.compare a b) eqn:E.
  - apply Ascii.compare_eq_iff in E as ->. naive_solver.
  - naive_solver.
  - split; [done|]. intros [?|[-> ?]]; [done|].
    unfold Ascii.compare in E. by rewrite N.compare_refl in E.
Qed.
Lemma str_le_empty_r a s : ~ String.le (String a s) "".
Proof. exact (fun H => H). Qed.

Lemma ascii_compare_Lt_irrefl a : Ascii.compare a a <> Lt.
Proof. unfold Ascii.compare. by rewrite N.compare_refl. Qed.
Lemma ascii_compare_between a b : Ascii.compare a b = Lt -> Ascii.compare b a <> Lt.
Proof. rewrite (Ascii.compare_antisym a b). by destruct (Ascii.compare b a). Qed.

(** The loop never indexes past [last] when the two strings are in order. *)
Lemma lcp_loop_spec first last :
  String.le first last -> lcp_loop first last = Ok (reencode (common_prefix first last)).
Proof.
  revert last. induction first as [|f first IH]; intros [|l last] Hle; cbn; try done.
  apply str_le_cons in Hle. destruct (decide (f = l)) as [->|Hne].
  - rewrite decide_True by done. destruct Hle as [H|[_ H]];
      [by apply ascii_compare_Lt_irrefl in H|]. by rewrite (IH _ H).
  - rewrite decide_False; [done|]. intros H. by apply string_of_byte_inj in H as ->.
Qed.

Lemma has_prefix_cons a b s p :
  has_prefix (String a s) (String b p) = bool_decide (a = b) && has_prefix s p.
Proof.
  unfold has_prefix. cbn. destruct (decide (b = a)) as [->|H].
  - by rewrite (bool_decide_eq_true_2 (a = a)).
  - by rewrite (bool_decide_eq_false_2 (a = b)) by congruence.
Qed.
Lemma has_prefix_nil s : has_prefix s "" = true.
Proof. by destruct s. Qed.
#[export] Hint Resolve has_prefix_nil : go.

(** Every string between [f] and [l] has their common prefix. *)
Lemma common_prefix_between f s l :
  String.le f s -> String.le s l -> has_prefix s (common_prefix f l) = true.
Proof.
  revert s l. induction f as [|a f IH]; intros [|b s] [|c l] H1 H2; cbn;
    try (by apply str_le_empty_r in H1); auto with go.
  - case_decide as Hac; [subst c|auto with go].
    rewrite has_prefix_cons. apply str_le_cons in H1 as [H1|[-> H1]].
    + apply str_le_cons in H2 as [H2|[-> _]].
      * by apply ascii_compare_between in H1.
      * by apply ascii_compare_Lt_irrefl in H1.
    + rewrite bool_decide_eq_true_2 by done. cbn.
      apply str_le_cons in H2 as [H2|[_ H2]]; [by apply ascii_compare_Lt_irrefl in H2|].
      by apply IH.
Qed.

Lemma common_prefix_greatest s t q :
  has_prefix s q = true -> has_prefix t q = true -> has_prefix (common_prefix s t) q = true.
Proof.
  revert s t. induction q as [|c q IH]; intros [|a s] [|b t]; auto with go; try done.
  rewrite !has_prefix_cons. intros [->%bool_decide_eq_true H1]%andb_prop.
  intros [->%bool_decide_eq_true H2]%andb_prop. cbn.
  rewrite decide_True by done. rewrite has_prefix_cons, bool_decide_eq_true_2 by done.
  by apply IH.
Qed.

Lemma slices_sort_perm l : slices_sort l ≡ₚ l.
Proof. apply merge_sort_Permutation. Qed.

(** In a sorted slice the first element is a lower and the last an upper bound. *)
Lemma StronglySorted_bounds {A} (R : relation A) `{!Reflexive R} l f la x :
  StronglySorted R l -> l !! 0 = Some f -> l !! (length l - 1) = Some la ->
  x ∈ l -> R f x /\ R x la.
Proof.
  intros Hs Hf Hla Hx. split.
  - destruct l as [|f' l]; [done|]. cbn in Hf. injection Hf as ->.
    apply StronglySorted_cons in Hs as [Hall _].
    apply elem_of_cons in Hx as [->|Hx]; [done|]. by rewrite Forall_forall in Hall; apply Hall.
  - destruct (exists_last (l := l)) as (l' & y & ->); [by destruct l|].
    rewrite length_app in Hla. cbn in Hla.
    rewrite lookup_app_r in Hla by lia.
    replace (length l' + 1 - 1 - length l') with 0 in Hla by lia. injection Hla as ->.
    apply elem_of_app in Hx as [Hx|Hx]; [|by apply list_elem_of_singleton in Hx as ->].
    eapply StronglySorted_app_1_elem_of; [exact Hs|done|]. by apply list_elem_of_singleton.
Qed.

Lemma LongestCommonPrefix_ok strs :
  strs <> [] -> exists p, is_lcp strs p /\ LongestCommonPrefix strs = Ok (reencode p).
Proof.
  intros Hne. unfold LongestCommonPrefix.
  assert (Hlen : 0 < length strs) by (destruct strs; cbn; [done|lia]).
  rewrite (proj2 (Nat.ltb_lt _ _) Hlen).
  pose proof (slices_sort_perm strs) as Hperm. set (l := slices_sort strs) in *.
  assert (Hsorted : StronglySorted String.le l) by apply (StronglySorted_merge_sort String.le strs).
  assert (Hll : length l = length strs) by (by rewrite Hperm).
  destruct (index_safe l 0) as [f Hf]; [lia|].
  destruct (index_safe l (length l - 1)) as [la Hla]; [lia|].
  rewrite Hf. cbn [mbind res_bind]. rewrite Hla. cbn [mbind res_bind].
  apply index_Ok in Hf, Hla.
  pose proof (list_elem_of_lookup_2 _ _ _ Hf) as Hfin.
  pose proof (list_elem_of_lookup_2 _ _ _ Hla) as Hlain.
  assert (Hb : forall x, x ∈ l -> String.le f x /\ String.le x la)
    by (intros x; apply (StronglySorted_bounds String.le); done).
  exists (common_prefix f la). rewrite lcp_loop_spec by (by apply (Hb la)).
  split; [split|done].
  - intros s Hs. rewrite <- Hperm in Hs. destruct (Hb s Hs). by apply common_prefix_between.
  - intros q Hq. apply common_prefix_greatest; apply Hq; by rewrite <- Hperm.
Qed.

Lemma LongestCommonPrefix_safe strs : exists p, LongestCommonPrefix strs = Ok p.
Proof.
  destruct strs as [|s strs]; [by exists ""|].
  destruct (LongestCommonPrefix_ok (s :: strs)) as (p & _ & H); [done|]. eauto.
Qed.

(** C40: [LongestCommonPrefix] never indexes out of range: it returns the empty string
    for no strings at all, and for a non-empty slice the longest common prefix of the
    strings, re-encoded byte by byte; on ASCII input that is the longest common prefix
    itself. *)
Theorem LongestCommonPrefix_correct (strs : list string) :
  exists p, LongestCommonPrefix strs = Ok (reencode p) /\
    (strs = [] -> p = "") /\
    (strs <> [] -> is_lcp strs p) /\
    (forallb is_ascii strs = true -> LongestCommonPrefix strs = Ok p).
Proof.
  destruct (decide (strs = [])) as [->|Hne]; [by exists ""|].
  destruct (LongestCommonPrefix_ok strs Hne) as (p & Hp & H).
  exists p. split; [done|]. split; [done|]. split; [done|]. intros Ha. rewrite H. f_equal.
  apply reencode_ascii. destruct strs as [|s strs]; [done|]. cbn in Ha.
  apply andb_prop in Ha as [Ha _]. destruct Hp as [Hp _].
  specialize (Hp s ltac:(by left)). apply has_prefix_true in Hp as [r ->].
  clear -Ha. induction p as [|c p IH]; [done|]. rewrite app_cons in Ha. cbn in Ha |- *.
  apply andb_prop in Ha as [-> Ha]. by apply IH.
Qed.

Lemma LongestCommonPrefix_correct_witness :
  exists p, LongestCommonPrefix ["docker.io"; "doc*"] = Ok (reencode p) /\
    (["docker.io"; "doc*"] = [] -> p = "") /\
    (["docker.io"; "doc*"] <> [] -> is_lcp ["docker.io"; "doc*"] p) /\
    (forallb is_ascii ["docker.io"; "doc*"] = true ->
     LongestCommonPrefix ["docker.io"; "doc*"] = Ok p).
Proof. apply LongestCommonPrefix_correct. Defined.

(** * String overlap *)

(** [o] is an overlap: it ends [a] and starts [b]. *)
Definition is_overlap (a b o : string) : Prop :=
  has_suffix a o = true /\ has_prefix b o = true.

Lemma str_drop_suffix i a : has_suffix a (str_drop i a) = true.
Proof. apply has_suffix_true. exists (str_take i a). by rewrite str_take_drop. Qed.

Lemma str_drop_app_skip s t n :
  str_drop (String.length s + n) (s +:+ t) = str_drop n t.
Proof. induction s as [|c s IH]; [done|]. rewrite app_cons. exact IH. Qed.

Lemma overlap_loop_spec n i a b :
  n = String.length a - i ->
  is_overlap a b (overlap_loop n i a b) /\
  forall j, i <= j -> j < String.length a -> has_prefix b (str_drop j a) = true ->
    String.length (str_drop j a) <= String.length (overlap_loop n i a b).
Proof.
  revert i. induction n as [|n IH]; intros i Hn; cbn.
  - split; [split|intros j ??; lia]; [|auto with go].
    apply has_suffix_true. exists a. by rewrite app_empty_r.
  - destruct (has_prefix b (str_drop i a)) eqn:E.
    + split; [split; [apply str_drop_suffix|done]|]. intros j Hj _ _.
      rewrite !str_drop_length. lia.
    + destruct (IH (S i)) as [H1 H2]; [lia|]. split; [done|]. intros j Hj Hlen Hp.
      apply H2; [|done|done]. destruct (decide (i = j)) as [->|]; [congruence|lia].
Qed.

(** [StringOverlap(a, b)] returns a string that ends [a] and starts [b], and
    no such string is longer. *)
Theorem StringOverlap_longest (a b : string) :
  is_overlap a b (StringOverlap a b) /\
  forall o, is_overlap a b o -> String.length o <= String.length (StringOverlap a b).
Proof.
  unfold StringOverlap. set (i := Z.to_nat _).
  destruct (overlap_loop_spec (String.length a - i) i a b) as [H1 H2]; [done|].
  split; [done|]. intros o [Ho1 Ho2].
  assert (Hlen := has_prefix_length _ _ Ho2).
  apply has_suffix_true in Ho1 as [r Hr].
  destruct (decide (o = "")) as [->|Hne]; [cbn; lia|].
  assert (0 < String.length o) by (destruct o; cbn; [done|lia]).
  pose proof (f_equal String.length Hr) as Hl. rewrite str_length_app in Hl.
  assert (Hd : str_drop (String.length r) a = o) by (rewrite Hr; by apply str_drop_app).
  rewrite <- Hd. apply H2; [|lia|by rewrite Hd].
  unfold i, Max. destruct (_ >? _)%Z eqn:E; lia.
Qed.

(** * Sets of strings *)
Lemma foldl_insert_set (l : list string) (s : gset string) x :
  x ∈ foldl (fun hash v => {[v]} ∪ hash) s l <-> x ∈ l \/ x ∈ s.
Proof.
  revert s. induction l as [|v l IH]; intros s; cbn; [set_solver|].
  rewrite IH. set_solver.
Qed.

Lemma foldl_insert_set_eq (l : list string) (s : gset string) :
  foldl (fun hash v => {[v]} ∪ hash) s l = list_to_set l ∪ s.
Proof.
  apply set_eq. intros x. rewrite foldl_insert_set, elem_of_union, elem_of_list_to_set.
  done.
Qed.

Lemma elem_of_filter_bool {A} (f : A -> bool) l x :
  x ∈ List.filter f l <-> x ∈ l /\ f x = true.
Proof. rewrite !list_elem_of_In. apply List.filter_In. Qed.

Lemma elem_of_uniq `{MapOrder} loop a x : x ∈ uniq loop a <-> x ∈ a.
Proof. unfold uniq. rewrite elem_of_range, foldl_insert_set. set_solver. Qed.
Lemma NoDup_uniq `{MapOrder} loop a : NoDup (uniq loop a).
Proof. apply NoDup_range. Qed.

Lemma elem_of_SetSubstract `{MapOrder} a b x :
  x ∈ SetSubstract a b <-> x ∈ a /\ x ∉ b.
Proof.
  unfold SetSubstract. rewrite elem_of_filter_bool, elem_of_uniq.
  rewrite negb_true_iff, bool_decide_eq_false, foldl_insert_set, elem_of_uniq.
  set_solver.
Qed.
Lemma SetSubstract_nil `{MapOrder} a b : SetSubstract a b = [] <-> forall x, x ∈ a -> x ∈ b.
Proof.
  split.
  - intros E x Hx. destruct (decide (x ∈ b)); [done|].
    assert (Hin : x ∈ SetSubstract a b) by (by apply elem_of_SetSubstract).
    rewrite E in Hin. by apply elem_of_nil in Hin.
  - intros Hsub. destruct (SetSubstract a b) as [|x l] eqn:E; [done|].
    assert (Hin : x ∈ SetSubstract a b) by (rewrite E; by left).
    apply elem_of_SetSubstract in Hin as [Ha Hb]. by destruct (Hb (Hsub x Ha)).
Qed.

Lemma foldl_snoc_map {T K} (f : T -> K) l out :
  foldl (fun out v => out ++ [f v]) out l = out ++ (f <$> l).
Proof.
  revert out. induction l as [|v l IH]; intros out; cbn; [by rewrite app_nil_r|].
  by rewrite IH, <- app_assoc.
Qed.
Lemma Map_fmap {T K} (l : list T) (f : T -> K) : Map l f = f <$> l.
Proof. unfold Map. by rewrite foldl_snoc_map. Qed.
#[export] Hint Rewrite @Map_fmap : go_str.

(** * Feature flags and log levels *)

(** A library log is redirected exactly when logrus would print it: when its
    level is at least as severe as the configured one. *)
Definition severity (l : Level) : nat :=
  match l with
  | PanicLevel => 0 | FatalLevel => 1 | ErrorLevel => 2 | WarnLevel => 3
  | InfoLevel => 4 | DebugLevel => 5 | TraceLevel => 6
  end.

Lemma LogLevel_known s :
  LogLevel s ∈ [DebugLevel; InfoLevel; WarnLevel; ErrorLevel; FatalLevel].
Proof. unfold LogLevel. repeat case_decide; set_solver. Qed.

Lemma redirect_iff_enabled (env : environ) :
  InitiateThirdPartyLibraryLogging env =
  (severity DebugLevel <=? severity (ConnaisseurLogLevel env),
   severity InfoLevel <=? severity (ConnaisseurLogLevel env),
   severity WarnLevel <=? severity (ConnaisseurLogLevel env)).
Proof.
  unfold InitiateThirdPartyLibraryLogging, ConnaisseurLogLevel.
  pose proof (LogLevel_known (getenv env "LOG_LEVEL")) as H.
  repeat (apply elem_of_cons in H as [->|H]; [reflexivity|]). by apply elem_of_nil in H.
Qed.
