(* ===== verification/Policy.v ===== *)
(** [internal/policy] (rules and the specificity order of matches) and the rule
    and validator lookups of [internal/config/config.go]. *)
From S2P Require Import Prelude GoStrings Utils.
From Stdlib Require Import Ascii.

(** * rule.go *)

(** [*bool] fields are options: [None] is the nil pointer. *)
Record RuleOptions : Type := {
  TrustRoot : string;
  VerifyTLog : option bool;
  VerifySCT : option bool;
  Threshold : Z;
  Required : list string;
  Delegations : list string;
  ValidationMode : string;
  VerificationLevel : string;
  VerifyTimestamp : string;
}.

Record Rule : Type := {
  Pattern : string;
  Validator : string;
  With : RuleOptions;
}.

(** The zero values [policy.RuleOptions{}] and [policy.Rule{}]. *)
Definition zero_options : RuleOptions := {|
  TrustRoot := ""; VerifyTLog := None; VerifySCT := None; Threshold := 0;
  Required := []; Delegations := []; ValidationMode := "";
  VerificationLevel := ""; VerifyTimestamp := "" |}.
Definition zero_rule : Rule := {| Pattern := ""; Validator := ""; With := zero_options |}.

#[export] Instance RuleOptions_eq_dec : EqDecision RuleOptions.
Proof. solve_decision. Defined.
#[export] Instance Rule_eq_dec : EqDecision Rule.
Proof. solve_decision. Defined.

(** * match.go *)
Record Match : Type := {
  match_rule : Rule;
  componentCount : nat;
  componentLengths : list nat;
  prefixLengths : list nat;
}.
#[export] Instance Match_eq_dec : EqDecision Match.
Proof. solve_decision. Defined.

Definition NewMatch (rule : Rule) (image : string) : res Match :=
  let components := split "/" (Pattern rule) in
  let cc := length components in
  let cl := String.length <$> components in
  let ic := split "/" image in
  pl ← mapM_res (fun idx =>
         component ← index components idx;
         part ← index ic idx;
         p ← LongestCommonPrefix [component; part];
         Ok (String.length p)) (seq 0 cc);
  Ok {| match_rule := rule; componentCount := cc;
        componentLengths := cl; prefixLengths := pl |}.

(** One [for idx := range ..] loop of [Compare]: [Some true] returns [m1],
    [Some false] returns [m2], [None] falls through. *)
Fixpoint compare_lengths (idxs : list nat) (l1 l2 : list nat) : res (option bool) :=
  match idxs with
  | [] => Ok None
  | idx :: idxs' =>
      a ← index l1 idx;
      b ← index l2 idx;
      if b <? a then Ok (Some true)
      else if a <? b then Ok (Some false)
      else compare_lengths idxs' l1 l2
  end.

Definition Compare (m1 m2 : Match) : res Match :=
  if componentCount m2 <? componentCount m1 then Ok m1
  else if componentCount m1 <? componentCount m2 then Ok m2
  else
    c ← compare_lengths (seq 0 (length (prefixLengths m1)))
          (prefixLengths m1) (prefixLengths m2);
    match c with
    | Some b => Ok (if b : bool then m1 else m2)
    | None =>
        c ← compare_lengths (seq 0 (length (componentLengths m1)))
              (componentLengths m1) (componentLengths m2);
        match c with
        | Some b => Ok (if b : bool then m1 else m2)
        | None => Ok m1
        end
    end.

(** * config.go: [MatchingRule]

    [glob] stands for [github.com/gobwas/glob]: [None] is a pattern on which
    [MustCompile] panics, [Some g] the compiled matcher. *)
Section MatchingRule.
Variable glob : string -> option (string -> bool).

Definition expand_pattern (pattern : string) : string :=
  let pattern := if has_prefix pattern "*" then pattern else sprintf "*%s" [AStr pattern] in
  if has_suffix pattern "*" then pattern else sprintf "%s*" [AStr pattern].

Definition match_step (image : string) (bestMatch : Match) (rule : Rule) : res Match :=
  match glob (expand_pattern (Pattern rule)) with
  | None => Panic "glob.MustCompile"
  | Some g =>
      if g image then
        m ← NewMatch rule image;
        Compare m bestMatch
      else Ok bestMatch
  end.

Definition MatchingRule (rules : list Rule) (image : string) : res Rule :=
  bestMatch ← NewMatch zero_rule "";
  bestMatch ← foldM_res (match_step image) bestMatch rules;
  if decide (Pattern (match_rule bestMatch) = "") then Err "no matching rule"
  else Ok (match_rule bestMatch).
End MatchingRule.

(** * config.go: [Validator]

    [validators] is the [Validators] slice with each entry's [Name]. *)
Definition FindValidator {V} (name : V -> string) (validators : list V) (key : string) : res V :=
  let key := if decide (key = "") then "default" else key in
  match List.find (fun validator => bool_decide (name validator = key)) validators with
  | Some validator => Ok validator
  | None => Err ("validator " +:+ dq +:+ key +:+ dq +:+ " not found")
  end.

Lemma FindValidator_elem {V} (name : V -> string) validators key v :
  FindValidator name validators key = Ok v -> v ∈ validators.
Proof.
  unfold FindValidator. cbv zeta. destruct (List.find _ validators) as [x|] eqn:Ef; [|discriminate].
  intros [= <-]. apply list_elem_of_In. by eapply find_some.
Qed.

(** * The specificity order

    The reference: a rule's specificity for an image is the number of components
    of its pattern, then the lengths of the prefixes its components share with
    the image's, then the lengths of the components, compared
    lexicographically. *)
Fixpoint lex (l1 l2 : list nat) : comparison :=
  match l1, l2 with
  | [], [] => Eq
  | [], _ :: _ => Lt
  | _ :: _, [] => Gt
  | a :: l1', b :: l2' =>
      match Nat.compare a b with Eq => lex l1' l2' | c => c end
  end.

Definition specificity (image : string) (rule : Rule) : list nat :=
  let components := split "/" (Pattern rule) in
  length components ::
    zip_with (fun c i => String.length (reencode (common_prefix c i)))
      components (split "/" image)
    ++ (String.length <$> components).

Definition match_specificity (m : Match) : list nat :=
  componentCount m :: prefixLengths m ++ componentLengths m.

(** The lengths the constructor establishes and [Compare] relies on. *)
Definition wf_match (m : Match) : Prop :=
  length (prefixLengths m) = componentCount m /\ length (componentLengths m) = componentCount m.

Definition rule_matches (glob : string -> option (string -> bool)) (image : string)
    (rule : Rule) : bool :=
  match glob (expand_pattern (Pattern rule)) with Some g => g image | None => false end.

Lemma lex_refl l : lex l l = Eq.
Proof. induction l as [|a l IH]; cbn; [done|]. by rewrite Nat.compare_refl. Qed.
Lemma lex_antisym l1 l2 : lex l2 l1 = CompOpp (lex l1 l2).
Proof.
  revert l2. induction l1 as [|a l1 IH]; intros [|b l2]; cbn; try done.
  rewrite (Nat.compare_antisym a b). destruct (Nat.compare a b); cbn; auto.
Qed.
Lemma lex_Eq l1 l2 : lex l1 l2 = Eq <-> l1 = l2.
Proof.
  split; [|intros ->; apply lex_refl].
  revert l2. induction l1 as [|a l1 IH]; intros [|b l2]; cbn; try done.
  destruct (Nat.compare_spec a b); try done. intros H1%IH. by subst.
Qed.
Lemma lex_Lt_trans l1 l2 l3 : lex l1 l2 = Lt -> lex l2 l3 = Lt -> lex l1 l3 = Lt.
Proof.
  revert l2 l3. induction l1 as [|a l1 IH]; intros [|b l2] [|c l3]; cbn; try done.
  destruct (Nat.compare_spec a b), (Nat.compare_spec b c), (Nat.compare_spec a c);
    subst; try done; try lia; eauto.
Qed.
Lemma lex_le_trans l1 l2 l3 : lex l1 l2 <> Gt -> lex l2 l3 <> Gt -> lex l1 l3 <> Gt.
Proof.
  destruct (lex l1 l2) eqn:E1, (lex l2 l3) eqn:E2; try done; intros _ _.
  - apply lex_Eq in E1 as ->. by rewrite E2.
  - apply lex_Eq in E1 as ->. by rewrite E2.
  - apply lex_Eq in E2 as ->. by rewrite E1.
  - by rewrite (lex_Lt_trans _ _ _ E1 E2).
Qed.
Lemma lex_lt_le_trans l1 l2 l3 : lex l1 l2 = Lt -> lex l2 l3 <> Gt -> lex l1 l3 = Lt.
Proof.
  intros H1 H2. destruct (lex l2 l3) eqn:E; try done.
  - by apply lex_Eq in E as ->.
  - by eapply lex_Lt_trans.
Qed.
Lemma lex_app a b c d :
  length a = length c -> lex (a ++ b) (c ++ d) = match lex a c with Eq => lex b d | x => x end.
Proof.
  revert c. induction a as [|x a IH]; intros [|y c] Hl; try done. cbn in *.
  destruct (Nat.compare x y); auto.
Qed.

(** * The constructor and [Compare] against the reference *)
Lemma compare_lengths_spec k l1 l2 :
  length l1 = length l2 ->
  compare_lengths (seq k (length l1 - k)) l1 l2 =
  Ok (match lex (drop k l1) (drop k l2) with Gt => Some true | Lt => Some false | Eq => None end).
Proof.
  intros Hl. remember (length l1 - k) as n eqn:Hn. revert k Hn.
  induction n as [|n IH]; intros k Hn.
  - rewrite !drop_ge by lia. done.
  - destruct (lookup_lt_is_Some_2 l1 k) as [a Ha]; [lia|].
    destruct (lookup_lt_is_Some_2 l2 k) as [b Hb]; [lia|].
    rewrite (drop_S _ _ _ Ha), (drop_S _ _ _ Hb). cbn [seq compare_lengths lex].
    unfold index. rewrite Ha, Hb. cbn [mbind res_bind].
    destruct (Nat.compare_spec a b) as [->|H|H].
    + rewrite Nat.ltb_irrefl. apply IH. lia.
    + rewrite (proj2 (Nat.ltb_ge b a)), (proj2 (Nat.ltb_lt a b)) by lia. done.
    + by rewrite (proj2 (Nat.ltb_lt b a)).
Qed.

Lemma Compare_spec m1 m2 :
  wf_match m1 -> wf_match m2 ->
  Compare m1 m2 =
  Ok (match lex (match_specificity m1) (match_specificity m2) with Lt => m2 | _ => m1 end).
Proof.
  intros [Hp1 Hc1] [Hp2 Hc2]. unfold Compare, match_specificity. cbn [lex].
  destruct (Nat.compare_spec (componentCount m1) (componentCount m2)) as [He|H|H].
  - rewrite He, Nat.ltb_irrefl. rewrite lex_app by lia.
    replace (length (prefixLengths m1)) with (length (prefixLengths m1) - 0) by lia.
    rewrite compare_lengths_spec by lia. rewrite !drop_0. cbn.
    destruct (lex (prefixLengths m1) _); try done.
    replace (length (componentLengths m1)) with (length (componentLengths m1) - 0) by lia.
    rewrite compare_lengths_spec by lia. rewrite !drop_0. cbn.
    by destruct (lex (componentLengths m1) _).
  - rewrite (proj2 (Nat.ltb_ge _ _)), (proj2 (Nat.ltb_lt _ _)) by lia. done.
  - by rewrite (proj2 (Nat.ltb_lt _ _)).
Qed.

Lemma is_lcp_unique strs p q : is_lcp strs p -> is_lcp strs q -> p = q.
Proof.
  intros [H1 H2] [H3 H4]. pose proof (H2 _ H3) as Hqp. pose proof (H4 _ H1) as Hpq.
  apply (has_prefix_eq p); [apply has_prefix_refl|done|].
  apply has_prefix_length in Hqp, Hpq. lia.
Qed.
Lemma common_prefix_prefix s t :
  has_prefix s (common_prefix s t) = true /\ has_prefix t (common_prefix s t) = true.
Proof.
  revert t. induction s as [|a s IH]; intros [|b t]; cbn; auto with go.
  case_decide; [subst b|auto with go]. rewrite !has_prefix_cons, bool_decide_eq_true_2 by done.
  apply IH.
Qed.
Lemma LongestCommonPrefix_pair c i :
  LongestCommonPrefix [c; i] = Ok (reencode (common_prefix c i)).
Proof.
  destruct (LongestCommonPrefix_ok [c; i]) as (p & Hp & ->); [done|].
  do 2 f_equal. eapply is_lcp_unique; [exact Hp|].
  destruct (common_prefix_prefix c i). split.
  - intros s Hs. repeat (apply elem_of_cons in Hs as [->|Hs]; [done|]).
    by apply elem_of_nil in Hs.
  - intros q Hq. apply common_prefix_greatest; apply Hq; set_solver.
Qed.

(** The match the constructor builds when the image has enough components. *)
Definition match_of (image : string) (rule : Rule) : Match :=
  let components := split "/" (Pattern rule) in
  {| match_rule := rule;
     componentCount := length components;
     componentLengths := String.length <$> components;
     prefixLengths := zip_with (fun c i => String.length (reencode (common_prefix c i)))
                        components (split "/" image) |}.

Lemma NewMatch_enough rule image :
  count_byte "/" (Pattern rule) <= count_byte "/" image ->
  NewMatch rule image = Ok (match_of image rule).
Proof.
  intros Hle. unfold NewMatch, match_of.
  assert (Hlen : length (split "/" (Pattern rule)) <= length (split "/" image))
    by (rewrite !split_length; lia).
  set (cs := split "/" (Pattern rule)) in *. set (ps := split "/" image) in *.
  erewrite (proj2 (mapM_res_Ok _ _ (zip_with _ cs ps))); [done|].
  apply Forall2_same_length_lookup_2.
  { rewrite length_seq, length_zip_with. lia. }
  intros j idx n Hj Hn. apply lookup_seq in Hj as [-> Hj]. cbn [Nat.add].
  apply lookup_zip_with_Some in Hn as (c & i & -> & Hc & Hi).
  unfold index. rewrite Hc, Hi. cbn [mbind res_bind].
  by rewrite LongestCommonPrefix_pair.
Qed.

Lemma NewMatch_short rule image :
  count_byte "/" image < count_byte "/" (Pattern rule) ->
  NewMatch rule image = Panic "index out of range".
Proof.
  intros Hlt. unfold NewMatch.
  set (cs := split "/" (Pattern rule)). set (ps := split "/" image).
  assert (Hlen : length ps < length cs) by (unfold ps, cs; rewrite !split_length; lia).
  replace (length cs) with (length ps + S (length cs - length ps - 1)) by lia.
  rewrite seq_app. cbn [seq Nat.add].
  rewrite (mapM_res_Panic _ _ _ _ "index out of range"); [done| |].
  - intros a [j Ha]%list_elem_of_lookup. apply lookup_seq in Ha as [-> Hj]. cbn [Nat.add].
    destruct (index_safe cs j) as [c Hc]; [lia|]. destruct (index_safe ps j) as [i Hi]; [lia|].
    rewrite Hc. cbn [mbind res_bind]. rewrite Hi. cbn [mbind res_bind].
    rewrite LongestCommonPrefix_pair. by eexists.
  - destruct (index_safe cs (length ps)) as [c Hc]; [lia|]. rewrite Hc. cbn [mbind res_bind].
    unfold index. by rewrite (lookup_ge_None_2 ps).
Qed.

Lemma NewMatch_Ok rule image m :
  NewMatch rule image = Ok m ->
  count_byte "/" (Pattern rule) <= count_byte "/" image /\ m = match_of image rule.
Proof.
  destruct (decide (count_byte "/" (Pattern rule) <= count_byte "/" image)).
  - rewrite NewMatch_enough by done. by intros [= <-].
  - by rewrite NewMatch_short by lia.
Qed.

Lemma match_of_wf image rule :
  count_byte "/" (Pattern rule) <= count_byte "/" image -> wf_match (match_of image rule).
Proof.
  intros Hle. unfold wf_match, match_of; cbn [prefixLengths componentLengths componentCount].
  rewrite length_zip_with, length_fmap, !split_length. lia.
Qed.
Lemma match_of_specificity image rule :
  match_specificity (match_of image rule) = specificity image rule.
Proof. done. Qed.

(** The initial [bestMatch] is beaten by every non-empty pattern. *)
Lemma specificity_zero image rule : lex (specificity "" zero_rule) (specificity image rule) <> Gt.
Proof.
  unfold specificity at 2.
  destruct (split "/" (Pattern rule)) as [|c cs] eqn:E; [by apply split_not_nil in E|].
  destruct (split "/" image) as [|i ps] eqn:Ei; [by apply split_not_nil in Ei|].
  destruct cs as [|c' cs]; cbn; [|done].
  destruct (String.length (reencode (common_prefix c i))); cbn; [|done].
  by destruct (String.length c).
Qed.
Lemma specificity_nonempty image rule :
  Pattern rule <> "" -> lex (specificity "" zero_rule) (specificity image rule) = Lt.
Proof.
  intros Hne. pose proof (specificity_zero image rule) as Hle.
  destruct (lex _ _) eqn:E; try done. apply lex_Eq in E. exfalso. apply Hne.
  unfold specificity in E. pose proof (join_split "/" (Pattern rule)) as Hj.
  cbn in E. destruct (split "/" image) as [|i ps] eqn:Ei; [by apply split_not_nil in Ei|].
  destruct (split "/" (Pattern rule)) as [|c [|c' cs]]; [done| |done]. cbn in E. rewrite <- Hj.
  injection E as _ E. by destruct c.
Qed.
Lemma specificity_empty image rule :
  Pattern rule = "" -> specificity image rule = specificity "" zero_rule.
Proof.
  intros He. unfold specificity. rewrite He. cbn.
  by destruct (split "/" image) as [|i ps] eqn:Ei; [by apply split_not_nil in Ei|].
Qed.

(** * The rule that [MatchingRule] selects *)

(** [r] is the last of the most specific matching rules. *)
Definition selected (glob : string -> option (string -> bool)) (image : string)
    (rules : list Rule) (r : Rule) : Prop :=
  exists l1 l2, rules = l1 ++ r :: l2 /\ rule_matches glob image r = true /\
    (forall r', r' ∈ l1 -> rule_matches glob image r' = true ->
       lex (specificity image r') (specificity image r) <> Gt) /\
    (forall r', r' ∈ l2 -> rule_matches glob image r' = true ->
       lex (specificity image r') (specificity image r) = Lt).

Section MatchingRuleFacts.
Variable glob : string -> option (string -> bool).
Variable image : string.

Lemma selected_le rules r r' :
  selected glob image rules r -> r' ∈ rules -> rule_matches glob image r' = true ->
  lex (specificity image r') (specificity image r) <> Gt.
Proof.
  intros (l1 & l2 & -> & Hr & H1 & H2) Hin Hm.
  apply elem_of_app in Hin as [Hin|Hin]; [by apply H1|].
  apply elem_of_cons in Hin as [->|Hin]; [by rewrite lex_refl|]. by rewrite (H2 r').
Qed.

Lemma selected_skip rules r r' :
  selected glob image rules r ->
  (rule_matches glob image r' = true ->
   lex (specificity image r') (specificity image r) = Lt) ->
  selected glob image (rules ++ [r']) r.
Proof.
  intros (l1 & l2 & -> & Hr & H1 & H2) Hm. exists l1, (l2 ++ [r']).
  split; [by rewrite <- app_assoc|]. split; [done|]. split; [done|].
  intros r'' [Hin|Hin]%elem_of_app; [by apply H2|].
  by apply list_elem_of_singleton in Hin as ->.
Qed.

Lemma selected_snoc rules r' :
  rule_matches glob image r' = true ->
  (forall r, r ∈ rules -> rule_matches glob image r = true ->
     lex (specificity image r) (specificity image r') <> Gt) ->
  selected glob image (rules ++ [r']) r'.
Proof. intros Hm H. exists rules, []. split; [done|]. set_solver. Qed.

Lemma selected_nonempty rules r r' :
  selected glob image rules r -> r' ∈ rules -> rule_matches glob image r' = true ->
  Pattern r' <> "" -> Pattern r <> "".
Proof.
  intros Hs Hin Hm Hne He. pose proof (selected_le _ _ _ Hs Hin Hm) as Hle.
  rewrite (specificity_empty image r He), lex_antisym in Hle.
  by rewrite (specificity_nonempty image r' Hne) in Hle.
Qed.

(** The invariant of the loop: either no rule matched yet, or [bestMatch] is
    the match of the rule selected so far. *)
Definition loop_inv (rules : list Rule) (best : Match) : Prop :=
  (best = match_of "" zero_rule /\
   forall r, r ∈ rules -> rule_matches glob image r = false) \/
  (exists r, best = match_of image r /\ wf_match best /\ selected glob image rules r).

Lemma match_step_inv rules best rule :
  loop_inv rules best -> wf_match best -> glob (expand_pattern (Pattern rule)) <> None ->
  (rule_matches glob image rule = true ->
   count_byte "/" (Pattern rule) <= count_byte "/" image) ->
  exists best', match_step glob image best rule = Ok best' /\
    wf_match best' /\ loop_inv (rules ++ [rule]) best'.
Proof.
  intros Hinv Hwf Hglob Hcount. unfold match_step, rule_matches in *.
  destruct (glob _) as [g|] eqn:Eg; [|done]. destruct (g image) eqn:Em.
  - specialize (Hcount eq_refl). rewrite NewMatch_enough by done. cbn [mbind res_bind].
    pose proof (match_of_wf _ _ Hcount) as Hwfm.
    assert (Hmr : rule_matches glob image rule = true) by (unfold rule_matches; by rewrite Eg).
    rewrite Compare_spec by done. eexists. split; [done|].
    destruct Hinv as [[-> Hno]|(r & -> & _ & Hsel)]; rewrite !match_of_specificity.
    + pose proof (specificity_zero image rule) as Hz. rewrite lex_antisym in Hz.
      assert (Hm : match lex (specificity image rule) (specificity "" zero_rule) with
              | Lt => match_of "" zero_rule | _ => match_of image rule end
              = match_of image rule) by (by destruct (lex _ _)).
      rewrite Hm. split; [done|]. right. exists rule. split; [done|]. split; [done|].
      apply selected_snoc; [done|]. intros r Hr. by rewrite Hno.
    + destruct (lex (specificity image rule) (specificity image r)) eqn:El.
      2: { split; [done|]. right. exists r. auto using selected_skip. }
      all: split; [done|]; right; exists rule; split; [done|]; split; [done|].
      all: apply selected_snoc; [done|]; intros r' Hr' Hm'.
      all: eapply lex_le_trans; [by eapply selected_le|].
      all: by rewrite lex_antisym, El.
  - exists best. split; [done|]. split; [done|]. unfold loop_inv.
    assert (Hmr : rule_matches glob image rule = false) by (unfold rule_matches; by rewrite Eg).
    destruct Hinv as [[-> Hno]|(r & -> & _ & Hsel)]; [left|right; exists r].
    + split; [done|]. intros r [Hr|Hr]%elem_of_app; [by apply Hno|].
      by apply list_elem_of_singleton in Hr as ->.
    + split; [done|]. split; [done|]. apply selected_skip; [done|]. by rewrite Hmr.
Qed.
End MatchingRuleFacts.

(** A rule on which the loop cannot continue: its pattern does not compile, or
    matches an image with fewer components than the pattern. *)
Definition bad_rule (glob : string -> option (string -> bool)) (image : string)
    (rule : Rule) : bool :=
  match glob (expand_pattern (Pattern rule)) with
  | None => true
  | Some g => g image && (count_byte "/" image <? count_byte "/" (Pattern rule))
  end.

Section MatchingRuleLoop.
Variable glob : string -> option (string -> bool).
Variable image : string.

Lemma good_rule rule :
  bad_rule glob image rule = false ->
  glob (expand_pattern (Pattern rule)) <> None /\
  (rule_matches glob image rule = true ->
   count_byte "/" (Pattern rule) <= count_byte "/" image).
Proof.
  unfold bad_rule, rule_matches. destruct (glob _) as [g|]; [|done].
  intros H. split; [done|]. intros Hg. rewrite Hg in H. by apply Nat.ltb_ge in H.
Qed.

Lemma bad_rule_step best rule :
  bad_rule glob image rule = true -> exists w, match_step glob image best rule = Panic w.
Proof.
  unfold bad_rule, match_step. destruct (glob _) as [g|]; [|by eexists].
  intros [-> H]%andb_prop. apply Nat.ltb_lt in H. rewrite NewMatch_short by done.
  by eexists.
Qed.

Lemma initial_inv : wf_match (match_of "" zero_rule) /\ loop_inv glob image [] (match_of "" zero_rule).
Proof.
  split; [done|]. left. split; [done|]. intros r Hr. by apply elem_of_nil in Hr.
Qed.

(** Where the loop gets to: the invariant, on rules none of which is bad. *)
Lemma loop_Ok rules best :
  foldM_res (match_step glob image) (match_of "" zero_rule) rules = Ok best ->
  wf_match best /\ loop_inv glob image rules best /\
  forall r, r ∈ rules -> bad_rule glob image r = false.
Proof.
  intros H. eapply (foldM_res_inv (fun done best => wf_match best /\
    loop_inv glob image done best /\ forall r, r ∈ done -> bad_rule glob image r = false));
    [| |exact H].
  - destruct initial_inv. split; [done|]. split; [done|]. intros r Hr.
    by apply elem_of_nil in Hr.
  - intros don rule acc acc' (Hwf & Hinv & Hgood) _ Hstep.
    destruct (bad_rule glob image rule) eqn:Hb.
    { destruct (bad_rule_step acc _ Hb) as [w Hw]. congruence. }
    destruct (good_rule _ Hb) as [Hg Hc].
    destruct (match_step_inv glob image don acc rule) as (b & Hb' & Hwf' & Hinv'); [done..|].
    rewrite Hb' in Hstep. injection Hstep as <-. split; [done|]. split; [done|].
    intros r [Hr|Hr]%elem_of_app; [by apply Hgood|].
    by apply list_elem_of_singleton in Hr as ->.
Qed.

Lemma loop_stop rules :
  (exists best, foldM_res (match_step glob image) (match_of "" zero_rule) rules = Ok best) \/
  (exists w, foldM_res (match_step glob image) (match_of "" zero_rule) rules = Panic w /\
     exists r, r ∈ rules /\ bad_rule glob image r = true).
Proof.
  destruct (foldM_res_stop (match_step glob image) (match_of "" zero_rule) rules)
    as [?|(don & b & rest & a & -> & Hok & Hno & Heq)]; [by left|]. right.
  apply loop_Ok in Hok as (Hwf & Hinv & _). rewrite Heq.
  destruct (bad_rule glob image b) eqn:Hb.
  - destruct (bad_rule_step a _ Hb) as [w Hw]. exists w. split; [done|].
    exists b. set_solver.
  - destruct (good_rule _ Hb) as [Hg Hc].
    destruct (match_step_inv glob image don a b) as (b' & Hb' & _); [done..|].
    by destruct (Hno b').
Qed.

(** [MatchingRule] unfolded over the loop. *)
Lemma MatchingRule_loop rules :
  MatchingRule glob rules image =
  (best ← foldM_res (match_step glob image) (match_of "" zero_rule) rules;
   if decide (Pattern (match_rule best) = "") then Err "no matching rule"
   else Ok (match_rule best)).
Proof. unfold MatchingRule. by rewrite NewMatch_enough. Qed.
End MatchingRuleLoop.

(** C23: the rule [MatchingRule] returns matches the image, and no matching rule
    is more specific; of several equally specific ones it is the last. *)
Theorem MatchingRule_most_specific (glob : string -> option (string -> bool))
    (rules : list Rule) (image : string) (r : Rule) :
  MatchingRule glob rules image = Ok r -> selected glob image rules r /\ Pattern r <> "".
Proof.
  rewrite MatchingRule_loop. intros (best & Hloop & H)%bind_Ok.
  destruct (decide _) as [|Hne]; [done|]. injection H as <-.
  apply loop_Ok in Hloop as (_ & [[-> _]|(r & -> & _ & Hsel)] & _); [done|]. done.
Qed.

Definition example_rules : list Rule :=
  [{| Pattern := "*:*"; Validator := "allow"; With := zero_options |};
   {| Pattern := "docker.io/*:*"; Validator := "dockerhub"; With := zero_options |};
   {| Pattern := "k8s.gcr.io/*"; Validator := "deny"; With := zero_options |}].
(** A matcher for the patterns of [example_rules]: those without a registry match
    everything, the others the images that start with it. *)
Definition example_glob (p : string) : option (string -> bool) :=
  Some (fun image =>
    if decide (p = "*:*") then true
    else if decide (p = "*docker.io/*:*") then has_prefix image "docker.io/"
    else has_prefix image "k8s.gcr.io/").

Lemma MatchingRule_most_specific_witness :
  selected example_glob "docker.io/library/nginx:1" example_rules
    {| Pattern := "docker.io/*:*"; Validator := "dockerhub"; With := zero_options |} /\
  "docker.io/*:*" <> "".
Proof.
  apply (MatchingRule_most_specific example_glob example_rules "docker.io/library/nginx:1").
  vm_compute. reflexivity.
Defined.

(** The only error of [MatchingRule] is "no matching rule", and it means
    that no rule with a non-empty pattern matches the image. *)
Theorem MatchingRule_error (glob : string -> option (string -> bool))
    (rules : list Rule) (image : string) (e : string) :
  MatchingRule glob rules image = Err e ->
  e = "no matching rule" /\
  forall r, r ∈ rules -> Pattern r <> "" -> rule_matches glob image r = false.
Proof.
  rewrite MatchingRule_loop.
  destruct (loop_stop glob image rules) as [[best Hloop]|(w & Hloop & _)];
    rewrite Hloop; cbn [mbind res_bind]; [|done].
  destruct (decide _) as [He|]; [|done]. intros [= <-]. split; [done|].
  apply loop_Ok in Hloop as (_ & [[-> Hno]|(r & -> & _ & Hsel)] & _).
  - intros r Hr _. by apply Hno.
  - intros r' Hr' Hne. destruct (rule_matches glob image r') eqn:Hm; [|done].
    by destruct (selected_nonempty glob image rules r r' Hsel Hr' Hm Hne).
Qed.

Lemma MatchingRule_error_witness :
  "no matching rule" = "no matching rule" /\
  forall r, r ∈ [{| Pattern := "k8s.gcr.io/*"; Validator := "deny"; With := zero_options |}] ->
    Pattern r <> "" -> rule_matches example_glob "docker.io/library/nginx:1" r = false.
Proof. apply MatchingRule_error. vm_compute. reflexivity. Defined.

(** C24: [MatchingRule] panics exactly when the configuration has a rule whose
    pattern does not compile, or whose pattern matches the image although it has
    more components ([/]-separated parts) than the image. *)
Theorem MatchingRule_panic (glob : string -> option (string -> bool))
    (rules : list Rule) (image : string) :
  (exists w, MatchingRule glob rules image = Panic w) <->
  exists r, r ∈ rules /\
    (glob (expand_pattern (Pattern r)) = None \/
     rule_matches glob image r = true /\ count_byte "/" image < count_byte "/" (Pattern r)).
Proof.
  assert (Hbad : forall r, bad_rule glob image r = true <->
    (glob (expand_pattern (Pattern r)) = None \/
     rule_matches glob image r = true /\ count_byte "/" image < count_byte "/" (Pattern r))).
  { intros r. unfold bad_rule, rule_matches. destruct (glob _); [|naive_solver].
    rewrite andb_true_iff, Nat.ltb_lt. naive_solver. }
  setoid_rewrite <- Hbad. rewrite MatchingRule_loop. split.
  - destruct (loop_stop glob image rules) as [[best ->]|(w & _ & Hr)]; [|done].
    cbn [mbind res_bind]. destruct (decide _); by intros [w ?].
  - intros (r & Hr & Hb).
    destruct (loop_stop glob image rules) as [[best Hloop]|(w & -> & _)]; [|by exists w].
    apply loop_Ok in Hloop as (_ & _ & Hgood). specialize (Hgood r Hr). congruence.
Qed.

(** * Wildcard patterns

    The documented meaning of patterns whose only special character is the
    asterisk: it stands for any sequence of characters (no separators are
    given to [MustCompile]). *)
Inductive star_match : string -> string -> Prop :=
  | star_nil : star_match "" ""
  | star_char c p s : c <> "*"%char -> star_match p s -> star_match (String c p) (String c s)
  | star_skip p s : star_match p s -> star_match (String "*" p) s
  | star_take c p s : star_match (String "*" p) s -> star_match (String "*" p) (String c s).

Definition special : list ascii := ["?"; "["; "]"; "{"; "}"; "\"]%char.
Fixpoint wildcard_pattern (p : string) : bool :=
  match p with
  | EmptyString => true
  | String c p' => negb (bool_decide (c ∈ special)) && wildcard_pattern p'
  end.

(** What the code relies on of the glob library. *)
Class GlobSpec (glob : string -> option (string -> bool)) : Prop :=
  glob_wildcard : forall p, wildcard_pattern p = true ->
    exists g, glob p = Some g /\ forall s, g s = true <-> star_match p s.

Lemma star_match_count p s : star_match p s -> count_byte "/" p <= count_byte "/" s.
Proof. induction 1; cbn [count_byte] in *; repeat case_decide; done || lia. Qed.

Lemma wildcard_pattern_app p q :
  wildcard_pattern (p +:+ q) = wildcard_pattern p && wildcard_pattern q.
Proof.
  induction p as [|c p IH]; [done|]. rewrite app_cons. cbn [wildcard_pattern].
  by rewrite IH, andb_assoc.
Qed.

Lemma expand_pattern_shape p :
  exists a b, expand_pattern p = a +:+ p +:+ b /\ a ∈ [""; "*"] /\ b ∈ [""; "*"].
Proof.
  assert (H1 : sprintf "*%s" [AStr p] = "*" +:+ p).
  { change (sprintf "*%s" [AStr p]) with (String "*" (p +:+ "")). by rewrite app_empty_r. }
  assert (H2 : forall q, sprintf "%s*" [AStr q] = q +:+ "*") by done.
  unfold expand_pattern. rewrite H1. destruct (has_prefix p "*").
  - destruct (has_suffix p "*"); [exists "", ""|exists "", "*"];
      rewrite ?H2, ?app_empty_l, ?app_empty_r; split; try done; set_solver.
  - destruct (has_suffix ("*" +:+ p) "*"); [exists "*", ""|exists "*", "*"];
      rewrite ?H2, ?app_empty_r, ?str_app_assoc; split; try done; set_solver.
Qed.

Lemma expand_pattern_wildcard p :
  wildcard_pattern p = true ->
  wildcard_pattern (expand_pattern p) = true /\
  count_byte "/" (expand_pattern p) = count_byte "/" p.
Proof.
  intros Hp. destruct (expand_pattern_shape p) as (a & b & -> & Ha & Hb).
  rewrite !wildcard_pattern_app, !count_byte_app, Hp.
  repeat (apply elem_of_cons in Ha as [->|Ha]; [|try by apply elem_of_nil in Ha]);
    repeat (apply elem_of_cons in Hb as [->|Hb]; [|try by apply elem_of_nil in Hb]);
    cbn; split; done || lia.
Qed.

Lemma MatchingRule_outcome (glob : string -> option (string -> bool))
    (rules : list Rule) (image : string) :
  GlobSpec glob -> Forall (fun r => wildcard_pattern (Pattern r) = true) rules ->
  (exists r, MatchingRule glob rules image = Ok r) \/
  MatchingRule glob rules image = Err "no matching rule".
Proof.
  intros Hspec Hw. rewrite MatchingRule_loop.
  destruct (loop_stop glob image rules) as [[best ->]|(w & _ & r & Hr & Hbad)].
  { cbn [mbind res_bind]. destruct (decide _); [by right|left; by eexists]. }
  exfalso. rewrite Forall_forall in Hw. specialize (Hw r Hr).
  destruct (expand_pattern_wildcard _ Hw) as [He Hc].
  destruct (Hspec _ He) as (g & Hg & Hm). unfold bad_rule in Hbad. rewrite Hg in Hbad.
  apply andb_prop in Hbad as [Hgi Hlt]. apply Hm, star_match_count in Hgi.
  apply Nat.ltb_lt in Hlt. lia.
Qed.

(** With patterns built from literal characters and asterisks, as all
    documented ones are, [MatchingRule] never panics: it returns a rule or the
    error "no matching rule". *)
Theorem MatchingRule_total (glob : string -> option (string -> bool))
    (rules : list Rule) (image : string) :
  GlobSpec glob -> Forall (fun r => wildcard_pattern (Pattern r) = true) rules ->
  (exists r, MatchingRule glob rules image = Ok r) \/
  MatchingRule glob rules image = Err "no matching rule".
Proof. apply MatchingRule_outcome. Qed.

(** A matcher for wildcard patterns, to show that the hypothesis can hold. *)
Fixpoint star_matchb (p : string) : string -> bool :=
  match p with
  | EmptyString => fun s => bool_decide (s = "")
  | String c p' =>
      if decide (c = "*"%char)
      then fix any s :=
        star_matchb p' s || match s with EmptyString => false | String _ s' => any s' end
      else fun s =>
        match s with
        | EmptyString => false
        | String d s' => bool_decide (c = d) && star_matchb p' s'
        end
  end.

Lemma star_matchb_spec p s : star_matchb p s = true <-> star_match p s.
Proof.
  revert s. induction p as [|c p IH]; intros s; cbn.
  - rewrite bool_decide_eq_true. split; [intros ->; constructor|by inversion 1].
  - destruct (decide (c = "*"%char)) as [->|Hc].
    + induction s as [|d s IHs]; cbn; rewrite orb_true_iff, IH.
      * split; [|by inversion 1; left]. intros [?|?]; [by constructor|done].
      * rewrite IHs. split.
        -- intros [?|?]; [by apply star_skip|by apply star_take].
        -- inversion 1; subst; auto. done.
    + destruct s as [|d s]; [split; [done|by inversion 1]|].
      rewrite andb_true_iff, bool_decide_eq_true, IH. split.
      * intros [-> ?]. by constructor.
      * inversion 1; subst; done.
Qed.

#[export] Instance star_glob_spec : GlobSpec (fun p => Some (star_matchb p)).
Proof. intros p _. eexists. split; [done|]. apply star_matchb_spec. Qed.

Lemma MatchingRule_total_witness :
  (exists r, MatchingRule (fun p => Some (star_matchb p)) example_rules
     "index.docker.io/library/nginx:1" = Ok r) \/
  MatchingRule (fun p => Some (star_matchb p)) example_rules
     "index.docker.io/library/nginx:1" = Err "no matching rule".
Proof.
  apply (MatchingRule_total _ example_rules _ star_glob_spec).
  repeat constructor.
Defined.
