(* ===== verification/FilePath.v ===== *)
(** [internal/utils/files.go]: [SafeFileName], and the functions of Go's
    [path/filepath] (on Unix) that it calls. *)
From S2P Require Import Prelude GoStrings Utils.
From Stdlib Require Import Ascii.

(** The operating system: the working directory (an error where it cannot be
    determined), the resolution of symbolic links (an error for a path that does
    not exist) and file contents. *)
Class FileSystem := {
  getwd : res string;
  eval_symlinks : string -> res string;
  read_file : string -> res string;
}.

(** * package [path/filepath] *)

(** [filepath.Clean] keeps the stack of path elements written so far (the last
    one first): empty and [.] elements are dropped, [..] removes the element
    before it, and at the start of a rooted path is dropped. *)
Fixpoint clean_stack (rooted : bool) (stack parts : list string) : list string :=
  match parts with
  | [] => stack
  | p :: parts' =>
      let stack' :=
        if decide (p = "" \/ p = ".") then stack
        else if decide (p = "..") then
          match stack with
          | [] => if rooted then [] else [".."]
          | top :: rest => if decide (top = "..") then ".." :: stack else rest
          end
        else p :: stack in
      clean_stack rooted stack' parts'
  end.

Definition Clean (path : string) : string :=
  if decide (path = "") then "." else
  let rooted := has_prefix path "/" in
  let out := join "/" (rev (clean_stack rooted [] (split "/" path))) in
  if rooted then "/" +:+ out else if decide (out = "") then "." else out.

Definition Abs `{FileSystem} (path : string) : res string :=
  if has_prefix path "/" then Ok (Clean path)
  else wd ← getwd; Ok (Clean (wd +:+ "/" +:+ path)).

(** The path up to and including its last separator. *)
Fixpoint dir_part (s : string) : string :=
  match s with
  | EmptyString => ""
  | String c s' =>
      match dir_part s' with
      | EmptyString => if decide (c = "/"%char) then "/" else ""
      | d => String c d
      end
  end.
Definition Dir (path : string) : string := Clean (dir_part path).

(** * files.go *)
Definition resolve_element (path elem : string) : res string :=
  let resolved := Clean (path +:+ "/" +:+ elem) in
  if has_prefix resolved path then Ok resolved
  else Err (sprintf "path element '%s' goes beyond its parent path element %s"
              [AStr elem; AStr path]).

Definition SafeFileName `{FileSystem} (baseDir : string) (pathElements : list string) : res string :=
  path ← map_err (fun err => sprintf "failed to resolve %s: %s" [AStr baseDir; AStr err])
           (Abs baseDir);
  path ← foldM_res resolve_element path pathElements;
  let finalDir := Dir path +:+ "/" in
  finalPath ← map_err (fun err => sprintf "failed to resolve %s: %s" [AStr path; AStr err])
                (eval_symlinks path);
  if has_prefix finalPath finalDir then Ok finalPath
  else Err (sprintf "symlink on %s goes beyond its parent directory %s"
              [AStr path; AStr finalDir]).

(** * Elements of a path *)

(** A proper path element, and the elements that do not climb. *)
Definition plain (p : string) : Prop :=
  p <> "" /\ p <> "." /\ p <> ".." /\ count_byte "/" p = 0.
Definition no_dotdot (elem : string) : Prop := ".." ∉ split "/" elem.

(** The absolute path with the given elements, and the elements a relative path
    without [..] contributes. *)
Definition abs_path (cs : list string) : string := "/" +:+ join "/" cs.
Definition elements_of (elem : string) : list string :=
  List.filter (fun p => negb (bool_decide (p = "" \/ p = "."))) (split "/" elem).

Lemma split_app c a b : split c (a +:+ String c b) = split c a ++ split c b.
Proof.
  induction a as [|x a IH]; rewrite ?app_empty_l, ?app_cons; cbn [split].
  - by rewrite decide_True.
  - case_decide; [by rewrite IH|]. rewrite IH.
    destruct (split c a) as [|y ys] eqn:E; [by apply split_not_nil in E|done].
Qed.
Lemma split_none c a : count_byte c a = 0 -> split c a = [a].
Proof.
  induction a as [|x a IH]; cbn; [done|]. case_decide; [done|]. intros H1.
  by rewrite (IH H1).
Qed.
Lemma split_no_sep c s p : p ∈ split c s -> count_byte c p = 0.
Proof.
  revert p. induction s as [|x s IH]; intros p; cbn [split].
  - by intros ->%list_elem_of_singleton.
  - case_decide as Hc; [intros [->|Hin]%elem_of_cons; auto|].
    destruct (split c s) as [|y ys] eqn:E; [by apply split_not_nil in E|].
    intros [->|Hin]%elem_of_cons; [|apply IH; by right].
    cbn [count_byte]. rewrite decide_False by done. apply IH. by left.
Qed.
Lemma join_cons sep x l : l <> [] -> join sep (x :: l) = x +:+ sep +:+ join sep l.
Proof. by destruct l. Qed.
Lemma join_app sep l1 l2 :
  l1 <> [] -> l2 <> [] -> join sep (l1 ++ l2) = join sep l1 +:+ sep +:+ join sep l2.
Proof.
  intros H1 H2. induction l1 as [|x l1 IH]; [done|]. destruct l1 as [|y l1].
  - cbn [app]. by rewrite join_cons.
  - rewrite <- app_comm_cons, !join_cons by done. rewrite IH by done.
    by rewrite !str_app_assoc.
Qed.
Lemma split_join c l :
  l <> [] -> Forall (fun p => count_byte c p = 0) l -> split c (join (String c "") l) = l.
Proof.
  intros Hl H. induction H as [|x l Hx H IH]; [done|]. destruct l as [|y l].
  - by apply split_none.
  - rewrite join_cons by done. change (String c "" +:+ ?s) with (String c s).
    rewrite split_app, split_none by done. by rewrite IH.
Qed.

Lemma clean_stack_app r st l1 l2 :
  clean_stack r st (l1 ++ l2) = clean_stack r (clean_stack r st l1) l2.
Proof. revert st. induction l1 as [|p l1 IH]; intros st; cbn; auto. Qed.

Lemma clean_stack_no_dotdot r st l :
  ".." ∉ l ->
  clean_stack r st l =
  rev (List.filter (fun p => negb (bool_decide (p = "" \/ p = "."))) l) ++ st.
Proof.
  revert st. induction l as [|p l IH]; intros st Hl; [done|].
  cbn [clean_stack List.filter]. apply not_elem_of_cons in Hl as [Hp Hl].
  rewrite IH by done. case_decide as Hd.
  - by rewrite bool_decide_eq_true_2.
  - rewrite (decide_False (P := p = "..")) by done. rewrite bool_decide_eq_false_2 by done.
    cbn [negb rev]. by rewrite <- app_assoc.
Qed.

Lemma filter_plain cs :
  Forall plain cs ->
  List.filter (fun p => negb (bool_decide (p = "" \/ p = "."))) cs = cs.
Proof.
  induction 1 as [|p cs (H1 & H2 & _) _ IH]; [done|]. cbn.
  rewrite bool_decide_eq_false_2 by tauto. cbn. by rewrite IH.
Qed.
Lemma plain_not_dotdot cs : Forall plain cs -> ".." ∉ cs.
Proof. rewrite Forall_forall. intros H1 Hin. by destruct (H1 _ Hin) as (_ & _ & ? & _). Qed.

Lemma elements_of_plain elem : no_dotdot elem -> Forall plain (elements_of elem).
Proof.
  unfold no_dotdot, elements_of. intros H1. apply Forall_forall. intros p Hp.
  apply elem_of_filter_bool in Hp as [Hin Hp].
  apply negb_true_iff, bool_decide_eq_false in Hp.
  split; [tauto|]. split; [tauto|]. split; [by intros ->|].
  by eapply split_no_sep.
Qed.

(** Cleaning an absolute path with an element appended: the element's parts are
    worked off the stack of the path's. *)
Lemma Clean_append_stack cs elem :
  Forall plain cs ->
  Clean (abs_path cs +:+ "/" +:+ elem)
    = abs_path (rev (clean_stack true (rev cs) (split "/" elem))).
Proof.
  intros Hcs. unfold Clean. rewrite decide_False by done.
  change (has_prefix (abs_path cs +:+ "/" +:+ elem) "/") with
    (has_prefix ("/" +:+ (join "/" cs +:+ "/" +:+ elem)) "/").
  rewrite has_prefix_app. unfold abs_path. do 3 f_equal.
  change (("/" +:+ join "/" cs) +:+ "/" +:+ elem)
    with ("" +:+ String "/" (join "/" cs +:+ String "/" elem)).
  rewrite !split_app. cbn [app]. rewrite !clean_stack_app.
  assert (Hsplit : clean_stack true [] (split "/" "") = []) by done. rewrite Hsplit.
  f_equal. destruct (decide (cs = [])) as [->|Hne]; [done|].
  rewrite split_join; [|done|].
  - rewrite clean_stack_no_dotdot by (by apply plain_not_dotdot).
    by rewrite filter_plain, app_nil_r.
  - eapply Forall_impl; [exact Hcs|]. by intros p (_ & _ & _ & ?).
Qed.

Lemma Clean_append cs elem :
  Forall plain cs -> no_dotdot elem ->
  Clean (abs_path cs +:+ "/" +:+ elem) = abs_path (cs ++ elements_of elem).
Proof.
  intros Hcs He. rewrite Clean_append_stack, clean_stack_no_dotdot by done.
  by rewrite <- rev_app_distr, rev_involutive.
Qed.

Lemma abs_path_prefix cs es : has_prefix (abs_path (cs ++ es)) (abs_path cs) = true.
Proof.
  apply has_prefix_true. unfold abs_path.
  destruct (decide (es = [])) as [->|Hes]; [exists ""; by rewrite app_nil_r, app_empty_r|].
  destruct (decide (cs = [])) as [->|Hcs]; [by exists (join "/" es)|].
  exists ("/" +:+ join "/" es). by rewrite join_app, str_app_assoc by done.
Qed.

Lemma resolve_element_ok cs e :
  Forall plain cs -> no_dotdot e ->
  resolve_element (abs_path cs) e = Ok (abs_path (cs ++ elements_of e)).
Proof.
  intros Hcs He. unfold resolve_element. cbv zeta.
  by rewrite (Clean_append cs e Hcs He), abs_path_prefix.
Qed.

Lemma resolve_elements cs elems :
  Forall plain cs -> Forall no_dotdot elems ->
  foldM_res resolve_element (abs_path cs) elems
    = Ok (abs_path (cs ++ concat (elements_of <$> elems))).
Proof.
  intros Hcs Hel. revert cs Hcs. induction Hel as [|e elems He Hel IH]; intros cs Hcs.
  - cbn. by rewrite app_nil_r.
  - cbn [foldM_res fmap list_fmap concat]. rewrite resolve_element_ok by done.
    cbn [mbind res_bind]. rewrite IH; [by rewrite app_assoc|].
    apply Forall_app. auto using elements_of_plain.
Qed.

Lemma Clean_abs_path cs : Forall plain cs -> Clean (abs_path cs) = abs_path cs.
Proof.
  intros Hcs. unfold Clean. rewrite decide_False by done. unfold abs_path at 1.
  rewrite has_prefix_app. unfold abs_path. do 2 f_equal.
  change ("/" +:+ join "/" cs) with ("" +:+ String "/" (join "/" cs)).
  rewrite split_app. change (split "/" "" ++ split "/" (join "/" cs))
    with ("" :: split "/" (join "/" cs)).
  cbn [clean_stack]. rewrite decide_True by auto.
  destruct (decide (cs = [])) as [->|Hne]; [done|].
  rewrite split_join; [|done|].
  - rewrite clean_stack_no_dotdot by (by apply plain_not_dotdot).
    by rewrite filter_plain, app_nil_r, rev_involutive.
  - eapply Forall_impl; [exact Hcs|]. by intros p (_ & _ & _ & ?).
Qed.
Lemma Abs_abs_path `{FileSystem} cs : Forall plain cs -> Abs (abs_path cs) = Ok (abs_path cs).
Proof.
  intros Hcs. unfold Abs, abs_path at 1. rewrite has_prefix_app. by rewrite Clean_abs_path.
Qed.

Lemma dir_part_app s c t :
  c = "/"%char -> count_byte "/" t = 0 -> dir_part (s +:+ String c t) = s +:+ "/".
Proof.
  intros -> Ht. assert (H0 : dir_part t = "").
  { induction t as [|x t IH]; [done|]. cbn in Ht |- *. case_decide; [done|].
    by rewrite IH by done. }
  induction s as [|x s IH]; rewrite ?app_empty_l, ?app_cons; cbn [dir_part].
  - by rewrite H0.
  - rewrite IH. by destruct s.
Qed.

Lemma abs_path_snoc l x :
  abs_path (l ++ [x]) = (if decide (l = []) then "" else abs_path l) +:+ String "/" x.
Proof.
  case_decide as Hl; [by subst|]. unfold abs_path.
  rewrite join_app by done. by rewrite str_app_assoc.
Qed.

Lemma Dir_abs_path l x : Forall plain l -> plain x -> Dir (abs_path (l ++ [x])) = abs_path l.
Proof.
  intros Hl (_ & _ & _ & Hx). unfold Dir. rewrite abs_path_snoc, dir_part_app by done.
  case_decide as Hd; [by subst|].
  pose proof (Clean_append l "" Hl) as H. rewrite app_empty_r in H. rewrite H.
  - cbn. by rewrite app_nil_r.
  - unfold no_dotdot. cbn. intros Hin%list_elem_of_singleton. done.
Qed.

Lemma SafeFileName_unfold `{FileSystem} cs l x elems :
  Forall plain cs -> Forall plain l -> plain x ->
  foldM_res resolve_element (abs_path cs) elems = Ok (abs_path (l ++ [x])) ->
  SafeFileName (abs_path cs) elems =
  (finalPath ← map_err (fun err => sprintf "failed to resolve %s: %s"
                 [AStr (abs_path (l ++ [x])); AStr err]) (eval_symlinks (abs_path (l ++ [x])));
   if has_prefix finalPath (abs_path l +:+ "/") then Ok finalPath
   else Err (sprintf "symlink on %s goes beyond its parent directory %s"
               [AStr (abs_path (l ++ [x])); AStr (abs_path l +:+ "/")])).
Proof.
  intros Hcs Hl Hx Hfold. unfold SafeFileName. rewrite Abs_abs_path by done.
  cbn [map_err mbind res_bind]. rewrite Hfold. cbn [mbind res_bind]. cbv zeta.
  by rewrite Dir_abs_path.
Qed.

(** An absolute path starts with the text of a directory and a separator exactly when
    its elements start with those of the directory. *)
Lemma abs_path_below l fs :
  l <> [] -> Forall plain l -> Forall plain fs ->
  has_prefix (abs_path fs) (abs_path l +:+ "/") = true <->
  exists rest, rest <> [] /\ fs = l ++ rest.
Proof.
  intros Hne Hl Hfs.
  assert (Hsep : forall cs, Forall plain cs -> Forall (fun p => count_byte "/" p = 0) cs).
  { intros cs Hcs. eapply Forall_impl; [exact Hcs|]. by intros p (_ & _ & _ & ?). }
  rewrite has_prefix_true. unfold abs_path. split.
  - intros [t Ht]. rewrite !str_app_assoc in Ht. injection Ht as Ht.
    rewrite !app_empty_l in Ht. apply (f_equal (split "/")) in Ht. change ("/" +:+ t) with (String "/" t) in Ht.
    rewrite split_app, (split_join "/" l) in Ht by auto.
    destruct (decide (fs = [])) as [->|Hf].
    + cbn in Ht. exfalso. destruct l as [|p l]; [done|]. injection Ht as <- Hnil.
      apply Forall_inv in Hl. by destruct Hl.
    + rewrite split_join in Ht by auto. exists (split "/" t). split; [|done].
      apply split_not_nil.
  - intros (rest & Hr & ->). exists (join "/" rest). rewrite join_app by done.
    by rewrite !str_app_assoc.
Qed.

Lemma full_plain cs elems :
  Forall plain cs -> Forall no_dotdot elems ->
  Forall plain (cs ++ concat (elements_of <$> elems)).
Proof.
  intros Hcs Hel. apply Forall_app. split; [done|]. apply Forall_concat, Forall_fmap.
  eapply Forall_impl; [exact Hel|]. apply elements_of_plain.
Qed.

(** C39: under an absolute base directory other than the root, path elements
    without [..] are never rejected as climbing: the outcome is decided by what the
    file system resolves the concatenated path to.  A path that resolves to text
    below the directory of its last element is returned, one that resolves
    elsewhere is an error, as is one that does not resolve.  For a resolved path in
    clean form (as [EvalSymlinks] returns it) and a directory below the root, being
    returned is the same as having the directory's elements before its own. *)
Theorem SafeFileName_contained `{FileSystem} (cs elems : list string) :
  Forall plain cs -> cs <> [] -> Forall no_dotdot elems ->
  let full := cs ++ concat (elements_of <$> elems) in
  exists l x, full = l ++ [x] /\
    SafeFileName (abs_path cs) elems =
      match eval_symlinks (abs_path full) with
      | Ok final =>
          if has_prefix final (abs_path l +:+ "/") then Ok final
          else Err (sprintf "symlink on %s goes beyond its parent directory %s"
                      [AStr (abs_path full); AStr (abs_path l +:+ "/")])
      | Err err => Err (sprintf "failed to resolve %s: %s" [AStr (abs_path full); AStr err])
      | Panic w => Panic w
      end /\
    forall fs, l <> [] -> Forall plain fs ->
      eval_symlinks (abs_path full) = Ok (abs_path fs) ->
      (SafeFileName (abs_path cs) elems = Ok (abs_path fs) <->
       exists rest, rest <> [] /\ fs = l ++ rest).
Proof.
  intros Hcs Hne Hel full. pose proof (resolve_elements cs elems Hcs Hel) as Hfold.
  pose proof (full_plain cs elems Hcs Hel) as Hplain. fold full in Hfold, Hplain.
  destruct (exists_last (l := full)) as (l & x & E); [by destruct cs|].
  rewrite E in Hplain, Hfold |- *. apply Forall_app in Hplain as [Hl Hx].
  apply Forall_inv in Hx. exists l, x. split; [done|].
  rewrite (SafeFileName_unfold cs l x) by done. split; [by destruct (eval_symlinks _)|].
  intros fs Hl' Hfs ->. cbn [map_err mbind res_bind].
  rewrite <- (abs_path_below l fs) by done. by destruct (has_prefix _ _).
Qed.

(** A file system without symbolic links in which every path exists. *)
Definition flat_fs : FileSystem :=
  {| getwd := Ok "/"; eval_symlinks p := Ok p; read_file _ := Ok "" |}.

(** Without a working directory only absolute base directories are resolved. *)
Example no_working_directory :
  let fs : FileSystem := {| getwd := Err "getwd: no such file"; eval_symlinks p := Ok p;
                            read_file _ := Ok "" |} in
  SafeFileName (H := fs) "config" ["config.yaml"]
    = Err "failed to resolve config: getwd: no such file" /\
  SafeFileName (H := fs) "/app/config" ["/config.yaml"] = Ok "/app/config/config.yaml".
Proof. vm_compute. done. Qed.

Lemma SafeFileName_contained_witness :
  let full := ["app"; "secrets"] ++ concat (elements_of <$> ["my-secret"; "secret.yaml"]) in
  exists l x, full = l ++ [x] /\
    SafeFileName (H := flat_fs) (abs_path ["app"; "secrets"]) ["my-secret"; "secret.yaml"] =
      (if has_prefix (abs_path full) (abs_path l +:+ "/") then Ok (abs_path full)
       else Err (sprintf "symlink on %s goes beyond its parent directory %s"
                   [AStr (abs_path full); AStr (abs_path l +:+ "/")])) /\
    forall fs, l <> [] -> Forall plain fs -> Ok (abs_path full) = Ok (abs_path fs) ->
      (SafeFileName (H := flat_fs) (abs_path ["app"; "secrets"]) ["my-secret"; "secret.yaml"]
         = Ok (abs_path fs) <-> exists rest, rest <> [] /\ fs = l ++ rest).
Proof.
  apply (SafeFileName_contained (H := flat_fs)); [| |repeat constructor].
  - repeat constructor; done.
  - discriminate.
  - intros Hin. vm_compute in Hin. inversion Hin as [|? ? ? Hin']. inversion Hin'.
  - intros Hin. vm_compute in Hin. inversion Hin as [|? ? ? Hin']. inversion Hin'.
Defined.

(** The check compares strings, not path elements: an element can leave its
    parent directory for any sibling whose name extends the parent's
    ([/app/config] to [/app/config-old/..]). *)
Theorem SafeFileName_sibling `{FileSystem} (cs : list string) (b s : string) :
  Forall plain cs -> cs <> [] -> plain b -> plain (b +:+ s) -> s <> "" ->
  eval_symlinks (abs_path (cs ++ [b +:+ s])) = Ok (abs_path (cs ++ [b +:+ s])) ->
  SafeFileName (abs_path (cs ++ [b])) ["../" +:+ b +:+ s] = Ok (abs_path (cs ++ [b +:+ s])) /\
  has_prefix (abs_path (cs ++ [b +:+ s])) (abs_path (cs ++ [b]) +:+ "/") = false.
Proof.
  intros Hcs Hne Hb Hbs Hs Heval.
  assert (Hcsb : Forall plain (cs ++ [b])) by (apply Forall_app; auto).
  assert (Hclean : Clean (abs_path (cs ++ [b]) +:+ "/" +:+ "../" +:+ b +:+ s)
    = abs_path (cs ++ [b +:+ s])).
  { rewrite Clean_append_stack by done. destruct Hbs as (H1 & H2 & H3 & H4).
    change ("../" +:+ b +:+ s) with (".." +:+ String "/" (b +:+ s)).
    rewrite split_app, (split_none _ (b +:+ s)) by done. rewrite rev_app_distr.
    change (split "/" "..") with [".."]. cbn [app rev clean_stack].
    destruct Hb as (_ & _ & Hb & _). rewrite (decide_False (P := ".." = "" \/ _)) by (intros [?|?]; discriminate).
    rewrite (decide_True (P := ".." = "..")) by done. rewrite (decide_False (P := b = "..")) by done.
    rewrite (decide_False (P := b +:+ s = "" \/ _)) by tauto.
    rewrite (decide_False (P := b +:+ s = "..")) by done. cbn [rev].
    by rewrite rev_involutive. }
  assert (Hext : abs_path (cs ++ [b +:+ s]) = abs_path (cs ++ [b]) +:+ s).
  { rewrite !abs_path_snoc, decide_False by done. by rewrite str_app_assoc. }
  split.
  - rewrite (SafeFileName_unfold (cs ++ [b]) cs (b +:+ s)); [|done|done|done|].
    + rewrite Heval. cbn [map_err mbind res_bind]. rewrite abs_path_snoc, decide_False by done.
      change (abs_path cs +:+ String "/" (b +:+ s)) with (abs_path cs +:+ ("/" +:+ (b +:+ s))).
      by rewrite <- str_app_assoc, has_prefix_app.
    + cbn [foldM_res]. unfold resolve_element. cbv zeta.
      by rewrite Hclean, Hext, has_prefix_app.
  - rewrite Hext. destruct s as [|c s]; [done|]. clear -Hbs.
    induction (abs_path (cs ++ [b])) as [|x p IH].
    + rewrite !app_empty_l, has_prefix_cons. destruct Hbs as (_ & _ & _ & H4).
      rewrite count_byte_app in H4. cbn [count_byte] in H4. case_decide; [lia|].
      by rewrite bool_decide_eq_false_2.
    + rewrite !app_cons, has_prefix_cons, bool_decide_eq_true_2 by done. exact IH.
Qed.

Lemma SafeFileName_sibling_witness :
  SafeFileName (H := flat_fs) (abs_path (["app"] ++ ["config"])) ["../" +:+ "config" +:+ "-old"]
    = Ok (abs_path (["app"] ++ ["config" +:+ "-old"])) /\
  has_prefix (abs_path (["app"] ++ ["config" +:+ "-old"]))
    (abs_path (["app"] ++ ["config"]) +:+ "/") = false.
Proof.
  apply (SafeFileName_sibling (H := flat_fs) ["app"] "config" "-old");
    try done; repeat constructor; done.
Defined.
