(* ===== verification/Image.v ===== *)
(** [internal/image]: image references ([image.go]) and registry/repository
    pairs ([registry.go]). *)
From S2P Require Import Prelude GoStrings Utils.
From Stdlib Require Import Ascii.

(** * The package [go-containerregistry/pkg/name]

    A [name.Reference] through the accessors the code calls:
    [Context().Name()], [Context().String()], [Context().RegistryStr()] and
    [Identifier()]. *)
Record Reference : Type := {
  ctx_name : string;
  ctx_string : string;
  ctx_registry : string;
  identifier : string;
}.
#[export] Instance Reference_eq_dec : EqDecision Reference.
Proof. solve_decision. Defined.

(** The constructors of the package the code calls; [NewRegistry] and
    [NewRepository] only for whether they return an error. *)
Class NameLib := {
  ParseReference : string -> res Reference;
  NewRegistry : string -> res unit;
  NewRepository : string -> res unit;
}.

(** * image.go *)
Definition DefaultDockerRegistry := "index.docker.io".

(** [Image]; the embedded [name.Reference] is never set and not modelled. *)
Record Image : Type := {
  original : string;
  ref : Reference;
  tag : string;
  digest : string;
}.
#[export] Instance Image_eq_dec : EqDecision Image.
Proof. solve_decision. Defined.

Definition New `{NameLib} (image : string) : res Image :=
  ref ← ParseReference image;
  let id := identifier ref in
  if has_prefix id "sha256:" then
    let fullyQualifiedImagePath := StringOverlap (ctx_name ref) image in
    let tagAndDigest := trim_prefix (trim_prefix image fullyQualifiedImagePath) ":" in
    Ok {| original := image; ref := ref;
          tag := trim_suffix tagAndDigest ("@" +:+ id); digest := id |}
  else
    Ok {| original := image; ref := ref; tag := trim_prefix id ":"; digest := "" |}.

Definition Identifier (i : Image) : string := identifier (ref i).

Definition Name (i : Image) : string :=
  let t := if decide (tag i <> "") then ":" +:+ tag i else "" in
  let d := if decide (digest i <> "") then "@" +:+ digest i else "" in
  sprintf "%s%s%s" [AStr (ctx_string (ref i)); AStr t; AStr d].

Definition OriginalString (i : Image) : string := original i.

Definition NotaryReference (i : Image) : string :=
  if has_prefix (ctx_string (ref i)) DefaultDockerRegistry
  then trim_prefix (ctx_string (ref i)) "index."
  else ctx_string (ref i).

Definition Tag (i : Image) : string := tag i.
Definition Digest (i : Image) : string := digest i.

(** [SetDigest] writes through the pointer and returns it: the caller's image
    is the result. *)
Definition SetDigest (i : Image) (d : string) : Image :=
  let d := if decide (d <> "") then
             if has_prefix d "sha256:" then d else "sha256:" +:+ d
           else d in
  {| original := original i; ref := ref i; tag := tag i; digest := d |}.

(** * registry.go *)
Definition EmptyAuthRegistry := "EMPTYAUTH".

Record RegistryRepo : Type := {
  rr_original : string;
  rr_registry : string;
  rr_repo : string;
}.

Definition NewRegistryRepo `{NameLib} (s : string) : res RegistryRepo :=
  if decide (s = EmptyAuthRegistry) then
    Ok {| rr_original := s; rr_registry := s; rr_repo := "" |}
  else
    let orig := s in
    let s := TrimPrefixes s ["https://"; "http://"] in
    let s := if HasPrefixes s ["index.docker.io"; "docker.io"] && has_suffix s "/v1/"
             then trim_suffix s "/v1/" else s in
    let '(registry, repo) :=
      match index_byte "/" s with
      | None => (s, "")
      | Some idx => (str_take idx s, str_drop (S idx) s)
      end in
    _ ← map_err (fun err => sprintf "unable to parse registry %s: %s" [AStr registry; AStr err])
          (NewRegistry registry);
    _ ← (if decide (repo <> "") then
           map_err (fun err => sprintf "unable to parse repository %s: %s" [AStr repo; AStr err])
             (NewRepository repo)
         else Ok ());
    Ok {| rr_original := orig; rr_registry := registry; rr_repo := repo |}.

Definition RegistryRepo_String (r : RegistryRepo) : string :=
  if decide (rr_repo r = "") then rr_registry r
  else sprintf "%s/%s" [AStr (rr_registry r); AStr (rr_repo r)].

(** * Names and digests *)
Lemma Name_parts i :
  Name i = ctx_string (ref i) +:+
    (if decide (tag i = "") then "" else ":" +:+ tag i) +:+
    (if decide (digest i = "") then "" else "@" +:+ digest i).
Proof.
  unfold Name. cbn [sprintf show_arg]. rewrite app_empty_r.
  destruct (decide (tag i = "")) as [Ht|Ht], (decide (digest i = "")) as [Hd|Hd];
    repeat (first [rewrite decide_True by done|rewrite decide_False by (intros []; done)]);
    done.
Qed.

(** A digest is empty or carries the algorithm. *)
Definition wf_digest (d : string) : Prop := d = "" \/ has_prefix d "sha256:" = true.
Definition wf_image (i : Image) : Prop := wf_digest (digest i).

Lemma SetDigest_wf i d : wf_image (SetDigest i d).
Proof.
  unfold wf_image, wf_digest, SetDigest; cbn [digest].
  destruct (decide (d <> "")) as [Hd|Hd].
  - right. destruct (has_prefix d "sha256:") eqn:E; [done|apply has_prefix_app].
  - left. destruct (decide (d = "")); [done|]. by destruct Hd.
Qed.
Lemma SetDigest_id i d : wf_digest d -> digest (SetDigest i d) = d.
Proof.
  unfold SetDigest; cbn [digest]. intros [->|Hd]; [done|]. rewrite Hd.
  by destruct (decide (d <> "")).
Qed.
Lemma SetDigest_self i : wf_image i -> SetDigest i (Digest i) = i.
Proof. intros Hwf%(SetDigest_id i). destruct i. unfold SetDigest, Digest in *. cbn in *. by f_equal. Qed.
Lemma SetDigest_idem i d : SetDigest (SetDigest i d) d = SetDigest i d.
Proof. done. Qed.
Lemma SetDigest_twice i d d' : SetDigest (SetDigest i d') d = SetDigest i d.
Proof. done. Qed.
Lemma SetDigest_tag i d : tag (SetDigest i d) = tag i.
Proof. done. Qed.

Lemma New_original `{NameLib} s i : New s = Ok i -> original i = s.
Proof.
  unfold New. intros (r & _ & H1)%bind_Ok.
  destruct (has_prefix _ _); by injection H1 as <-.
Qed.
Lemma New_wf `{NameLib} s i : New s = Ok i -> wf_image i.
Proof.
  unfold New, wf_image, wf_digest. intros (r & _ & H1)%bind_Ok.
  destruct (has_prefix _ _) eqn:E; injection H1 as <-; auto.
Qed.
Lemma New_safe `{NameLib} s : safe (ParseReference s) -> safe (New s).
Proof. intros Hp. unfold New. apply safe_bind; [done|]. intros r _. cbv zeta. destruct (has_prefix _ _); auto with go. Qed.
#[export] Hint Resolve SetDigest_wf New_wf New_safe : go.

(** * The tag of a reference with a digest *)
Lemma count_byte_nonzero c s : count_byte c s <> 0 -> exists a b, s = a +:+ String c b.
Proof.
  induction s as [|x s IH]; cbn; [done|]. destruct (decide (x = c)) as [->|].
  - intros _. by exists "", s.
  - intros H. destruct IH as (a & b & ->); [lia|]. exists (String x a), b. by rewrite app_cons.
Qed.

Lemma prefix_longer p c r o :
  has_prefix (p +:+ String c r) o = true -> String.length p < String.length o ->
  has_prefix o (p +:+ String c "") = true.
Proof.
  revert p. induction o as [|x o IH]; intros p; cbn; [lia|].
  destruct p as [|y p]; rewrite ?app_empty_l, ?app_cons; rewrite !has_prefix_cons.
  - intros [->%bool_decide_eq_true _]%andb_prop _.
    rewrite bool_decide_eq_true_2 by done. apply has_prefix_nil.
  - intros [->%bool_decide_eq_true H]%andb_prop Hl. cbn in Hl.
    rewrite bool_decide_eq_true_2 by done. apply IH; [done|lia].
Qed.

(** The overlap of a repository name [pre/path] with a string that goes on after
    [path] with a character the name does not have is [path]. *)
Lemma StringOverlap_path pre path c rest :
  pre = "" \/ count_byte c (pre +:+ path) = 0 ->
  StringOverlap (pre +:+ path) (path +:+ String c rest) = path.
Proof.
  intros Hc. destruct (StringOverlap_longest (pre +:+ path) (path +:+ String c rest))
    as [[Hs Hp] Hmax].
  set (o := StringOverlap _ _) in *.
  assert (Hlen : String.length path <= String.length o).
  { apply Hmax. split; [apply has_suffix_true; by exists pre|apply has_prefix_app]. }
  apply (has_prefix_eq (path +:+ String c rest)); [done|apply has_prefix_app|].
  apply has_suffix_true in Hs as [r Hr].
  destruct (decide (String.length o = String.length path)) as [|Hne]; [done|].
  assert (Hlt : String.length path < String.length o) by lia. exfalso.
  apply (f_equal String.length) in Hr as Hl. rewrite !str_length_app in Hl.
  destruct Hc as [->|Hc]; [cbn in Hl; lia|].
  apply prefix_longer in Hp; [|done]. apply has_prefix_true in Hp as [o' Ho].
  rewrite Hr, Ho, !count_byte_app in Hc. cbn [count_byte] in Hc.
  rewrite decide_True in Hc by done. lia.
Qed.

(** C37: the tag and digest of a reference [path:tag@sha256:..] or
    [path@sha256:..] are recovered from the original string, when the parser's
    repository name is [path] with a prefix of its own in front (such as
    [index.docker.io/library/]) that holds no colon; [Name()] then spells the
    reference out in full. *)
Theorem New_tag_and_digest `{NameLib} (pre path t id : string) (r : Reference) :
  ParseReference (path +:+ t +:+ "@" +:+ id) = Ok r ->
  identifier r = id -> has_prefix id "sha256:" = true ->
  ctx_name r = pre +:+ path ->
  pre = "" \/ count_byte ":" (pre +:+ path) = 0 ->
  pre = "" \/ count_byte "@" (pre +:+ path) = 0 ->
  t = "" \/ (exists t', t = ":" +:+ t') ->
  exists i, New (path +:+ t +:+ "@" +:+ id) = Ok i /\ digest i = id /\
    (t = "" -> tag i = "") /\ (forall t', t = ":" +:+ t' -> tag i = t') /\
    (t <> ":" -> Name i = ctx_string r +:+ t +:+ "@" +:+ id).
Proof.
  intros Hparse Hid Hsha Hctx Hcolon Hat Ht. unfold New. rewrite Hparse. cbn [mbind res_bind].
  rewrite Hid, Hsha, Hctx. eexists. split; [done|]. cbn [digest tag ref].
  assert (Hdne : id <> "") by (intros ->; done).
  destruct Ht as [->|[t' ->]].
  - rewrite app_empty_l. change ("@" +:+ id) with (String "@" id).
    rewrite StringOverlap_path by done. rewrite trim_prefix_app.
    rewrite (trim_prefix_id (String "@" id)) by done.
    assert (Ht : trim_suffix (String "@" id) (String "@" id) = "")
      by apply (trim_suffix_app "" (String "@" id)).
    rewrite Ht. split; [done|]. split; [done|]. split; [done|]. intros _.
    rewrite Name_parts. cbn [ref tag digest]. by rewrite (decide_False (P := id = "")).
  - change ((":" +:+ t') +:+ "@" +:+ id) with (String ":" (t' +:+ "@" +:+ id)).
    rewrite StringOverlap_path by done.
    rewrite trim_prefix_app.
    change (String ":" (t' +:+ "@" +:+ id)) with (":" +:+ (t' +:+ "@" +:+ id)).
    rewrite trim_prefix_app.
    rewrite trim_suffix_app. split; [done|]. split; [done|].
    split; [by intros t'' Heq%str_app_inj_l|]. intros Hne.
    rewrite Name_parts. cbn [ref tag digest].
    rewrite (decide_False (P := t' = "")) by (by intros ->).
    by rewrite (decide_False (P := id = "")).
Qed.

(** * A concrete parser, for the witnesses

    References [path[:tag][@digest]] whose path has no port; [docker.io] is the
    alias of [index.docker.io], with [library/] in front of one-part names. *)
Definition cut (c : ascii) (s : string) : string * option string :=
  match index_byte c s with
  | None => (s, None)
  | Some i => (str_take i s, Some (str_drop (S i) s))
  end.

Definition demo_parse (s : string) : res Reference :=
  let '(base, id) := cut "@" s in
  let '(path, t) := cut ":" base in
  let path := match strip_prefix "docker.io/" path with
              | Some rest => if index_byte "/" rest then "index.docker.io/" +:+ rest
                             else "index.docker.io/library/" +:+ rest
              | None => path
              end in
  if decide (path = "" \/ contains (default "" t) "/" = true) then Err "could not parse reference"
  else Ok {| ctx_name := path; ctx_string := path; ctx_registry := (cut "/" path).1;
             identifier := default (default "latest" t) id |}.

Definition demo_lib : NameLib := {|
  ParseReference := demo_parse;
  NewRegistry s := if contains s "/" then Err "invalid registry" else Ok ();
  NewRepository s := if has_prefix s "/" then Err "invalid repository" else Ok ()
|}.

Lemma New_tag_and_digest_witness :
  exists i, @New demo_lib ("reg.io/app" +:+ ":1" +:+ "@" +:+ "sha256:aa") = Ok i /\
    digest i = "sha256:aa" /\
    (":1" = "" -> tag i = "") /\ (forall t', ":1" = ":" +:+ t' -> tag i = t') /\
    (":1" <> ":" -> Name i = "reg.io/app" +:+ ":1" +:+ "@" +:+ "sha256:aa").
Proof.
  apply (@New_tag_and_digest demo_lib "" "reg.io/app" ":1" "sha256:aa"
    {| ctx_name := "reg.io/app"; ctx_string := "reg.io/app"; ctx_registry := "reg.io";
       identifier := "sha256:aa" |}); try (vm_compute; reflexivity).
  - by left.
  - by left.
  - right. by exists "1".
Defined.

Lemma has_prefix_shorter s p q :
  has_prefix s q = true -> has_prefix s p = true -> String.length q <= String.length p ->
  has_prefix p q = true.
Proof.
  intros Hq [r ->]%has_prefix_true. revert q Hq. induction p as [|c p IH]; intros [|x q].
  - done.
  - cbn. lia.
  - intros _ _. apply has_prefix_nil.
  - rewrite !app_cons, !has_prefix_cons. intros [Hx Hp]%andb_prop Hl. rewrite Hx.
    apply IH; [done|cbn in Hl; lia].
Qed.

(** The overlap for an official image written with the alias [docker.io]: the parser's
    repository has [library/] where the text has not, so that only what ends the name
    and happens to start [docker.io] overlaps. *)
Lemma StringOverlap_alias name c rest :
  count_byte "/" name = 0 -> count_byte c name = 0 -> count_byte c "library/" = 0 ->
  exists o dom, "docker.io/" = o +:+ dom /\ count_byte "/" dom = 1 /\ has_suffix name o = true /\
    StringOverlap ("index.docker.io/library/" +:+ name) ("docker.io/" +:+ name +:+ String c rest) = o.
Proof.
  intros Hslash Hc Hlib.
  destruct (StringOverlap_longest ("index.docker.io/library/" +:+ name)
    ("docker.io/" +:+ name +:+ String c rest)) as [[Hs Hp] _].
  set (o := StringOverlap _ _) in *. clearbody o. apply has_suffix_true in Hs as [r Hr].
  assert (Ho : o = str_drop (String.length r) ("index.docker.io/library/" +:+ name))
    by (rewrite Hr; by rewrite str_drop_app).
  revert Ho. generalize (String.length r). intros n Ho. clear Hr r.
  do 6 (destruct n as [|n]; [rewrite Ho in Hp; cbn in Hp; discriminate Hp|]).
  destruct n as [|n].
  { exfalso. rewrite Ho in Hp. cbn in Hp.
    change (has_prefix (name +:+ String c rest) ("library/" +:+ name) = true) in Hp.
    apply prefix_longer in Hp; [|rewrite str_length_app; cbn; lia].
    apply has_prefix_true in Hp as [t Ht]. apply (f_equal (count_byte c)) in Ht.
    rewrite !count_byte_app, Hlib in Ht. cbn [count_byte] in Ht. rewrite decide_True in Ht by done. lia. }
  do 17 (destruct n as [|n]; [rewrite Ho in Hp; cbn in Hp; discriminate Hp|]).
  change (o = str_drop n name) in Ho. pose proof (str_drop_suffix n name) as Hsuf. rewrite <- Ho in Hsuf.
  assert (Hno : count_byte "/" o = 0).
  { apply has_suffix_true in Hsuf as [r Hr]. rewrite Hr, count_byte_app in Hslash. lia. }
  assert (Hpre : has_prefix "docker.io/" o = true).
  { destruct (decide (String.length "docker.io/" < String.length o)) as [Hlt|Hge].
    - exfalso. change "docker.io/" with ("docker.io" +:+ String "/" "") in Hp.
      rewrite str_app_assoc in Hp. apply prefix_longer in Hp; [|cbn in Hlt |- *; lia].
      apply has_prefix_true in Hp as [t ->]. rewrite !count_byte_app in Hno.
      change (count_byte "/" "/") with 1 in Hno. lia.
    - eapply has_prefix_shorter; [exact Hp|apply has_prefix_app|lia]. }
  apply has_prefix_true in Hpre as [dom Hdom]. exists o, dom. split; [done|]. split; [|done].
  apply (f_equal (count_byte "/")) in Hdom. rewrite count_byte_app, Hno in Hdom. symmetry. exact Hdom.
Qed.

(** C38: for every official image written with the alias [docker.io] and a digest, with
    a tag or without, the repository name of the parser does not end in the written
    path: the "tag" keeps the end of [docker.io/] (all of it unless the name ends in
    a start of [docker.io], as [httpd] does), the slash, the name and the tag, and
    [Name()] puts all that behind the repository, which is no reference: a tag holds
    no slash. *)
Theorem New_docker_alias `{NameLib} (name t id : string) (r : Reference) :
  count_byte "/" name = 0 -> count_byte ":" name = 0 -> count_byte "@" name = 0 ->
  t = "" \/ (exists t', t = ":" +:+ t') -> has_prefix id "sha256:" = true ->
  ParseReference ("docker.io/" +:+ name +:+ t +:+ "@" +:+ id) = Ok r ->
  ctx_name r = "index.docker.io/library/" +:+ name -> identifier r = id ->
  exists i o dom, New ("docker.io/" +:+ name +:+ t +:+ "@" +:+ id) = Ok i /\
    "docker.io/" = o +:+ dom /\ has_suffix name o = true /\ count_byte "/" dom = 1 /\
    tag i = dom +:+ name +:+ t /\
    Name i = ctx_string r +:+ ":" +:+ dom +:+ name +:+ t +:+ "@" +:+ id.
Proof.
  intros Hslash Hcolon Hat Ht Hsha Hp Hn Hi.
  assert (Hov : exists o dom, "docker.io/" = o +:+ dom /\ count_byte "/" dom = 1 /\ has_suffix name o = true /\
    StringOverlap ("index.docker.io/library/" +:+ name) ("docker.io/" +:+ name +:+ t +:+ "@" +:+ id) = o).
  { destruct Ht as [->|[t' ->]]; [apply (StringOverlap_alias name "@" id)|
      apply (StringOverlap_alias name ":" (t' +:+ "@" +:+ id))]; done. }
  destruct Hov as (o & dom & Hdom & Hne & Hsuf & Hov).
  unfold New. rewrite Hp. cbn [mbind res_bind]. rewrite Hi, Hn, Hsha, Hov.
  eexists _, o, dom. split; [done|]. split; [done|]. split; [done|]. split; [done|].
  assert (Htag : trim_suffix (trim_prefix (trim_prefix ("docker.io/" +:+ name +:+ t +:+ "@" +:+ id) o) ":")
    ("@" +:+ id) = dom +:+ name +:+ t).
  { rewrite Hdom, str_app_assoc, trim_prefix_app. rewrite trim_prefix_id.
    - rewrite <- (str_app_assoc name), <- str_app_assoc. apply trim_suffix_app.
    - destruct dom as [|x dom]; [done|]. rewrite app_cons, has_prefix_cons.
      apply (f_equal (count_byte ":")) in Hdom. rewrite count_byte_app in Hdom.
      case_bool_decide as Hx; [|done]. subst x. change (count_byte ":" "docker.io/") with 0 in Hdom.
      cbn [count_byte] in Hdom. rewrite decide_True in Hdom by done. lia. }
  cbn [tag]. rewrite Htag. split; [done|].
  rewrite Name_parts. cbn [ref tag digest].
  rewrite (decide_False (P := dom +:+ _ = "")) by (by destruct dom).
  rewrite (decide_False (P := id = "")) by (by intros ->). by rewrite !str_app_assoc.
Qed.

Lemma New_docker_alias_witness :
  exists i o dom, @New demo_lib ("docker.io/" +:+ "nginx" +:+ ":1.25" +:+ "@" +:+ "sha256:aa") = Ok i /\
    "docker.io/" = o +:+ dom /\ has_suffix "nginx" o = true /\ count_byte "/" dom = 1 /\
    tag i = dom +:+ "nginx" +:+ ":1.25" /\
    Name i = "index.docker.io/library/nginx" +:+ ":" +:+ dom +:+ "nginx" +:+ ":1.25" +:+ "@" +:+ "sha256:aa".
Proof.
  apply (@New_docker_alias demo_lib "nginx" ":1.25" "sha256:aa"
    {| ctx_name := "index.docker.io/library/nginx";
       ctx_string := "index.docker.io/library/nginx";
       ctx_registry := "index.docker.io"; identifier := "sha256:aa" |}); try (by vm_compute).
  right. by exists "1.25".
Defined.
Example alias_tags :
  (tag <$> @New demo_lib "docker.io/nginx:1.25@sha256:aa") = Ok "docker.io/nginx:1.25" /\
  (tag <$> @New demo_lib "docker.io/httpd@sha256:aa") = Ok "ocker.io/httpd" /\
  (tag <$> @New demo_lib "docker.io/library/nginx:1.25@sha256:aa") = Ok "1.25".
Proof. vm_compute. done. Qed.

(** * Registry and repository *)
Lemma NewRegistryRepo_String `{NameLib} s r :
  NewRegistryRepo s = Ok r -> s <> EmptyAuthRegistry ->
  let t := TrimPrefixes s ["https://"; "http://"] in
  let t := if HasPrefixes t ["index.docker.io"; "docker.io"] && has_suffix t "/v1/"
           then trim_suffix t "/v1/" else t in
  count_byte "/" (rr_registry r) = 0 /\
  (t = RegistryRepo_String r \/ rr_repo r = "" /\ t = RegistryRepo_String r +:+ "/").
Proof.
  intros H1 Hs. cbv zeta. unfold NewRegistryRepo in H1.
  rewrite decide_False in H1 by done. cbv zeta in H1.
  set (t := if _ && _ then _ else _) in *.
  destruct (index_byte "/" t) as [i|] eqn:Hi.
  - apply index_byte_Some in Hi as [Ht Hc].
    generalize dependent (str_drop (S i) t). generalize dependent (str_take i t).
    intros reg Hc rest Ht H1. apply bind_Ok in H1 as ([] & _ & H1). apply bind_Ok in H1 as ([] & _ & [= <-]).
    cbn [rr_registry]. split; [done|]. unfold RegistryRepo_String. cbn [rr_registry rr_repo].
    case_decide as Hr.
    + right. split; [done|]. rewrite Ht at 1. by rewrite Hr.
    + left. rewrite Ht at 1. cbn [sprintf show_arg]. by rewrite app_empty_r.
  - apply bind_Ok in H1 as ([] & _ & H1). apply bind_Ok in H1 as ([] & _ & [= <-]).
    cbn [rr_registry]. apply index_byte_None in Hi. split; [done|]. left.
    unfold RegistryRepo_String. by rewrite decide_True.
Qed.
