(* ===== verification/Kube.v ===== *)
(** [internal/kubernetes]: workload objects ([workload_object.go]), requests to the
    Kubernetes API ([kube_api.go]), the deserializer ([deserializer.go]) and the
    objects of an admission request ([admission_objects.go]). *)
From S2P Require Import Prelude GoStrings Utils.
From Stdlib Require Import Ascii.

(** * The Kubernetes API types, as far as the code reads them *)
Record Container : Type := { c_Image : string }.
Record OwnerReference : Type := {
  APIVersion : string; owner_Kind : string; owner_UID : string; owner_Name : string }.
Record ObjectMeta : Type := {
  meta_Name : string;
  GenerateName : string;
  OwnerReferences : list OwnerReference;
  DeletionTimestamp : option string }.
Record PodSpec : Type := {
  spec_Containers : list Container;
  spec_InitContainers : list Container;
  spec_EphemeralContainers : list Container }.
Record GroupVersionKind : Type := { gvk_Group : string; gvk_Version : string; Kind : string }.

(** A [runtime.Object]: the dynamic types the code asserts, each with its metadata
    and the pod spec it contains ([Spec], [Spec.Template.Spec] or
    [Spec.JobTemplate.Spec.Template.Spec]).  The template of a replication
    controller is a pointer. *)
Inductive Object : Type :=
  | Pod (m : ObjectMeta) (s : PodSpec)
  | Deployment (m : ObjectMeta) (template : PodSpec)
  | ReplicationController (m : ObjectMeta) (template : option PodSpec)
  | ReplicaSet (m : ObjectMeta) (template : PodSpec)
  | DaemonSet (m : ObjectMeta) (template : PodSpec)
  | StatefulSet (m : ObjectMeta) (template : PodSpec)
  | Job (m : ObjectMeta) (template : PodSpec)
  | CronJob (m : ObjectMeta) (template : PodSpec)
  | OtherObject.

(** [Deserializer.Decode(raw, kind, into)]: the returned object (possibly nil) and
    error; [into] is the dynamic type of the object passed in. *)
Class Decoder := {
  Decode : string -> GroupVersionKind -> string -> option Object * option string;
}.

Definition Deserialize `{Decoder} (raw : string) (kind : GroupVersionKind) (into : string)
  : option Object * option string := Decode raw kind into.

(** * workload_object.go *)
Record WorkloadObject : Type := {
  wlo_Name : string;
  wlo_Kind : string;
  wlo_Namespace : string;
  Containers : list Container;
  InitContainers : list Container;
  EphemeralContainers : list Container;
  Owners : list OwnerReference;
  Deleted : bool;
}.

Record IdxType : Type := { Index : nat; Type_ : string }.
#[export] Instance Container_eq_dec : EqDecision Container.
Proof. solve_decision. Defined.
#[export] Instance IdxType_eq_dec : EqDecision IdxType.
Proof. solve_decision. Defined.

(** The local variables of [NewWorkloadObjectFromBytes] after the [switch]. *)
Record decoded : Type := {
  d_name : string;
  d_containers : list Container;
  d_initContainers : list Container;
  d_ephemeralContainers : list Container;
  d_owners : list OwnerReference;
  d_deleted : bool;
}.
(** The cases of workloads with a pod template. *)
Definition from_template (m : ObjectMeta) (t : PodSpec) : decoded :=
  {| d_name := meta_Name m;
     d_containers := spec_Containers t;
     d_initContainers := spec_InitContainers t;
     d_ephemeralContainers := [];
     d_owners := OwnerReferences m;
     d_deleted := is_set (DeletionTimestamp m) |}.
Definition from_pod (m : ObjectMeta) (s : PodSpec) : decoded :=
  {| d_name := if decide (meta_Name m = "") then GenerateName m else meta_Name m;
     d_containers := spec_Containers s;
     d_initContainers := spec_InitContainers s;
     d_ephemeralContainers := spec_EphemeralContainers s;
     d_owners := OwnerReferences m;
     d_deleted := is_set (DeletionTimestamp m) |}.

(** The type assertion [obj.( *T)] on the decoded object, followed by the reads of
    its fields. *)
Definition assert_object (kind : string) (obj : option Object) : res decoded :=
  let failed := Err (sprintf ("deserialize conversion to " +:+ dq +:+ "%s" +:+ dq +:+ " has failed")
                       [AStr kind]) in
  if decide (kind = "Pod") then
    match obj with Some (Pod m s) => Ok (from_pod m s) | _ => failed end
  else if decide (kind = "Deployment") then
    match obj with Some (Deployment m t) => Ok (from_template m t) | _ => failed end
  else if decide (kind = "ReplicationController") then
    match obj with
    | Some (ReplicationController m (Some t)) => Ok (from_template m t)
    | Some (ReplicationController m None) =>
        Panic "invalid memory address or nil pointer dereference"
    | _ => failed
    end
  else if decide (kind = "ReplicaSet") then
    match obj with Some (ReplicaSet m t) => Ok (from_template m t) | _ => failed end
  else if decide (kind = "DaemonSet") then
    match obj with Some (DaemonSet m t) => Ok (from_template m t) | _ => failed end
  else if decide (kind = "StatefulSet") then
    match obj with Some (StatefulSet m t) => Ok (from_template m t) | _ => failed end
  else if decide (kind = "Job") then
    match obj with Some (Job m t) => Ok (from_template m t) | _ => failed end
  else
    match obj with Some (CronJob m t) => Ok (from_template m t) | _ => failed end.

Definition workload_kinds : list string :=
  ["Pod"; "Deployment"; "ReplicationController"; "ReplicaSet"; "DaemonSet"; "StatefulSet";
   "Job"; "CronJob"].

Definition NewWorkloadObjectFromBytes `{Decoder} (raw : string) (kind : GroupVersionKind)
    (namespace : string) : res WorkloadObject :=
  if decide (Kind kind ∈ workload_kinds) then
    let '(obj, err) := Deserialize raw kind (Kind kind) in
    d ← assert_object (Kind kind) obj;
    match err with
    | Some e => Err e
    | None =>
        if (length (d_containers d) =? 0) && (length (d_initContainers d) =? 0)
           && (length (d_ephemeralContainers d) =? 0)
        then Err "no containers found in workload object"
        else Ok {| wlo_Name := d_name d; wlo_Kind := Kind kind; wlo_Namespace := namespace;
                   Containers := d_containers d; InitContainers := d_initContainers d;
                   EphemeralContainers := d_ephemeralContainers d; Owners := d_owners d;
                   Deleted := d_deleted d |}
    end
  else Err (sprintf ("unknown workload kind " +:+ dq +:+ "%s" +:+ dq) [AStr (Kind kind)]).

(** One round of the loops of [ConsolidatedContainers]. *)
Definition consolidate_step (type_ : string) (consolidated : gmap string (list IdxType))
    (entry : nat * Container) : gmap string (list IdxType) :=
  let '(idx, container) := entry in
  let newEntry := {| Index := idx; Type_ := type_ |} in
  match consolidated !! c_Image container with
  | Some idxTypeList => <[c_Image container := idxTypeList ++ [newEntry]]> consolidated
  | None => <[c_Image container := [newEntry]]> consolidated
  end.
Definition enumerate {A} (l : list A) : list (nat * A) := imap pair l.

Definition ConsolidatedContainers (wlo : WorkloadObject) : gmap string (list IdxType) :=
  let consolidated := foldl (fun consolidated item =>
      foldl (consolidate_step (snd item)) consolidated (enumerate (fst item)))
    ∅ [(Containers wlo, "containers"); (InitContainers wlo, "initContainers")] in
  foldl (consolidate_step "ephemeralContainers") consolidated
    (enumerate (EphemeralContainers wlo)).

Definition ImageSet `{MapOrder} (wlo : WorkloadObject) : list string :=
  let add (imageMap : gset string) (c : Container) := {[c_Image c]} ∪ imageMap in
  let imageMap := foldl add ∅ (Containers wlo) in
  let imageMap := foldl add imageMap (InitContainers wlo) in
  let imageMap := foldl add imageMap (EphemeralContainers wlo) in
  range 0 imageMap.

Definition ContainerPathFormatString (wlo : WorkloadObject) : string :=
  if decide (wlo_Kind wlo = "Pod") then "/spec/%s/%d/image"
  else if decide (wlo_Kind wlo = "CronJob")
  then "/spec/jobTemplate/spec/template/spec/%s/%d/image"
  else "/spec/template/spec/%s/%d/image".

(** * kube_api.go *)

(** An [unstructured.Unstructured] of the dynamic client. *)
Record Unstructured : Type := {
  GetUID : string;
  MarshalJSON : res string;
  u_GroupVersionKind : GroupVersionKind;
}.
Record GroupVersionResource : Type := { Group : string; Version : string; Resource : string }.

(** The dynamic client: [Resource(gvr).Namespace(ns).Get(name)]. *)
Definition Client : Type := GroupVersionResource -> string -> string -> res Unstructured.

Definition fetchKubeResource (client : Client) (group version resource namespace name : string)
  : res Unstructured :=
  let resource := sprintf "%ss" [AStr (to_lower resource)] in
  map_err (fun err => sprintf "error getting resource: %s" [AStr err])
    (client {| Group := group; Version := version; Resource := resource |} namespace name).

Definition owner_group_version (owner : OwnerReference) : string * string :=
  match split "/" (APIVersion owner) with
  | g :: v :: _ => (g, v)
  | [v] => ("", v)
  | [] => ("", "")
  end.

(** What one owner contributes: its images, or nothing on one of the [continue]s. *)
Definition owner_images `{Decoder} (client : Client) (wlo : WorkloadObject)
    (owner : OwnerReference) : res (list string) :=
  let '(group, version) := owner_group_version owner in
  match fetchKubeResource client group version (owner_Kind owner) (wlo_Namespace wlo)
          (owner_Name owner) with
  | Panic w => Panic w
  | Err _ => Ok []
  | Ok parent =>
      if decide (GetUID parent <> owner_UID owner) then Ok [] else
      match MarshalJSON parent with
      | Panic w => Panic w
      | Err _ => Ok []
      | Ok parentBytes =>
          match NewWorkloadObjectFromBytes parentBytes (u_GroupVersionKind parent)
                  (wlo_Namespace wlo) with
          | Panic w => Panic w
          | Err _ => Ok []
          | Ok parentWLO =>
              Ok (Map (Containers parentWLO) c_Image ++ Map (InitContainers parentWLO) c_Image
                  ++ Map (EphemeralContainers parentWLO) c_Image)
          end
      end
  end.

Definition ParentContainerImagesFromKubeAPI `{Decoder} (client : option Client)
    (wlo : WorkloadObject) : res (list string) :=
  match client with
  | None => Ok []
  | Some client =>
      foldM_res (fun containers owner =>
        images ← owner_images client wlo owner; Ok (containers ++ images)) [] (Owners wlo)
  end.

(** * admission_objects.go *)
Definition Update := "UPDATE".

(** The fields of [admission.AdmissionRequest] the code reads. *)
Record AdmissionRequest : Type := {
  ar_UID : string;
  ar_Kind : GroupVersionKind;
  ar_Namespace : string;
  ar_Operation : string;
  ar_Object : string;
  ar_OldObject : string;
}.
Record AdmissionRequestObjects : Type := {
  NewObj : WorkloadObject;
  OldObj : WorkloadObject;
  aro_Kind : string;
  aro_Namespace : string;
  aro_Operation : string;
}.

Definition emptyWLO : WorkloadObject :=
  {| wlo_Name := ""; wlo_Kind := ""; wlo_Namespace := ""; Containers := [];
     InitContainers := []; EphemeralContainers := []; Owners := []; Deleted := false |}.

Definition NewAdmissionRequestObjects `{Decoder} (ar : AdmissionRequest)
  : res AdmissionRequestObjects :=
  oldWLO ← (if decide (ar_Operation ar = Update) then
      map_err (fun err => sprintf "error decoding old workload object: %s" [AStr err])
        (NewWorkloadObjectFromBytes (ar_OldObject ar) (ar_Kind ar) (ar_Namespace ar))
    else Ok emptyWLO);
  wlo ← map_err (fun err => sprintf "error decoding new workload object: %s" [AStr err])
    (NewWorkloadObjectFromBytes (ar_Object ar) (ar_Kind ar) (ar_Namespace ar));
  Ok {| NewObj := wlo; OldObj := oldWLO; aro_Kind := Kind (ar_Kind ar);
        aro_Namespace := ar_Namespace ar; aro_Operation := ar_Operation ar |}.

(** * Positions of a workload's containers *)

(** All containers with the entry that stands for their position, in the order of
    the loops. *)
Definition entries (wlo : WorkloadObject) : list (IdxType * string) :=
  let at_type l type_ :=
    (fun '(idx, c) => ({| Index := idx; Type_ := type_ |}, c_Image c)) <$> enumerate l in
  at_type (Containers wlo) "containers" ++ at_type (InitContainers wlo) "initContainers"
  ++ at_type (EphemeralContainers wlo) "ephemeralContainers".

Definition containers_of (wlo : WorkloadObject) (type_ : string) : list Container :=
  if decide (type_ = "containers") then Containers wlo
  else if decide (type_ = "initContainers") then InitContainers wlo
  else if decide (type_ = "ephemeralContainers") then EphemeralContainers wlo
  else [].
(** The image of the container a position stands for. *)
Definition image_at (wlo : WorkloadObject) (i : IdxType) : option string :=
  c_Image <$> containers_of wlo (Type_ i) !! Index i.

Definition images_of (wlo : WorkloadObject) : list string :=
  c_Image <$> (Containers wlo ++ InitContainers wlo ++ EphemeralContainers wlo).

Lemma elem_of_enumerate {A} (l : list A) i x : (i, x) ∈ enumerate l <-> l !! i = Some x.
Proof.
  unfold enumerate. rewrite elem_of_lookup_imap. split.
  - by intros (j & y & [= -> ->] & H).
  - intros H. by exists i, x.
Qed.
Lemma NoDup_enumerate {A} (l : list A) : NoDup (enumerate l).*1.
Proof.
  apply NoDup_alt. intros i j x. unfold enumerate. rewrite fmap_imap, !list_lookup_imap.
  destruct (l !! i), (l !! j); cbn; congruence.
Qed.

Lemma image_at_entries wlo i img : (i, img) ∈ entries wlo <-> image_at wlo i = Some img.
Proof.
  assert (Hat : forall l t, (i, img) ∈ ((fun '(idx, c) =>
      ({| Index := idx; Type_ := t |}, c_Image c)) <$> enumerate l) <->
    Type_ i = t /\ c_Image <$> l !! Index i = Some img).
  { intros l t. rewrite list_elem_of_fmap. split.
    - intros ([idx c] & [= -> ->] & H%elem_of_enumerate). cbn. by rewrite H.
    - intros [<- H]. apply fmap_Some in H as (c & Hc & ->). exists (Index i, c).
      rewrite elem_of_enumerate. by destruct i. }
  unfold entries, image_at, containers_of. rewrite !elem_of_app, !Hat.
  repeat case_decide; cbn [lookup list_lookup fmap option_fmap option_map]; naive_solver congruence.
Qed.

Lemma NoDup_entries wlo : NoDup (entries wlo).*1.
Proof.
  assert (Hone : forall l t, NoDup (((fun '(idx, c) =>
      ({| Index := idx; Type_ := t |}, c_Image c)) <$> enumerate l).*1)).
  { intros l t. rewrite <- list_fmap_compose. pose proof (NoDup_enumerate l) as H.
    assert (Inj (=) (=) (fun idx => {| Index := idx; Type_ := t |})) by (by intros ? ? [=]).
    apply (NoDup_fmap_2 (fun idx => {| Index := idx; Type_ := t |})) in H.
    rewrite <- list_fmap_compose in H. erewrite list_fmap_ext; [exact H|]. by intros ? [? ?] ?. }
  assert (Htype : forall l t i, i ∈ ((fun '(idx, c) =>
      ({| Index := idx; Type_ := t |}, c_Image c)) <$> enumerate l).*1 -> Type_ i = t).
  { intros l t i (p & -> & Hp)%list_elem_of_fmap.
    apply list_elem_of_fmap in Hp as ([idx c] & -> & _). done. }
  unfold entries. rewrite !fmap_app. rewrite !NoDup_app. repeat split; auto.
  - intros i H1%Htype H2. apply elem_of_app in H2 as [H2%Htype|H2%Htype]; congruence.
  - intros i H1%Htype H2%Htype. congruence.
Qed.

(** The map of [ConsolidatedContainers], built from the entries one at a time. *)
Definition add_entry (m : gmap string (list IdxType)) (e : IdxType * string)
  : gmap string (list IdxType) := <[snd e := default [] (m !! snd e) ++ [fst e]]> m.

Lemma consolidate_step_add type_ m idx c :
  consolidate_step type_ m (idx, c) = add_entry m ({| Index := idx; Type_ := type_ |}, c_Image c).
Proof. unfold consolidate_step, add_entry. cbn. by destruct (m !! c_Image c). Qed.

Lemma ConsolidatedContainers_entries wlo :
  ConsolidatedContainers wlo = foldl add_entry ∅ (entries wlo).
Proof.
  assert (Hloop : forall t l m, foldl (consolidate_step t) m l =
    foldl add_entry m ((fun '(idx, c) => ({| Index := idx; Type_ := t |}, c_Image c)) <$> l)).
  { intros t l. induction l as [|[idx c] l IH]; intros m; [done|].
    cbn [foldl fmap list_fmap]. rewrite consolidate_step_add. apply IH. }
  unfold ConsolidatedContainers, entries. cbn [foldl fst snd]. by rewrite !Hloop, !foldl_app.
Qed.

Definition positions (es : list (IdxType * string)) (img : string) : list IdxType :=
  (List.filter (fun e => bool_decide (snd e = img)) es).*1.

Lemma add_entries_lookup es m img :
  foldl add_entry m es !! img =
  match default [] (m !! img) ++ positions es img with
  | [] => m !! img
  | l => Some l
  end.
Proof.
  revert m. induction es as [|[i x] es IH]; intros m; cbn [foldl].
  - unfold positions; cbn. rewrite app_nil_r. by destruct (m !! img) as [[|]|].
  - rewrite IH. unfold add_entry, positions; cbn [fst snd List.filter].
    case_bool_decide as Hx; [subst|].
    + rewrite lookup_insert_eq. cbn [fmap list_fmap default id fst]. rewrite <- app_assoc. cbn.
      by destruct (default [] (m !! img)).
    + rewrite lookup_insert_ne by done. done.
Qed.

Lemma elem_of_positions es img i : i ∈ positions es img <-> (i, img) ∈ es.
Proof.
  unfold positions. rewrite list_elem_of_fmap. split.
  - intros ([j x] & -> & H). apply elem_of_filter_bool in H as [Hin H].
    by apply bool_decide_eq_true in H as <-.
  - intros H. exists (i, img). split; [done|]. apply elem_of_filter_bool. split; [done|].
    by apply bool_decide_eq_true.
Qed.

Lemma entries_images wlo : (entries wlo).*2 = images_of wlo.
Proof.
  assert (Hone : forall l t, ((fun '(idx, c) =>
      ({| Index := idx; Type_ := t |}, c_Image c)) <$> enumerate l).*2 = c_Image <$> l).
  { intros l t. unfold enumerate. rewrite !fmap_imap. rewrite <- (imap_const c_Image).
    apply imap_ext. done. }
  unfold entries, images_of. by rewrite !fmap_app, !Hone.
Qed.

Lemma elem_of_ImageSet `{MapOrder} wlo img : img ∈ ImageSet wlo <-> img ∈ images_of wlo.
Proof.
  assert (Hadd : forall l (s : gset string),
    img ∈ foldl (fun m c => {[c_Image c]} ∪ m) s l <-> img ∈ s \/ img ∈ c_Image <$> l).
  { induction l as [|c l IH]; intros s; cbn; [rewrite elem_of_nil; tauto|].
    rewrite IH, elem_of_cons. set_solver. }
  unfold ImageSet, images_of. rewrite elem_of_range, !Hadd, !fmap_app, !elem_of_app. set_solver.
Qed.

Lemma ConsolidatedContainers_spec (wlo : WorkloadObject) (img : string) :
  (forall i, i ∈ default [] (ConsolidatedContainers wlo !! img) <-> image_at wlo i = Some img) /\
  (forall l, ConsolidatedContainers wlo !! img = Some l -> l <> [] /\ NoDup l) /\
  (img ∈ dom (ConsolidatedContainers wlo) <-> img ∈ images_of wlo).
Proof.
  rewrite ConsolidatedContainers_entries, elem_of_dom, add_entries_lookup, lookup_empty.
  cbn [default app]. split; [|split].
  - intros i. rewrite <- image_at_entries, <- elem_of_positions. by destruct (positions _ _).
  - intros l Hl. assert (NoDup (positions (entries wlo) img)).
    { unfold positions. apply (sublist_NoDup _ (entries wlo).*1); [apply NoDup_entries|].
      clear Hl. induction (entries wlo) as [|e es IH]; cbn; [constructor|].
      case_bool_decide; cbn; [by apply sublist_skip|by apply sublist_cons]. }
    by destruct (positions _ _); simplify_eq.
  - rewrite <- entries_images, list_elem_of_fmap. split.
    + intros Hs. destruct (positions (entries wlo) img) as [|i l] eqn:E; [by destruct Hs|].
      exists (i, img). split; [done|]. apply elem_of_positions. rewrite E. by left.
    + intros ([i x] & -> & Hin%elem_of_positions). cbn [snd] in *. destruct (positions _ _); [by apply elem_of_nil in Hin|by eexists].
Qed.

(** C28: [ConsolidatedContainers] groups the containers of a workload by image: the
    entries of an image are the positions (type and index) of the containers with
    that image, each exactly once, and the keys are the images of the workload. *)
Theorem ConsolidatedContainers_correct (wlo : WorkloadObject) (img : string) :
  (forall i, i ∈ default [] (ConsolidatedContainers wlo !! img) <-> image_at wlo i = Some img) /\
  (forall l, ConsolidatedContainers wlo !! img = Some l -> l <> [] /\ NoDup l) /\
  (img ∈ dom (ConsolidatedContainers wlo) <-> img ∈ images_of wlo).
Proof. apply ConsolidatedContainers_spec. Qed.

(** * Decoding *)
Lemma no_containers (l1 l2 l3 : list Container) :
  (length l1 =? 0) && (length l2 =? 0) && (length l3 =? 0) = true <->
  c_Image <$> (l1 ++ l2 ++ l3) = [].
Proof. destruct l1, l2, l3; cbn; naive_solver. Qed.

Lemma assert_object_Panic kind obj w :
  assert_object kind obj = Panic w ->
  kind = "ReplicationController" /\ exists m, obj = Some (ReplicationController m None).
Proof.
  unfold assert_object. cbv zeta. intros H. repeat case_decide; subst;
    repeat case_match; simplify_eq; try done. split; [done|by eexists].
Qed.

(** C29: [NewWorkloadObjectFromBytes] never returns a workload without containers,
    what it returns carries the kind and namespace of the request and only a pod
    brings ephemeral containers, and it panics exactly when the raw object of a
    replication controller has no pod template. *)
Theorem NewWorkloadObjectFromBytes_outcome `{Decoder} (raw : string) (kind : GroupVersionKind)
    (ns : string) :
  (forall wlo, NewWorkloadObjectFromBytes raw kind ns = Ok wlo ->
     images_of wlo <> [] /\ wlo_Kind wlo = Kind kind /\ wlo_Namespace wlo = ns /\
     Kind kind ∈ workload_kinds /\ (Kind kind <> "Pod" -> EphemeralContainers wlo = [])) /\
  ((exists w, NewWorkloadObjectFromBytes raw kind ns = Panic w) <->
     Kind kind = "ReplicationController" /\
     exists m, fst (Decode raw kind (Kind kind)) = Some (ReplicationController m None)).
Proof.
  unfold NewWorkloadObjectFromBytes, Deserialize.
  destruct (decide (Kind kind ∈ workload_kinds)) as [Hk|Hk]; [|split].
  - destruct (Decode raw kind (Kind kind)) as [obj err]. cbn [fst]. split.
    + intros wlo (d & Hd & H1)%bind_Ok. destruct err; [done|].
      destruct (_ && _) eqn:E; [done|]. injection H1 as <-. cbn.
      split; [|split; [done|split; [done|split; [done|]]]].
      * unfold images_of. cbn. intros Hn%no_containers. by rewrite E in Hn.
      * intros Hp. unfold assert_object in Hd. cbv zeta in Hd.
        rewrite decide_False in Hd by done. repeat case_match; simplify_eq; done.
    + split.
      * intros [w [Hw|(d & Hd & Hw)]%bind_Panic]; [by apply assert_object_Panic in Hw|].
        by repeat case_match.
      * intros [-> [m ->]]. by eexists.
  - done.
  - split; [by intros [w Hw]|]. intros [Hrc _]. destruct Hk. rewrite Hrc. set_solver.
Qed.

(** A decoder that knows a deployment with one container and one init container
    and a replication controller without a template. *)
Definition demo_meta : ObjectMeta :=
  {| meta_Name := "web"; GenerateName := ""; OwnerReferences := []; DeletionTimestamp := None |}.
Definition demo_decoder : Decoder := {| Decode raw kind into :=
  if decide (raw = "deployment") then
    (Some (Deployment demo_meta {| spec_Containers := [{| c_Image := "nginx" |}];
       spec_InitContainers := [{| c_Image := "busybox" |}]; spec_EphemeralContainers := [] |}), None)
  else if decide (raw = "rc") then (Some (ReplicationController demo_meta None), None)
  else (None, Some "couldn't decode") |}.
Definition demo_kind (k : string) : GroupVersionKind :=
  {| gvk_Group := "apps"; gvk_Version := "v1"; Kind := k |}.

(** * Images of the owners *)

(** The images the code reads off one owner: those of the workload that the API
    returns for it, provided it has the UID the reference names. *)
Definition approved_by `{Decoder} (client : Client) (wlo : WorkloadObject)
    (owner : OwnerReference) (img : string) : Prop :=
  exists parent raw parentWLO,
    fetchKubeResource client (fst (owner_group_version owner)) (snd (owner_group_version owner))
      (owner_Kind owner) (wlo_Namespace wlo) (owner_Name owner) = Ok parent /\
    GetUID parent = owner_UID owner /\ MarshalJSON parent = Ok raw /\
    NewWorkloadObjectFromBytes raw (u_GroupVersionKind parent) (wlo_Namespace wlo) = Ok parentWLO /\
    img ∈ images_of parentWLO.

Lemma owner_images_spec `{Decoder} client wlo owner imgs img :
  owner_images client wlo owner = Ok imgs ->
  img ∈ imgs <-> approved_by client wlo owner img.
Proof.
  unfold owner_images, approved_by. destruct (owner_group_version owner) as [g v]. cbn [fst snd].
  destruct (fetchKubeResource _ _ _ _ _ _) as [parent|e|w] eqn:Ef; intros H1; simplify_eq.
  - destruct (decide (GetUID parent <> owner_UID owner)) as [Hu|Hu]; simplify_eq.
    { rewrite elem_of_nil. split; [done|]. by intros (? & ? & ? & [= <-] & ? & _). }
    apply dec_stable in Hu.
    destruct (MarshalJSON parent) as [raw|e|w] eqn:Em; simplify_eq.
    2:{ rewrite elem_of_nil. split; [done|].
        intros (? & ? & ? & [= <-] & _ & Hm & _). congruence. }
    destruct (NewWorkloadObjectFromBytes _ _ _) as [pw|e|w] eqn:En; simplify_eq.
    + rewrite !Map_fmap, <- !fmap_app. split.
      * intros Hi. by exists parent, raw, pw.
      * intros (? & ? & ? & [= <-] & _ & Hm & Hn & Hi). rewrite Em in Hm. injection Hm as <-.
        rewrite En in Hn. by injection Hn as <-.
    + rewrite elem_of_nil. split; [done|]. intros (? & ? & ? & [= <-] & _ & Hm & Hn & _).
      congruence.
  - rewrite elem_of_nil. split; [done|]. by intros (? & ? & ? & ? & _).
Qed.

(** C30: when the loop over the owners completes, the parent images are exactly
    the images of the workloads the API returns for the owner references under
    their UIDs, in the namespace of the workload; without a client there are none. *)
Theorem ParentContainerImages_approved `{Decoder} (client : option Client)
    (wlo : WorkloadObject) (imgs : list string) (img : string) :
  ParentContainerImagesFromKubeAPI client wlo = Ok imgs ->
  img ∈ imgs <->
  exists c owner, client = Some c /\ owner ∈ Owners wlo /\ approved_by c wlo owner img.
Proof.
  destruct client as [c|]; cbn [ParentContainerImagesFromKubeAPI]; intros Hloop.
  2:{ injection Hloop as <-. rewrite elem_of_nil. split; [done|]. by intros (? & ? & ? & _). }
  revert imgs img Hloop.
  cut (forall imgs, foldM_res (fun containers owner =>
      images ← owner_images c wlo owner; Ok (containers ++ images)) [] (Owners wlo) = Ok imgs ->
    forall img, img ∈ imgs <-> exists owner, owner ∈ Owners wlo /\ approved_by c wlo owner img).
  { intros Hall imgs img Hl. rewrite (Hall imgs Hl). split.
    - intros (o & Ho & Hi). by exists c, o.
    - intros (? & o & [= <-] & Ho & Hi). by exists o. }
  intros imgs. apply (foldM_res_inv (fun os acc =>
    forall img, img ∈ acc <-> exists owner, owner ∈ os /\ approved_by c wlo owner img)).
  - intros img. rewrite elem_of_nil. set_solver.
  - intros os o acc acc' IH Ho (is_ & Hi & [= <-])%bind_Ok img.
    rewrite elem_of_app, IH, (owner_images_spec c wlo o) by done. set_solver.
Qed.

Definition demo_client : Client := fun gvr ns name =>
  if decide (Resource gvr = "deployments" /\ name = "web")
  then Ok {| GetUID := "42"; MarshalJSON := Ok "deployment";
             u_GroupVersionKind := demo_kind "Deployment" |}
  else Err "not found".
Definition demo_owner (uid : string) : OwnerReference :=
  {| APIVersion := "apps/v1"; owner_Kind := "Deployment"; owner_UID := uid; owner_Name := "web" |}.
Definition demo_pod : WorkloadObject :=
  {| wlo_Name := "web-1"; wlo_Kind := "Pod"; wlo_Namespace := "default";
     Containers := [{| c_Image := "nginx" |}]; InitContainers := []; EphemeralContainers := [];
     Owners := [demo_owner "41"; demo_owner "42"]; Deleted := false |}.

Lemma ParentContainerImages_approved_witness :
  "busybox" ∈ ["nginx"; "busybox"] <->
  exists c owner, Some demo_client = Some c /\ owner ∈ Owners demo_pod /\
    approved_by (H := demo_decoder) c demo_pod owner "busybox".
Proof. apply ParentContainerImages_approved. vm_compute. reflexivity. Defined.
