(* ===== verification/Json.v ===== *)
(** JSON: the escaping helpers of [internal/utils/strings.go], and as much of Go's
    [encoding/json] and [unicode/utf8] as the program uses: the string encoder
    without HTML escaping, and decoding into a struct of strings. *)
From S2P Require Import Prelude GoStrings Utils.
From Stdlib Require Import Ascii.

(** * UTF-8 *)

(** A string as Go's [range] and [utf8.DecodeRune] read it: ASCII bytes, well-formed
    encodings of 2 to 4 bytes, and single bytes that start no such encoding. *)
Inductive chunk : Type :=
  | Byte (c : ascii)
  | Rune (enc : string)
  | Invalid (c : ascii).

Definition code (c : ascii) : nat := nat_of_ascii c.
Definition between (lo hi : nat) (c : ascii) : bool := (lo <=? code c) && (code c <=? hi).
Definition tail_byte : ascii -> bool := between 128 191.

Definition valid2 (a b : ascii) : bool := between 194 223 a && tail_byte b.
Definition valid3 (a b c : ascii) : bool :=
  tail_byte c &&
  (if code a =? 224 then between 160 191 b
   else if code a =? 237 then between 128 159 b
   else between 225 239 a && tail_byte b).
Definition valid4 (a b c d : ascii) : bool :=
  tail_byte c && tail_byte d &&
  (if code a =? 240 then between 144 191 b
   else if code a =? 244 then between 128 143 b
   else between 241 243 a && tail_byte b).

Fixpoint chunks (s : string) : list chunk :=
  match s with
  | "" => []
  | String a s1 =>
      if code a <? 128 then Byte a :: chunks s1 else
      match s1 with
      | String b s2 =>
          if valid2 a b then Rune (String a (String b "")) :: chunks s2 else
          match s2 with
          | String c s3 =>
              if valid3 a b c then Rune (String a (String b (String c ""))) :: chunks s3 else
              match s3 with
              | String d s4 =>
                  if valid4 a b c d
                  then Rune (String a (String b (String c (String d "")))) :: chunks s4
                  else Invalid a :: chunks s1
              | "" => Invalid a :: chunks s1
              end
          | "" => Invalid a :: chunks s1
          end
      | "" => [Invalid a]
      end
  end.

Definition ascii_of (n : N) : ascii := ascii_of_N n.
(** The encoding of U+FFFD, the replacement character. *)
Definition replacement : string :=
  String (ascii_of 239) (String (ascii_of 191) (String (ascii_of 189) "")).

(** A string as valid UTF-8: every offending byte replaced. *)
Definition chunk_bytes (c : chunk) : string :=
  match c with Byte a => String a "" | Rune enc => enc | Invalid _ => replacement end.
Fixpoint concat_map (f : chunk -> string) (l : list chunk) : string :=
  match l with [] => "" | c :: l' => f c +:+ concat_map f l' end.
Definition to_valid (s : string) : string := concat_map chunk_bytes (chunks s).
Definition valid_utf8 (s : string) : Prop := forall c, Invalid c ∉ chunks s.

(** The encoding of a code point of the basic multilingual plane or above
    ([utf8.AppendRune]); a surrogate half becomes U+FFFD. *)
Definition is_surrogate (r : N) : bool := ((55296 <=? r) && (r <=? 57343))%N.
Definition encode_rune (r : N) : string :=
  (if r <? 128 then String (ascii_of r) ""
   else if r <? 2048 then
     String (ascii_of (192 + r / 64)) (String (ascii_of (128 + r mod 64)) "")
   else if is_surrogate r then replacement
   else if r <? 65536 then
     String (ascii_of (224 + r / 4096))
       (String (ascii_of (128 + (r / 64) mod 64)) (String (ascii_of (128 + r mod 64)) ""))
   else
     String (ascii_of (240 + r / 262144))
       (String (ascii_of (128 + (r / 4096) mod 64))
          (String (ascii_of (128 + (r / 64) mod 64)) (String (ascii_of (128 + r mod 64)) ""))))%N.

(** * Encoding of strings *)
Definition hex_digit (n : nat) : ascii :=
  ascii_of_nat (if n <? 10 then 48 + n else 87 + n).
Definition bs : ascii := "\".

(** [appendString] with [escapeHTML] off. *)
Definition escape_byte (c : ascii) : string :=
  let n := code c in
  if (c =? bs)%char || (n =? 34) then String bs (String c "")
  else if n =? 8 then "\b"
  else if n =? 12 then "\f"
  else if n =? 10 then "\n"
  else if n =? 13 then "\r"
  else if n =? 9 then "\t"
  else if n <? 32 then "\u00" +:+ String (hex_digit (n / 16)) (String (hex_digit (n mod 16)) "")
  else String c "".
Definition line_separator (enc : string) : option string :=
  if decide (enc = encode_rune 8232) then Some "\u2028"
  else if decide (enc = encode_rune 8233) then Some "\u2029" else None.
Definition escape_chunk (c : chunk) : string :=
  match c with
  | Byte a => escape_byte a
  | Rune enc => default enc (line_separator enc)
  | Invalid _ => "\ufffd"
  end.

(** [json.NewEncoder(b).Encode(i)]: the quoted string and a newline. *)
Definition encode_string (i : string) : string :=
  dq +:+ concat_map escape_chunk (chunks i) +:+ dq +:+ nl.

(** [o[1 : len(o)-2]] is the text between the quotes. *)
Definition JsonEscapeString (i : string) : string :=
  let o := encode_string i in str_take (String.length o - 3) (str_drop 1 o).

(** * The verb [%+q]: [strconv.QuoteToASCII], and slices of strings *)
Fixpoint hex_digits (n : nat) (r : N) : string :=
  match n with
  | O => ""
  | S n' => hex_digits n' (r / 16)%N +:+ String (hex_digit (N.to_nat (r mod 16)%N)) ""
  end.
(** The code point of a well-formed encoding. *)
Definition decode_rune (enc : string) : N :=
  let b (c : ascii) := (N_of_ascii c mod 64)%N in
  match enc with
  | String a (String c "") => ((N_of_ascii a mod 32) * 64 + b c)%N
  | String a (String c (String d "")) => ((N_of_ascii a mod 16) * 4096 + b c * 64 + b d)%N
  | String a (String c (String d (String e ""))) =>
      ((N_of_ascii a mod 8) * 262144 + b c * 4096 + b d * 64 + b e)%N
  | _ => 65533%N
  end.
Definition quote_byte (c : ascii) : string :=
  let n := code c in
  if (c =? bs)%char || (n =? 34) then String bs (String c "")
  else if (32 <=? n) && (n <? 127) then String c ""
  else if n =? 7 then "\a" else if n =? 8 then "\b" else if n =? 12 then "\f"
  else if n =? 10 then "\n" else if n =? 13 then "\r" else if n =? 9 then "\t"
  else if n =? 11 then "\v"
  else "\x" +:+ hex_digits 2 (N.of_nat n).
Definition quote_chunk (c : chunk) : string :=
  match c with
  | Byte a => quote_byte a
  | Rune enc => let r := decode_rune enc in
      if (r <? 65536)%N then "\u" +:+ hex_digits 4 r else "\U" +:+ hex_digits 8 r
  | Invalid a => "\x" +:+ hex_digits 2 (N_of_ascii a)
  end.
Definition quote_ascii (s : string) : string := dq +:+ concat_map quote_chunk (chunks s) +:+ dq.
Definition quote_slice (l : list string) : string := show_slice (quote_ascii <$> l).

(** * Decoding: the scanner *)
Inductive token : Type :=
  | TPunct (c : ascii)
  | TStr (s : string)
  | TNum (s : string)
  | TWord (s : string).

Definition hex_value (c : ascii) : option N :=
  let n := N_of_ascii c in
  (if (48 <=? n) && (n <=? 57) then Some (n - 48)
   else if (97 <=? n) && (n <=? 102) then Some (n - 87)
   else if (65 <=? n) && (n <=? 70) then Some (n - 55) else None)%N.
Definition hex4 (a b c d : chunk) : option N :=
  match a, b, c, d with
  | Byte a, Byte b, Byte c, Byte d =>
      x ← hex_value a; y ← hex_value b; z ← hex_value c; w ← hex_value d;
      Some (4096 * x + 256 * y + 16 * z + w)%N
  | _, _, _, _ => None
  end.

Definition simple_escape (c : ascii) : option string :=
  if (c =? bs)%char || (c =? "/")%char || (code c =? 34) then Some (String c "")
  else if (c =? "b")%char then Some (String (ascii_of 8) "")
  else if (c =? "f")%char then Some (String (ascii_of 12) "")
  else if (c =? "n")%char then Some nl
  else if (c =? "r")%char then Some (String (ascii_of 13) "")
  else if (c =? "t")%char then Some (String (ascii_of 9) "")
  else None.

(** The value of the escape for the low half of a surrogate pair. *)
Definition surrogate_pair (hi lo : N) : option N :=
  (if (55296 <=? hi) && (hi <? 56320) && (56320 <=? lo) && (lo <=? 57343)
   then Some (65536 + (hi - 55296) * 1024 + (lo - 56320)) else None)%N.

(** [unquote]: the contents of a string literal. *)
Fixpoint unquote (l : list chunk) : option string :=
  match l with
  | [] => Some ""
  | Byte a :: l1 =>
      if (a =? bs)%char then
        match l1 with
        | Byte e :: l2 =>
            if (e =? "u")%char then
              match l2 with
              | h1 :: h2 :: h3 :: h4 :: l3 =>
                  r ← hex4 h1 h2 h3 h4;
                  let single := s ← unquote l3; Some (encode_rune r +:+ s) in
                  if is_surrogate r then
                    match l3 with
                    | Byte b :: Byte u :: g1 :: g2 :: g3 :: g4 :: l4 =>
                        if (b =? bs)%char && (u =? "u")%char then
                          match hex4 g1 g2 g3 g4 ≫= surrogate_pair r with
                          | Some p => s ← unquote l4; Some (encode_rune p +:+ s)
                          | None => single
                          end
                        else single
                    | _ => single
                    end
                  else single
              | _ => None
              end
            else x ← simple_escape e; s ← unquote l2; Some (x +:+ s)
        | _ => None
        end
      else s ← unquote l1; Some (String a s)
  | c :: l1 => s ← unquote l1; Some (chunk_bytes c +:+ s)
  end.

(** The scanner's state between bytes: inside a string literal (with the text so
    far, after a backslash or not), inside a number or a word, or elsewhere. *)
Inductive lex_state : Type :=
  | LNormal | LStr (acc : string) | LEsc (acc : string) | LNum (acc : string)
  | LWord (acc : string).

Definition is_digit (c : ascii) : bool := between 48 57 c.
Definition is_letter (c : ascii) : bool := between 97 122 c.
Definition is_space (c : ascii) : bool :=
  existsb (Nat.eqb (code c)) [32; 9; 10; 13].
Definition is_punct (c : ascii) : bool :=
  existsb (Ascii.eqb c) ["{"; "}"; "["; "]"; ","; ":"]%char.
Definition number_char (c : ascii) : bool :=
  is_digit c || existsb (Ascii.eqb c) ["+"; "-"; "."; "e"; "E"]%char.

Definition lex_normal (c : ascii) : option (list token * lex_state) :=
  if is_space c then Some ([], LNormal)
  else if is_punct c then Some ([TPunct c], LNormal)
  else if code c =? 34 then Some ([], LStr "")
  else if is_digit c || (c =? "-")%char then Some ([], LNum (String c ""))
  else if is_letter c then Some ([], LWord (String c ""))
  else None.
Definition lex_byte (st : lex_state) (c : ascii) : option (list token * lex_state) :=
  let finish t := '(ts, st') ← lex_normal c; Some (t :: ts, st') in
  match st with
  | LNormal => lex_normal c
  | LStr acc =>
      if code c =? 34 then s ← unquote (chunks acc); Some ([TStr s], LNormal)
      else if (c =? bs)%char then Some ([], LEsc (acc +:+ String c ""))
      else if code c <? 32 then None
      else Some ([], LStr (acc +:+ String c ""))
  | LEsc acc =>
      if (c =? "u")%char || bool_decide (is_Some (simple_escape c))
      then Some ([], LStr (acc +:+ String c "")) else None
  | LNum acc => if number_char c then Some ([], LNum (acc +:+ String c "")) else finish (TNum acc)
  | LWord acc => if is_letter c then Some ([], LWord (acc +:+ String c "")) else finish (TWord acc)
  end.
Fixpoint lex_from (st : lex_state) (s : string) : option (list token) :=
  match s with
  | "" =>
      match st with
      | LNormal => Some []
      | LNum acc => Some [TNum acc]
      | LWord acc => Some [TWord acc]
      | LStr _ | LEsc _ => None
      end
  | String c s' => '(ts, st') ← lex_byte st c; rest ← lex_from st' s'; Some (ts ++ rest)
  end.

(** * Decoding: values *)
Inductive json : Type :=
  | JNull | JBool (b : bool) | JNum (s : string) | JStr (s : string)
  | JArr (l : list json) | JObj (l : list (string * json)).

(** The grammar of numbers, as an automaton. *)
Inductive num_state : Type :=
  NStart | NNeg | NZero | NInt | NDot | NFrac | NExp | NExpSign | NExpInt | NBad.
Definition num_step (st : num_state) (c : ascii) : num_state :=
  let d := is_digit c in
  let e := existsb (Ascii.eqb c) ["e"; "E"]%char in
  match st with
  | NStart => if (c =? "-")%char then NNeg else if (c =? "0")%char then NZero
              else if d then NInt else NBad
  | NNeg => if (c =? "0")%char then NZero else if d then NInt else NBad
  | NZero => if (c =? ".")%char then NDot else if e then NExp else NBad
  | NInt => if d then NInt else if (c =? ".")%char then NDot else if e then NExp else NBad
  | NDot => if d then NFrac else NBad
  | NFrac => if d then NFrac else if e then NExp else NBad
  | NExp => if existsb (Ascii.eqb c) ["+"; "-"]%char then NExpSign
            else if d then NExpInt else NBad
  | NExpSign | NExpInt => if d then NExpInt else NBad
  | NBad => NBad
  end.
Fixpoint num_run (st : num_state) (s : string) : num_state :=
  match s with "" => st | String c s' => num_run (num_step st c) s' end.
Definition is_number (s : string) : bool :=
  match num_run NStart s with NZero | NInt | NFrac | NExpInt => true | _ => false end.

Definition scalar (t : token) : option json :=
  match t with
  | TStr s => Some (JStr s)
  | TNum s => if is_number s then Some (JNum s) else None
  | TWord s =>
      if decide (s = "null") then Some JNull
      else if decide (s = "true") then Some (JBool true)
      else if decide (s = "false") then Some (JBool false) else None
  | TPunct _ => None
  end.

(** The parser's stack of open arrays and objects (an object with the key whose
    value comes next) and what it expects. *)
Inductive frame : Type :=
  | FArr (elems : list json)
  | FObj (fields : list (string * json)) (key : string).
Inductive mode : Type :=
  | MValue | MElemOrEnd | MKey | MKeyOrEnd | MColon | MAfter | MDone (v : json).

Definition deliver (v : json) (stack : list frame) : mode * list frame :=
  match stack with
  | [] => (MDone v, [])
  | FArr elems :: st => (MAfter, FArr (elems ++ [v]) :: st)
  | FObj fields key :: st => (MAfter, FObj (fields ++ [(key, v)]) key :: st)
  end.

Definition parse_value (t : token) (stack : list frame) : option (mode * list frame) :=
  match t with
  | TPunct "{" => Some (MKeyOrEnd, FObj [] "" :: stack)
  | TPunct "[" => Some (MElemOrEnd, FArr [] :: stack)
  | _ => v ← scalar t; Some (deliver v stack)
  end.
Definition parse_token (st : mode * list frame) (t : token) : option (mode * list frame) :=
  match st, t with
  | (MValue, stack), _ => parse_value t stack
  | (MElemOrEnd, FArr elems :: stack), TPunct "]" => Some (deliver (JArr elems) stack)
  | (MElemOrEnd, stack), _ => parse_value t stack
  | (MKeyOrEnd, FObj fields _ :: stack), TPunct "}" => Some (deliver (JObj fields) stack)
  | (MKeyOrEnd, FObj fields _ :: stack), TStr k
  | (MKey, FObj fields _ :: stack), TStr k => Some (MColon, FObj fields k :: stack)
  | (MColon, stack), TPunct ":" => Some (MValue, stack)
  | (MAfter, FArr elems :: stack), TPunct "," => Some (MValue, FArr elems :: stack)
  | (MAfter, FArr elems :: stack), TPunct "]" => Some (deliver (JArr elems) stack)
  | (MAfter, FObj fields k :: stack), TPunct "," => Some (MKey, FObj fields k :: stack)
  | (MAfter, FObj fields _ :: stack), TPunct "}" => Some (deliver (JObj fields) stack)
  | _, _ => None
  end.
Fixpoint parse_tokens (st : mode * list frame) (l : list token) : option json :=
  match l with
  | [] => match st with (MDone v, []) => Some v | _ => None end
  | t :: l' => st' ← parse_token st t; parse_tokens st' l'
  end.
Definition parse_json (s : string) : option json :=
  ts ← lex_from LNormal s; parse_tokens (MValue, []) ts.

(** * [json.Unmarshal] into a struct with string fields

    Fields are matched by name, exactly or under case folding (beside the letter case,
    U+017F and the Kelvin sign fold to [s] and [k]); a null leaves the field alone,
    another type is an error reported after the remaining fields. *)
Definition fold_chunk (c : chunk) : string :=
  match c with
  | Byte a => String (lower_byte a) ""
  | Rune enc =>
      if decide (enc = encode_rune 383) then "s"
      else if decide (enc = encode_rune 8490) then "k" else enc
  | Invalid a => String a ""
  end.
Definition fold_name (s : string) : string := concat_map fold_chunk (chunks s).

Definition set_field (names : list string) (st : gmap string string * bool)
    (field : string * json) : gmap string string * bool :=
  let '(vals, bad) := st in
  match List.filter (fun n => bool_decide (fold_name (fst field) = n)) names with
  | n :: _ =>
      match snd field with
      | JStr s => (<[n := s]> vals, bad)
      | JNull => (vals, bad)
      | _ => (vals, true)
      end
  | [] => (vals, bad)
  end.

(** The values of the fields [names] (in lower case, distinct) that were set. *)
Definition unmarshal_strings (names : list string) (s : string) : res (gmap string string) :=
  match parse_json s with
  | None => Err "invalid JSON"
  | Some JNull => Ok ∅
  | Some (JObj fields) =>
      let '(vals, bad) := foldl (set_field names) (∅, false) fields in
      if bad then Err "json: cannot unmarshal value into Go struct field of type string"
      else Ok vals
  | Some _ => Err "json: cannot unmarshal value into Go value of struct type"
  end.

Example parse_ex :
  parse_json (" {" +:+ dq +:+ "a" +:+ dq +:+ ": [1, -2.5e3, true, {}, []], "
    +:+ dq +:+ "b" +:+ dq +:+ ":" +:+ dq +:+ "\u0041\ud83d\ude00" +:+ dq +:+ "}") =
  Some (JObj [("a", JArr [JNum "1"; JNum "-2.5e3"; JBool true; JObj []; JArr []]);
              ("b", JStr ("A" +:+ encode_rune 128512))]).
Proof. vm_compute. reflexivity. Qed.

(** * Escaping and unescaping *)
Lemma between_true lo hi c : between lo hi c = true <-> lo <= code c <= hi.
Proof. unfold between. rewrite andb_true_iff, !Nat.leb_le. done. Qed.

(** A chunk as [chunks] produces it. *)
Fixpoint high_bytes (s : string) : bool :=
  match s with "" => true | String c s' => (128 <=? code c) && high_bytes s' end.
Definition wf_chunk (c : chunk) : Prop :=
  match c with
  | Byte a => code a < 128
  | Rune enc => high_bytes enc = true /\ forall s, chunks (enc +:+ s) = Rune enc :: chunks s
  | Invalid a => 128 <= code a
  end.

Lemma valid_high a b c d :
  (valid2 a b = true -> 128 <= code a /\ 128 <= code b) /\
  (valid3 a b c = true -> 128 <= code a /\ 128 <= code b /\ 128 <= code c) /\
  (valid4 a b c d = true ->
     128 <= code a /\ 128 <= code b /\ 128 <= code c /\ 128 <= code d).
Proof.
  unfold valid2, valid3, valid4, tail_byte. split; [|split].
  - rewrite andb_true_iff, !between_true. intros [? ?]. lia.
  - rewrite andb_true_iff, !between_true. intros [? Hb].
    destruct (_ =? 224) eqn:E1; [|destruct (_ =? 237) eqn:E2]; try apply Nat.eqb_eq in E1;
      try apply Nat.eqb_eq in E2; rewrite ?andb_true_iff, !between_true in Hb; lia.
  - rewrite !andb_true_iff, !between_true. intros [[? ?] Hb].
    destruct (_ =? 240) eqn:E1; [|destruct (_ =? 244) eqn:E2]; try apply Nat.eqb_eq in E1;
      try apply Nat.eqb_eq in E2; rewrite ?andb_true_iff, !between_true in Hb; lia.
Qed.

Lemma chunks_wf s : Forall wf_chunk (chunks s).
Proof.
  enough (H : forall n s, String.length s <= n -> Forall wf_chunk (chunks s)) by eauto.
  clear s. induction n as [|n IH]; intros [|a s1] Hn; cbn in Hn; try lia; [constructor..|].
  cbn [chunks]. destruct (code a <? 128) eqn:Ea.
  { constructor; [by apply Nat.ltb_lt|apply IH; lia]. }
  assert (Ha : wf_chunk (Invalid a)) by (by apply Nat.ltb_ge).
  destruct s1 as [|b s2]; [by repeat constructor|]. cbn in Hn.
  assert (Hrune : forall enc r, high_bytes enc = true ->
    (forall s, chunks (enc +:+ s) = Rune enc :: chunks s) -> String.length r <= n ->
    Forall wf_chunk (Rune enc :: chunks r)) by (intros; constructor; [done|by apply IH]).
  destruct (valid2 a b) eqn:E2.
  { apply Hrune; [| |lia].
    - destruct (valid_high a b a a) as [[? ?] _]; [done|]. cbn [high_bytes].
      by rewrite !(proj2 (Nat.leb_le _ _)).
    - intros s. rewrite !app_cons, app_empty_l. cbn [chunks]. by rewrite Ea, E2. }
  destruct s2 as [|c s3]; [constructor; [done|apply IH; cbn; lia]|]. cbn in Hn.
  destruct (valid3 a b c) eqn:E3.
  { apply Hrune; [| |lia].
    - destruct (valid_high a b c a) as [_ [(? & ? & ?) _]]; [done|]. cbn [high_bytes].
      by rewrite !(proj2 (Nat.leb_le _ _)).
    - intros s. rewrite !app_cons, app_empty_l. cbn [chunks]. by rewrite Ea, E2, E3. }
  destruct s3 as [|d s4]; [constructor; [done|apply IH; cbn; lia]|]. cbn in Hn.
  destruct (valid4 a b c d) eqn:E4; [|constructor; [done|apply IH; cbn; lia]].
  apply Hrune; [| |lia].
  - destruct (valid_high a b c d) as [_ [_ (? & ? & ? & ?)]]; [done|]. cbn [high_bytes].
    by rewrite !(proj2 (Nat.leb_le _ _)).
  - intros s. rewrite !app_cons, app_empty_l. cbn [chunks]. by rewrite Ea, E2, E3, E4.
Qed.

Lemma chunks_ascii a s : code a < 128 -> chunks (String a s) = Byte a :: chunks s.
Proof. intros H. cbn [chunks]. by rewrite (proj2 (Nat.ltb_lt _ _)). Qed.
Lemma unquote_plain a l :
  a <> bs -> unquote (Byte a :: l) = s ← unquote l; Some (String a s).
Proof. intros H%Ascii.eqb_neq. cbn [unquote]. by rewrite H. Qed.
Lemma unquote_simple e x l :
  e <> "u"%char -> simple_escape e = Some x ->
  unquote (Byte bs :: Byte e :: l) = s ← unquote l; Some (x +:+ s).
Proof. intros H%Ascii.eqb_neq He. cbn [unquote]. rewrite H, He. done. Qed.
Lemma unquote_u h1 h2 h3 h4 r l :
  hex4 h1 h2 h3 h4 = Some r -> is_surrogate r = false ->
  unquote (Byte bs :: Byte "u" :: h1 :: h2 :: h3 :: h4 :: l)
    = s ← unquote l; Some (encode_rune r +:+ s).
Proof. intros Hh Hr. cbn [unquote]. rewrite Hh. cbn [mbind option_bind]. by rewrite Hr. Qed.

Lemma hex_of_digit n : n < 16 -> hex_value (hex_digit n) = Some (N.of_nat n).
Proof. intros H. do 16 (destruct n as [|n]; [reflexivity|]). lia. Qed.
Lemma code_hex_digit n : n < 16 -> code (hex_digit n) < 128.
Proof. intros H. do 16 (destruct n as [|n]; [vm_compute; lia|]). lia. Qed.

Lemma unquote_escape_byte a s :
  code a < 128 ->
  unquote (chunks (escape_byte a +:+ s)) = s' ← unquote (chunks s); Some (String a s').
Proof.
  intros Ha. assert (Hcode : forall n, code a = n -> a = ascii_of_nat n).
  { intros n <-. symmetry. apply ascii_nat_embedding. }
  assert (Hsimple : forall e x, code e < 128 -> e <> "u"%char ->
    simple_escape e = Some (String x "") ->
    unquote (chunks (String bs (String e s))) = s' ← unquote (chunks s); Some (String x s')).
  { intros e x H1 H2 H3. rewrite (chunks_ascii bs), (chunks_ascii e) by (done || (vm_compute; lia)).
    by apply (unquote_simple e (String x "")). }
  unfold escape_byte. destruct ((a =? bs)%char || (code a =? 34)) eqn:E0.
  { rewrite !app_cons, app_empty_l. apply (Hsimple a a); [done| |].
    - intros ->. discriminate E0.
    - unfold simple_escape. apply orb_true_iff in E0 as [E|E]; rewrite E; [done|by rewrite orb_true_r]. }
  apply orb_false_iff in E0 as [Hbs _]. apply Ascii.eqb_neq in Hbs.
  repeat match goal with |- context [if code a =? ?n then ?x else _] =>
    destruct (code a =? n) eqn:E;
      [apply Nat.eqb_eq, Hcode in E as ->; apply Hsimple; [vm_compute; lia|discriminate|reflexivity]|clear E]
  end.
  destruct (code a <? 32) eqn:E32.
  - apply Nat.ltb_lt in E32. change ("\u00" +:+ ?x) with
      (String bs (String "u" (String "0" (String "0" x)))). rewrite !app_cons, app_empty_l.
    assert (H1 : code a / 16 < 16) by (apply Nat.Div0.div_lt_upper_bound; lia).
    assert (H2 : code a mod 16 < 16) by (by apply Nat.mod_upper_bound).
    rewrite !chunks_ascii by (by apply code_hex_digit || (vm_compute; lia)).
    assert (Hr : hex4 (Byte "0") (Byte "0") (Byte (hex_digit (code a / 16)))
      (Byte (hex_digit (code a mod 16))) = Some (N.of_nat (code a))).
    { cbn [hex4]. rewrite !hex_of_digit by done. change (hex_value "0") with (Some 0%N).
      cbn [mbind option_bind]. f_equal.
      pose proof (Nat.div_mod_eq (code a) 16). lia. }
    rewrite (unquote_u _ _ _ _ _ _ Hr).
    + unfold encode_rune. rewrite (proj2 (N.ltb_lt _ _)) by lia. unfold ascii_of.
      unfold code, nat_of_ascii. by rewrite N2Nat.id, ascii_N_embedding.
    + unfold is_surrogate. apply andb_false_iff. left. apply N.leb_gt. lia.
  - rewrite app_cons, app_empty_l, chunks_ascii by done. by apply unquote_plain.
Qed.

Lemma unquote_escape_chunk c s :
  wf_chunk c ->
  unquote (chunks (escape_chunk c +:+ s)) = s' ← unquote (chunks s); Some (chunk_bytes c +:+ s').
Proof.
  assert (Hu : forall h1 h2 h3 h4 r, Forall (fun h => code h < 128) [h1; h2; h3; h4] ->
    hex4 (Byte h1) (Byte h2) (Byte h3) (Byte h4) = Some r -> is_surrogate r = false ->
    unquote (chunks (String bs (String "u" (String h1 (String h2 (String h3 (String h4 ""))))) +:+ s))
      = s' ← unquote (chunks s); Some (encode_rune r +:+ s')).
  { intros h1 h2 h3 h4 r Hh Hr Hs. rewrite !Forall_cons in Hh. destruct Hh as (? & ? & ? & ? & _).
    rewrite !app_cons, app_empty_l, !chunks_ascii by (done || (vm_compute; lia)). by apply unquote_u. }
  destruct c as [a|enc|a]; cbn [wf_chunk escape_chunk chunk_bytes].
  - apply unquote_escape_byte.
  - intros [_ Henc]. unfold line_separator. repeat case_decide; subst; cbn [default].
    + apply Hu; [|done|done]. repeat constructor; vm_compute; lia.
    + apply Hu; [|done|done]. repeat constructor; vm_compute; lia.
    + unfold id. by rewrite Henc.
  - intros _. change replacement with (encode_rune 65533).
    apply Hu; [|done|done]. repeat constructor; vm_compute; lia.
Qed.

Lemma unquote_escape l :
  Forall wf_chunk l ->
  unquote (chunks (concat_map escape_chunk l)) = Some (concat_map chunk_bytes l).
Proof.
  induction 1 as [|c l Hc _ IH]; [done|]. cbn [concat_map].
  rewrite unquote_escape_chunk, IH by done. done.
Qed.

(** The scanner walks over an escaped string without leaving the literal. *)
Lemma lex_plain acc c s :
  32 <= code c -> code c <> 34 -> c <> bs ->
  lex_from (LStr acc) (String c s) = lex_from (LStr (acc +:+ String c "")) s.
Proof.
  intros H1 H2%Nat.eqb_neq H3%Ascii.eqb_neq. cbn [lex_from lex_byte]. rewrite H2, H3.
  rewrite (proj2 (Nat.ltb_ge _ _)) by done. cbn [mbind option_bind].
  by destruct (lex_from (LStr _) s).
Qed.
Lemma lex_backslash acc e s :
  e = "u"%char \/ is_Some (simple_escape e) ->
  lex_from (LStr acc) (String bs (String e s))
    = lex_from (LStr (acc +:+ String bs (String e ""))) s.
Proof.
  intros He. cbn [lex_from lex_byte]. change (code bs =? 34) with false.
  change ((bs =? bs)%char) with true. cbn [mbind option_bind].
  assert (E : (e =? "u")%char || bool_decide (is_Some (simple_escape e)) = true).
  { apply orb_true_iff. rewrite bool_decide_eq_true, Ascii.eqb_eq. done. }
  cbn [lex_from lex_byte]. rewrite E. cbn [mbind option_bind].
  rewrite str_app_assoc, app_cons, app_empty_l. by destruct (lex_from (LStr _) s).
Qed.

Lemma lex_high acc enc s :
  high_bytes enc = true -> lex_from (LStr acc) (enc +:+ s) = lex_from (LStr (acc +:+ enc)) s.
Proof.
  revert acc. induction enc as [|c enc IH]; intros acc; cbn [high_bytes].
  - intros _. by rewrite app_empty_l, app_empty_r.
  - intros [Hc He]%andb_true_iff. apply Nat.leb_le in Hc. rewrite app_cons, lex_plain by
      (try lia; intros ->; vm_compute in Hc; lia).
    rewrite IH by done. by rewrite str_app_assoc, app_cons, app_empty_l.
Qed.

Lemma hex_digit_plain n :
  n < 16 -> 32 <= code (hex_digit n) /\ code (hex_digit n) <> 34 /\ hex_digit n <> bs.
Proof. intros H. do 16 (destruct n as [|n]; [vm_compute; repeat split; (lia || done)|]). lia. Qed.

Lemma lex_escape_byte acc a s :
  code a < 128 ->
  lex_from (LStr acc) (escape_byte a +:+ s) = lex_from (LStr (acc +:+ escape_byte a)) s.
Proof.
  intros Ha. unfold escape_byte.
  destruct ((a =? bs)%char || (code a =? 34)) eqn:E0.
  { rewrite !app_cons, app_empty_l. apply lex_backslash. right. unfold simple_escape.
    apply orb_true_iff in E0 as [E|E]; rewrite E, ?orb_true_r; by eexists. }
  apply orb_false_iff in E0 as [Hbs H34]. apply Ascii.eqb_neq in Hbs. apply Nat.eqb_neq in H34.
  repeat match goal with |- context [if code a =? ?n then ?x else _] =>
    destruct (code a =? n);
      [change (x +:+ s) with (String bs (String (default "b"%char (String.get 1 x)) s));
       apply lex_backslash; right; by eexists|]
  end.
  destruct (code a <? 32) eqn:E32.
  - change ("\u00" +:+ ?x) with
      (String bs (String "u" (String "0" (String "0" x)))).
    rewrite !app_cons, app_empty_l. rewrite lex_backslash by auto. apply Nat.ltb_lt in E32.
    destruct (hex_digit_plain (code a / 16)) as (? & ? & ?); [by apply Nat.Div0.div_lt_upper_bound; lia|].
    destruct (hex_digit_plain (code a mod 16)) as (? & ? & ?); [by apply Nat.mod_upper_bound|].
    rewrite !lex_plain by (done || (vm_compute; lia)).
    by rewrite !str_app_assoc, !app_cons, !app_empty_l.
  - apply Nat.ltb_ge in E32. rewrite app_cons, app_empty_l. by apply lex_plain.
Qed.

Lemma lex_escape_chunk acc c s :
  wf_chunk c ->
  lex_from (LStr acc) (escape_chunk c +:+ s) = lex_from (LStr (acc +:+ escape_chunk c)) s.
Proof.
  assert (Hu : forall x, high_bytes x = false -> True) by done.
  assert (Hesc : forall h1 h2 h3 h4, (forall h, h ∈ [h1; h2; h3; h4] ->
      32 <= code h /\ code h <> 34 /\ h <> bs) ->
    let e := String bs (String "u" (String h1 (String h2 (String h3 (String h4 ""))))) in
    lex_from (LStr acc) (e +:+ s) = lex_from (LStr (acc +:+ e)) s).
  { intros h1 h2 h3 h4 Hh e. unfold e. rewrite !app_cons, app_empty_l.
    rewrite lex_backslash by auto. rewrite !lex_plain by (apply Hh; set_solver).
    by rewrite !str_app_assoc, !app_cons, !app_empty_l. }
  assert (Hp : forall l : list ascii, Forall (fun h => 32 <= code h /\ code h <> 34 /\ h <> bs) l ->
    forall h, h ∈ l -> 32 <= code h /\ code h <> 34 /\ h <> bs) by (intros l; apply Forall_forall).
  destruct c as [a|enc|a]; cbn [wf_chunk escape_chunk].
  - apply lex_escape_byte.
  - intros [He _]. unfold line_separator. repeat case_decide; cbn [default].
    + apply Hesc, Hp. repeat constructor; vm_compute; (lia || done).
    + apply Hesc, Hp. repeat constructor; vm_compute; (lia || done).
    + by apply lex_high.
  - intros _. apply Hesc, Hp. repeat constructor; vm_compute; (lia || done).
Qed.

Lemma lex_escape l acc s :
  Forall wf_chunk l ->
  lex_from (LStr acc) (concat_map escape_chunk l +:+ s)
    = lex_from (LStr (acc +:+ concat_map escape_chunk l)) s.
Proof.
  intros Hl. revert acc. induction Hl as [|c l Hc _ IH]; intros acc; cbn [concat_map].
  - by rewrite app_empty_l, app_empty_r.
  - by rewrite str_app_assoc, lex_escape_chunk, IH, str_app_assoc.
Qed.

Lemma JsonEscapeString_chunks i : JsonEscapeString i = concat_map escape_chunk (chunks i).
Proof.
  unfold JsonEscapeString, encode_string. cbv zeta. rewrite !str_length_app.
  change (String.length dq) with 1. change (String.length nl) with 1.
  change (dq +:+ ?x) with (String (ascii_of_nat 34) x) at 1. cbn [str_drop].
  replace (1 + (_ + (1 + 1)) - 3) with (String.length (concat_map escape_chunk (chunks i))) by lia.
  generalize (dq +:+ nl). generalize (concat_map escape_chunk (chunks i)).
  intros x y. induction x as [|c x IH]; [by destruct y|]. rewrite app_cons. cbn. by rewrite IH.
Qed.

(** An escaped string between quotes is read as one token: the string itself, as
    valid UTF-8. *)
Lemma lex_quoted i s :
  lex_from LNormal (dq +:+ JsonEscapeString i +:+ dq +:+ s)
    = rest ← lex_from LNormal s; Some (TStr (to_valid i) :: rest).
Proof.
  rewrite JsonEscapeString_chunks. change (dq +:+ ?x) with (String (ascii_of_nat 34) x) at 1.
  change (lex_from LNormal (String (ascii_of_nat 34) ?x)) with
    (rest ← lex_from (LStr "") x; Some ([] ++ rest)).
  rewrite lex_escape by apply chunks_wf. rewrite app_empty_l.
  change (dq +:+ s) with (String (ascii_of_nat 34) s). cbn [lex_from lex_byte].
  change (code (ascii_of_nat 34) =? 34) with true. cbn [mbind option_bind].
  rewrite unquote_escape by apply chunks_wf. cbn [mbind option_bind].
  unfold to_valid. by destruct (lex_from LNormal s).
Qed.

Lemma to_valid_id s : valid_utf8 s -> to_valid s = s.
Proof.
  enough (H : forall n s, String.length s <= n -> valid_utf8 s -> to_valid s = s) by eauto.
  clear s. unfold to_valid, valid_utf8. induction n as [|n IH]; intros [|a s1] Hn; cbn in Hn;
    try lia; [done..|]. cbn [chunks].
  repeat case_match; subst; cbn in Hn; intros Hv; cbn [concat_map chunk_bytes];
    try (destruct (Hv a); by left);
    (rewrite IH; [by rewrite ?app_cons, ?app_empty_l|lia|]; intros c Hc; apply (Hv c); by right).
Qed.

(** C36: whatever the string, the text [JsonEscapeString] returns is the inside of a
    JSON string literal with that value (bytes that are not valid UTF-8 replaced):
    a quote, a backslash or a control character in it cannot end the literal. *)
Theorem JsonEscapeString_roundtrip (i : string) :
  parse_json (dq +:+ JsonEscapeString i +:+ dq) = Some (JStr (to_valid i)).
Proof.
  unfold parse_json. rewrite <- (app_empty_r (dq +:+ JsonEscapeString i +:+ dq)).
  rewrite !str_app_assoc, lex_quoted. done.
Qed.

(** * [JsonEscapeStruct]: every string field of a struct, in place *)
Class StringFields (A : Type) := map_strings : (string -> string) -> A -> A.
Definition JsonEscapeStruct {A} `{StringFields A} (v : A) : A := map_strings JsonEscapeString v.
