(* ===== verification/JsonPatch.v ===== *)
(** JSON pointers and the [replace] operation of JSON patches (RFC 6901, RFC 6902), as
    the API server applies them to the object under admission; and text that
    needs no escaping in JSON. *)
From S2P Require Import Prelude GoStrings Utils Json.
From Stdlib Require Import Ascii.

(** * Documents *)

(** An array index is written in decimal without leading zeros. *)
Definition array_index {A} (l : list A) (t : string) : option nat :=
  fst <$> list_find (fun i => pretty i = t) (seq 0 (length l)).

Fixpoint field (k : string) (l : list (string * json)) : option json :=
  match l with
  | [] => None
  | (k', v) :: l' => if decide (k' = k) then Some v else field k l'
  end.
Fixpoint set_field_value (k : string) (v : json) (l : list (string * json)) : list (string * json) :=
  match l with
  | [] => []
  | (k', v') :: l' => if decide (k' = k) then (k, v) :: l' else (k', v') :: set_field_value k v l'
  end.

Fixpoint pointer_get (path : list string) (doc : json) : option json :=
  match path with
  | [] => Some doc
  | t :: path' =>
      match doc with
      | JObj fields => field t fields ≫= pointer_get path'
      | JArr elems => array_index elems t ≫= fun i => elems !! i ≫= pointer_get path'
      | _ => None
      end
  end.
(** [replace]: the target must exist. *)
Fixpoint pointer_replace (path : list string) (v doc : json) : option json :=
  match path with
  | [] => Some v
  | t :: path' =>
      match doc with
      | JObj fields =>
          x ← field t fields; x' ← pointer_replace path' v x;
          Some (JObj (set_field_value t x' fields))
      | JArr elems =>
          i ← array_index elems t; x ← elems !! i; x' ← pointer_replace path' v x;
          Some (JArr (<[i := x']> elems))
      | _ => None
      end
  end.

Lemma array_index_Some {A} (l : list A) t i :
  array_index l t = Some i <-> pretty i = t /\ i < length l.
Proof.
  unfold array_index. rewrite fmap_Some. split.
  - intros ([j x] & Hf & ->). apply list_find_Some in Hf as (Hj & Hx & _).
    apply lookup_seq in Hj as [-> Hj]. by cbn.
  - intros [Hp Hl]. exists (i, i). split; [|done]. apply list_find_Some. split; [|split].
    + apply lookup_seq. lia.
    + done.
    + intros j y Hj Hlt Hy. apply lookup_seq in Hj as [-> _]. cbn in Hy.
      assert (j = i) by (apply (inj pretty); congruence). lia.
Qed.
Lemma array_index_insert {A} (l : list A) t i x : array_index (<[i := x]> l) t = array_index l t.
Proof. unfold array_index. by rewrite length_insert. Qed.

Lemma field_set_same k v l x : field k l = Some x -> field k (set_field_value k v l) = Some v.
Proof.
  induction l as [|[k' v'] l IH]; cbn; [done|]. case_decide; cbn.
  - by rewrite decide_True.
  - intros Hf. rewrite decide_False by done. by apply IH.
Qed.
Lemma field_set_other k k' v l : k <> k' -> field k' (set_field_value k v l) = field k' l.
Proof.
  intros Hk. induction l as [|[k1 v1] l IH]; cbn; [done|]. case_decide; cbn; subst.
  - by rewrite !decide_False.
  - by rewrite IH.
Qed.

Lemma pointer_replace_same path v doc x :
  pointer_get path doc = Some x ->
  exists doc', pointer_replace path v doc = Some doc' /\ pointer_get path doc' = Some v.
Proof.
  revert doc x. induction path as [|t path IH]; intros doc x; cbn.
  - intros _. by exists v.
  - destruct doc as [| | | |elems|fields]; try done.
    + intros (i & Hi & (y & Hy & Hg)%bind_Some)%bind_Some.
      destruct (IH _ _ Hg) as (y' & Hr & Hg'). rewrite Hi. cbn. rewrite Hy. cbn. rewrite Hr. cbn.
      eexists. split; [done|]. cbn. rewrite array_index_insert, Hi. cbn.
      rewrite list_lookup_insert_eq by (by eapply lookup_lt_Some). done.
    + intros (y & Hy & Hg)%bind_Some. destruct (IH _ _ Hg) as (y' & Hr & Hg').
      rewrite Hy. cbn. rewrite Hr. cbn. eexists. split; [done|]. cbn.
      by rewrite (field_set_same t y' fields y).
Qed.

(** Another pointer of the same length is not affected. *)
Lemma pointer_replace_other path path' v doc doc' :
  length path = length path' -> path <> path' ->
  pointer_replace path v doc = Some doc' -> pointer_get path' doc' = pointer_get path' doc.
Proof.
  revert path' doc doc'. induction path as [|t path IH]; intros [|t' path'] doc doc' Hl Hne; try done.
  cbn in Hl. injection Hl as Hl. cbn [pointer_replace pointer_get].
  destruct doc as [| | | |elems|fields]; try done.
  - intros (i & Hi & (y & Hy & (y' & Hr & [= <-])%bind_Some)%bind_Some)%bind_Some.
    rewrite array_index_insert. destruct (array_index elems t') as [j|] eqn:Hj; [|done].
    cbn [mbind option_bind]. destruct (decide (i = j)) as [<-|Hij].
    + apply array_index_Some in Hi as [<- ?], Hj as [<- _].
      rewrite list_lookup_insert_eq by done. rewrite Hy. cbn [mbind option_bind].
      apply (IH path' y y'); [done|congruence|done].
    + by rewrite list_lookup_insert_ne.
  - intros (y & Hy & (y' & Hr & [= <-])%bind_Some)%bind_Some.
    destruct (decide (t = t')) as [<-|Ht].
    + rewrite (field_set_same t y' fields y), Hy by done. cbn [mbind option_bind].
      apply (IH path' y y'); [done|congruence|done].
    + by rewrite field_set_other.
Qed.

(** * Patches *)

(** A patch document: the [replace] operations it lists. *)
Definition patch_operation (v : json) : option (list string * json) :=
  match v with
  | JObj fields =>
      op ← field "op" fields; path ← field "path" fields; value ← field "value" fields;
      match op, path with
      | JStr op, JStr path =>
          if decide (op = "replace") then
            match split "/" path with "" :: tokens => Some (tokens, value) | _ => None end
          else None
      | _, _ => None
      end
  | _ => None
  end.
Fixpoint apply_operations (ops : list json) (doc : json) : option json :=
  match ops with
  | [] => Some doc
  | op :: ops' =>
      '(path, v) ← patch_operation op; doc' ← pointer_replace path v doc;
      apply_operations ops' doc'
  end.
Definition apply_patch (patch : string) (doc : json) : option json :=
  match parse_json patch with Some (JArr ops) => apply_operations ops doc | _ => None end.

(** * Text that JSON leaves as it is *)
Definition plain_byte (c : ascii) : bool :=
  (32 <=? code c) && (code c <? 128) && negb (code c =? 34) && negb (c =? bs)%char.
Fixpoint json_plain (s : string) : bool :=
  match s with "" => true | String c s' => plain_byte c && json_plain s' end.

Lemma json_plain_app a b : json_plain (a +:+ b) = json_plain a && json_plain b.
Proof.
  induction a as [|c a IH]; [done|]. rewrite app_cons. cbn. by rewrite IH, andb_assoc.
Qed.

Lemma plain_chunks s :
  json_plain s = true ->
  concat_map escape_chunk (chunks s) = s /\ to_valid s = s.
Proof.
  unfold to_valid. induction s as [|c s IH]; [done|]. cbn [json_plain].
  intros [Hc Hs]%andb_true_iff. destruct (IH Hs) as [IH1 IH2].
  unfold plain_byte in Hc. rewrite !andb_true_iff, !negb_true_iff in Hc.
  destruct Hc as [[[H1 H2] H3] H4]. apply Nat.leb_le in H1. apply Nat.ltb_lt in H2.
  rewrite chunks_ascii by done. cbn [concat_map escape_chunk chunk_bytes].
  rewrite IH1, IH2, app_cons, app_empty_l. split; [|done].
  unfold escape_byte. rewrite H4, H3. cbn [orb].
  repeat match goal with |- context [code c =? ?n] =>
    rewrite (proj2 (Nat.eqb_neq (code c) n)) by lia end.
  rewrite (proj2 (Nat.ltb_ge _ _)) by done. by rewrite app_cons, app_empty_l.
Qed.

(** A plain string between quotes is one token. *)
Lemma lex_plain_quoted i s :
  json_plain i = true ->
  lex_from LNormal (dq +:+ i +:+ dq +:+ s) = rest ← lex_from LNormal s; Some (TStr i :: rest).
Proof.
  intros Hp. destruct (plain_chunks i Hp) as [He Hv].
  pose proof (lex_quoted i s) as H. by rewrite JsonEscapeString_chunks, He, Hv in H.
Qed.
Lemma lex_punct c s :
  is_punct c = true -> is_space c = false ->
  lex_from LNormal (String c s) = rest ← lex_from LNormal s; Some (TPunct c :: rest).
Proof. intros H1 H2. cbn [lex_from lex_byte]. unfold lex_normal. rewrite H2, H1. done. Qed.
