(* ===== verification/Caching.v ===== *)
(** [internal/caching]: the cache interface and its two implementations
    ([caching.go], [empty.go], [redis.go]). *)
From S2P Require Import Prelude GoStrings Utils FilePath.

(** * caching.go: the interface

    A cache is used through a handle to remote state ([store]); the context
    argument of the methods only carries the deadline of the network calls. *)
Class Cacher : Type := {
  store : Type;
  Close : store -> res unit;
  Del : store -> list string -> res unit * store;
  Get : store -> string -> res string;
  Keys : store -> string -> res (list string);
  Set_ : store -> string -> string -> res unit * store;
  Ping : store -> res unit;
}.

(** What a cache promises to its clients: after a [Set] that reported no error,
    [Get] of the key returns either an error (a disabled cache, a lost
    connection, an expired entry) or the value; a [Set] that failed may have reached
    the server before or not at all, and other keys are not affected by either. *)
Class CacherSpec (C : Cacher) : Prop := {
  Get_Set_same s k v s' v' :
    Set_ s k v = (Ok (), s') -> Get s' k = Ok v' -> v' = v;
  Get_Set_failed s k v e s' :
    Set_ s k v = (Err e, s') -> Get s' k = Get s k \/ forall v', Get s' k = Ok v' -> v' = v;
  Get_Set_other s k v r s' k' : Set_ s k v = (r, s') -> k' <> k -> Get s' k' = Get s k';
  Get_safe s k : safe (Get s k);
  Set_safe s k v : safe (fst (Set_ s k v));
}.

Definition DefaultCacheExpirySeconds : Z := 30.
Definition CacheExpirySecondsKey := "CACHE_EXPIRY_SECONDS".
Definition CacheErrorsKey := "CACHE_ERRORS".
(** [time.Second], in the nanoseconds of a [time.Duration]. *)
Definition Second : Z := 10 ^ 9.

(** * empty.go *)
#[export] Instance EmptyCache : Cacher := {|
  store := unit;
  Close _ := Ok ();
  Del s _ := (Ok (), s);
  Get _ _ := Err "cache disabled";
  Keys _ _ := Ok [];
  Set_ s _ _ := (Ok (), s);
  Ping _ := Ok ();
|}.
#[export] Instance EmptyCache_spec : CacherSpec EmptyCache.
Proof. split; cbn; intros; simplify_eq; auto with go. Qed.

(** * redis.go *)

(** The client of [go-redis]; [Set] takes the expiration in nanoseconds. *)
Class RedisClient : Type := {
  remote : Type;
  client_Close : remote -> res unit;
  client_Del : remote -> list string -> res unit * remote;
  client_Get : remote -> string -> res string;
  client_Keys : remote -> string -> res (list string);
  client_Set : remote -> string -> string -> Z -> res unit * remote;
  client_Ping : remote -> res unit;
}.

Definition Redis (client : RedisClient) (expiry : Z) : Cacher := {|
  store := remote;
  Close := client_Close;
  Del := client_Del;
  Get := client_Get;
  Keys := client_Keys;
  Set_ r key value := client_Set r key value expiry;
  Ping r := match client_Ping r with Ok _ => Ok () | Err e => Err e | Panic w => Panic w end;
|}.

Definition DefaultRedisPort : nat := 6379.
Record Options : Type := { Addr : string; Password : string; RootCAs : string }.

(** [redisClient] up to the call of [redis.NewClient]; both [Fatal] calls end the
    process. [append_certs] is [x509.CertPool.AppendCertsFromPEM]. *)
Definition redisClient `{FileSystem} (append_certs : string -> bool) (RedisCertDir : string)
    (env : environ) : res Options :=
  let host := getenv env "REDIS_HOST" in
  let pass := getenv env "REDIS_PASSWORD" in
  match read_file (sprintf "%s/tls.crt" [AStr RedisCertDir]) with
  | Ok cert =>
      if append_certs cert then
        Ok {| Addr := sprintf "%s:%d" [AStr host; AInt DefaultRedisPort]; Password := pass;
              RootCAs := cert |}
      else Panic "failed to append redis certificate"
  | Err err => Panic (sprintf "could not read redis cert: %s" [AStr err])
  | Panic w => Panic w
  end.

(** * caching.go: the configuration *)
Inductive cacher_config : Type := UseEmptyCache | UseRedis (expiry : Z).
#[export] Instance cacher_config_eq_dec : EqDecision cacher_config.
Proof. solve_decision. Defined.

(** Which cache [NewCacher] builds; the product of the two durations is an [int64]. *)
Definition NewCacher (env : environ) : cacher_config :=
  let expirySeconds :=
    match env CacheExpirySecondsKey with
    | None => DefaultCacheExpirySeconds
    | Some configured => default DefaultCacheExpirySeconds (parse_int64 configured)
    end in
  if (expirySeconds <=? 0)%Z then UseEmptyCache
  else UseRedis (wrap64 (expirySeconds * Second)).

Lemma NewCacher_ext env env' :
  env CacheExpirySecondsKey = env' CacheExpirySecondsKey -> NewCacher env = NewCacher env'.
Proof. unfold NewCacher. by intros ->. Qed.

Definition CacheErrors (env : environ) : bool :=
  let defaultCacheErrors := true in
  match env CacheErrorsKey with
  | None => defaultCacheErrors
  | Some configuredCacheErrors =>
      let '(parsedCacheErrors, err) :=
        match parse_bool configuredCacheErrors with Some b => (b, false) | None => (false, true) end in
      (* on an error only a warning is logged *)
      parsedCacheErrors
  end.

(** * Lifetime of entries *)

(** An entry of the server: its value and, unless it stays for ever, the time it
    has left. *)
Definition redis_entry : Type := string * option Z.

(** The time to live of a [Set]: an expiration above zero is one, any other one means
    that the entry stays; but -1ns keeps the time of the entry that was there. *)
Definition KeepTTL : Z := -1.
Definition time_to_live (expiration : Z) : option Z :=
  if (0 <? expiration)%Z then Some expiration else None.

(** An entry after [d] nanoseconds. *)
Definition aged (d : Z) (e : redis_entry) : option redis_entry :=
  match snd e with
  | None => Some e
  | Some rest => if (d <? rest)%Z then Some (fst e, Some (rest - d)%Z) else None
  end.

(** What the client and the server document, in terms of the entries of the server:
    [elapse d] lets time pass. *)
Class RedisSpec (R : RedisClient) : Type := {
  entries : remote -> gmap string redis_entry;
  elapse : Z -> remote -> remote;
  redis_elapse d r : (0 <= d)%Z -> entries (elapse d r) = omap (aged d) (entries r);
  redis_Get r k v : client_Get r k = Ok v -> fst <$> entries r !! k = Some v;
  redis_Get_safe r k : safe (client_Get r k);
  redis_Get_same r r' k :
    fst <$> entries r !! k = fst <$> entries r' !! k -> client_Get r k = client_Get r' k;
  redis_Set r k v expiration r' :
    client_Set r k v expiration = (Ok (), r') ->
    exists rest, entries r' = <[k := (v, rest)]> (entries r) /\
      (expiration <> KeepTTL -> rest = time_to_live expiration);
  redis_Set_failed r k v expiration e r' :
    client_Set r k v expiration = (Err e, r') ->
    entries r' = entries r \/
    exists rest, entries r' = <[k := (v, rest)]> (entries r) /\
      (expiration <> KeepTTL -> rest = time_to_live expiration);
  redis_Set_safe r k v expiration : safe (fst (client_Set r k v expiration));
}.

(** The value a client sees. *)
Definition content `{RedisSpec} (r : remote) (k : string) : option string := fst <$> entries r !! k.

#[export] Instance Redis_spec (R : RedisClient) `{!RedisSpec R} expiry :
  CacherSpec (Redis R expiry).
Proof.
  split; cbn.
  - intros s k v s' v' (rest & Hs & _)%redis_Set Hg%redis_Get.
    rewrite Hs, lookup_insert_eq in Hg. cbn in Hg. congruence.
  - intros s k v e s' [Hs|(rest & Hs & _)]%redis_Set_failed.
    + left. apply redis_Get_same. by rewrite Hs.
    + right. intros v' Hg%redis_Get. rewrite Hs, lookup_insert_eq in Hg. cbn in Hg. congruence.
  - intros s k v r s' k' Hs Hk. apply redis_Get_same. destruct r as [[]|e|w].
    + apply redis_Set in Hs as (rest & -> & _). by rewrite lookup_insert_ne.
    + apply redis_Set_failed in Hs as [-> |(rest & -> & _)]; [done|]. by rewrite lookup_insert_ne.
    + pose proof (redis_Set_safe s k v expiry w) as H. by rewrite Hs in H.
  - exact redis_Get_safe.
  - intros s k v. exact (redis_Set_safe s k v expiry).
Qed.

(** An entry just stored, after some time. *)
Lemma content_stored `{RedisSpec} r k v expiration r' d :
  client_Set r k v expiration = (Ok (), r') -> expiration <> KeepTTL -> (0 <= d)%Z ->
  content (elapse d r') k = if (0 <? expiration)%Z && (expiration <=? d)%Z then None else Some v.
Proof.
  intros (rest & Hs & Hl)%redis_Set Hne Hd. unfold content.
  rewrite redis_elapse, lookup_omap, Hs, lookup_insert_eq, (Hl Hne) by done. unfold time_to_live.
  cbn. destruct (Z.ltb_spec 0 expiration); cbn; [|done]. unfold aged; cbn.
  destruct (Z.ltb_spec d expiration), (Z.leb_spec expiration d); cbn; done || lia.
Qed.

Lemma wrap64_range z : (min_int64 <= wrap64 z <= max_int64)%Z.
Proof.
  unfold wrap64, min_int64, max_int64.
  pose proof (Z.mod_pos_bound (z + 2 ^ 63) (2 ^ 64) ltac:(lia)). lia.
Qed.

Lemma parse_int64_bounds s z : parse_int64 s = Some z -> (min_int64 <= z <= max_int64)%Z.
Proof.
  unfold parse_int64. intros H. apply bind_Some in H as (y & _ & H). case_decide; by simplify_eq.
Qed.

(** The lifetime, in seconds, that the environment asks for. *)
Definition requested_expiry (env : environ) : Z :=
  match env CacheExpirySecondsKey with
  | None => 30
  | Some s => default 30%Z (parse_int64 s)
  end.

(** C33: with a requested lifetime of at most 9223372036 seconds, an entry stored
    through the cache [NewCacher] chooses is there for exactly that time; without
    a valid setting that is 30 seconds. *)
Theorem NewCacher_lifetime (R : RedisClient) `{!RedisSpec R} (env : environ) (r r' : remote)
    (k v : string) (d : Z) :
  (0 < requested_expiry env <= 9223372036)%Z ->
  (0 <= d)%Z ->
  exists expiry,
    NewCacher env = UseRedis expiry /\
    (Set_ (Cacher := Redis R expiry) r k v = (Ok (), r') ->
     content (elapse d r') k =
       if (d <? requested_expiry env * Second)%Z then Some v else None).
Proof.
  intros Hreq Hd. set (expiry := (requested_expiry env * Second)%Z).
  assert (Hexp : NewCacher env = UseRedis expiry).
  { unfold NewCacher, expiry. change (match env CacheExpirySecondsKey with
      | None => DefaultCacheExpirySeconds | Some c => default DefaultCacheExpirySeconds (parse_int64 c)
      end) with (requested_expiry env).
    destruct (Z.leb_spec (requested_expiry env) 0); [lia|]. f_equal. apply wrap64_id.
    unfold min_int64, max_int64, Second. lia. }
  exists expiry. split; [done|]. cbn. fold expiry. intros Hs. assert (0 < expiry)%Z by (unfold expiry, Second; lia).
  rewrite (content_stored _ _ _ _ _ _ Hs) by (unfold KeepTTL; lia). fold expiry.
  rewrite (proj2 (Z.ltb_lt 0 expiry)) by done. cbn.
  destruct (Z.ltb_spec d expiry), (Z.leb_spec expiry d); done || lia.
Qed.

(** A server in memory: its entries with the time they have left. *)
Notation mem := (gmap string redis_entry).
Definition mem_client : RedisClient := {|
  remote := mem;
  client_Close _ := Ok ();
  client_Del m ks := (Ok (), foldr delete m ks);
  client_Get m k := of_opt "redis: nil" (fst <$> m !! k);
  client_Keys m _ := Ok (elements (dom m));
  client_Set m k v expiration :=
    (Ok (), <[k := (v, if decide (expiration = KeepTTL) then m !! k ≫= snd
                       else time_to_live expiration)]> m);
  client_Ping _ := Ok ();
|}.
Definition mem_spec : RedisSpec mem_client.
Proof.
  refine (@Build_RedisSpec mem_client (fun m => m) (fun d => omap (aged d)) _ _ _ _ _ _ _);
    cbn -[lookup].
  - done.
  - intros r k v. destruct (r !! k); cbn; congruence.
  - intros r k. destruct (r !! k); by intros w.
  - by intros r r' k ->.
  - intros r k v e r' [= <-]. eexists. split; [done|]. intros Hne. by rewrite decide_False.
  - done.
  - auto with go.
Defined.

Lemma NewCacher_lifetime_witness :
  exists expiry,
    NewCacher (fun _ => Some "60") = UseRedis expiry /\
    (Set_ (Cacher := Redis mem_client expiry) (∅ : mem) "k" "v"
       = (Ok (), {["k" := ("v", Some 60000000000%Z)]} : mem) ->
     content (H := mem_spec) (elapse (RedisSpec := mem_spec) 59999999999
       ({["k" := ("v", Some 60000000000%Z)]} : mem)) "k" = Some "v").
Proof.
  apply (NewCacher_lifetime mem_client (RedisSpec0 := mem_spec) (fun _ => Some "60")
    (∅ : mem) ({["k" := ("v", Some 60000000000%Z)]} : mem) "k" "v" 59999999999).
  - vm_compute. split; congruence.
  - lia.
Defined.

(** Beyond 9223372036 seconds the product overflows [int64]; one more second
    gives a negative expiration, with which entries never expire. *)
Lemma NewCacher_overflow (R : RedisClient) `{!RedisSpec R} (env : environ) (r r' : remote)
    (k v : string) (d : Z) :
  (requested_expiry env = 9223372037)%Z -> (0 <= d)%Z ->
  exists expiry, NewCacher env = UseRedis expiry /\ (expiry < 0)%Z /\
    (Set_ (Cacher := Redis R expiry) r k v = (Ok (), r') ->
     content (elapse d r') k = Some v).
Proof.
  intros Hreq Hd. exists (-9223372036709551616)%Z. split; [|split; [lia|]].
  - unfold NewCacher. change (match env CacheExpirySecondsKey with
      | None => DefaultCacheExpirySeconds | Some c => default DefaultCacheExpirySeconds (parse_int64 c)
      end) with (requested_expiry env). by rewrite Hreq.
  - cbn. intros Hs. by rewrite (content_stored _ _ _ _ _ _ Hs) by (unfold KeepTTL; lia).
Qed.

(** [CacheErrors]: on unless the variable is set to something other than a true
    boolean; in particular an invalid value turns it off. *)
Lemma CacheErrors_spec env :
  CacheErrors env = true <->
  env CacheErrorsKey = None \/ exists s, env CacheErrorsKey = Some s /\ parse_bool s = Some true.
Proof.
  unfold CacheErrors. destruct (env CacheErrorsKey) as [s|]; [|by split; auto].
  destruct (parse_bool s) as [[]|] eqn:E; split; try done.
  - intros _. right. by exists s.
  - intros [?|(s' & [= <-] & ?)]; congruence.
  - intros [?|(s' & [= <-] & ?)]; congruence.
Qed.
