(* ===== verification/Metrics.v ===== *)
(** The Prometheus counters of [internal/handler/admission_metrics.go] and
    [internal/handler/validation/validation_metrics.go]. *)
From S2P Require Import Prelude GoStrings.

(** A counter is one metric with one combination of label values; increments are
    atomic and may interleave between goroutines in any order. *)
Inductive metric : Type :=
  | numAdmissionsReceived | numAdmissionsAdmitted | numAdmissionsDenied
  | numImageValidations | numImageValidationsSuccessful | numImageValidationsFailed
  | numImageValidationsSkipped | numImageValidationsTimeouted.
#[export] Instance metric_eq_dec : EqDecision metric.
Proof. solve_decision. Defined.

Definition counter : Type := metric * list string.
Definition counters : Type := counter -> nat.
Definition zero : counters := fun _ => 0.
Definition Inc (m : counters) (c : counter) : counters :=
  fun c' => if decide (c' = c) then S (m c') else m c'.
Definition run (m : counters) (incs : list counter) : counters := foldl Inc m incs.

(** Each function as the increments it performs, in order. *)
Definition IncAdmissionsReceived : list counter := [(numAdmissionsReceived, [])].
Definition IncAdmissionsAdmitted : list counter := [(numAdmissionsAdmitted, [])].
Definition IncAdmissionsDenied (timeout : bool) : list counter :=
  if timeout then [(numAdmissionsDenied, ["true"])] else [(numAdmissionsDenied, ["false"])].

Definition IncValidationsSuccessful (validatorType validatorName : string) : list counter :=
  [(numImageValidations, [validatorType; validatorName; "success"]);
   (numImageValidationsSuccessful, [validatorType; validatorName])].
Definition IncValidationsFailed (validatorType validatorName : string) : list counter :=
  [(numImageValidations, [validatorType; validatorName; "error"]);
   (numImageValidationsFailed, [validatorType; validatorName])].
Definition IncValidationsSkipped (validatorType validatorName reason : string) : list counter :=
  [(numImageValidationsSkipped, [validatorType; validatorName; reason])].
Definition IncValidationsTimeouted (validatorType validatorName : string) : list counter :=
  [(numImageValidations, [validatorType; validatorName; "error"]);
   (numImageValidationsTimeouted, [validatorType; validatorName])].

(** * Counting *)
Definition occurrences (c : counter) (incs : list counter) : nat :=
  length (List.filter (fun c' => bool_decide (c' = c)) incs).

Lemma occurrences_app c l1 l2 :
  occurrences c (l1 ++ l2) = occurrences c l1 + occurrences c l2.
Proof. unfold occurrences. by rewrite List.filter_app, length_app. Qed.
Lemma occurrences_cons c x l :
  occurrences c (x :: l) = (if decide (x = c) then 1 else 0) + occurrences c l.
Proof.
  unfold occurrences. cbn [List.filter]. case_bool_decide; case_decide; try done.
Qed.
Lemma occurrences_eq c l : occurrences c (c :: l) = S (occurrences c l).
Proof. by rewrite occurrences_cons, decide_True. Qed.
Lemma occurrences_ne c x l : x <> c -> occurrences c (x :: l) = occurrences c l.
Proof. intros H. by rewrite occurrences_cons, decide_False. Qed.
#[export] Instance occurrences_perm c : Proper ((≡ₚ) ==> (=)) (occurrences c).
Proof.
  induction 1 as [|x l l' _ IH|x y l|l1 l2 l3 _ IH1 _ IH2]; try done.
  - by rewrite !occurrences_cons, IH.
  - rewrite !occurrences_cons. lia.
  - congruence.
Qed.

Lemma run_value m incs c : run m incs c = m c + occurrences c incs.
Proof.
  revert m. induction incs as [|x incs IH]; intros m; [cbn; lia|].
  change (run m (x :: incs)) with (run (Inc m x) incs).
  rewrite IH, occurrences_cons. unfold Inc. repeat case_decide; subst; congruence || lia.
Qed.

(** What one call of the deferred function of [ValidateImage] records. *)
Inductive event : Type :=
  | Succeeded (t n : string) (skipped : option string)
  | Failed (t n : string) (skipped : option string)
  | Timeouted (t n : string).
Definition skip_increments (t n : string) (skipped : option string) : list counter :=
  match skipped with Some reason => IncValidationsSkipped t n reason | None => [] end.
Definition increments (e : event) : list counter :=
  match e with
  | Succeeded t n sk => IncValidationsSuccessful t n ++ skip_increments t n sk
  | Failed t n sk => IncValidationsFailed t n ++ skip_increments t n sk
  | Timeouted t n => IncValidationsTimeouted t n
  end.

Lemma increments_balance t n e :
  let occ m l := occurrences (m, l) (increments e) in
  occ numImageValidations [t; n; "success"] = occ numImageValidationsSuccessful [t; n] /\
  occ numImageValidations [t; n; "error"] =
    occ numImageValidationsFailed [t; n] + occ numImageValidationsTimeouted [t; n].
Proof.
  assert (Hsk : forall m l t' n' sk, m <> numImageValidationsSkipped ->
    occurrences (m, l) (skip_increments t' n' sk) = 0).
  { intros m l t' n' [r|] Hm; [|done]. cbn [skip_increments]. unfold IncValidationsSkipped.
    rewrite occurrences_cons. case_decide; [congruence|done]. }
  destruct e as [t' n' sk|t' n' sk|t' n']; cbn zeta; cbn [increments];
    rewrite ?occurrences_app, ?Hsk by done;
    unfold IncValidationsSuccessful, IncValidationsFailed, IncValidationsTimeouted;
    destruct (decide (t' = t)) as [->|Ht], (decide (n' = n)) as [->|Hn];
    repeat first [rewrite occurrences_eq | rewrite occurrences_ne by (by intros [=])];
    done.
Qed.

(** Whatever the order in which the increments of concurrent validations
    interleave, once they are done the successful validations of a validator are
    counted alike in both counters, and its errors are the failures plus the
    timeouts. *)
Theorem validation_metrics_consistent (events : list event) (incs : list counter) (t n : string) :
  incs ≡ₚ concat (increments <$> events) ->
  run zero incs (numImageValidations, [t; n; "success"]) =
    run zero incs (numImageValidationsSuccessful, [t; n]) /\
  run zero incs (numImageValidations, [t; n; "error"]) =
    run zero incs (numImageValidationsFailed, [t; n]) +
    run zero incs (numImageValidationsTimeouted, [t; n]).
Proof.
  intros Hperm. rewrite !run_value, !Hperm. unfold zero. cbn [Nat.add]. clear incs Hperm.
  induction events as [|e events [IH1 IH2]]; [done|].
  cbn [fmap list_fmap concat]. rewrite !occurrences_app.
  destruct (increments_balance t n e) as [H1 H2]. split; lia.
Qed.

Lemma validation_metrics_consistent_witness :
  let incs := [(numImageValidations, ["cosign"; "v"; "error"]);
               (numImageValidations, ["cosign"; "v"; "success"]);
               (numImageValidationsFailed, ["cosign"; "v"]);
               (numImageValidationsSuccessful, ["cosign"; "v"])] in
  run zero incs (numImageValidations, ["cosign"; "v"; "success"]) =
    run zero incs (numImageValidationsSuccessful, ["cosign"; "v"]) /\
  run zero incs (numImageValidations, ["cosign"; "v"; "error"]) =
    run zero incs (numImageValidationsFailed, ["cosign"; "v"]) +
    run zero incs (numImageValidationsTimeouted, ["cosign"; "v"]).
Proof.
  apply (validation_metrics_consistent [Failed "cosign" "v" None; Succeeded "cosign" "v" None]).
  cbn. constructor. etransitivity; [apply perm_swap|]. done.
Defined.
