(* ===== verification/Channels.v ===== *)
(** The goroutine pattern the program uses four times: one goroutine per item sends
    its result to a buffered channel of that capacity and a collector receives as
    many results, stopping at the first error or when the context is done.

    - [handler/validation/validation.go] ([ValidateWorkloadObject], [ValidateImage]) with
      [handler/mutate.go] ([mutateReview]);
    - [alert/alerting.go] ([EvalAndSendNotifications]) with [alert/channel.go];
    - [notaryserver/repo.go] ([DownloadBaseTrustData], [DownloadAndValidateDelegations]) with
      [client.go] ([FetchTrustData]);
    - [cosignvalidator/cosign_validator.go], where neither side looks at the context:
      its runs are those without cancellation. *)
From S2P Require Import Prelude.
From stdpp Require Import relations.

(** How the collector waits: [Select] is one [select] over the context and the
    channel; [CheckThenReceive] is a [select] over the context with a [default]
    branch that then receives unconditionally. *)
Inductive wait : Type := Select | CheckThenReceive.

Section FanOut.
Context {A : Type}.
Variable how : wait.
(** The result goroutine [i] would send, and the results that stop the collector. *)
Variable results : list A.
Variable stop : A -> bool.

(** A goroutine works, has seen that the context is not done and is at the send, or
    has returned (after sending or not). *)
Inductive worker : Type := Working | Sending | Finished (sent : bool).
Inductive collector : Type :=
  | Collecting | Receiving
  | StoppedAt (v : A) | TimedOut | Complete.

Record state : Type := {
  workers : list worker;
  buffer : list A;
  received : list A;
  cancelled : bool;
  coll : collector;
}.

Definition capacity : nat := length results.
Definition init : state :=
  {| workers := replicate capacity Working; buffer := []; received := []; cancelled := false;
     coll := Collecting |}.

(** Receiving [v]: stop at an error, else go on. *)
Definition after_receive (v : A) : collector := if stop v then StoppedAt v else Collecting.

(** The goroutines of one fan-out see one context.  In [EvalAndSendNotifications] the
    senders that need not succeed are given [context.Background] instead; they send at
    their start and do not look at it before, so that the relation only has more runs
    for them: those in which such a sender gives up. *)
Inductive step : state -> state -> Prop :=
  | step_ready i s :
      workers s !! i = Some Working -> cancelled s = false ->
      step s {| workers := <[i := Sending]> (workers s); buffer := buffer s;
                received := received s; cancelled := cancelled s; coll := coll s |}
  | step_give_up i s :
      workers s !! i = Some Working -> cancelled s = true ->
      step s {| workers := <[i := Finished false]> (workers s); buffer := buffer s;
                received := received s; cancelled := cancelled s; coll := coll s |}
  | step_send i v s :
      workers s !! i = Some Sending -> results !! i = Some v -> length (buffer s) < capacity ->
      step s {| workers := <[i := Finished true]> (workers s); buffer := buffer s ++ [v];
                received := received s; cancelled := cancelled s; coll := coll s |}
  | step_cancel s :
      cancelled s = false ->
      step s {| workers := workers s; buffer := buffer s; received := received s;
                cancelled := true; coll := coll s |}
  | step_timeout s :
      coll s = Collecting -> length (received s) < capacity -> cancelled s = true ->
      step s {| workers := workers s; buffer := buffer s; received := received s;
                cancelled := cancelled s; coll := TimedOut |}
  | step_check s :
      how = CheckThenReceive -> coll s = Collecting -> length (received s) < capacity ->
      cancelled s = false ->
      step s {| workers := workers s; buffer := buffer s; received := received s;
                cancelled := cancelled s; coll := Receiving |}
  | step_receive v buf s :
      coll s = (match how with Select => Collecting | CheckThenReceive => Receiving end) ->
      length (received s) < capacity -> buffer s = v :: buf ->
      step s {| workers := workers s; buffer := buf; received := received s ++ [v];
                cancelled := cancelled s; coll := after_receive v |}
  | step_complete s :
      coll s = Collecting -> length (received s) = capacity ->
      step s {| workers := workers s; buffer := buffer s; received := received s;
                cancelled := cancelled s; coll := Complete |}.

Definition reachable (s : state) : Prop := rtc step init s.

(** The values sent so far. *)
Fixpoint sent_by (ws : list worker) (vs : list A) : list A :=
  match ws, vs with
  | Finished true :: ws', v :: vs' => v :: sent_by ws' vs'
  | _ :: ws', _ :: vs' => sent_by ws' vs'
  | _, _ => []
  end.

Record inv (s : state) : Prop := {
  inv_workers : length (workers s) = capacity;
  inv_sent : received s ++ buffer s ≡ₚ sent_by (workers s) results;
  inv_timeout : coll s = TimedOut -> cancelled s = true;
  inv_give_up : Finished false ∈ workers s -> cancelled s = true;
  inv_complete : coll s = Complete -> length (received s) = capacity;
  inv_no_error : coll s = Collecting \/ coll s = Receiving \/ coll s = Complete ->
    Forall (fun v => stop v = false) (received s);
  inv_receiving : coll s = Receiving -> how = CheckThenReceive /\ length (received s) < capacity;
}.

Lemma sent_by_nil ws : sent_by ws [] = [].
Proof. by destruct ws as [|[| |[]]]. Qed.
Lemma sent_by_insert ws vs i w :
  ws !! i = Some w -> (forall b, w <> Finished b) ->
  (forall w', (forall v, w' <> Finished v) -> sent_by (<[i := w']> ws) vs = sent_by ws vs) /\
  sent_by (<[i := Finished false]> ws) vs = sent_by ws vs /\
  (forall v, vs !! i = Some v ->
     sent_by (<[i := Finished true]> ws) vs ≡ₚ v :: sent_by ws vs).
Proof.
  revert vs i. induction ws as [|x ws IH]; intros vs i Hi Hw; [done|].
  destruct vs as [|v vs].
  { split; [|split]; [intros w' _| |done]; by rewrite !sent_by_nil. }
  destruct i as [|i]; cbn in Hi.
  - injection Hi as ->. split; [|split]; cbn.
    + intros w' Hw'. by destruct w, w'; try (by destruct (Hw sent)); try (by destruct (Hw' sent)).
    + by destruct w; try (by destruct (Hw sent)).
    + intros v' [= <-]. by destruct w; try (by destruct (Hw sent)).
  - destruct (IH vs i Hi Hw) as (H1 & H2 & H3).
    assert (Hcons : forall w', <[S i := w']> (x :: ws) = x :: <[i := w']> ws) by done.
    split; [|split]; intros *; rewrite ?Hcons; cbn [sent_by].
    + intros Hw'. by destruct x as [| |[]]; rewrite H1.
    + by destruct x as [| |[]]; rewrite H2.
    + intros Hv'. specialize (H3 _ Hv').
      destruct x as [| |[]]; cbn; rewrite H3; done || apply perm_swap.
Qed.

Lemma sent_by_length ws vs : length (sent_by ws vs) <= length vs.
Proof.
  revert vs. induction ws as [|x ws IH]; intros [|v vs]; rewrite ?sent_by_nil; cbn; try lia.
  specialize (IH vs). destruct x as [| |[]]; cbn; lia.
Qed.
Lemma sent_by_full ws vs :
  length ws = length vs -> length vs <= length (sent_by ws vs) -> sent_by ws vs = vs.
Proof.
  revert vs. induction ws as [|x ws IH]; intros [|v vs] Hl; cbn in *; try done.
  pose proof (sent_by_length ws vs) as H. destruct x as [| |[]]; cbn; intros Hle; try lia.
  rewrite IH; [done|lia|lia].
Qed.
Lemma sent_by_replicate n vs : sent_by (replicate n Working) vs = [].
Proof. revert vs. induction n as [|n IH]; intros [|v vs]; cbn; auto. Qed.

Lemma sent_by_all ws vs :
  length ws = length vs -> Forall (eq (Finished true)) ws -> sent_by ws vs = vs.
Proof.
  intros Hl H. revert vs Hl. induction H as [|? ws <- _ IH]; intros [|v vs] Hl; try done.
  cbn. by rewrite IH by (injection Hl as ->; done).
Qed.

(** A goroutine that has not sent leaves room in the buffer. *)
Lemma sent_by_room ws vs i w :
  length ws = length vs -> ws !! i = Some w -> w <> Finished true ->
  length (sent_by ws vs) < length vs.
Proof.
  intros Hl Hi Hw. pose proof (sent_by_length ws vs).
  destruct (decide (length (sent_by ws vs) = length vs)) as [He|]; [|lia]. exfalso.
  revert vs i Hl Hi He H. induction ws as [|x ws IH]; intros [|v vs] i Hl Hi; cbn in *; try done.
  destruct i as [|i]; cbn in Hi.
  - injection Hi as ->. pose proof (sent_by_length ws vs). destruct w as [| |[]]; cbn; try lia; done.
  - pose proof (sent_by_length ws vs). destruct x as [| |[]]; cbn; try lia.
    intros He _. apply (IH vs i); try done; lia.
Qed.

Lemma elem_of_insert_inv {B} (l : list B) i w x : x ∈ <[i := w]> l -> x = w \/ x ∈ l.
Proof.
  intros (j & Hj)%list_elem_of_lookup. apply list_lookup_insert_Some in Hj as [(_ & -> & _)|[_ Hj]];
    [by left|right]. by eapply list_elem_of_lookup_2.
Qed.

Lemma init_inv : inv init.
Proof.
  split; cbn; try done; try by intros [?|[?|?]].
  - apply length_replicate.
  - by rewrite sent_by_replicate.
  - intros [H _]%elem_of_replicate. done.
Qed.

Lemma step_inv s s' : inv s -> step s s' -> inv s'.
Proof.
  intros [H1 H2 H3 H4 H5 H6 H7] Hs. inversion Hs as
    [i ? Hi Hc|i ? Hi Hc|i v ? Hi Hv Hr|? Hc|? Hk Hl Hc|? Hh Hk Hl Hc|v buf ? Hk Hl Hb|? Hk Hl];
    subst; split; cbn; try done; rewrite ?length_insert; try done;
    try (by intros [?|[?|?]]).
  - rewrite H2. by rewrite (proj1 (sent_by_insert _ results i Working Hi ltac:(done))) by done.
  - intros [?|?]%elem_of_insert_inv; [done|auto].
  - rewrite H2. by rewrite (proj1 (proj2 (sent_by_insert _ results i Working Hi ltac:(done)))).
  - destruct (sent_by_insert _ results i Sending Hi) as (_ & _ & Hins); [done|].
    rewrite (Hins v Hv), <- H2, app_assoc. symmetry. apply Permutation_cons_append.
  - intros [?|?]%elem_of_insert_inv; [done|auto].
  - intros Hx. apply H6. by left.
  - rewrite <- H2, Hb, <- app_assoc. done.
  - unfold after_receive. by destruct (stop v).
  - unfold after_receive. by destruct (stop v).
  - unfold after_receive. destruct (stop v) eqn:Ev; [by intros [?|[?|?]]|]. intros _.
    apply Forall_app. split; [|by repeat constructor]. apply H6. destruct how; auto.
  - unfold after_receive. by destruct (stop v).
  - intros _. apply H6. by left.
Qed.

Lemma reachable_inv s : reachable s -> inv s.
Proof.
  intros Hr. assert (inv init) as H0 by apply init_inv. revert H0.
  induction Hr as [|s1 s2 s3 Hs _ IH]; [done|]. intros H0. by apply IH, (step_inv s1).
Qed.

(** Nothing can happen any more but the end of the context. *)
Definition quiet (s : state) : Prop := forall s', step s s' -> cancelled s' <> cancelled s.
Definition returned (s : state) : Prop :=
  match coll s with Collecting | Receiving => False | _ => True end.
Definition all_finished (s : state) : Prop :=
  Forall (fun w => exists sent, w = Finished sent) (workers s).

(** The buffer has room for every goroutine at its send. *)
Lemma send_never_blocks s i :
  inv s -> workers s !! i = Some Sending -> length (buffer s) < capacity.
Proof.
  intros [H1 H2 _ _ _ _ _] Hi. pose proof (sent_by_room _ results i Sending H1 Hi ltac:(done)) as H.
  rewrite <- H2, length_app in H. unfold capacity. lia.
Qed.

Lemma quiet_workers s : inv s -> quiet s -> all_finished s.
Proof.
  intros Hinv Hq. apply Forall_lookup. intros i w Hi. destruct w as [| |b]; [exfalso..|by exists b].
  - destruct (cancelled s) eqn:Hc.
    + by apply (Hq _ (step_give_up i s Hi Hc)).
    + by apply (Hq _ (step_ready i s Hi Hc)).
  - assert (is_Some (results !! i)) as [v Hv].
    { apply lookup_lt_is_Some. pose proof (inv_workers _ Hinv) as Hw. unfold capacity in Hw.
      rewrite <- Hw. by eapply lookup_lt_Some. }
    by apply (Hq _ (step_send i v s Hi Hv (send_never_blocks s i Hinv Hi))).
Qed.

(** When every goroutine has sent and nothing is in the buffer, all was received. *)
Lemma all_sent s :
  inv s -> all_finished s -> buffer s = [] -> cancelled s = false ->
  length (received s) = capacity.
Proof.
  intros Hinv Hf Hb Hc. pose proof (inv_sent _ Hinv) as Hp. rewrite Hb, app_nil_r in Hp.
  rewrite Hp. rewrite sent_by_all; [done|by apply inv_workers|].
  apply Forall_lookup. intros i w Hi.
  destruct (proj1 (Forall_lookup _ _) Hf i w Hi) as [[|] ->]; [done|].
  rewrite (inv_give_up _ Hinv) in Hc; [done|]. by eapply list_elem_of_lookup_2.
Qed.

Lemma received_le s : inv s -> length (received s) <= capacity.
Proof.
  intros Hinv. pose proof (sent_by_length (workers s) results) as H.
  rewrite <- (inv_sent _ Hinv), length_app in H. unfold capacity. lia.
Qed.

Lemma quiet_collecting s :
  inv s -> quiet s -> coll s = Collecting -> how = Select -> False.
Proof.
  intros Hinv Hq Hk Hh. pose proof (quiet_workers s Hinv Hq) as Hf.
  destruct (cancelled s) eqn:Hc.
  - destruct (decide (length (received s) < capacity)) as [Hl|Hl].
    + by apply (Hq _ (step_timeout s Hk Hl Hc)).
    + apply (Hq _ (step_complete s Hk ltac:(pose proof (received_le s Hinv); lia))). done.
  - destruct (decide (length (received s) < capacity)) as [Hl|Hl].
    + destruct (buffer s) as [|v buf] eqn:Hb.
      * pose proof (all_sent s Hinv Hf Hb Hc). lia.
      * assert (Hk' : coll s = match how with Select => Collecting | _ => Receiving end)
          by (by rewrite Hh).
        by apply (Hq _ (step_receive v buf s Hk' Hl Hb)).
    + apply (Hq _ (step_complete s Hk ltac:(pose proof (received_le s Hinv); lia))). done.
Qed.

(** The outcomes of the collector. *)
Lemma complete_result s : reachable s -> coll s = Complete -> received s ≡ₚ results.
Proof.
  intros Hr Hk. pose proof (reachable_inv s Hr) as Hinv.
  pose proof (inv_sent _ Hinv) as Hp. pose proof (inv_complete _ Hinv Hk) as Hl.
  pose proof (sent_by_length (workers s) results) as Hle. rewrite <- Hp, length_app in Hle.
  assert (Hb : buffer s = []) by (apply nil_length_inv; unfold capacity in Hl; lia).
  rewrite Hb, app_nil_r in Hp. rewrite sent_by_full in Hp; [done|by apply inv_workers|].
  rewrite <- Hp. unfold capacity in Hl. lia.
Qed.

Lemma received_results s v : inv s -> v ∈ received s -> v ∈ results.
Proof.
  intros Hinv Hv. assert (Hin : v ∈ sent_by (workers s) results).
  { rewrite <- (inv_sent _ Hinv). apply elem_of_app. by left. }
  revert Hin. generalize (workers s). clear. induction results as [|x vs IH]; intros ws.
  - rewrite sent_by_nil. by intros ?%elem_of_nil.
  - destruct ws as [|w ws]; [by intros ?%elem_of_nil|]. intros Hin.
    assert (v = x \/ v ∈ sent_by ws vs) as [->|H].
    { destruct w as [| |[]]; cbn in Hin; auto. by apply elem_of_cons in Hin. }
    + by left.
    + right. by apply (IH ws).
Qed.

Lemma stopped_result s v :
  reachable s -> coll s = StoppedAt v ->
  stop v = true /\ v ∈ results /\ 0 < length (received s).
Proof.
  intros Hr Hk. assert (H : inv s /\ (coll s = StoppedAt v -> stop v = true /\ v ∈ received s)).
  { assert (H0 : inv init /\ (coll init = StoppedAt v -> stop v = true /\ v ∈ received init))
      by (split; [apply init_inv|done]).
    clear Hk. revert H0. induction Hr as [|s1 s2 s3 Hs _ IH]; [done|]. intros [Hi Hv]. apply IH.
    split; [by apply (step_inv s1)|]. inversion Hs; subst; cbn in *; try done.
    unfold after_receive. destruct (stop v0) eqn:Ev; [|done]. intros [= <-].
    split; [done|]. apply elem_of_app. right. by left. }
  destruct H as [Hinv H]. destruct (H Hk) as [? Hin]. split; [done|].
  split; [by apply (received_results s)|]. destruct (received s); [by apply elem_of_nil in Hin|].
  cbn. lia.
Qed.

(** Each step uses up some of this. *)
Definition weight (w : worker) : nat :=
  match w with Working => 4 | Sending => 3 | Finished _ => 0 end.
Definition measure (s : state) : nat :=
  list_sum (weight <$> workers s) + 2 * length (buffer s)
  + (if cancelled s then 0 else 1)
  + (match coll s with Collecting => 1 | _ => 0 end).

Lemma weight_insert ws i w w' :
  ws !! i = Some w ->
  list_sum (weight <$> <[i := w']> ws) + weight w = list_sum (weight <$> ws) + weight w'.
Proof.
  assert (Hcons : forall x ws, list_sum (weight <$> x :: ws) = weight x + list_sum (weight <$> ws))
    by done.
  revert i. induction ws as [|x ws IH]; intros [|i] Hi; cbn in Hi; try done.
  - injection Hi as ->. change (<[0 := w']> (w :: ws)) with (w' :: ws). rewrite !Hcons. lia.
  - specialize (IH i Hi). change (<[S i := w']> (x :: ws)) with (x :: <[i := w']> ws).
    rewrite !Hcons. lia.
Qed.

Lemma step_measure s s' : step s s' -> measure s' < measure s.
Proof.
  unfold measure. intros Hs. inversion Hs as
    [i ? Hi Hc|i ? Hi Hc|i v ? Hi Hv Hr|? Hc|? Hk Hl Hc|? Hh Hk Hl Hc|v buf ? Hk Hl Hb|? Hk Hl];
    subst; cbn [workers buffer received cancelled coll].
  - pose proof (weight_insert _ _ _ Sending Hi) as H. cbn [weight] in H. lia.
  - pose proof (weight_insert _ _ _ (Finished false) Hi) as H. cbn [weight] in H. lia.
  - pose proof (weight_insert _ _ _ (Finished true) Hi) as H. cbn [weight] in H. rewrite length_app.
    cbn [length]. lia.
  - rewrite Hc. lia.
  - rewrite Hk. lia.
  - rewrite Hk. lia.
  - rewrite Hb. cbn [length]. unfold after_receive. destruct (stop v), (coll s); lia.
  - rewrite Hk. lia.
Qed.

Lemma measure_init : measure init = 4 * capacity + 2.
Proof.
  unfold measure, init. cbn [workers buffer cancelled coll length].
  assert (H : forall n, list_sum (weight <$> replicate n Working) = 4 * n).
  { induction n as [|n IH]; [done|]. change (list_sum (weight <$> replicate (S n) Working)) with
      (4 + list_sum (weight <$> replicate n Working)). lia. }
  rewrite H. lia.
Qed.
End FanOut.

Arguments capacity {A} results.
Arguments Build_state {A}.

(** C25: with a [select] over the context and the channel nothing blocks for ever:
    no goroutine ever waits for room in the channel, every execution has at most
    four steps per goroutine and two more, and when none is left but the end of
    the context the collector and all goroutines have returned. *)
Theorem fan_out_returns {A} (results : list A) (stop : A -> bool) (s : state) :
  reachable Select results stop s ->
  (forall i, workers s !! i = Some Sending -> length (buffer s) < capacity results) /\
  (forall n s', nsteps (step Select results stop) n s s' -> n <= 4 * capacity results + 2) /\
  (quiet Select results stop s -> all_finished s /\ returned s).
Proof.
  intros Hr. pose proof (reachable_inv _ _ _ s Hr) as Hinv. split; [|split].
  - intros i. by eapply send_never_blocks.
  - assert (Hm : forall n s1 s2, nsteps (step Select results stop) n s1 s2 -> n <= measure s1).
    { induction 1 as [|n s1 s2 s3 Hs _ IH]; [lia|]. apply step_measure in Hs. lia. }
    intros n s' Hn. apply Hm in Hn. rewrite <- measure_init.
    assert (Hle : measure s <= measure (init results)).
    { clear -Hr. induction Hr as [|s1 s2 s3 Hs _ IH]; [lia|]. apply step_measure in Hs. lia. }
    lia.
  - intros Hq. split; [by eapply quiet_workers|]. unfold returned. destruct (coll s) eqn:Hk; try done.
    + by apply (quiet_collecting Select results stop s).
    + by destruct (inv_receiving _ _ _ _ Hinv Hk).
Qed.

(** An execution with two goroutines in which the second one is overtaken by the
    end of the context. *)
Definition demo_state : state :=
  Build_state [Finished true; Finished false] [] [7] true TimedOut.
Lemma demo_reachable : reachable Select [7; 8] (fun _ => false) demo_state.
Proof.
  unfold reachable, init, demo_state. cbn.
  eapply rtc_l; [eapply (step_ready _ _ _ 0); done|]. cbn.
  eapply rtc_l; [eapply (step_send _ _ _ 0 7); cbn; (done || lia)|]. cbn.
  eapply rtc_l; [eapply (step_receive _ _ _ 7 []); cbn; (done || lia)|]. cbn.
  eapply rtc_l; [eapply step_cancel; done|]. cbn.
  eapply rtc_l; [eapply (step_give_up _ _ _ 1); done|]. cbn.
  eapply rtc_l; [eapply step_timeout; cbn; (done || lia)|]. apply rtc_refl.
Defined.

Lemma fan_out_returns_witness :
  (forall i, workers demo_state !! i = Some Sending -> length (buffer demo_state) < 2) /\
  (forall n s', nsteps (step Select [7; 8] (fun _ => false)) n demo_state s' -> n <= 10) /\
  (quiet Select [7; 8] (fun _ => false) demo_state -> all_finished demo_state /\ returned demo_state).
Proof. apply (fan_out_returns [7; 8] (fun _ => false) demo_state demo_reachable). Defined.

Lemma fan_out_outcome {A} (how : wait) (results : list A) (stop : A -> bool) (s : state) :
  reachable how results stop s ->
  match coll s with
  | Complete => received s ≡ₚ results /\ Forall (fun v => stop v = false) results
  | StoppedAt v => stop v = true /\ v ∈ results /\ 0 < length (received s) <= length results
  | TimedOut => cancelled s = true
  | Collecting | Receiving => Forall (fun v => stop v = false) (received s)
  end.
Proof.
  intros Hr. pose proof (reachable_inv _ _ _ s Hr) as Hinv. destruct (coll s) eqn:Hk.
  - apply (inv_no_error _ _ _ _ Hinv). by left.
  - apply (inv_no_error _ _ _ _ Hinv). right. by left.
  - destruct (stopped_result how results stop s v Hr Hk) as (? & ? & ?).
    split; [done|]. split; [done|]. split; [done|]. by apply (received_le how results stop).
  - by apply (inv_timeout _ _ _ _ Hinv).
  - assert (Hp : received s ≡ₚ results) by by apply (complete_result how results stop s).
    split; [done|]. rewrite <- Hp. apply (inv_no_error _ _ _ _ Hinv). by do 2 right.
Qed.

(** C26: what a collector that has returned knows: complete, it has one result of
    every goroutine, in some order, none of them an error; stopped, it has an
    error that one of the goroutines sent; timed out, the context is done. *)
Theorem fan_out_result {A} (how : wait) (results : list A) (stop : A -> bool) (s : state) :
  reachable how results stop s ->
  match coll s with
  | Complete => received s ≡ₚ results /\ Forall (fun v => stop v = false) results
  | StoppedAt v => stop v = true /\ v ∈ results /\ 0 < length (received s) <= length results
  | TimedOut => cancelled s = true
  | Collecting | Receiving => Forall (fun v => stop v = false) (received s)
  end.
Proof. apply fan_out_outcome. Qed.

Lemma fan_out_result_witness : cancelled demo_state = true.
Proof. apply (fan_out_result Select [7; 8] (fun _ => false) demo_state demo_reachable). Defined.

(** C27: with a check of the context followed by an unconditional receive the
    collector can block for ever: when the context ends after the check, the
    goroutines return without sending and nobody wakes it. *)
Theorem check_then_receive_blocks {A} (results : list A) (stop : A -> bool) :
  results <> [] ->
  exists s, reachable CheckThenReceive results stop s /\ coll s = Receiving /\ all_finished s /\
    forall s', ~ step CheckThenReceive results stop s s'.
Proof.
  intros Hne. set (n := capacity results).
  set (done_ := fun k => replicate k (Finished false) ++ replicate (n - k) Working).
  exists (Build_state (done_ n) [] [] true Receiving). assert (0 < n).
  { unfold n, capacity. destruct results; cbn; [done|lia]. }
  split; [|split; [done|split]].
  - unfold reachable, init. eapply rtc_l; [eapply step_check; cbn; done|]. cbn.
    eapply rtc_l; [eapply step_cancel; done|]. cbn. fold n.
    assert (Hk : forall k, k <= n -> rtc (step CheckThenReceive results stop)
      (Build_state (replicate n Working) [] [] true Receiving)
      (Build_state (done_ k) [] [] true Receiving)); [|by apply Hk].
    induction k as [|k IH]; intros Hle.
    + unfold done_. rewrite Nat.sub_0_r. apply rtc_refl.
    + eapply rtc_r; [apply IH; lia|]. unfold done_. replace (n - k) with (S (n - S k)) by lia.
      assert (Hi : (replicate k (Finished false) ++ replicate (S (n - S k)) Working) !! k
        = Some Working) by (rewrite lookup_app_r; rewrite length_replicate; [by rewrite Nat.sub_diag|done]).
      pose proof (step_give_up CheckThenReceive results stop k
        (Build_state (replicate k (Finished false) ++ replicate (S (n - S k)) Working) [] [] true
           Receiving) Hi eq_refl) as Hs. cbn in Hs.
      rewrite insert_app_r_alt in Hs by (rewrite length_replicate; done).
      rewrite length_replicate, Nat.sub_diag in Hs. cbn in Hs.
      rewrite (replicate_S_end k), <- app_assoc. exact Hs.
  - unfold done_, all_finished. cbn. rewrite Nat.sub_diag, app_nil_r.
    apply Forall_replicate. by exists false.
  - intros s' Hs. assert (Hw : forall i w, done_ n !! i = Some w -> w = Finished false).
    { intros i w. unfold done_. rewrite Nat.sub_diag, app_nil_r. by intros [-> _]%lookup_replicate. }
    inversion Hs; cbn in *; try done; repeat match goal with
      | H : _ !! _ = Some _ |- _ => apply Hw in H; done end.
Qed.

Lemma check_then_receive_blocks_witness :
  exists s, reachable CheckThenReceive [1; 2] (fun _ => false) s /\ coll s = Receiving /\
    all_finished s /\ forall s', ~ step CheckThenReceive [1; 2] (fun _ => false) s s'.
Proof. apply (check_then_receive_blocks [1; 2] (fun _ => false)). discriminate. Defined.
