(* ===== verification/Validator.v ===== *)
(** [internal/validator/validator.go] and [staticvalidator/static_validator.go]: the
    interface of validators, the dispatch on the configured type, and the static
    validator. *)
From S2P Require Import Prelude GoStrings Utils Policy Image.

(** * YAML values as [yaml.v3] decodes them into [interface{}] *)
Inductive yaml : Type :=
  | YNull | YBool (b : bool) | YInt (z : Z) | YStr (s : string)
  | YSeq (l : list yaml) | YMap (l : list (string * yaml)).

(** [vData[key]] of a decoded mapping: the value and whether the key is there. *)
Fixpoint yaml_lookup (key : string) (l : list (string * yaml)) : option yaml :=
  match l with
  | [] => None
  | (k, v) :: l' => if decide (k = key) then Some v else yaml_lookup key l'
  end.

(** The type assertion [v.(string)]. *)
Definition as_string (v : yaml) : res string :=
  match v with YStr s => Ok s | _ => Panic "interface conversion: interface {} is not string" end.

(** * validator.go *)

(** The interface [Validate]: one method.  The image is passed as a pointer, so the
    image after the call is part of the result. *)
Record Validate : Type := { validate : Image -> RuleOptions -> Image * res string }.

Record Validator : Type := {
  v_Name : string;
  v_Type : string;
  SpecificValidator : Validate;
}.

Definition StaticValidatorType := "static".
Definition CosignValidatorType := "cosign".
Definition NotaryV1ValidatorType := "notaryv1".
Definition NotationValidatorType := "notation".

(** [unmarshal] is the callback of [yaml.v3]: [vData] is its result on a map, and
    [load t] its result on the specific validator of type [t], whose own
    [UnmarshalYAML] it may call; [build] sets the three fields. *)
Definition UnmarshalYAML {S V} (build : string -> string -> S -> V) (vData : res (list (string * yaml)))
    (load : string -> res S) : res V :=
  vData ← vData;
  name ← of_opt "validator is missing a name" (yaml_lookup "name" vData);
  name ← as_string name;
  type_ ← of_opt "validator is missing a type" (yaml_lookup "type" vData);
  type_ ← as_string type_;
  if decide (type_ ∈ [StaticValidatorType; CosignValidatorType; NotaryV1ValidatorType;
                      NotationValidatorType])
  then
    specific ← load type_;
    Ok (build name type_ specific)
  else Err (sprintf ("unsupported type " +:+ dq +:+ "%s" +:+ dq +:+ " for validator") [AStr type_]).

Definition ValidateImage (v : Validator) (img : Image) (opts : RuleOptions) : Image * res string :=
  validate (SpecificValidator v) img opts.

(** * static_validator.go *)
Record StaticValidator : Type := { s_Name : string; s_Type : string; Approve : bool }.

Definition static_ValidateImage (sv : StaticValidator) (img : Image) (_ : RuleOptions)
  : Image * res string :=
  if Approve sv then (img, Ok (Digest img)) else (img, Err "static deny").
Definition static_validate (sv : StaticValidator) : Validate := {| validate := static_ValidateImage sv |}.

(** A validator that leaves the image alone and does not panic; all but the
    notation validator are of the first kind. *)
Definition preserves_image (v : Validate) : Prop := forall img opts, fst (validate v img opts) = img.
Definition safe_validator (v : Validate) : Prop := forall img opts, safe (snd (validate v img opts)).

Lemma static_preserves sv : preserves_image (static_validate sv).
Proof. intros img opts. cbn. unfold static_ValidateImage. by destruct (Approve sv). Qed.
Lemma static_safe sv : safe_validator (static_validate sv).
Proof. intros img opts. cbn. unfold static_ValidateImage. destruct (Approve sv); cbn; auto with go. Qed.
#[export] Hint Resolve static_preserves static_safe : go.
