(* ===== verification/Validation.v ===== *)
(** [internal/handler/validation]: the validation of one image ([validation.go]) and
    the conditions under which it is skipped ([skip.go]). *)
From S2P Require Import Prelude GoStrings Utils Policy Image Kube Json JsonPatch Caching Metrics Validator.
From Stdlib Require Import Ascii.

(** The values the context carries and the process environment. *)
Record Config : Type := { Validators : list Validator; Rules : list Rule }.

Section Validation.
Context `{NameLib}.
Context (cache : Cacher).
Variable glob : string -> option (string -> bool).
Variable env : environ.
Variable config : Config.

(** * skip.go *)
Record CachedEntry : Type := { ce_Digest : string; ce_Error : string }.

Definition unmarshal_entry (val : string) : res CachedEntry :=
  fields ← unmarshal_strings ["digest"; "error"] val;
  Ok {| ce_Digest := default "" (fields !! "digest"); ce_Error := default "" (fields !! "error") |}.

Definition automaticUnchangedApproval (img : Image) (previousImages : list string) : bool :=
  if FeatureFlagOn env AutomaticUnchangedApproval
  then existsb (fun containerImage => bool_decide (containerImage = OriginalString img)) previousImages
  else false.

(** [parentImages] is what [parentImageFunc(ctx)] returns when it is called. *)
Definition automaticChildApproval (img : Image) (parentImages : res (list string)) : res bool :=
  if FeatureFlagOn env AutomaticChildApproval then
    if negb (BlockAllResources env) then Ok false
    else
      parentImages ← parentImages;
      Ok (existsb (fun pImg => bool_decide (pImg = OriginalString img)) parentImages)
  else Ok false.

(** The digest and the cached error; [Err] is the third result. *)
Definition getCachedDigest (s : store) (img : Image) : res (string * option string) :=
  val ← map_err (fun err => sprintf "cache miss for image %s: %s" [AStr (OriginalString img); AStr err])
          (Get s (OriginalString img));
  cached ← map_err (fun err => sprintf "error unmarshalling cached entry: %s" [AStr err])
             (unmarshal_entry val);
  if decide (ce_Error cached <> "") then Ok ("", Some (ce_Error cached))
  else if decide (ce_Digest cached = "") then Err "empty cached digest"
  else Ok (ce_Digest cached, None).

Record skip_result : Type := {
  skip : bool; skipReason : string; validatedDigest : string; validationError : option string }.

Definition unchanged_reason := "unchanged image reference".
Definition child_reason := "automatic approval of child image reference".
Definition cache_reason := "cache hit".

Definition Skip (s : store) (img : Image) (previousImages : list string)
    (parentImages : res (list string)) : res skip_result :=
  if automaticUnchangedApproval img previousImages
  then Ok {| skip := true; skipReason := unchanged_reason; validatedDigest := Digest img;
             validationError := None |}
  else
    child ← automaticChildApproval img parentImages;
    if (child : bool)
    then Ok {| skip := true; skipReason := child_reason; validatedDigest := Digest img;
               validationError := None |}
    else match getCachedDigest s img with
         | Ok (digest, cacheErr) =>
             Ok {| skip := true; skipReason := cache_reason; validatedDigest := digest;
                   validationError := cacheErr |}
         | Err _ => Ok {| skip := false; skipReason := ""; validatedDigest := "";
                          validationError := None |}
         | Panic w => Panic w
         end.

(** * validation.go *)
Record ValidationInput : Type := {
  in_IdxsTypes : list IdxType;
  in_Image : string;
  PreviousImages : list string;
  ParentImages : res (list string);
}.

Record ValidationOutput : Type := {
  IdxsTypes : list IdxType;
  RawImage : string;
  NewImage : string;
  OldImage : string;
  Error : option string;
  out_Validator : string;
  Skipped : bool;
  SkipReason : string;
  out_ValidationMode : string;
}.

Definition MutateMode := "mutate".
Definition ValidateMode := "insecureValidateOnly".

(** The local variables that the deferred function reads. *)
Record locals : Type := {
  newImg : string; oldImg : string; errOut : option string; validatorName : string;
  skipped : bool; l_skipReason : string; validationMode : string; validatorType : string }.

Definition initial : locals :=
  {| newImg := ""; oldImg := ""; errOut := None; validatorName := ""; skipped := false;
     l_skipReason := ""; validationMode := ""; validatorType := "unknown" |}.
Definition with_error (l : locals) (e : string) : locals :=
  {| newImg := newImg l; oldImg := oldImg l; errOut := Some e; validatorName := validatorName l;
     skipped := skipped l; l_skipReason := l_skipReason l; validationMode := validationMode l;
     validatorType := validatorType l |}.
Definition with_images (l : locals) (old new : string) : locals :=
  {| newImg := new; oldImg := old; errOut := errOut l; validatorName := validatorName l;
     skipped := skipped l; l_skipReason := l_skipReason l; validationMode := validationMode l;
     validatorType := validatorType l |}.

Definition cache_entry (digest err : string) : string :=
  sprintf ("{" +:+ dq +:+ "digest" +:+ dq +:+ ":" +:+ dq +:+ "%s" +:+ dq +:+ "," +:+ dq +:+ "error"
           +:+ dq +:+ ":" +:+ dq +:+ "%s" +:+ dq +:+ "}")
    [AStr (JsonEscapeString digest); AStr (JsonEscapeString err)].

(** The static validators are preponed. *)
Definition validate_static (l : locals) (rule : Rule) (v : Validator) (img : Image) : res locals :=
  match ValidateImage v img (With rule) with
  | (_, Panic w) => Panic w
  | (img, Err _) =>
      Ok (with_error l (sprintf "static deny for image %s using rule %s"
                          [AStr (OriginalString img); AStr (Pattern rule)]))
  | (img, Ok digest) => Ok (with_images l (Name img) (Name (SetDigest img digest)))
  end.

(** The call of the validator and the caching of its result; [img] is shared with
    the validator. *)
Definition validate_and_cache (s : store) (l : locals) (rule : Rule) (v : Validator) (img : Image)
  : res (locals * store) :=
  match ValidateImage v img (With rule) with
  | (_, Panic w) => Panic w
  | (img, Err err) =>
      let cacheErr := sprintf "error during %s validation of image %s: %s"
                        [AStr (v_Type v); AStr (OriginalString img); AStr err] in
      let l := with_error l cacheErr in
      if CacheErrors env then
        let img := SetDigest img "" in
        let '(r, s) := Set_ s (OriginalString img) (cache_entry (Digest img) cacheErr) in
        match r with Panic w => Panic w | _ => Ok (l, s) end
      else Ok (l, s)
  | (img, Ok digest) =>
      let oldImg := Name img in
      let img := SetDigest img digest in
      let l := with_images l oldImg (Name img) in
      if decide (Digest img <> "") then
        let '(r, s) := Set_ s (OriginalString img) (cache_entry (Digest img) "") in
        match r with Panic w => Panic w | _ => Ok (l, s) end
      else Ok (l, s)
  end.

Definition effective_mode (rule : Rule) : string :=
  if decide (ValidationMode (With rule) = MutateMode) then MutateMode
  else if decide (ValidationMode (With rule) = ValidateMode) then ValidateMode
  else MutateMode.

(** The body of [ValidateImage], up to the deferred function. *)
Definition validate_body (s : store) (input : ValidationInput) : res (locals * store) :=
  match New (in_Image input) with
  | Panic w => Panic w
  | Err _ => Ok (with_error initial "invalid image reference", s)
  | Ok img =>
      match MatchingRule glob (Rules config) (Name img) with
      | Panic w => Panic w
      | Err err => Ok (with_error initial err, s)
      | Ok rule =>
          match FindValidator v_Name (Validators config) (Policy.Validator rule) with
          | Panic w => Panic w
          | Err err => Ok (with_error initial err, s)
          | Ok validator =>
              let l := {| newImg := ""; oldImg := ""; errOut := None;
                          validatorName := v_Name validator; skipped := false; l_skipReason := "";
                          validationMode := effective_mode rule;
                          validatorType := v_Type validator |} in
              if decide (v_Type validator = StaticValidatorType) then
                l ← validate_static l rule validator img; Ok (l, s)
              else
                sk ← Skip s img (PreviousImages input) (ParentImages input);
                if skip sk then
                  Ok ({| newImg := Name (SetDigest img (validatedDigest sk)); oldImg := Name img;
                         errOut := validationError sk; validatorName := validatorName l;
                         skipped := true; l_skipReason := skipReason sk;
                         validationMode := validationMode l; validatorType := validatorType l |}, s)
                else validate_and_cache s l rule validator img
          end
      end
  end.

(** The deferred function: nothing is sent when the context is done; a new image that
    does not parse is an error, if there is none so far. *)
Definition check_format (l : locals) : res (option string) :=
  match errOut l with
  | Some e => Ok (Some e)
  | None =>
      match New (newImg l) with
      | Ok _ => Ok None
      | Err err => Ok (Some (sprintf "validated image reference %s has invalid format: %s"
                               [AStr (newImg l); AStr err]))
      | Panic w => Panic w
      end
  end.
Definition deferred (done : bool) (input : ValidationInput) (l : locals)
  : res (option ValidationOutput * event) :=
  if done then Ok (None, Timeouted (validatorType l) (validatorName l)) else
  errOut ← check_format l;
  let reason := if skipped l then Some (l_skipReason l) else None in
  Ok (Some {| IdxsTypes := in_IdxsTypes input; RawImage := in_Image input; NewImage := newImg l;
              OldImage := oldImg l; Error := errOut; out_Validator := validatorName l;
              Skipped := skipped l; SkipReason := l_skipReason l;
              out_ValidationMode := validationMode l |},
      match errOut with
      | None => Succeeded (validatorType l) (validatorName l) reason
      | Some _ => Failed (validatorType l) (validatorName l) reason
      end).

(** [ValidateImage]: what it sends, if anything, what it counts, and the cache
    afterwards; [done] is whether the context is done when it returns. *)
Definition ValidateImage (done : bool) (s : store) (input : ValidationInput)
  : res (option ValidationOutput * event * store) :=
  '(l, s) ← validate_body s input;
  '(out, e) ← deferred done input l;
  Ok (out, e, s).

(** [ValidateWorkloadObject]: the inputs of the goroutines it starts, in the order in
    which it ranges over the map. *)
Definition workload_inputs `{MapOrder} (new old : WorkloadObject) (parents : res (list string))
  : list ValidationInput :=
  let containers := ConsolidatedContainers new in
  let previousImages := ImageSet old in
  (fun image => {| in_IdxsTypes := default [] (containers !! image); in_Image := image;
                   PreviousImages := previousImages; ParentImages := parents |})
    <$> range 1 (dom containers).
End Validation.

(** * What a successful validation rests on *)
Set Default Proof Using "Type".
Section Soundness.
Context `{NameLib}.
Context (cache : Cacher).
Variable glob : string -> option (string -> bool).
Variable env : environ.
Variable config : Config.

(** The grounds on which an image is admitted with a digest: the validator of its
    rule accepts it, or, unless that validator is static, one of the three reasons
    to skip it holds. *)
Inductive grounds (s : store) (input : ValidationInput) (img : Image) (rule : Rule)
    (v : Validator) : string -> Image -> Prop :=
  | by_validator digest img' :
      Validator.ValidateImage v img (With rule) = (img', Ok digest) ->
      grounds s input img rule v digest img'
  | by_unchanged :
      v_Type v <> StaticValidatorType ->
      FeatureFlagOn env AutomaticUnchangedApproval = true ->
      OriginalString img ∈ PreviousImages input ->
      grounds s input img rule v (Digest img) img
  | by_parent parents :
      v_Type v <> StaticValidatorType ->
      FeatureFlagOn env AutomaticChildApproval = true -> BlockAllResources env = true ->
      ParentImages input = Ok parents -> OriginalString img ∈ parents ->
      grounds s input img rule v (Digest img) img
  | by_cache val entry :
      v_Type v <> StaticValidatorType ->
      Get s (OriginalString img) = Ok val -> unmarshal_entry val = Ok entry ->
      ce_Error entry = "" -> ce_Digest entry <> "" ->
      grounds s input img rule v (ce_Digest entry) img.

Lemma existsb_eq (x : string) l :
  existsb (fun y => bool_decide (y = x)) l = true <-> x ∈ l.
Proof.
  rewrite existsb_exists. split.
  - intros (y & Hy & Heq). apply bool_decide_eq_true in Heq as <-. by apply list_elem_of_In.
  - intros Hx. exists x. split; [by apply list_elem_of_In|]. by apply bool_decide_eq_true.
Qed.

Lemma getCachedDigest_Ok s img digest err :
  getCachedDigest cache s img = Ok (digest, err) ->
  exists val entry, Get s (OriginalString img) = Ok val /\ unmarshal_entry val = Ok entry /\
    (ce_Error entry <> "" /\ digest = "" /\ err = Some (ce_Error entry) \/
     ce_Error entry = "" /\ ce_Digest entry <> "" /\ digest = ce_Digest entry /\ err = None).
Proof.
  unfold getCachedDigest. intros (val & Hv & H1)%bind_Ok. apply map_err_Ok in Hv.
  apply bind_Ok in H1 as (entry & He & H1). apply map_err_Ok in He.
  exists val, entry. split; [done|]. split; [done|].
  case_decide as Herr; [injection H1 as <- <-; by left|].
  case_decide; simplify_eq. right. done.
Qed.

Lemma automaticUnchangedApproval_true img prev :
  automaticUnchangedApproval env img prev = true <->
  FeatureFlagOn env AutomaticUnchangedApproval = true /\ OriginalString img ∈ prev.
Proof.
  unfold automaticUnchangedApproval. rewrite <- (existsb_eq _ prev).
  destruct (FeatureFlagOn _ _); naive_solver.
Qed.

Lemma automaticChildApproval_true img parents :
  automaticChildApproval env img parents = Ok true <->
  FeatureFlagOn env AutomaticChildApproval = true /\ BlockAllResources env = true /\
  exists l, parents = Ok l /\ OriginalString img ∈ l.
Proof.
  unfold automaticChildApproval. destruct (FeatureFlagOn _ _); [|naive_solver].
  destruct (BlockAllResources env); cbn [negb]; [|naive_solver]. rewrite bind_Ok. split.
  - intros (l & -> & [= H1]). apply existsb_eq in H1. naive_solver.
  - intros (_ & _ & l & -> & Hl%existsb_eq). exists l. by rewrite Hl.
Qed.

(** The digest of a skip, when there is no error, has one of the three grounds. *)
Lemma Skip_grounds s input img rule v sk :
  v_Type v <> StaticValidatorType ->
  Skip cache env s img (PreviousImages input) (ParentImages input) = Ok sk ->
  skip sk = true -> validationError sk = None ->
  grounds s input img rule v (validatedDigest sk) img.
Proof.
  intros Hv. unfold Skip.
  destruct (automaticUnchangedApproval _ _ _) eqn:Eu.
  { intros [= <-] _ _. apply automaticUnchangedApproval_true in Eu as [? ?].
    by apply by_unchanged. }
  intros (child & Hc & H1)%bind_Ok Hs Hn. destruct child.
  { injection H1 as <-. apply automaticChildApproval_true in Hc as (? & ? & l & ? & ?).
    by eapply by_parent. }
  destruct (getCachedDigest cache s img) as [[digest err]| |] eqn:Ec; simplify_eq/=. apply getCachedDigest_Ok in Ec as (val & entry & ? & ? & Hcase).
  destruct Hcase as [(? & ? & ?)|(? & ? & -> & _)]; [done|]. cbn. by eapply by_cache.
Qed.

Lemma validate_and_cache_Ok s l rule v img l' s' :
  errOut l = None ->
  validate_and_cache cache env s l rule v img = Ok (l', s') ->
  validatorName l' = validatorName l /\ validatorType l' = validatorType l /\
  skipped l' = skipped l /\ l_skipReason l' = l_skipReason l /\
  validationMode l' = validationMode l /\
  ((exists img' e, Validator.ValidateImage v img (With rule) = (img', Err e) /\ errOut l' <> None) \/
   exists img' d, Validator.ValidateImage v img (With rule) = (img', Ok d) /\ errOut l' = None /\
     oldImg l' = Name img' /\ newImg l' = Name (SetDigest img' d)).
Proof.
  intros Hl. unfold validate_and_cache.
  destruct (Validator.ValidateImage v img (With rule)) as [img' [d|e|w]]; [| |done].
  - case_decide; [destruct (Set_ _ _ _) as [[]?]; try done|];
      intros [= <- <-]; cbn; rewrite Hl; repeat (split; [done|]); right; by exists img', d.
  - destruct (CacheErrors env); [destruct (Set_ _ _ _) as [[]?]; try done|];
      intros [= <- <-]; cbn; repeat (split; [done|]); left; by exists img', e.
Qed.

(** The grounds of a body that ends without an error. *)
Lemma validate_body_sound s input l s' :
  validate_body cache glob env config s input = Ok (l, s') -> errOut l = None ->
  exists img rule v digest img',
    New (in_Image input) = Ok img /\ MatchingRule glob (Rules config) (Name img) = Ok rule /\
    FindValidator v_Name (Validators config) (Policy.Validator rule) = Ok v /\
    grounds s input img rule v digest img' /\
    (skipped l = false -> Validator.ValidateImage v img (With rule) = (img', Ok digest)) /\
    oldImg l = Name img' /\ newImg l = Name (SetDigest img' digest) /\
    validatorName l = v_Name v /\ validationMode l = effective_mode rule.
Proof.
  unfold validate_body. intros Hb Herr.
  destruct (New (in_Image input)) as [img| |] eqn:Ei; simplify_eq/=.
  destruct (MatchingRule _ _ _) as [rule| |] eqn:Er; simplify_eq/=.
  destruct (FindValidator _ _ _) as [v| |] eqn:Ev; simplify_eq/=.
  destruct (decide (v_Type v = StaticValidatorType)) as [Hst|Hst].
  - apply bind_Ok in Hb as (l' & Hl & [= -> <-]). unfold validate_static in Hl.
    destruct (Validator.ValidateImage v img (With rule)) as [img' [d|e|w]] eqn:Ed; simplify_eq/=.
    exists img, rule, v, d, img'. repeat (split; [done|]). split; [by apply by_validator|]. done.
  - apply bind_Ok in Hb as (sk & Hsk & Hb). destruct (skip sk) eqn:Es.
    + injection Hb as <- <-. cbn in Herr. exists img, rule, v, (validatedDigest sk), img.
      repeat (split; [done|]). split; [by eapply Skip_grounds|done].
    + apply validate_and_cache_Ok in Hb as (Hn & _ & _ & _ & Hm & Hc); [|done].
      destruct Hc as [(? & ? & _ & Hne)|(img' & d & Hd & _ & Ho & Hw)]; [by destruct Hne|].
      exists img, rule, v, d, img'. repeat (split; [done|]). split; [by apply by_validator|]. by rewrite Hd.
Qed.

Lemma ValidateImage_sent done s input out e s' :
  ValidateImage cache glob env config done s input = Ok (out, e, s') ->
  exists l, validate_body cache glob env config s input = Ok (l, s') /\
    deferred done input l = Ok (out, e).
Proof.
  unfold ValidateImage. intros ([l s1] & Hl & H1)%bind_Ok. exists l.
  apply bind_Ok in H1 as ([o e'] & Hd & [= <- <- <-]). done.
Qed.

Lemma deferred_None done input l out e :
  deferred done input l = Ok (Some out, e) ->
  done = false /\ check_format l = Ok (Error out) /\ RawImage out = in_Image input /\
  IdxsTypes out = in_IdxsTypes input /\ NewImage out = newImg l /\ OldImage out = oldImg l /\
  out_ValidationMode out = validationMode l /\ out_Validator out = validatorName l /\
  Skipped out = skipped l.
Proof.
  unfold deferred. destruct done; [done|]. intros (o & Ho & [= <- <-])%bind_Ok.
  repeat (split; [done|]). done.
Qed.

Lemma check_format_None l : check_format l = Ok None -> errOut l = None /\ exists i, New (newImg l) = Ok i.
Proof.
  unfold check_format. destruct (errOut l); [done|]. destruct (New (newImg l)) as [i| |]; try done.
  intros _. split; [done|]. by exists i.
Qed.
End Soundness.

Lemma sound_output_skipped `{NameLib} (cache : Cacher) (glob : string -> option (string -> bool))
    (env : environ) (config : Config) (done : bool) (s s' : store) (input : ValidationInput)
    (out : ValidationOutput) (e : event) :
  ValidateImage cache glob env config done s input = Ok (Some out, e, s') ->
  Error out = None ->
  exists img rule v digest img',
    (New (RawImage out) = Ok img /\ MatchingRule glob (Rules config) (Name img) = Ok rule /\
    FindValidator v_Name (Validators config) (Policy.Validator rule) = Ok v /\
    grounds cache env s input img rule v digest img' /\
    OldImage out = Name img' /\ NewImage out = Name (SetDigest img' digest) /\
    is_ok (New (NewImage out)) = true /\
    out_Validator out = v_Name v /\ out_ValidationMode out = effective_mode rule) /\
    (Skipped out = false -> Validator.ValidateImage v img (With rule) = (img', Ok digest)).
Proof.
  intros (l & Hl & Hd)%ValidateImage_sent Herr.
  apply deferred_None in Hd as (-> & Hf & Hraw & _ & Hnew & Hold & Hm & Hv & Hsk).
  rewrite Herr in Hf. apply check_format_None in Hf as [Hn [i Hi]].
  apply validate_body_sound in Hl as
    (img & rule & v & digest & img' & H1 & H2 & H3 & H4 & Hd & H5 & H6 & H7 & H8); [|done].
  exists img, rule, v, digest, img'. rewrite Hraw, Hold, Hnew, Hv, Hm, Hi, Hsk. done.
Qed.
Lemma sound_output `{NameLib} (cache : Cacher) (glob : string -> option (string -> bool))
    (env : environ) (config : Config) (done : bool) (s s' : store) (input : ValidationInput)
    (out : ValidationOutput) (e : event) :
  ValidateImage cache glob env config done s input = Ok (Some out, e, s') ->
  Error out = None ->
  exists img rule v digest img',
    New (RawImage out) = Ok img /\ MatchingRule glob (Rules config) (Name img) = Ok rule /\
    FindValidator v_Name (Validators config) (Policy.Validator rule) = Ok v /\
    grounds cache env s input img rule v digest img' /\
    OldImage out = Name img' /\ NewImage out = Name (SetDigest img' digest) /\
    is_ok (New (NewImage out)) = true /\
    out_Validator out = v_Name v /\ out_ValidationMode out = effective_mode rule.
Proof.
  intros H1 H2. destruct (sound_output_skipped _ _ _ _ _ _ _ _ _ _ H1 H2)
    as (img & rule & v & d & img' & Hall & _). by exists img, rule, v, d, img'.
Qed.

(** C6: an image is reported without an error only on the grounds of its policy:
    the most specific rule for its name is found, and the validator of that rule
    returned the digest, or, unless that validator is static, the image was in the
    old object (feature on), in an approved parent (feature on, all resources
    validated) or in the cache without an error.  The reported image is then the
    validated one with exactly that digest, and it parses. *)
Theorem ValidateImage_sound `{NameLib} (cache : Cacher) (glob : string -> option (string -> bool))
    (env : environ) (config : Config) (done : bool) (s s' : store) (input : ValidationInput)
    (out : ValidationOutput) (e : event) :
  ValidateImage cache glob env config done s input = Ok (Some out, e, s') ->
  Error out = None ->
  exists img rule v digest img',
    New (RawImage out) = Ok img /\ MatchingRule glob (Rules config) (Name img) = Ok rule /\
    FindValidator v_Name (Validators config) (Policy.Validator rule) = Ok v /\
    grounds cache env s input img rule v digest img' /\
    OldImage out = Name img' /\ NewImage out = Name (SetDigest img' digest) /\
    is_ok (New (NewImage out)) = true /\
    out_Validator out = v_Name v /\ out_ValidationMode out = effective_mode rule.
Proof. apply sound_output. Qed.

(** C7: static validators come first: when the rule of an image names a static
    validator that denies, the image is reported with an error, whatever the cache,
    the old object or the parents contain, and nothing is cached. *)
Theorem ValidateImage_static_deny `{NameLib} (cache : Cacher)
    (glob : string -> option (string -> bool)) (env : environ) (config : Config) (s : store)
    (input : ValidationInput) (img : Image) (rule : Rule) (v : Validator) (sv : StaticValidator) :
  New (in_Image input) = Ok img -> MatchingRule glob (Rules config) (Name img) = Ok rule ->
  FindValidator v_Name (Validators config) (Policy.Validator rule) = Ok v ->
  v_Type v = StaticValidatorType -> SpecificValidator v = static_validate sv ->
  Approve sv = false ->
  exists out e, ValidateImage cache glob env config false s input = Ok (Some out, e, s) /\
    Error out = Some ("static deny for image " +:+ in_Image input +:+ " using rule " +:+ Pattern rule) /\
    RawImage out = in_Image input /\ Skipped out = false.
Proof.
  intros Hi Hr Hv Ht Hs Ha. unfold ValidateImage, validate_body.
  rewrite Hi, Hr, Hv, decide_True by done. unfold validate_static, Validator.ValidateImage.
  rewrite Hs. cbn [validate static_validate]. unfold static_ValidateImage. rewrite Ha.
  cbn [mbind res_bind deferred]. unfold check_format. cbn [errOut with_error mbind res_bind].
  eexists _, _. split; [done|]. cbn [Error RawImage Skipped skipped with_error].
  split; [|done]. rewrite <- (New_original _ _ Hi). cbn [sprintf show_arg].
  by rewrite app_empty_r.
Qed.

Definition demo_rule (validator : string) : Rule :=
  {| Pattern := "*:*"; Policy.Validator := validator; With := zero_options |}.
Definition demo_config : Config := {|
  Validators := [{| v_Name := "deny"; v_Type := "static";
    SpecificValidator := static_validate {| s_Name := "deny"; s_Type := "static"; Approve := false |} |}];
  Rules := [demo_rule "deny"] |}.
Definition demo_input : ValidationInput := {|
  in_IdxsTypes := [{| Index := 0; Type_ := "containers" |}];
  in_Image := "reg.io/app:1"; PreviousImages := ["reg.io/app:1"]; ParentImages := Ok ["reg.io/app:1"] |}.
Definition demo_glob : string -> option (string -> bool) := fun p => Some (star_matchb p).
Definition no_env : environ := fun _ => None.

Lemma ValidateImage_static_deny_witness :
  exists out e, ValidateImage (H := demo_lib) EmptyCache demo_glob no_env demo_config false tt demo_input
      = Ok (Some out, e, tt) /\
    Error out = Some ("static deny for image " +:+ "reg.io/app:1" +:+ " using rule " +:+ "*:*") /\
    RawImage out = "reg.io/app:1" /\ Skipped out = false.
Proof.
  pose (img := match New (H := demo_lib) "reg.io/app:1" with Ok i => i | _ =>
    {| original := ""; ref := {| ctx_name := ""; ctx_string := ""; ctx_registry := "";
       identifier := "" |}; tag := ""; digest := "" |} end).
  eapply (ValidateImage_static_deny (H := demo_lib) EmptyCache demo_glob no_env demo_config tt demo_input
    img (demo_rule "deny") _ {| s_Name := "deny"; s_Type := "static"; Approve := false |}).
  - vm_compute. reflexivity.
  - vm_compute. reflexivity.
  - vm_compute. reflexivity.
  - reflexivity.
  - reflexivity.
  - reflexivity.
Defined.

(** * Cached results *)
Lemma JsonEscapeString_names :
  JsonEscapeString "digest" = "digest" /\ JsonEscapeString "error" = "error".
Proof. by vm_compute. Qed.

Lemma cache_entry_parts d e :
  cache_entry d e = "{" +:+ (dq +:+ JsonEscapeString "digest" +:+ dq +:+ (":" +:+
    (dq +:+ JsonEscapeString d +:+ dq +:+ ("," +:+ (dq +:+ JsonEscapeString "error" +:+ dq +:+ (":" +:+
    (dq +:+ JsonEscapeString e +:+ dq +:+ "}"))))))).
Proof.
  destruct JsonEscapeString_names as [-> ->]. unfold cache_entry.
  change dq with (String (Ascii false true false false false true false false) "").
  rewrite !app_cons, !app_empty_l.
  cbn [sprintf show_arg]. rewrite ?app_cons, ?app_empty_l. done.
Qed.

Lemma parse_cache_entry d e :
  parse_json (cache_entry d e)
    = Some (JObj [("digest", JStr (to_valid d)); ("error", JStr (to_valid e))]).
Proof.
  unfold parse_json. rewrite cache_entry_parts.
  repeat first [rewrite lex_quoted | rewrite app_cons, app_empty_l, lex_punct by done];
    cbn [mbind option_bind]. done.
Qed.

(** Reading an entry back gives what was written (as valid UTF-8). *)
Lemma unmarshal_cache_entry d e :
  unmarshal_entry (cache_entry d e) = Ok {| ce_Digest := to_valid d; ce_Error := to_valid e |}.
Proof.
  unfold unmarshal_entry, unmarshal_strings. rewrite parse_cache_entry. cbn [foldl].
  change (set_field ["digest"; "error"] (∅, false) ("digest", JStr (to_valid d)))
    with (<["digest" := to_valid d]> (∅ : gmap string string), false).
  change (set_field ["digest"; "error"] (?m, false) ("error", JStr (to_valid e)))
    with (<["error" := to_valid e]> m, false).
  cbn [mbind res_bind]. rewrite lookup_insert_eq, lookup_insert_ne, lookup_insert_eq by done. done.
Qed.

Lemma to_valid_nonempty s : s <> "" -> to_valid s <> "".
Proof.
  destruct s as [|a s]; [done|]. intros _. unfold to_valid. cbn [chunks].
  repeat case_match; cbn [concat_map chunk_bytes]; try discriminate; by vm_compute.
Qed.

(** C8: the cache answers with what was validated: when nothing usable was cached
    and a validator that keeps the reference of the image has run, a later lookup
    of the image either misses (also when storing failed) or gives the digest the
    validator returned, without an error, if it succeeded, and else its error,
    provided errors are cached. *)
Theorem cached_result_agrees (cache : Cacher) `{!CacherSpec cache} (env : environ) (s s' : store)
    (l l' : locals) (rule : Rule) (v : Validator) (img : Image) (miss d : string)
    (err : option string) :
  original (fst (Validator.ValidateImage v img (With rule))) = original img ->
  errOut l = None ->
  getCachedDigest cache s img = Err miss ->
  validate_and_cache cache env s l rule v img = Ok (l', s') ->
  getCachedDigest cache s' img = Ok (d, err) ->
  match snd (Validator.ValidateImage v img (With rule)), errOut l' with
  | Ok digest, None =>
      err = None /\ d = to_valid (Digest (SetDigest img digest)) /\ d <> ""
  | Err _, Some e => d = "" /\ err = Some (to_valid e) /\ CacheErrors env = true
  | _, _ => False
  end.
Proof.
  intros Horig Hl Hmiss Hrun Hhit. unfold validate_and_cache in Hrun.
  assert (Hgot : forall digest e s1,
      (forall v', Get s1 (original img) = Ok v' -> v' = cache_entry digest e) ->
      getCachedDigest cache s1 img = Ok (d, err) ->
      if decide (e = "") then d = to_valid digest /\ err = None /\ d <> ""
      else d = "" /\ err = Some (to_valid e)).
  { intros digest e s1 Hs (val & entry & Hv & He & Hcase)%getCachedDigest_Ok.
    rewrite (Hs _ Hv), unmarshal_cache_entry in He. injection He as <-.
    cbn in Hcase. case_decide as Hd.
    - subst. destruct Hcase as [[? _]|(_ & ? & -> & ->)]; done.
    - apply to_valid_nonempty in Hd. destruct Hcase as [(_ & -> & ->)|[? _]]; done. }
  assert (Hset : forall i digest e s1 r, original i = original img ->
      Set_ s (OriginalString i) (cache_entry digest e) = (r, s1) -> is_ok r = true \/ (exists m, r = Err m) ->
      getCachedDigest cache s1 img = Ok (d, err) ->
      if decide (e = "") then d = to_valid digest /\ err = None /\ d <> ""
      else d = "" /\ err = Some (to_valid e)).
  { intros i digest e s1 r Hi Hs Hr Hg. unfold OriginalString in Hs. rewrite Hi in Hs.
    destruct r as [[]|m|w]; [| |by destruct Hr as [?|[? ?]]].
    2:{ apply (Get_Set_failed _ _ _ _ _) in Hs as [Hs|Hs]; [|by eapply Hgot].
        unfold getCachedDigest, OriginalString in *. rewrite Hs in Hg. congruence. }
    eapply Hgot; [|done]. intros v'. by apply (Get_Set_same _ _ _ _ _ Hs). }
  destruct (Validator.ValidateImage v img (With rule)) as [img' [digest|e|w]]; cbn [fst snd] in *; [| |done].
  - case_decide as Hd.
    + destruct (Set_ _ _ _) as [r s1] eqn:Es.
      assert (Hr : is_ok r = true \/ exists m, r = Err m) by (destruct r; naive_solver).
      assert (l' = with_images l (Name img') (Name (SetDigest img' digest)) /\ s1 = s') as [-> ->].
      { destruct r; naive_solver. }
      cbn [errOut with_images]. rewrite Hl.
      specialize (Hset _ _ _ _ _ Horig Es Hr Hhit). rewrite decide_True in Hset by done. naive_solver.
    + injection Hrun as <- <-. congruence.
  - destruct (CacheErrors env) eqn:Ec.
    + destruct (Set_ _ _ _) as [r s1] eqn:Es.
      assert (Hr : is_ok r = true \/ exists m, r = Err m) by (destruct r; naive_solver).
      destruct r; simplify_eq; cbn [errOut with_error] in *;
        specialize (Hset (SetDigest img' "") _ _ _ _ Horig Es Hr Hhit); rewrite decide_False in Hset;
        try done; naive_solver.
    + injection Hrun as <- <-. congruence.
Qed.

(** * Concrete runs *)
Definition demo_image : Image := {|
  original := "reg.io/app:1";
  ref := {| ctx_name := "reg.io/app"; ctx_string := "reg.io/app"; ctx_registry := "reg.io";
            identifier := "1" |};
  tag := "1"; digest := "" |}.
Definition demo_validator : Validator := {| v_Name := "signed"; v_Type := "cosign";
  SpecificValidator := {| validate img _ := (img, Ok "sha256:abc") |} |}.
Definition signed_config : Config :=
  {| Validators := [demo_validator]; Rules := [demo_rule "signed"] |}.
Definition demo_out : ValidationOutput := {|
  IdxsTypes := in_IdxsTypes demo_input; RawImage := "reg.io/app:1";
  NewImage := "reg.io/app:1@sha256:abc"; OldImage := "reg.io/app:1"; Error := None;
  out_Validator := "signed"; Skipped := false; SkipReason := ""; out_ValidationMode := "mutate" |}.
(** Child approval off: the parent's images do not count. *)
Definition strict_env : environ := fun k =>
  if decide (k = AutomaticChildApproval) then Some "false" else None.

Lemma ValidateImage_sound_witness :
  exists img rule v digest img',
    New (H := demo_lib) "reg.io/app:1" = Ok img /\
    MatchingRule demo_glob (Rules signed_config) (Name img) = Ok rule /\
    FindValidator v_Name (Validators signed_config) (Policy.Validator rule) = Ok v /\
    grounds EmptyCache strict_env tt demo_input img rule v digest img' /\
    OldImage demo_out = Name img' /\ NewImage demo_out = Name (SetDigest img' digest) /\
    is_ok (New (H := demo_lib) (NewImage demo_out)) = true /\
    out_Validator demo_out = v_Name v /\ out_ValidationMode demo_out = effective_mode rule.
Proof.
  apply (ValidateImage_sound (H := demo_lib) EmptyCache demo_glob strict_env signed_config false tt tt
    demo_input demo_out (Succeeded "cosign" "signed" None)); vm_compute; reflexivity.
Defined.

Definition demo_cache : Cacher := Redis mem_client 30000000000.
Definition empty_mem : mem := ∅.

Lemma cached_result_agrees_witness :
  exists s', validate_and_cache demo_cache strict_env empty_mem initial (demo_rule "signed")
      demo_validator demo_image
    = Ok (with_images initial "reg.io/app:1" "reg.io/app:1@sha256:abc", s') /\
  match snd (Validator.ValidateImage demo_validator demo_image zero_options), @None string with
  | Ok digest, None => @None string = None /\
      "sha256:abc" = to_valid (Digest (SetDigest demo_image digest)) /\ "sha256:abc" <> ""
  | Err _, Some e => "sha256:abc" = "" /\ @None string = Some (to_valid e) /\
      CacheErrors strict_env = true
  | _, _ => False
  end.
Proof.
  eexists. split; [vm_compute; reflexivity|].
  eapply (cached_result_agrees demo_cache (CacherSpec0 := Redis_spec mem_client (RedisSpec0 := mem_spec) _)
    strict_env empty_mem _ initial
    (with_images initial "reg.io/app:1" "reg.io/app:1@sha256:abc") (demo_rule "signed")
    demo_validator demo_image); try reflexivity; vm_compute; reflexivity.
Defined.

(** * Validation always ends with an output *)
Section Total.
Context `{NameLib}.
Context (cache : Cacher) `{!CacherSpec cache}.
Variable glob : string -> option (string -> bool).
Variable env : environ.
Variable config : Config.
Hypothesis parse_safe : forall s, safe (ParseReference s).
Hypothesis rule_safe : forall image, safe (MatchingRule glob (Rules config) image).
Hypothesis validators_safe : forall v, v ∈ Validators config -> safe_validator (SpecificValidator v).

Lemma unmarshal_entry_safe val : safe (unmarshal_entry val).
Proof.
  unfold unmarshal_entry, unmarshal_strings. apply safe_bind; [|auto with go].
  repeat (step_match; auto with go).
Qed.

Lemma getCachedDigest_safe s img : safe (getCachedDigest cache s img).
Proof using CacherSpec0.
  unfold getCachedDigest. apply safe_bind; [apply safe_map_err, Get_safe|]. intros val _.
  apply safe_bind; [apply safe_map_err, unmarshal_entry_safe|]. intros e _.
  repeat case_decide; auto with go.
Qed.

Lemma Skip_returns s img prev parents : is_ok (Skip cache env s img prev (Ok parents)) = true.
Proof using CacherSpec0.
  unfold Skip. destruct (automaticUnchangedApproval _ _ _); [done|].
  assert (Hc : exists child, automaticChildApproval env img (Ok parents) = Ok child).
  { unfold automaticChildApproval. destruct (FeatureFlagOn _ _); [|by eexists].
    destruct (negb _); by eexists. }
  destruct Hc as [child ->]. cbn [mbind res_bind]. destruct child; [done|].
  pose proof (getCachedDigest_safe s img) as Hs.
  destruct (getCachedDigest cache s img) as [[d e]| |w]; [done..|by destruct (Hs w)].
Qed.

Lemma Set_then_returns {A} s k v (x : store -> A) :
  is_ok (let '(r, s) := Set_ s k v in match r with Panic w => Panic w | _ => Ok (x s) end) = true.
Proof using CacherSpec0.
  pose proof (Set_safe s k v) as Hs. destruct (Set_ s k v) as [[u|e|w] s']; [done..|].
  by destruct (Hs w).
Qed.

Lemma validate_body_returns s input parents :
  ParentImages input = Ok parents -> is_ok (validate_body cache glob env config s input) = true.
Proof using CacherSpec0 parse_safe rule_safe validators_safe.
  intros Hp. unfold validate_body. pose proof (New_safe _ (parse_safe (in_Image input))) as Hn.
  destruct (New (in_Image input)) as [img| |w]; [|done|by destruct (Hn w)].
  pose proof (rule_safe (Name img)) as Hr.
  destruct (MatchingRule _ _ _) as [rule| |w]; [|done|by destruct (Hr w)].
  destruct (FindValidator _ _ _) as [v| |w] eqn:Ev; [|done|].
  2: { unfold FindValidator in Ev. cbv zeta in Ev. by destruct (List.find _ _). }
  pose proof (validators_safe v (FindValidator_elem _ _ _ _ Ev) img (With rule)) as Hv.
  cbv zeta. case_decide.
  - unfold validate_static, Validator.ValidateImage.
    destruct (validate _ _ _) as [img' [d|e|w]]; [done..|by destruct (Hv w)].
  - pose proof (Skip_returns s img (PreviousImages input) parents) as Hs. rewrite Hp.
    destruct (Skip _ _ _ _ _ _) as [sk| |]; [|done..]. cbn [mbind res_bind].
    destruct (skip sk); [done|]. unfold validate_and_cache, Validator.ValidateImage.
    destruct (validate _ _ _) as [img' [d|e|w]]; [| |by destruct (Hv w)].
    + case_decide; [|done]. apply (Set_then_returns _ _ _ (fun s => (_, s))).
    + destruct (CacheErrors env); [|done]. apply (Set_then_returns _ _ _ (fun s => (_, s))).
Qed.
End Total.

(** C20: validation of an image always ends with an output while the context is open:
    it does not panic, when the parser, the cache, the lookup of parents and the
    configured validators do not, and the rules use no other wildcard than the
    star. *)
Theorem ValidateImage_total `{NameLib} (cache : Cacher) `{!CacherSpec cache}
    (glob : string -> option (string -> bool)) (env : environ) (config : Config) (s : store)
    (input : ValidationInput) :
  (forall s, safe (ParseReference s)) -> GlobSpec glob ->
  Forall (fun r => wildcard_pattern (Pattern r) = true) (Rules config) ->
  (forall v, v ∈ Validators config -> safe_validator (SpecificValidator v)) ->
  is_ok (ParentImages input) = true ->
  exists out e s', ValidateImage cache glob env config false s input = Ok (Some out, e, s') /\
    RawImage out = in_Image input /\ IdxsTypes out = in_IdxsTypes input.
Proof.
  intros Hparse Hglob Hrules Hvals Hpar.
  assert (Hrule : forall image, safe (MatchingRule glob (Rules config) image)).
  { intros image w Hw. destruct (MatchingRule_outcome glob (Rules config) image Hglob Hrules) as [[r E]|E];
      congruence. }
  destruct (ParentImages input) as [parents| |] eqn:Ep; [clear Hpar|discriminate..].
  pose proof (validate_body_returns cache glob env config Hparse Hrule Hvals s input parents Ep) as Hb.
  unfold ValidateImage. destruct (validate_body _ _ _ _ _ _) as [[l s']|e|w] eqn:Eb; [|discriminate..].
  cbn [mbind res_bind]. unfold deferred.
  assert (Hc : exists o, check_format l = Ok o).
  { unfold check_format. destruct (errOut l); [by eexists|].
    pose proof (New_safe _ (Hparse (newImg l))) as Hn.
    destruct (New (newImg l)) as [i| |w]; [by eexists..|by destruct (Hn w)]. }
  destruct Hc as [o ->]. cbn [mbind res_bind]. by eexists _, _, s'.
Qed.

Lemma demo_lib_safe s : safe (ParseReference (NameLib := demo_lib) s).
Proof.
  cbn. unfold demo_parse. destruct (cut "@" s) as [b o]. destruct (cut ":" b) as [p t].
  cbv zeta. case_decide; auto with go.
Qed.
Lemma ValidateImage_total_witness :
  exists out e s', ValidateImage (H := demo_lib) EmptyCache demo_glob no_env demo_config false tt demo_input
      = Ok (Some out, e, s') /\
    RawImage out = "reg.io/app:1" /\ IdxsTypes out = [{| Index := 0; Type_ := "containers" |}].
Proof.
  apply (ValidateImage_total (H := demo_lib) EmptyCache demo_glob no_env demo_config tt demo_input).
  - apply demo_lib_safe.
  - exact star_glob_spec.
  - repeat constructor.
  - intros v ->%list_elem_of_singleton. apply static_safe.
  - reflexivity.
Defined.
