(* ===== verification/History.v ===== *)
(** The validation of images over time: concurrent calls of
    [handler/validation.ValidateImage] in one process that share the Redis cache of
    [internal/caching], time that passes, entries that expire or get lost, and
    restarts with another configuration.  The calls are a step relation on the state
    of the server, an abstract ledger of verdicts is what they promise, and a forward
    simulation shows that the server keeps the promise. *)
From S2P Require Import Prelude GoStrings Utils Policy Image Kube Json Caching Metrics Validator Validation.

(** * The phases of one validation

    [ValidateImage] touches shared state three times: it reads the cache in [Skip],
    calls the validator and writes to the cache.  Between these points other
    goroutines run. *)
(** The text of the error of a validation. *)
Definition rejection (v : Validator) (img : Image) (e : string) : string :=
  sprintf "error during %s validation of image %s: %s"
    [AStr (v_Type v); AStr (OriginalString img); AStr e].

Inductive resolved : Type :=
  | Answered (l : locals)
  | Guarded (l : locals) (rule : Rule) (v : Validator) (img : Image).

Section Phases.
Context `{NameLib}.
Context (cache : Cacher).
Variable glob : string -> option (string -> bool).
Variable env : environ.

(** Up to the call of [Skip]: the rule, the validator, and the answer of a static one. *)
Definition resolve (config : Config) (image : string) : res resolved :=
  match New image with
  | Panic w => Panic w
  | Err _ => Ok (Answered (with_error initial "invalid image reference"))
  | Ok img =>
      match MatchingRule glob (Rules config) (Name img) with
      | Panic w => Panic w
      | Err err => Ok (Answered (with_error initial err))
      | Ok rule =>
          match FindValidator v_Name (Validators config) (Policy.Validator rule) with
          | Panic w => Panic w
          | Err err => Ok (Answered (with_error initial err))
          | Ok validator =>
              let l := {| newImg := ""; oldImg := ""; errOut := None;
                          validatorName := v_Name validator; skipped := false; l_skipReason := "";
                          validationMode := effective_mode rule;
                          validatorType := v_Type validator |} in
              if decide (v_Type validator = StaticValidatorType) then
                l ← validate_static l rule validator img; Ok (Answered l)
              else Ok (Guarded l rule validator img)
          end
      end
  end.

(** The variables of a skipped validation. *)
Definition after_skip (l : locals) (img : Image) (sk : skip_result) : locals :=
  {| newImg := Name (SetDigest img (validatedDigest sk)); oldImg := Name img;
     errOut := validationError sk; validatorName := validatorName l; skipped := true;
     l_skipReason := skipReason sk; validationMode := validationMode l;
     validatorType := validatorType l |}.

(** Up to the call of the validator: [inl] is the end of the validation. *)
Definition check (config : Config) (s : store) (input : ValidationInput)
  : res (locals + locals * Rule * Validator * Image) :=
  r ← resolve config (in_Image input);
  match r with
  | Answered l => Ok (inl l)
  | Guarded l rule v img =>
      sk ← Skip cache env s img (PreviousImages input) (ParentImages input);
      Ok (if skip sk then inl (after_skip l img sk) else inr (l, rule, v, img))
  end.

(** The call of the validator: the variables of the validation and what it is going
    to store. *)
Definition judge (l : locals) (rule : Rule) (v : Validator) (img : Image)
  : res (locals * option (string * string)) :=
  match Validator.ValidateImage v img (With rule) with
  | (_, Panic w) => Panic w
  | (img, Err err) =>
      let cacheErr := rejection v img err in
      let img := SetDigest img "" in
      Ok (with_error l cacheErr,
          if CacheErrors env then Some (OriginalString img, cache_entry (Digest img) cacheErr) else None)
  | (img, Ok digest) =>
      let oldImg := Name img in
      let img := SetDigest img digest in
      Ok (with_images l oldImg (Name img),
          if decide (Digest img <> "") then Some (OriginalString img, cache_entry (Digest img) "") else None)
  end.

(** The write to the cache, whose errors are only logged. *)
Definition put (s : store) (o : option (string * string)) : res store :=
  match o with
  | None => Ok s
  | Some (k, val) => let '(r, s) := Set_ s k val in match r with Panic w => Panic w | _ => Ok s end
  end.

Lemma validate_and_cache_phases s l rule v img :
  validate_and_cache cache env s l rule v img
    = ('(l', o) ← judge l rule v img; s' ← put s o; Ok (l', s')).
Proof.
  unfold validate_and_cache, judge.
  destruct (Validator.ValidateImage v img (With rule)) as [i [d|e|w]]; cbv zeta; [| |done].
  - case_decide; cbn [mbind res_bind put]; [|done]. by destruct (Set_ _ _ _) as [[]?].
  - destruct (CacheErrors env); cbn [mbind res_bind put]; [|done]. by destruct (Set_ _ _ _) as [[]?].
Qed.

(** The phases one after the other are the body of [ValidateImage]. *)
Lemma validate_body_phases config s input :
  validate_body cache glob env config s input =
    (c ← check config s input;
     match c with
     | inl l => Ok (l, s)
     | inr (l, rule, v, img) => '(l', o) ← judge l rule v img; s' ← put s o; Ok (l', s')
     end).
Proof.
  unfold validate_body, check, resolve.
  destruct (New _) as [img| |]; [|done..]. destruct (MatchingRule _ _ _) as [rule| |]; [|done..].
  destruct (FindValidator _ _ _) as [v| |]; [|done..]. cbv zeta. case_decide.
  - by destruct (validate_static _ _ _ _).
  - cbn [mbind res_bind]. destruct (Skip _ _ _ _ _ _) as [sk| |]; cbn [mbind res_bind]; [|done..].
    destruct (skip sk); [done|]. apply validate_and_cache_phases.
Qed.

(** Neither a resolved nor a judged validation counts as skipped. *)
Lemma resolve_Answered config image l :
  resolve config image = Ok (Answered l) -> l_skipReason l = "" /\ skipped l = false.
Proof.
  unfold resolve. destruct (New _) as [img| |]; [|by intros [= <-]|done].
  destruct (MatchingRule _ _ _) as [rule| |]; [|by intros [= <-]|done].
  destruct (FindValidator _ _ _) as [v| |]; [|by intros [= <-]|done]. cbv zeta. case_decide; [|done].
  unfold validate_static. destruct (Validator.ValidateImage _ _ _) as [i [d|e|w]]; by intros [= <-].
Qed.

Lemma resolve_Guarded config image l rule v img :
  resolve config image = Ok (Guarded l rule v img) ->
  New image = Ok img /\ MatchingRule glob (Rules config) (Name img) = Ok rule /\
  FindValidator v_Name (Validators config) (Policy.Validator rule) = Ok v /\
  v_Type v <> StaticValidatorType /\
  l = {| newImg := ""; oldImg := ""; errOut := None; validatorName := v_Name v; skipped := false;
         l_skipReason := ""; validationMode := effective_mode rule; validatorType := v_Type v |}.
Proof.
  unfold resolve. destruct (New _) as [i| |]; [|done..].
  destruct (MatchingRule _ _ _) as [r| |] eqn:Er; [|done..].
  destruct (FindValidator _ _ _) as [x| |] eqn:Ev; [|done..]. cbv zeta. case_decide.
  - by destruct (validate_static _ _ _ _).
  - intros [= <- <- <- <-]. done.
Qed.
End Phases.

(** * The server *)

(** What a validator is configured with does not change, but its verdict on an image
    depends on registries and servers, that is, on time (in nanoseconds). *)
Record live_validator : Type := {
  lv_Name : string; lv_Type : string; behaviour : Z -> Validate }.
Definition at_time (t : Z) (v : live_validator) : Validator :=
  {| v_Name := lv_Name v; v_Type := lv_Type v; SpecificValidator := behaviour v t |}.

(** A loaded configuration, and how the code finds it at a given time. *)
Record deployment : Type := { d_Validators : list live_validator; d_Rules : list Rule }.
Definition config_at (d : deployment) (t : Z) : Config :=
  {| Validators := at_time t <$> d_Validators d; Rules := d_Rules d |}.

(** A call of [ValidateImage] that waits for its first or its second turn, or that has
    an answer and may still write to the cache. *)
Inductive phase : Type :=
  | Started (input : ValidationInput)
  | Calling (input : ValidationInput) (l : locals) (rule : Rule) (img : Image)
  | Judged (o : option (string * string)).

(** [epoch] counts the restarts, [since] is the time of the last one. *)
Record server `{RedisClient} : Type := {
  clock : Z; epoch : nat; since : Z; redis : remote; threads : gmap nat phase }.

(** What can be observed: the result of a validation, with the variables its deferred
    function reports, time and restarts. *)
Inductive action : Type :=
  | Decides (input : ValidationInput) (l : locals)
  | Passes (d : Z)
  | Restarts.

Section Server.
Context `{NameLib} `{R : RedisClient} `{!RedisSpec R}.
Variable expiry : Z.
Variable glob : string -> option (string -> bool).
Variable env : environ.
(** The configuration of each epoch. *)
Variable deployed : nat -> deployment.

Definition current (s : server) : Config := config_at (deployed (epoch s)) (clock s).
Definition with_threads (s : server) (ts : gmap nat phase) : server :=
  {| clock := clock s; epoch := epoch s; since := since s; redis := redis s; threads := ts |}.
Definition with_redis (s : server) (r : remote) : server :=
  {| clock := clock s; epoch := epoch s; since := since s; redis := r; threads := threads s |}.

Inductive step : server -> list action -> server -> Prop :=
  | step_spawn s i input :
      threads s !! i = None ->
      step s [] (with_threads s (<[i := Started input]> (threads s)))
  | step_answer s i input l :
      threads s !! i = Some (Started input) ->
      check (Redis R expiry) glob env (current s) (redis s) input = Ok (inl l) ->
      step s [Decides input l] (with_threads s (delete i (threads s)))
  | step_miss s i input l rule v img :
      threads s !! i = Some (Started input) ->
      check (Redis R expiry) glob env (current s) (redis s) input = Ok (inr (l, rule, v, img)) ->
      step s [] (with_threads s (<[i := Calling input l rule img]> (threads s)))
  | step_judge s i input l rule img v l' o :
      threads s !! i = Some (Calling input l rule img) ->
      FindValidator v_Name (Validators (current s)) (Policy.Validator rule) = Ok v ->
      judge env l rule v img = Ok (l', o) ->
      step s [Decides input l'] (with_threads s (<[i := Judged o]> (threads s)))
  | step_put s i o r' :
      threads s !! i = Some (Judged o) ->
      put (Redis R expiry) (redis s) o = Ok r' ->
      step s [] (with_redis (with_threads s (delete i (threads s))) r')
  | step_pass s d :
      (0 <= d)%Z ->
      step s [Passes d] {| clock := clock s + d; epoch := epoch s; since := since s;
                           redis := elapse d (redis s); threads := threads s |}
  | step_lose s r' :
      entries r' ⊆ entries (redis s) -> step s [] (with_redis s r')
  | step_restart s :
      step s [Restarts] {| clock := clock s; epoch := S (epoch s); since := clock s;
                           redis := redis s; threads := ∅ |}.

(** * The ledger

    What the calls promise, without cache, phases and encoding: the ledger keeps every
    verdict for ever; a verdict may be published after it was made, and an answer is a
    new verdict, a published one that is recent enough, or no matter of verdicts. *)
Record verdict_id : Type := { r_image : string; r_epoch : nat; r_at : Z }.
Record ledger : Type := {
  l_clock : Z; l_epoch : nat; l_since : Z;
  made : list verdict_id; published : list (verdict_id * Z) }.

(** The validator that the rules of the epoch name for the image has given the result
    [o] at that time. *)
Definition verdict (r : verdict_id) (rule : Rule) (v : Validator) (img img' : Image)
    (o : res string) : Prop :=
  exists l, resolve glob (config_at (deployed (r_epoch r)) (r_at r)) (r_image r)
              = Ok (Guarded l rule v img) /\
    Validator.ValidateImage v img (With rule) = (img', o).

(** What is kept of a verdict: the digest of the accepted image, or the error. *)
Definition kept (v : Validator) (img' : Image) (o : res string) : option (string * option string) :=
  match o with
  | Ok d => let d := Digest (SetDigest img' d) in if decide (d <> "") then Some (to_valid d, None) else None
  | Err e => if CacheErrors env then Some ("", Some (to_valid (rejection v img' e))) else None
  | Panic _ => None
  end.
Definition recall (d : string) (e : option string) : skip_result :=
  {| skip := true; skipReason := cache_reason; validatedDigest := d; validationError := e |}.
Definition approval (input : ValidationInput) (img : Image) (reason : string) : Prop :=
  automaticUnchangedApproval env img (PreviousImages input) = true /\ reason = unchanged_reason \/
  automaticChildApproval env img (ParentImages input) = Ok true /\ reason = child_reason.

Definition now_of (L : ledger) : Config := config_at (deployed (l_epoch L)) (l_clock L).

Inductive ledger_step : ledger -> list action -> ledger -> Prop :=
  | ledger_policy L input l :
      resolve glob (now_of L) (in_Image input) = Ok (Answered l) ->
      ledger_step L [Decides input l] L
  | ledger_approve L input l rule v img reason :
      resolve glob (now_of L) (in_Image input) = Ok (Guarded l rule v img) ->
      approval input img reason ->
      ledger_step L [Decides input (after_skip l img {| skip := true; skipReason := reason;
                       validatedDigest := Digest img; validationError := None |})] L
  | ledger_recall L input l rule v img r t rule' v' img' o d e :
      resolve glob (now_of L) (in_Image input) = Ok (Guarded l rule v img) ->
      (r, t) ∈ published L -> r_image r = in_Image input -> (l_clock L < t + expiry)%Z ->
      verdict r rule' v' img img' o -> kept v' img' o = Some (d, e) ->
      ledger_step L [Decides input (after_skip l img (recall d e))] L
  | ledger_judge L input l rule v img l' o :
      resolve glob (now_of L) (in_Image input) = Ok (Guarded l rule v img) ->
      judge env l rule v img = Ok (l', o) ->
      ledger_step L [Decides input l']
        {| l_clock := l_clock L; l_epoch := l_epoch L; l_since := l_since L;
           made := {| r_image := in_Image input; r_epoch := l_epoch L; r_at := l_clock L |} :: made L;
           published := published L |}
  | ledger_publish L r :
      r ∈ made L -> r_epoch r = l_epoch L ->
      ledger_step L [] {| l_clock := l_clock L; l_epoch := l_epoch L; l_since := l_since L;
                          made := made L; published := (r, l_clock L) :: published L |}
  | ledger_pass L d :
      (0 <= d)%Z ->
      ledger_step L [Passes d] {| l_clock := l_clock L + d; l_epoch := l_epoch L;
                                  l_since := l_since L; made := made L; published := published L |}
  | ledger_restart L :
      ledger_step L [Restarts] {| l_clock := l_clock L; l_epoch := S (l_epoch L);
                                  l_since := l_clock L; made := made L; published := published L |}
  | ledger_idle L : ledger_step L [] L.
End Server.

(** Runs and what is observed of them. *)
Inductive run {S A} (step : S -> list A -> S -> Prop) : S -> list A -> S -> Prop :=
  | run_nil s : run step s [] s
  | run_snoc s1 tr s2 a s3 : run step s1 tr s2 -> step s2 a s3 -> run step s1 (tr ++ a) s3.

(** A forward simulation carries runs over. *)
Lemma simulation_run {S T A} (step : S -> list A -> S -> Prop) (step' : T -> list A -> T -> Prop)
    (sim : S -> T -> Prop) :
  (forall s a s' t, step s a s' -> sim s t -> exists t', step' t a t' /\ sim s' t') ->
  forall s tr s' t, run step s tr s' -> sim s t -> exists t', run step' t tr t' /\ sim s' t'.
Proof.
  intros Hstep s tr s' t Hrun Hs. induction Hrun as [s|s1 tr s2 a s3 _ IH Ha].
  - exists t. split; [constructor|done].
  - destruct (IH Hs) as (t2 & Hr & H2). destruct (Hstep _ _ _ _ Ha H2) as (t3 & Ht & H3).
    exists t3. split; [by eapply run_snoc|done].
Qed.
Lemma run_inv {S A} (step : S -> list A -> S -> Prop) (P : S -> Prop) :
  (forall s a s', step s a s' -> P s -> P s') -> forall s tr s', run step s tr s' -> P s -> P s'.
Proof. intros Hstep s tr s' Hrun Hs. induction Hrun; eauto. Qed.

(** * The simulation *)
Lemma FindValidator_fmap {V W} (name : W -> string) (f : V -> W) vs key :
  FindValidator name (f <$> vs) key = f <$> FindValidator (fun v => name (f v)) vs key.
Proof.
  unfold FindValidator. cbv zeta. generalize (if decide (key = "") then "default" else key) as k. intros k.
  induction vs as [|v vs IH]; cbn; [done|]. by case_bool_decide.
Qed.

Lemma kept_Err env v img' e :
  CacheErrors env = true -> kept env v img' (Err e) = Some ("", Some (to_valid (rejection v img' e))).
Proof. unfold kept. by intros ->. Qed.
Lemma unmarshal_error e :
  unmarshal_entry (cache_entry "" e)
    = Ok {| ce_Digest := ""; ce_Error := default "" (Some (to_valid e)) |}.
Proof. by rewrite unmarshal_cache_entry. Qed.
Lemma rejection_nonempty v img' e : rejection v img' e <> "".
Proof. unfold rejection. by cbn. Qed.

Set Default Proof Using "Type".
Section Simulation.
Context `{NameLib} `{R : RedisClient} `{!RedisSpec R}.
Variable expiry : Z.
Variable glob : string -> option (string -> bool).
Variable env : environ.
Variable deployed : nat -> deployment.
Hypothesis expiry_pos : (0 < expiry)%Z.
(** A validator may write to the image, but not to the text of its reference. *)
Hypothesis keeps_original : forall n v t img opts,
  v ∈ d_Validators (deployed n) -> original (fst (validate (behaviour v t) img opts)) = original img.

Notation step := (step expiry glob env deployed).
Notation ledger_step := (ledger_step expiry glob env deployed).
Notation verdict := (verdict glob deployed).
Notation kept := (kept env).

(** The rule and the data of the validator do not depend on time. *)
Lemma resolve_time d t t' image l rule v img :
  resolve glob (config_at d t) image = Ok (Guarded l rule v img) ->
  exists v', resolve glob (config_at d t') image = Ok (Guarded l rule v' img).
Proof.
  intros (Hi & Hr & Hv & Hs & ->)%resolve_Guarded. cbn [Rules Validators config_at] in Hr, Hv.
  unfold resolve. cbn [Rules Validators config_at]. rewrite Hi, Hr.
  rewrite (FindValidator_fmap v_Name) in Hv |- *. cbn [v_Name at_time] in *.
  destruct (FindValidator _ _ _) as [lv| |]; try discriminate Hv. injection Hv as <-. cbn in Hs |- *.
  rewrite decide_False by done. by eexists.
Qed.

Lemma resolve_original n t image l rule v img :
  resolve glob (config_at (deployed n) t) image = Ok (Guarded l rule v img) ->
  original img = image /\
  original (fst (Validator.ValidateImage v img (With rule))) = original img.
Proof using keeps_original.
  intros (Hi & _ & Hv & _ & _)%resolve_Guarded. split; [by eapply New_original|].
  apply FindValidator_elem in Hv. cbn in Hv. apply list_elem_of_fmap in Hv as (lv & -> & Hlv).
  by apply (keeps_original n).
Qed.

(** A text in the cache that stands for a verdict. *)
Definition about (r : verdict_id) (val : string) : Prop :=
  exists rule v img img' o d e, verdict r rule v img img' o /\ kept v img' o = Some (d, e) /\
    unmarshal_entry val = Ok {| ce_Digest := d; ce_Error := default "" e |} /\
    match e with None => d <> "" | Some e => d = "" /\ e <> "" end.

Lemma judge_about n t image l rule v img l' k val :
  resolve glob (config_at (deployed n) t) image = Ok (Guarded l rule v img) ->
  judge env l rule v img = Ok (l', Some (k, val)) ->
  k = image /\ about {| r_image := image; r_epoch := n; r_at := t |} val.
Proof using keeps_original.
  intros Hres. destruct (resolve_original _ _ _ _ _ _ _ Hres) as [Hi Ho]. unfold judge.
  destruct (Validator.ValidateImage v img (With rule)) as [img' [d|e|w]] eqn:Ev; cbn [fst] in Ho; [| |done].
  - case_decide as Hd; [|done]. intros [= _ <- <-]. split; [cbn; congruence|].
    exists rule, v, img, img', (Ok d), (to_valid (Digest (SetDigest img' d))), None.
    split; [by exists l|]. split; [cbn; by rewrite decide_True|].
    split; [apply unmarshal_cache_entry|by apply to_valid_nonempty].
  - destruct (CacheErrors env) eqn:Ec; [|done]. intros [= _ <- <-]. split; [cbn; congruence|].
    exists rule, v, img, img', (Err e), "", (Some (to_valid (rejection v img' e))).
    split; [by exists l|]. split; [by apply kept_Err|].
    split; [apply unmarshal_error|]. split; [done|].
    apply to_valid_nonempty, rejection_nonempty.
Qed.

(** A hit on such a text reports the verdict. *)
Lemma about_hit (s : server) image val r img d e :
  about r val -> client_Get (redis s) image = Ok val -> original img = image ->
  getCachedDigest (Redis R expiry) (redis s) img = Ok (d, e) ->
  exists rule v img0 img' o, verdict r rule v img0 img' o /\ kept v img' o = Some (d, e).
Proof.
  intros (rule & v & img0 & img' & o & d' & e' & Hv & Hk & Hu & He) Hg Ho
    (val' & entry & Hg' & Hu' & Hc)%getCachedDigest_Ok.
  exists rule, v, img0, img', o. split; [done|]. cbn in Hg'. unfold OriginalString in Hg'. rewrite Ho in Hg'.
  assert (val' = val) as -> by congruence. rewrite Hu in Hu'. injection Hu' as <-. cbn in Hc.
  destruct e' as [e'|]; cbn in Hc; [destruct He as [-> He]|];
    destruct Hc as [(? & -> & ->)|(? & ? & -> & ->)]; done.
Qed.

(** ** The relation *)
Definition phase_ok (s : server) (L : ledger) (ph : phase) : Prop :=
  match ph with
  | Started _ | Judged None => True
  | Calling input l rule img =>
      exists v, resolve glob (current deployed s) (in_Image input) = Ok (Guarded l rule v img)
  | Judged (Some (k, val)) =>
      exists r, r ∈ made L /\ r_image r = k /\ r_epoch r = epoch s /\ about r val
  end.
Definition entry_ok (s : server) (L : ledger) (k : string) (e : redis_entry) : Prop :=
  exists r t rest, (r, t) ∈ published L /\ r_image r = k /\ about r (fst e) /\
    snd e = Some rest /\ (0 < rest)%Z /\ (clock s + rest = t + expiry)%Z.
Record simulates (s : server) (L : ledger) : Prop := {
  sim_clock : l_clock L = clock s;
  sim_epoch : l_epoch L = epoch s;
  sim_since : l_since L = since s;
  sim_thread i ph : threads s !! i = Some ph -> phase_ok s L ph;
  sim_entry k e : entries (redis s) !! k = Some e -> entry_ok s L k e;
}.

(** A step of a thread that leaves the cache alone. *)
Lemma simulates_threads s L L' ts :
  simulates s L ->
  l_clock L' = l_clock L -> l_epoch L' = l_epoch L -> l_since L' = l_since L ->
  (forall r, r ∈ made L -> r ∈ made L') -> published L' = published L ->
  (forall i ph, ts !! i = Some ph -> threads s !! i = Some ph \/ phase_ok s L' ph) ->
  simulates (with_threads s ts) L'.
Proof.
  intros [Hc He Hs Ht Hr] Hc' He' Hs' Hm Hp Hts. split; cbn; try congruence.
  - intros i ph Hph. destruct (Hts i ph Hph) as [Hold|Hnew].
    + apply Ht in Hold. destruct ph as [| |[[k val]|]]; cbn in *; [done..| |done].
      destruct Hold as (r & Hr' & Hrest). exists r. split; [by apply Hm|done].
    + by destruct ph as [| |[[k val]|]].
  - intros k e Hk. destruct (Hr k e Hk) as (r & t & rest & Hpub & Hx).
    exists r, t, rest. rewrite Hp. done.
Qed.
Lemma simulates_delete s L L' i :
  simulates s L -> l_clock L' = l_clock L -> l_epoch L' = l_epoch L -> l_since L' = l_since L ->
  (forall r, r ∈ made L -> r ∈ made L') -> published L' = published L ->
  simulates (with_threads s (delete i (threads s))) L'.
Proof.
  intros ??????. eapply simulates_threads; eauto.
  intros j ph [_ Hj]%lookup_delete_Some. by left.
Qed.
Lemma simulates_insert s L L' i ph :
  simulates s L -> l_clock L' = l_clock L -> l_epoch L' = l_epoch L -> l_since L' = l_since L ->
  (forall r, r ∈ made L -> r ∈ made L') -> published L' = published L -> phase_ok s L' ph ->
  simulates (with_threads s (<[i := ph]> (threads s))) L'.
Proof.
  intros ???????. eapply simulates_threads; eauto.
  intros j ph' [[_ <-]|[_ Hj]]%lookup_insert_Some; [by right|by left].
Qed.

(** ** One lemma per observable step *)
Lemma answer_simulated s L input l :
  simulates s L ->
  check (Redis R expiry) glob env (current deployed s) (redis s) input = Ok (inl l) ->
  ledger_step L [Decides input l] L.
Proof using keeps_original.
  intros Hsim (r & Hr & Hc)%bind_Ok.
  assert (Hnow : now_of deployed L = current deployed s)
    by (unfold now_of, current; by rewrite (sim_clock _ _ Hsim), (sim_epoch _ _ Hsim)).
  destruct r as [l0|l0 rule v img].
  - injection Hc as <-. apply ledger_policy. by rewrite Hnow.
  - apply bind_Ok in Hc as (sk & Hsk & Hc). destruct (skip sk) eqn:Es; [|discriminate]. injection Hc as <-.
    pose proof (resolve_original _ _ _ _ _ _ _ Hr) as [Horig _].
    unfold Skip in Hsk. destruct (automaticUnchangedApproval _ _ _) eqn:Eu.
    { injection Hsk as <-. eapply ledger_approve; [rewrite Hnow; exact Hr|]. by left. }
    apply bind_Ok in Hsk as (child & Hch & Hsk). destruct child.
    { injection Hsk as <-. eapply ledger_approve; [rewrite Hnow; exact Hr|]. by right. }
    destruct (getCachedDigest _ _ _) as [[d e]| |] eqn:Eg; [|by injection Hsk as <-|discriminate].
    injection Hsk as <-. pose proof Eg as Eg'.
    apply getCachedDigest_Ok in Eg' as (val & entry & Hg & _).
    cbn in Hg. unfold OriginalString in Hg. rewrite Horig in Hg.
    pose proof (redis_Get _ _ _ Hg) as Hent.
    destruct (entries (redis s) !! in_Image input) as [[val' rest']|] eqn:Hk; [|discriminate].
    cbn in Hent. injection Hent as ->.
    apply (sim_entry _ _ Hsim) in Hk as (r & t & rest & Hpub & Himg & Habout & _ & Hpos & Hsum). cbn in Habout.
    destruct (about_hit s _ _ _ img d e Habout Hg Horig Eg) as (rule' & v' & img0 & img' & o & Hv & Hkept).
    assert (img0 = img) as ->.
    { destruct Hv as (l1 & Hv%resolve_Guarded & _). apply resolve_Guarded in Hr.
      rewrite Himg in Hv. destruct Hv as [Hv _], Hr as [Hr _]. congruence. }
    eapply ledger_recall; [rewrite Hnow; exact Hr|exact Hpub|exact Himg| |exact Hv|exact Hkept].
    rewrite (sim_clock _ _ Hsim). lia.
Qed.

Lemma miss_called s input l rule v img :
  check (Redis R expiry) glob env (current deployed s) (redis s) input = Ok (inr (l, rule, v, img)) ->
  resolve glob (current deployed s) (in_Image input) = Ok (Guarded l rule v img).
Proof.
  intros (r & Hr & Hc)%bind_Ok. rewrite Hr. destruct r as [l0|l0 rule0 v0 img0]; [discriminate|].
  apply bind_Ok in Hc as (sk & _ & Hc). destruct (skip sk); [discriminate|]. by injection Hc as -> -> -> ->.
Qed.

Lemma judge_simulated s L i input l rule img v l' o :
  simulates s L -> threads s !! i = Some (Calling input l rule img) ->
  FindValidator v_Name (Validators (current deployed s)) (Policy.Validator rule) = Ok v ->
  judge env l rule v img = Ok (l', o) ->
  exists L', ledger_step L [Decides input l'] L' /\
    simulates (with_threads s (<[i := Judged o]> (threads s))) L'.
Proof using keeps_original.
  intros Hsim Hi Hv Hj. pose proof (sim_thread _ _ Hsim _ _ Hi) as (v0 & Hres). cbn in Hres.
  assert (v0 = v) as -> by (apply resolve_Guarded in Hres as (_ & _ & Hv0 & _); congruence).
  eexists. split.
  - eapply ledger_judge; [|exact Hj]. unfold now_of. by rewrite (sim_clock _ _ Hsim), (sim_epoch _ _ Hsim).
  - apply simulates_insert with L; try done; cbn [made]; [by right|].
    destruct o as [[k val]|]; [|done].
    destruct (judge_about _ _ _ _ _ _ _ _ _ _ Hres Hj) as [-> Ha].
    exists {| r_image := in_Image input; r_epoch := l_epoch L; r_at := l_clock L |}. cbn [made].
    split; [by left|]. rewrite (sim_clock _ _ Hsim), (sim_epoch _ _ Hsim). done.
Qed.

(** The cache after a write that may have failed. *)
Lemma put_entries r o r' :
  put (Redis R expiry) r o = Ok r' ->
  entries r' = entries r \/
  exists k val, o = Some (k, val) /\ entries r' = <[k := (val, Some expiry)]> (entries r).
Proof using expiry_pos.
  assert (Hne : expiry <> KeepTTL) by (unfold KeepTTL; lia).
  assert (Ht : time_to_live expiry = Some expiry)
    by (unfold time_to_live; by rewrite (proj2 (Z.ltb_lt _ _) expiry_pos)).
  destruct o as [[k val]|]; cbn; [|by intros [= ->]; left].
  destruct (client_Set r k val expiry) as [[[]|e|w] r1] eqn:Es; try discriminate; intros [= ->].
  - apply redis_Set in Es as (rest & -> & Hr). right. exists k, val. by rewrite (Hr Hne), Ht.
  - apply redis_Set_failed in Es as [-> |(rest & -> & Hr)]; [by left|].
    right. exists k, val. by rewrite (Hr Hne), Ht.
Qed.

Lemma put_simulated s L i o r' :
  simulates s L -> threads s !! i = Some (Judged o) ->
  put (Redis R expiry) (redis s) o = Ok r' ->
  exists L', ledger_step L [] L' /\
    simulates (with_redis (with_threads s (delete i (threads s))) r') L'.
Proof using expiry_pos.
  intros Hsim Hi Hp. pose proof (simulates_delete s L L i Hsim) as Hd.
  destruct Hd as [Hc He Hs Ht Hr]; [done..|].
  apply put_entries in Hp as [Hsame|(k & val & -> & Hins)].
  - exists L. split; [apply ledger_idle|]. split; try done. intros k e. cbn. rewrite Hsame. apply Hr.
  - pose proof (sim_thread _ _ Hsim _ _ Hi) as (r & Hm & Himg & Hep & Ha).
    eexists. split; [apply ledger_publish; [exact Hm|by rewrite Hep, (sim_epoch _ _ Hsim)]|].
    split; [done..| |].
    + intros j ph Hph. apply Ht in Hph. by destruct ph as [| |[[]|]].
    + cbn [redis with_redis]. rewrite Hins. intros k' e [[<- <-]|[_ Hk]]%lookup_insert_Some.
      * exists r, (l_clock L), expiry. split; [by left|]. repeat (split; [done|]).
        cbn in Hc |- *. lia.
      * destruct (Hr k' e Hk) as (r0 & t & rest & Hpub & Hx). exists r0, t, rest. split; [by right|done].
Qed.

Lemma pass_simulated s L d :
  simulates s L -> (0 <= d)%Z ->
  exists L', ledger_step L [Passes d] L' /\
    simulates {| clock := clock s + d; epoch := epoch s; since := since s;
                 redis := elapse d (redis s); threads := threads s |} L'.
Proof.
  intros [Hc He Hs Ht Hr] Hd. eexists. split; [by apply ledger_pass|]. split; cbn; try congruence.
  - intros i ph Hph. apply Ht in Hph. destruct ph as [|input l rule img|[[]|]]; try done.
    destruct Hph as (v & Hv). cbn. by eapply resolve_time.
  - intros k e. rewrite redis_elapse, lookup_omap by done. intros (e0 & Hk & Hage)%bind_Some.
    destruct (Hr k e0 Hk) as (r & t & rest & Hpub & Himg & Ha & Hrest & Hpos & Hsum).
    unfold aged in Hage. rewrite Hrest in Hage. destruct (Z.ltb_spec d rest); [|discriminate].
    injection Hage as <-. exists r, t, (rest - d)%Z. cbn. repeat (split; [done|]). lia.
Qed.

Lemma step_simulated s a s' L :
  step s a s' -> simulates s L -> exists L', ledger_step L a L' /\ simulates s' L'.
Proof using expiry_pos keeps_original.
  intros [s0 i input Hi|s0 i input l Hi Hc|s0 i input l rule v img Hi Hc
    |s0 i input l rule img v l' o Hi Hv Hj|s0 i o r' Hi Hp|s0 d Hd|s0 r' Hsub|s0] Hsim.
  - exists L. split; [apply ledger_idle|]. by apply simulates_insert with L.
  - exists L. split; [by eapply answer_simulated|]. by apply simulates_delete with L.
  - exists L. split; [apply ledger_idle|]. apply simulates_insert with L; try done.
    exists v. by apply miss_called.
  - by eapply judge_simulated.
  - by eapply put_simulated.
  - by apply pass_simulated.
  - exists L. split; [apply ledger_idle|]. destruct Hsim as [? ? ? Ht Hr]. split; try done.
    intros k e Hk. cbn in Hk. by apply Hr, (lookup_weaken _ _ _ _ Hk).
  - eexists. split; [apply ledger_restart|]. destruct Hsim as [Hc He Hs Ht Hr].
    split; cbn; try congruence; [done|]. exact Hr.
Qed.

(** ** The beginning *)
Definition server_at (t : Z) (r : remote) : server :=
  {| clock := t; epoch := 0; since := t; redis := r; threads := ∅ |}.
Definition ledger_at (t : Z) : ledger :=
  {| l_clock := t; l_epoch := 0; l_since := t; made := []; published := [] |}.
Lemma simulates_init t r : entries r = ∅ -> simulates (server_at t r) (ledger_at t).
Proof. intros He. split; cbn; try done. by rewrite He. Qed.

Lemma run_simulated t r tr s :
  entries r = ∅ -> run step (server_at t r) tr s ->
  exists L, run ledger_step (ledger_at t) tr L /\ simulates s L.
Proof using expiry_pos keeps_original.
  intros He Hrun. eapply simulation_run; [|exact Hrun|by apply simulates_init].
  intros s0 a s' L. apply step_simulated.
Qed.

(** ** An invariant of the ledger *)
Record ledger_ok (L : ledger) : Prop := {
  ok_since : (l_since L <= l_clock L)%Z;
  ok_made r : r ∈ made L -> (r_at r <= l_clock L)%Z;
  ok_published r t : (r, t) ∈ published L ->
    (r_at r <= t <= l_clock L)%Z /\ (r_epoch r = l_epoch L \/ (t <= l_since L)%Z);
}.
Lemma ledger_ok_step L a L' : ledger_step L a L' -> ledger_ok L -> ledger_ok L'.
Proof.
  destruct 1; intros [Hs Hm Hp]; split; cbn in *; try done; try lia.
  - intros r [->|Hr]%elem_of_cons; cbn; [lia|by apply Hm].
  - intros r' t [[= -> ->]|Hr]%elem_of_cons; [|by apply Hp]. split; [|by left].
    split; [by apply Hm|lia].
  - intros r Hr. apply Hm in Hr. lia.
  - intros r t Hr. apply Hp in Hr as [? ?]. split; [lia|done].
  - intros r t Hr. apply Hp in Hr as [? ?]. split; [lia|right; lia].
Qed.
Lemma ledger_run_ok t tr L : run ledger_step (ledger_at t) tr L -> ledger_ok L.
Proof.
  intros Hrun. eapply run_inv; [apply ledger_ok_step|exact Hrun|].
  split; cbn; [lia|intros r Hr|intros r t' Hr]; by apply elem_of_nil in Hr.
Qed.

(** An answer from the cache is a published verdict. *)
Lemma recall_inv L input l L' :
  ledger_step L [Decides input l] L' -> l_skipReason l = cache_reason ->
  exists l0 img r t rule v img' o d e,
    New (in_Image input) = Ok img /\ l = after_skip l0 img (recall d e) /\
    (r, t) ∈ published L /\ r_image r = in_Image input /\ (l_clock L < t + expiry)%Z /\
    verdict r rule v img img' o /\ kept v img' o = Some (d, e).
Proof.
  intros Hstep Hreason. inversion Hstep as [L0 i l1 Hr|L0 i l1 rule v img reason Hr Ha
    |L0 i l1 rule v img r t rule' v' img' o d e Hr Hp Hi Ht Hv Hk|L0 i l1 rule v img l' o Hr Hj| | | |];
    subst.
  - apply resolve_Answered in Hr as [Hr _]. by rewrite Hr in Hreason.
  - by destruct Ha as [[_ ->]|[_ ->]].
  - exists l1, img, r, t, rule', v', img', o, d, e. apply resolve_Guarded in Hr as (Hr & _). done.
  - apply resolve_Guarded in Hr as (_ & _ & _ & _ & ->). unfold judge in Hj.
    destruct (Validator.ValidateImage v img (With rule)) as [img' [d|e|w]]; by simplify_eq.
Qed.

Lemma kept_Some v img' o d e :
  kept v img' o = Some (d, e) ->
  match o with
  | Ok digest => d = to_valid (Digest (SetDigest img' digest)) /\ e = None
  | Err err => CacheErrors env = true /\ e = Some (to_valid (rejection v img' err))
  | Panic _ => False
  end.
Proof.
  unfold kept. destruct o as [digest|err|w]; [|destruct (CacheErrors env)|]; try done; cbv zeta.
  - case_decide; by intros [= <- <-].
  - by intros [= <- <-].
Qed.

(** ** The phases of a validation as steps *)
Lemma thread_runs s i input l r' :
  threads s !! i = Some (Started input) ->
  validate_body (Redis R expiry) glob env (current deployed s) (redis s) input = Ok (l, r') ->
  run step s [Decides input l] (with_redis (with_threads s (delete i (threads s))) r').
Proof.
  intros Hi. rewrite validate_body_phases. intros ([l0|[[[l0 rule] v] img]] & Hc & Hrest)%bind_Ok.
  - injection Hrest as -> <-.
    apply (run_snoc _ _ [] s [Decides input l]); [constructor|].
    change (with_redis ?s0 (redis s)) with (with_threads s (delete i (threads s))). by apply step_answer.
  - apply bind_Ok in Hrest as ([l' o] & Hj & Hrest). apply bind_Ok in Hrest as (r1 & Hp & [= -> ->]).
    pose proof (miss_called _ _ _ _ _ _ Hc) as Hres. apply resolve_Guarded in Hres as (_ & _ & Hv & _).
    pose (s1 := with_threads s (<[i := Calling input l0 rule img]> (threads s))).
    pose (s2 := with_threads s1 (<[i := Judged o]> (threads s1))).
    apply (run_snoc _ _ [Decides input l] s2 []).
    + apply (run_snoc _ _ [] s1 [Decides input l]).
      * apply (run_snoc _ _ [] s []); [constructor|]. by eapply step_miss.
      * eapply step_judge; [apply lookup_insert_eq|exact Hv|exact Hj].
    + replace (with_threads s (delete i (threads s))) with (with_threads s2 (delete i (threads s2))).
      * eapply step_put; [apply lookup_insert_eq|exact Hp].
      * unfold s2, s1, with_threads. cbn. by rewrite !delete_insert_eq.
Qed.
End Simulation.

(** * What the server promises *)

(** C4: the server refines the ledger: whatever validations run at the same time,
    however long they take, however validators change their verdicts, whenever entries
    expire, get lost or are written late or not at all, and across restarts with other
    configurations, every sequence of answers, delays and restarts the server shows is
    one the ledger can show.  So every answer is a verdict of the validator that the
    policy names, made at that moment, or a published one not older than the lifetime
    of cache entries, or an automatic approval, or independent of verdicts. *)
Theorem server_refines_ledger `{NameLib} `{R : RedisClient} `{!RedisSpec R} (expiry : Z)
    (glob : string -> option (string -> bool)) (env : environ) (deployed : nat -> deployment)
    (t : Z) (r : remote) (tr : list action) (s : server) :
  (0 < expiry)%Z ->
  (forall n v t img opts, v ∈ d_Validators (deployed n) ->
     original (fst (validate (behaviour v t) img opts)) = original img) ->
  entries r = ∅ ->
  run (step expiry glob env deployed) (server_at t r) tr s ->
  exists L, run (ledger_step expiry glob env deployed) (ledger_at t) tr L /\
    l_clock L = clock s /\ l_epoch L = epoch s /\ l_since L = since s.
Proof.
  intros Hpos Hk He Hrun. destruct (run_simulated _ _ _ _ Hpos Hk _ _ _ _ He Hrun) as (L & HL & Hsim).
  exists L. split; [done|]. by destruct Hsim.
Qed.

(** C5: an answer from the cache is a recent verdict: it was given by the validator that
    the policy names for the image, at a time [r_at id], was stored at a time [t] less
    than the lifetime ago, and carries the digest (or the error) of that verdict.  It
    may have been given under the configuration before a restart, but not any more
    when a lifetime has passed since. *)
Theorem cached_answer_recent `{NameLib} `{R : RedisClient} `{!RedisSpec R} (expiry : Z)
    (glob : string -> option (string -> bool)) (env : environ) (deployed : nat -> deployment)
    (t0 : Z) (r : remote) (tr : list action) (s s' : server) (input : ValidationInput) (l : locals) :
  (0 < expiry)%Z ->
  (forall n v t img opts, v ∈ d_Validators (deployed n) ->
     original (fst (validate (behaviour v t) img opts)) = original img) ->
  entries r = ∅ ->
  run (step expiry glob env deployed) (server_at t0 r) tr s ->
  step expiry glob env deployed s [Decides input l] s' ->
  l_skipReason l = cache_reason ->
  exists id t rule v img img' o,
    r_image id = in_Image input /\ New (in_Image input) = Ok img /\
    verdict glob deployed id rule v img img' o /\
    match o with
    | Ok digest => errOut l = None /\
        newImg l = Name (SetDigest img (to_valid (Digest (SetDigest img' digest))))
    | Err e => CacheErrors env = true /\ errOut l = Some (to_valid (rejection v img' e))
    | Panic _ => False
    end /\
    (r_at id <= t <= clock s)%Z /\ (clock s < t + expiry)%Z /\
    ((since s + expiry <= clock s)%Z -> r_epoch id = epoch s).
Proof.
  intros Hpos Hk He Hrun Hstep Hreason.
  destruct (run_simulated _ _ _ _ Hpos Hk _ _ _ _ He Hrun) as (L & HL & Hsim).
  destruct (step_simulated _ _ _ _ Hpos Hk _ _ _ _ Hstep Hsim) as (L' & HL' & _).
  apply recall_inv in HL' as (l0 & img & id & t & rule & v & img' & o & d & e & Hi & -> & Hp & Hid & Ht & Hv & Hkept); [|done].
  exists id, t, rule, v, img, img', o. repeat (split; [done|]). destruct Hsim as [Hc Hep Hs _ _].
  apply (ledger_run_ok _ _ _ _ _ _ _) in HL as [_ _ Hpub]. apply Hpub in Hp as [Hle Hor].
  split; [|rewrite <- Hc, <- Hep, <- Hs; repeat (split; [lia|]); intros ?; destruct Hor; [done|lia]].
  apply kept_Some in Hkept. destruct o as [digest|err|w]; [|done..].
  destruct Hkept as [-> ->]. done.
Qed.

(** C9: in every state of the server, each entry of the cache is the record of a verdict on
    the image it is filed under, by the validator the policy names, in the encoding that
    reading it gives back; it was stored after the verdict, and has exactly the rest of
    its lifetime left. *)
Theorem cache_entries_recent `{NameLib} `{R : RedisClient} `{!RedisSpec R} (expiry : Z)
    (glob : string -> option (string -> bool)) (env : environ) (deployed : nat -> deployment)
    (t0 : Z) (r : remote) (tr : list action) (s : server) (image val : string) (rest : option Z) :
  (0 < expiry)%Z ->
  (forall n v t img opts, v ∈ d_Validators (deployed n) ->
     original (fst (validate (behaviour v t) img opts)) = original img) ->
  entries r = ∅ ->
  run (step expiry glob env deployed) (server_at t0 r) tr s ->
  entries (redis s) !! image = Some (val, rest) ->
  exists id t left rule v img img' o d e,
    r_image id = image /\ verdict glob deployed id rule v img img' o /\
    kept env v img' o = Some (d, e) /\
    unmarshal_entry val = Ok {| ce_Digest := d; ce_Error := default "" e |} /\
    rest = Some left /\ (0 < left)%Z /\ (r_at id <= t <= clock s)%Z /\ (clock s + left = t + expiry)%Z.
Proof.
  intros Hpos Hk He Hrun Hent.
  destruct (run_simulated _ _ _ _ Hpos Hk _ _ _ _ He Hrun) as (L & HL & Hsim).
  destruct (sim_entry _ _ _ _ _ _ Hsim _ _ Hent) as (id & t & left & Hp & Hid & Ha & Hl & Hpos' & Hsum).
  destruct Ha as (rule & v & img & img' & o & d & e & Hv & Hkept & Hu & _).
  exists id, t, left, rule, v, img, img', o, d, e. cbn in Hl.
  apply (ledger_run_ok _ _ _ _ _ _ _) in HL as [_ _ Hpub]. apply Hpub in Hp as [Hle _].
  rewrite (sim_clock _ _ _ _ _ _ Hsim) in Hle. repeat (split; [done|]). done.
Qed.

(** * A concrete history: a validator accepts an image, a restart replaces it by one
    that rejects everything, and ten seconds later the image is still admitted. *)
Definition demo_deployed (n : nat) : deployment := {|
  d_Validators := [{| lv_Name := "signed"; lv_Type := "cosign"; behaviour := fun _ =>
    {| validate img _ := (img, if decide (n = 0) then Ok "sha256:abc" else Err "no signature") |} |}];
  d_Rules := [demo_rule "signed"] |}.
Lemma demo_keeps n v t img opts :
  v ∈ d_Validators (demo_deployed n) -> original (fst (validate (behaviour v t) img opts)) = original img.
Proof. by intros ->%list_elem_of_singleton. Qed.
Definition demo_step := step (H := demo_lib) (R := mem_client) (RedisSpec0 := mem_spec) 30000000000
  demo_glob strict_env demo_deployed.
Definition request : ValidationInput := {|
  in_IdxsTypes := [{| Index := 0; Type_ := "containers" |}];
  in_Image := "reg.io/app:1"; PreviousImages := []; ParentImages := Ok [] |}.
Definition answer (how : bool) : locals := {|
  newImg := "reg.io/app:1@sha256:abc"; oldImg := "reg.io/app:1"; errOut := None;
  validatorName := "signed"; skipped := how; l_skipReason := if how then cache_reason else "";
  validationMode := "mutate"; validatorType := "cosign" |}.
Definition with_request (s : server (H := mem_client)) : server := with_threads s (<[0 := Started request]> (threads s)).
(** The server after the first validation. *)
Definition validated (s : server (H := mem_client)) : server :=
  match validate_body (H := demo_lib) (Redis mem_client 30000000000) demo_glob strict_env
          (current demo_deployed (with_request s)) (redis s) request with
  | Ok (_, r') => with_redis (with_threads s (delete 0 (threads s))) r'
  | _ => s
  end.
Definition first_server : server := server_at (R := mem_client) 0 (∅ : mem).
(** After the restart, and ten seconds later. *)
Definition restarted_server : server :=
  {| clock := 0; epoch := 1; since := 0; redis := redis (validated first_server); threads := ∅ |}.
Definition later_server : server :=
  {| clock := 10000000000; epoch := 1; since := 0;
     redis := elapse (RedisSpec := mem_spec) 10000000000 (redis restarted_server); threads := ∅ |}.

Lemma demo_validates :
  run demo_step (with_request first_server) [Decides request (answer false)] (validated first_server).
Proof.
  refine (thread_runs (H := demo_lib) (R := mem_client) (RedisSpec0 := mem_spec) 30000000000 demo_glob
    strict_env demo_deployed (with_request first_server) 0 request (answer false)
    (redis (validated first_server)) _ _); vm_compute; reflexivity.
Qed.
Lemma demo_history :
  run demo_step first_server [Decides request (answer false); Restarts; Passes 10000000000]
    (with_request later_server).
Proof.
  apply (run_snoc _ _ [Decides request (answer false); Restarts; Passes 10000000000] later_server []);
    [|by apply step_spawn].
  apply (run_snoc _ _ [Decides request (answer false); Restarts] restarted_server [Passes 10000000000]);
    [|by apply (step_pass _ _ _ _ restarted_server)].
  apply (run_snoc _ _ [Decides request (answer false)] (validated first_server) [Restarts]);
    [|apply step_restart].
  assert (Hall : forall s1 s2 s3 tr, demo_step s1 [] s2 -> run demo_step s2 tr s3 -> run demo_step s1 tr s3).
  { intros s1 s2 s3 tr H1 H2. induction H2 as [s2|s2 tr s3 a s4 H2 IH H3].
    - apply (run_snoc _ _ [] s1 []); [constructor|done].
    - eapply run_snoc; [by apply IH|done]. }
  eapply Hall; [by apply (step_spawn _ _ _ _ first_server 0 request)|]. exact demo_validates.
Qed.

Lemma server_refines_ledger_witness :
  exists L, run (ledger_step (H := demo_lib) 30000000000 demo_glob strict_env demo_deployed) (ledger_at 0)
      [Decides request (answer false); Restarts; Passes 10000000000] L /\
    l_clock L = 10000000000%Z /\ l_epoch L = 1 /\ l_since L = 0%Z.
Proof.
  apply (server_refines_ledger (H := demo_lib) (R := mem_client) (RedisSpec0 := mem_spec) 30000000000
    demo_glob strict_env demo_deployed 0 (∅ : mem) _ (with_request later_server)).
  - lia.
  - exact demo_keeps.
  - reflexivity.
  - exact demo_history.
Defined.

Lemma cached_answer_recent_witness :
  exists id t rule v img img' o,
    r_image id = "reg.io/app:1" /\ New (H := demo_lib) "reg.io/app:1" = Ok img /\
    verdict (H := demo_lib) demo_glob demo_deployed id rule v img img' o /\
    match o with
    | Ok digest => errOut (answer true) = None /\
        newImg (answer true) = Name (SetDigest img (to_valid (Digest (SetDigest img' digest))))
    | Err e => CacheErrors strict_env = true /\ errOut (answer true) = Some (to_valid (rejection v img' e))
    | Panic _ => False
    end /\
    (r_at id <= t <= 10000000000)%Z /\ (10000000000 < t + 30000000000)%Z /\
    ((0 + 30000000000 <= 10000000000)%Z -> r_epoch id = 1).
Proof.
  eapply (cached_answer_recent (H := demo_lib) (R := mem_client) (RedisSpec0 := mem_spec) 30000000000
    demo_glob strict_env demo_deployed 0 (∅ : mem) _ (with_request later_server) _ request (answer true)).
  - lia.
  - exact demo_keeps.
  - reflexivity.
  - exact demo_history.
  - apply (step_answer _ _ _ _ _ 0); vm_compute; reflexivity.
  - reflexivity.
Defined.

Definition stored_text : string :=
  cache_entry "sha256:abc" "".
Lemma cache_entries_recent_witness :
  exists id t left rule v img img' o d e,
    r_image id = "reg.io/app:1" /\
    verdict (H := demo_lib) demo_glob demo_deployed id rule v img img' o /\
    kept strict_env v img' o = Some (d, e) /\
    unmarshal_entry stored_text = Ok {| ce_Digest := d; ce_Error := default "" e |} /\
    Some 20000000000%Z = Some left /\ (0 < left)%Z /\ (r_at id <= t <= 10000000000)%Z /\
    (10000000000 + left = t + 30000000000)%Z.
Proof.
  apply (cache_entries_recent (H := demo_lib) (R := mem_client) (RedisSpec0 := mem_spec) 30000000000
    demo_glob strict_env demo_deployed 0 (∅ : mem) [Decides request (answer false); Restarts; Passes 10000000000]
    (with_request later_server)).
  - lia.
  - exact demo_keeps.
  - reflexivity.
  - exact demo_history.
  - vm_compute. reflexivity.
Defined.
