(* ===== verification/Auth.v ===== *)
(** [internal/validator/auth]: registry credentials ([auth.go]) and trust roots
    ([trust_root.go]). *)
From S2P Require Import Prelude GoStrings Utils FilePath Image Validator.
From Stdlib Require Import Ascii.

(** * auth.go *)
Record AuthEntry : Type := { Username : string; Password : string }.
#[export] Instance AuthEntry_eq_dec : EqDecision AuthEntry.
Proof. solve_decision. Defined.
Definition no_credentials : AuthEntry := {| Username := ""; Password := "" |}.

(** [None] is the nil map, as which it is read as an empty one. *)
Record Auth : Type := { AuthConfigs : option (gmap string AuthEntry); UseKeychain : bool }.
Definition auth_configs (a : Auth) : gmap string AuthEntry := default ∅ (AuthConfigs a).

Definition DefaultAuthFile := "secret.yaml".
Definition DockerAuthFile := ".dockerconfigjson".
Definition SecretsDir := "/app/secrets".

(** The contents of the two kinds of secrets: [yaml.Unmarshal] into user name,
    password and registry, and the [AuthConfigs] of docker's
    [configfile.LoadFromReader]. *)
Class SecretLib := {
  unmarshal_secret : string -> res (string * string * string);
  load_docker_config : string -> res (gmap string AuthEntry);
}.

Section AuthGo.
Context `{NameLib} `{FileSystem} `{SecretLib} `{MapOrder}.

Definition readDefaultAuthFile (filePath : string) : res (gmap string AuthEntry) :=
  secretBytes ← map_err (fun err => sprintf "unable to read secret %s: %s" [AStr filePath; AStr err])
                  (read_file filePath);
  '(username, password, registry) ← unmarshal_secret secretBytes;
  let registry := if decide (registry = "") then EmptyAuthRegistry else registry in
  rr ← map_err (fun err => sprintf "unable to parse registry %s: %s" [AStr registry; AStr err])
         (NewRegistryRepo registry);
  Ok {[RegistryRepo_String rr := {| Username := username; Password := password |}]}.

(** One round of the loop over the configured registries. *)
Definition add_entry (configs : gmap string AuthEntry) (authCfgs : gmap string AuthEntry)
    (key : string) : res (gmap string AuthEntry) :=
  match configs !! key with
  | None => Ok authCfgs
  | Some value =>
      rr ← map_err (fun err => sprintf "unable to parse registry %s: %s" [AStr key; AStr err])
             (NewRegistryRepo key);
      Ok (<[RegistryRepo_String rr := value]> authCfgs)
  end.
Definition readDockerAuthFile (filePath : string) : res (gmap string AuthEntry) :=
  secretFile ← read_file filePath;
  configs ← load_docker_config secretFile;
  foldM_res (add_entry configs) ∅ (range 0 (dom configs)).

(** The loop over the two possible files: the first that exists is read. *)
Fixpoint read_files (cases : list (string * (string -> res (gmap string AuthEntry))))
    (secretName : string) : res (gmap string AuthEntry) :=
  match cases with
  | [] => Err (sprintf "no authentication file for secret %s" [AStr secretName])
  | (fileName, readFunction) :: cases' =>
      match SafeFileName SecretsDir [secretName; fileName] with
      | Ok file =>
          map_err (fun err => sprintf "error reading authentication file %s: %s" [AStr file; AStr err])
            (readFunction file)
      | Err _ => read_files cases' secretName
      | Panic w => Panic w
      end
  end.

(** [vdata] is what [unmarshal] gives for a map. *)
Definition UnmarshalYAML (vdata : res (list (string * yaml))) : res Auth :=
  vdata ← vdata;
  match yaml_lookup "secretName" vdata, yaml_lookup "useKeychain" vdata with
  | Some sn, _ =>
      secretName ← as_string sn;
      configs ← read_files [(DefaultAuthFile, readDefaultAuthFile); (DockerAuthFile, readDockerAuthFile)]
                  secretName;
      Ok {| AuthConfigs := Some configs; UseKeychain := false |}
  | None, Some (YBool kc) => Ok {| AuthConfigs := None; UseKeychain := kc |}
  | None, Some _ => Panic "interface conversion: interface {} is not bool"
  | None, None => Err "neither secretName nor useKeychain defined"
  end.

(** One round of the loop of [LookUp]. *)
Definition hit_step (img bestHit k : string) : string :=
  if (String.length bestHit <? String.length k) && has_prefix img k then k else bestHit.

Definition LookUp (a : Auth) (img : string) : AuthEntry :=
  let bestHit := foldl (hit_step img) "" (range 0 (dom (auth_configs a))) in
  if decide (bestHit <> "") then default no_credentials (auth_configs a !! bestHit)
  else no_credentials.
End AuthGo.

(** * trust_root.go *)
Record Keyless : Type := {
  Issuer : string; Subject : string; IssuerRegex : string; SubjectRegex : string }.
Record TrustRoot : Type := {
  tr_Name : string; tr_Key : string; tr_Cert : string; tr_TSCert : string; tr_Keyless : Keyless }.
#[export] Instance Keyless_eq_dec : EqDecision Keyless.
Proof. solve_decision. Defined.
#[export] Instance TrustRoot_eq_dec : EqDecision TrustRoot.
Proof. solve_decision. Defined.

(** The loop over the references; [single] is [len(keyRefs) == 1], and a star then
    returns at once. *)
Fixpoint trust_root_loop (single : bool) (trustRoots : list TrustRoot) (idx : nat)
    (trustRootsKeys : list TrustRoot) (keyRefs : list string) : res (list TrustRoot + list TrustRoot) :=
  match keyRefs with
  | [] => Ok (inl trustRootsKeys)
  | keyRef :: keyRefs' =>
      if decide (keyRef = "*" /\ single = true) then Ok (inr trustRoots)
      else
        let trustRootsKeys :=
          match List.find (fun tr => bool_decide (tr_Name tr = keyRef)) trustRoots with
          | Some tr => trustRootsKeys ++ [tr]
          | None => trustRootsKeys
          end in
        if length trustRootsKeys <? idx + 1
        then Err (sprintf "unable to find trust root %s" [AStr keyRef])
        else trust_root_loop single trustRoots (S idx) trustRootsKeys keyRefs'
  end.

Definition GetTrustRoots (keyRefs : list string) (trustRoots : list TrustRoot)
    (useDefaultValue : bool) : res (list TrustRoot) :=
  let noKeyRefProvided := (length keyRefs =? 0) || bool_decide (keyRefs = [""]) in
  let keyRefs := if noKeyRefProvided && useDefaultValue then ["default"] else keyRefs in
  r ← trust_root_loop (length keyRefs =? 1) trustRoots 0 [] keyRefs;
  match r with
  | inr all => Ok all
  | inl trustRootsKeys =>
      if length trustRootsKeys =? 0
      then Err (sprintf "no trust roots defined for key references %s" [AStr (show_slice keyRefs)])
      else Ok trustRootsKeys
  end.

(** * Credentials are looked up by the longest prefix *)
Lemma hit_loop_spec img l :
  let best := foldl (hit_step img) "" l in
  (best = "" \/ best ∈ l /\ has_prefix img best = true) /\
  (forall k, k ∈ l -> has_prefix img k = true -> String.length k <= String.length best).
Proof.
  induction l as [|k l IH] using rev_ind; cbn; [split; [by left|by intros ? ?%elem_of_nil]|].
  rewrite foldl_app. cbn [foldl]. destruct IH as [IH1 IH2].
  set (best := foldl (hit_step img) "" l) in *. unfold hit_step.
  destruct (has_prefix img k) eqn:Hp.
  - destruct (Nat.ltb_spec (String.length best) (String.length k)) as [Hlt|Hle]; cbn [andb].
    + split; [right; set_solver|]. intros k' [Hk'| ->%list_elem_of_singleton]%elem_of_app Hp'; [|done].
      specialize (IH2 k' Hk' Hp'). lia.
    + split; [destruct IH1; set_solver|].
      intros k' [Hk'| ->%list_elem_of_singleton]%elem_of_app Hp'; auto.
  - rewrite andb_false_r. split; [destruct IH1; set_solver|].
    intros k' [Hk'| ->%list_elem_of_singleton]%elem_of_app Hp'; [auto|congruence].
Qed.

(** C32: [LookUp] returns the credentials of the longest configured key that is a
    prefix of the image, whatever the order in which the map is visited, and none
    if there is no such key. *)
Theorem LookUp_longest_prefix `{MapOrder} (a : Auth) (img : string) :
  (exists k e, auth_configs a !! k = Some e /\ k <> "" /\ has_prefix img k = true /\
     LookUp a img = e /\
     forall k', is_Some (auth_configs a !! k') -> has_prefix img k' = true -> k' <> k ->
       String.length k' < String.length k) \/
  (LookUp a img = no_credentials /\
     forall k', is_Some (auth_configs a !! k') -> has_prefix img k' = true -> k' = "").
Proof.
  unfold LookUp. destruct (hit_loop_spec img (range 0 (dom (auth_configs a)))) as [H1 H2].
  set (best := foldl _ _ _) in *. cbv zeta.
  assert (Hin : forall k, is_Some (auth_configs a !! k) -> k ∈ range 0 (dom (auth_configs a))).
  { intros k Hk. by apply elem_of_range, elem_of_dom. }
  destruct (decide (best <> "")) as [Hb|Hb].
  - destruct H1 as [|[Hbin Hbp]]; [done|]. left. apply elem_of_range, elem_of_dom in Hbin as [e He].
    exists best, e. rewrite He. repeat (split; [done|]). intros k' Hk' Hp' Hne.
    specialize (H2 k' (Hin k' Hk') Hp').
    destruct (decide (String.length k' = String.length best)); [|lia].
    destruct Hne. by apply (has_prefix_eq img).
  - apply dec_stable in Hb. right. split; [done|]. intros k' Hk' Hp'.
    specialize (H2 k' (Hin k' Hk') Hp'). rewrite Hb in H2. by destruct k'; cbn in H2; [|lia].
Qed.

(** The keys are not matched at a path boundary: credentials for a registry are also
    used for any registry whose name extends it. *)
Lemma LookUp_no_boundary `{MapOrder} (k rest : string) (e : AuthEntry) :
  k <> "" -> LookUp {| AuthConfigs := Some {[k := e]}; UseKeychain := false |} (k +:+ rest) = e.
Proof.
  intros Hk. unfold LookUp. cbv zeta.
  change (auth_configs _) with ({[k := e]} : gmap string AuthEntry).
  assert (Hr : range 0 (dom ({[k := e]} : gmap string AuthEntry)) = [k]).
  { apply Permutation_singleton_r. by rewrite range_perm, dom_singleton_L, elements_singleton. }
  rewrite Hr. cbn [foldl]. unfold hit_step. rewrite has_prefix_app.
  assert (Hl : String.length "" < String.length k) by (destruct k; cbn; [done|lia]).
  apply Nat.ltb_lt in Hl. rewrite Hl. cbn [andb]. rewrite decide_True by done.
  by rewrite lookup_singleton_eq.
Qed.

(** * Trust roots are found by name *)
Lemma trust_root_loop_all single trs refs : forall idx acc all,
  trust_root_loop single trs idx acc refs = Ok (inr all) -> all = trs.
Proof.
  induction refs as [|r refs IH]; intros idx acc all Hl; cbn [trust_root_loop] in Hl; [done|].
  destruct (decide _) in Hl; [by injection Hl as <-|]. cbv zeta in Hl.
  destruct (_ <? _) in Hl; [done|]. by eapply IH.
Qed.
Lemma trust_root_loop_elem single trs refs : forall idx acc l,
  trust_root_loop single trs idx acc refs = Ok (inl l) ->
  (forall tr, tr ∈ acc -> tr ∈ trs) -> forall tr, tr ∈ l -> tr ∈ trs.
Proof.
  induction refs as [|r refs IH]; intros idx acc l Hl Hacc; cbn [trust_root_loop] in Hl;
    [by injection Hl as <-|].
  destruct (decide _) in Hl; [discriminate|]. cbv zeta in Hl.
  destruct (_ <? _) in Hl; [discriminate|]. apply (IH _ _ _ Hl).
  destruct (List.find _ trs) as [x|] eqn:Ef; [|done].
  intros tr [Htr| ->%list_elem_of_singleton]%elem_of_app; [by apply Hacc|].
  apply list_elem_of_In. by eapply find_some.
Qed.
Lemma GetTrustRoots_elem refs trs b l :
  GetTrustRoots refs trs b = Ok l -> forall tr, tr ∈ l -> tr ∈ trs.
Proof.
  unfold GetTrustRoots. cbv zeta. intros (rs & Hl & Ht)%bind_Ok. destruct rs as [l'|l'].
  - destruct (_ =? 0) in Ht; [discriminate|]. injection Ht as <-.
    eapply trust_root_loop_elem; [exact Hl|]. intros tr Htr. by apply elem_of_nil in Htr.
  - injection Ht as <-. by rewrite (trust_root_loop_all _ _ _ _ _ _ Hl).
Qed.
Lemma GetTrustRoots_not_nil refs trs b l :
  trs <> [] -> GetTrustRoots refs trs b = Ok l -> l <> [].
Proof.
  intros Hne. unfold GetTrustRoots. cbv zeta. intros (rs & Hl & Ht)%bind_Ok. destruct rs as [l'|l'].
  - destruct (Nat.eqb_spec (length l') 0) as [|Hz]; [done|]. injection Ht as <-. by destruct l'.
  - injection Ht as <-. by rewrite (trust_root_loop_all _ _ _ _ _ _ Hl).
Qed.

(** The reference: every reference by name, in order. *)
Definition root_named (trustRoots : list TrustRoot) (keyRef : string) : res TrustRoot :=
  of_opt (sprintf "unable to find trust root %s" [AStr keyRef])
    (List.find (fun tr => bool_decide (tr_Name tr = keyRef)) trustRoots).

Lemma trust_root_loop_names single trs refs acc :
  ~ (single = true /\ "*" ∈ refs) ->
  trust_root_loop single trs (length acc) acc refs =
  roots ← mapM_res (root_named trs) refs; Ok (inl (acc ++ roots)).
Proof.
  revert acc. induction refs as [|r refs IH]; intros acc Hs; cbn [trust_root_loop mapM_res].
  { cbn. by rewrite app_nil_r. }
  rewrite decide_False by (intros [-> ?]; apply Hs; split; [done|by left]).
  cbv zeta. assert (Hr : root_named trs r = of_opt (sprintf "unable to find trust root %s" [AStr r])
    (List.find (fun tr => bool_decide (tr_Name tr = r)) trs)) by done.
  destruct (List.find _ trs) as [tr|]; rewrite Hr; cbn [of_opt mbind res_bind].
  - rewrite length_app. cbn [length]. rewrite (proj2 (Nat.ltb_ge _ _)) by lia.
    replace (S (length acc)) with (length (acc ++ [tr])) by (rewrite length_app; cbn; lia).
    rewrite IH by (intros [? ?]; apply Hs; split; [done|by right]).
    destruct (mapM_res _ refs); cbn; [|done..]. by rewrite <- app_assoc.
  - by rewrite (proj2 (Nat.ltb_lt _ _)) by lia.
Qed.

(** A lone star selects all trust roots; no reference, where a default is
    allowed, selects the root named [default]; otherwise each reference selects the
    first root with its name, in the order of the references, and the error names
    the first reference without one. *)
Theorem GetTrustRoots_by_name (keyRefs : list string) (trustRoots : list TrustRoot)
    (useDefaultValue : bool) :
  GetTrustRoots keyRefs trustRoots useDefaultValue =
  if decide (keyRefs = ["*"]) then Ok trustRoots
  else if useDefaultValue && bool_decide (keyRefs = [] \/ keyRefs = [""])
  then tr ← root_named trustRoots "default"; Ok [tr]
  else if decide (keyRefs = [])
  then Err "no trust roots defined for key references []"
  else mapM_res (root_named trustRoots) keyRefs.
Proof.
  unfold GetTrustRoots. cbv zeta. destruct (decide (keyRefs = ["*"])) as [->|Hstar]; [done|].
  assert (Hno : (length keyRefs =? 0) || bool_decide (keyRefs = [""])
    = bool_decide (keyRefs = [] \/ keyRefs = [""])).
  { destruct keyRefs as [|k [|k' l]]; cbn [length]; [done| |].
    - cbn [Nat.eqb orb]. apply bool_decide_ext. naive_solver.
    - cbn [Nat.eqb orb]. apply bool_decide_ext. naive_solver. }
  rewrite Hno, andb_comm. destruct (useDefaultValue && _) eqn:Ed.
  - rewrite (trust_root_loop_names _ trustRoots ["default"] []) by set_solver.
    cbn [mapM_res]. by destruct (root_named trustRoots "default").
  - rewrite (trust_root_loop_names _ trustRoots keyRefs []).
    + destruct keyRefs as [|k l]; [done|]. rewrite decide_False by done.
      cbn [mapM_res]. destruct (root_named trustRoots k) as [tr| |]; cbn [mbind res_bind]; [|done..].
      by destruct (mapM_res (root_named trustRoots) l).
    + intros [Hl Hin]. apply Nat.eqb_eq in Hl. destruct keyRefs as [|k [|]]; try done.
      apply list_elem_of_singleton in Hin. by subst.
Qed.
