(* ===== verification/Cosign.v ===== *)
(** [internal/validator/cosignvalidator]: the validation of cosign signatures
    ([cosign_validator.go]) and the loading of verification keys ([verifiers.go]). *)
From S2P Require Import Prelude GoStrings Utils Policy Image Json Auth Validator.
From Stdlib Require Import Ascii.

(** The order in which the results of goroutines that write once each to one channel
    arrive. *)
Class ArrivalOrder := {
  arrival : forall {A : Type}, list A -> list A;
  arrival_perm {A} (l : list A) : arrival l ≡ₚ l;
}.
Definition in_order : ArrivalOrder := {| arrival A l := l; arrival_perm A l := Permutation_refl l |}.

(** * The sigstore libraries

    Keys, key sets, certificate pools and clients are opaque; a signature is known by
    its payload. *)
Record Identity : Type := {
  id_Issuer : string; id_IssuerRegExp : string; id_Subject : string; id_SubjectRegExp : string }.

Class CosignLib := {
  verification_key : Type;
  log_keys : Type;
  cert_pool : Type;
  rekor_client : Type;
  signature : Type;
  (** [sigs.LoadPublicKeyRaw] and [sigs.PublicKeyFromKeyRefWithHashAlgo] *)
  LoadPublicKeyRaw : string -> res verification_key;
  PublicKeyFromKeyRef : string -> res verification_key;
  NewClient : string -> res rekor_client;
  (** a new key set with the given public key, and a new pool with the certificates *)
  AddTransparencyLogPubKey : string -> res log_keys;
  AppendCertsFromPEM : string -> option cert_pool;
  GetRekorPubs : res log_keys;
  GetCTLogPubs : res log_keys;
  GetRoots : res cert_pool;
  GetIntermediates : res cert_pool;
  Payload : signature -> res string;
}.

Section Cosign.
Context `{CosignLib} `{MapOrder} `{ArrivalOrder}.

(** * verifiers.go *)
Record Verifier : Type := {
  vf_Name : string;
  KeyVerifier : option verification_key;
  KeylessVerifier : Identity;
}.
Definition no_identity : Identity :=
  {| id_Issuer := ""; id_IssuerRegExp := ""; id_Subject := ""; id_SubjectRegExp := "" |}.

Definition LoadVerifier (trustRoot : TrustRoot) : res Verifier :=
  let k := tr_Keyless trustRoot in
  if decide (tr_Key trustRoot <> "") then
    key ← (if has_prefix (tr_Key trustRoot) "-----BEGIN PUBLIC KEY-----"
           then LoadPublicKeyRaw (tr_Key trustRoot) else PublicKeyFromKeyRef (tr_Key trustRoot));
    Ok {| vf_Name := tr_Name trustRoot; KeyVerifier := Some key; KeylessVerifier := no_identity |}
  else if decide ((Issuer k <> "" \/ IssuerRegex k <> "") /\ (Subject k <> "" \/ SubjectRegex k <> "")) then
    Ok {| vf_Name := tr_Name trustRoot; KeyVerifier := None;
          KeylessVerifier := {| id_Issuer := Issuer k; id_IssuerRegExp := IssuerRegex k;
                                id_Subject := Subject k; id_SubjectRegExp := SubjectRegex k |} |}
  else Err "no public key or keyless configuration found".

(** * cosign_validator.go: the validator *)
Record CosignValidator : Type := {
  cv_Name : string;
  cv_Type : string;
  Rekor : rekor_client;
  rekorPubkey : option log_keys;
  fulcioCert : option cert_pool;
  ctLogPubkey : option log_keys;
  cv_Cert : option cert_pool;
  cv_Auth : Auth;
  TrustRoots : list TrustRoot;
}.

Record CosignValidatorYaml : Type := {
  y_Name : string; y_Type : string; y_Rekor : string; y_RekorPubkey : string;
  y_FulcioCert : string; y_CTLogPubkey : string; y_Cert : string; y_Auth : Auth;
  y_TrustRoots : list TrustRoot }.
Definition DefaultRekorHost := "https://rekor.sigstore.dev".

(** An optional setting: absent when empty. *)
Definition optional_setting {A} (s : string) (load : string -> res A) : res (option A) :=
  if decide (s = "") then Ok None else a ← load s; Ok (Some a).

Definition UnmarshalYAML (valData : res CosignValidatorYaml) : res CosignValidator :=
  valData ← valData;
  let host := if decide (y_Rekor valData = "") then DefaultRekorHost else y_Rekor valData in
  let invalid what pem := of_opt (sprintf what [AStr (y_Name valData)]) (AppendCertsFromPEM pem) in
  rekorClient ← map_err (fun err => sprintf "unable to create Rekor client for %s: %s"
                           [AStr host; AStr err]) (NewClient host);
  rekorPub ← map_err (fun err => sprintf "error adding rekor public key: %s" [AStr err])
               (optional_setting (y_RekorPubkey valData) AddTransparencyLogPubKey);
  if length (y_TrustRoots valData) <? 1
  then Err (sprintf "no trust roots provided for validator %s" [AStr (y_Name valData)])
  else
    cert ← optional_setting (y_Cert valData) (invalid "invalid certificate for validator %s");
    fulcio ← optional_setting (y_FulcioCert valData)
               (invalid "invalid fulcio certificate for validator %s");
    ctPub ← map_err (fun err => sprintf "error adding ct log public key: %s" [AStr err])
              (optional_setting (y_CTLogPubkey valData) AddTransparencyLogPubKey);
    Ok {| cv_Name := y_Name valData; cv_Type := y_Type valData; Rekor := rekorClient;
          rekorPubkey := rekorPub; fulcioCert := fulcio; ctLogPubkey := ctPub; cv_Cert := cert;
          cv_Auth := y_Auth valData; TrustRoots := y_TrustRoots valData |}.

Definition getRekorPubKey (cv : CosignValidator) : res log_keys :=
  match rekorPubkey cv with
  | Some k => Ok k
  | None => map_err (fun err => sprintf "error getting rekor public keys: %s" [AStr err]) GetRekorPubs
  end.
Definition getCTLogPubKeys (cv : CosignValidator) : res log_keys :=
  match ctLogPubkey cv with Some k => Ok k | None => GetCTLogPubs end.
Definition getFulcioCerts (cv : CosignValidator) : res (cert_pool * option cert_pool) :=
  match fulcioCert cv with
  | Some c => Ok (c, None)
  | None =>
      root ← map_err (fun err => sprintf "error getting fulcio roots: %s" [AStr err]) GetRoots;
      intermediate ← map_err (fun err => sprintf "error getting fulcio intermediates: %s" [AStr err])
                       GetIntermediates;
      Ok (root, Some intermediate)
  end.

(** The fields of [cosign.CheckOpts] the code sets; the registry options are the
    credentials, the keychain flag and the certificate of the registry. *)
Record CheckOpts : Type := {
  IgnoreTlog : bool;
  IgnoreSCT : bool;
  registry_auth : AuthEntry;
  registry_keychain : bool;
  registry_cert : option cert_pool;
  RekorClient : option rekor_client;
  RekorPubKeys : option log_keys;
  CTLogPubKeys : option log_keys;
  SigVerifier : option verification_key;
  RootCerts : option cert_pool;
  IntermediateCerts : option cert_pool;
  Identities : list Identity;
}.

Definition boolOrDefault (b : option bool) (default_ : bool) : bool :=
  match b with None => default_ | Some b => b end.

Definition setupOptions (cv : CosignValidator) (args : RuleOptions) (img : Image) : res CheckOpts :=
  let verifyTlog := boolOrDefault (VerifyTLog args) true in
  let verifySCT := boolOrDefault (VerifySCT args) true in
  let auth := LookUp (cv_Auth cv) (ctx_string (ref img)) in
  rekor ← (if verifyTlog then pubs ← getRekorPubKey cv; Ok (Some pubs) else Ok None);
  ct ← (if verifySCT then
          pubs ← map_err (fun err => sprintf "error getting ct log public keys: %s" [AStr err])
                   (getCTLogPubKeys cv); Ok (Some pubs)
        else Ok None);
  Ok {| IgnoreTlog := negb verifyTlog; IgnoreSCT := negb verifySCT; registry_auth := auth;
        registry_keychain := Auth.UseKeychain (cv_Auth cv); registry_cert := cv_Cert cv;
        RekorClient := if verifyTlog then Some (Rekor cv) else None;
        RekorPubKeys := rekor; CTLogPubKeys := ct; SigVerifier := None; RootCerts := None;
        IntermediateCerts := None; Identities := [] |}.

Definition verifiers (cv : CosignValidator) (keyRefs : list string) : res (list Verifier) :=
  trustRootsKeys ← map_err (fun err => sprintf "error getting trust roots for validator %s: %s"
                              [AStr (cv_Name cv); AStr err]) (GetTrustRoots keyRefs (TrustRoots cv) true);
  mapM_res LoadVerifier trustRootsKeys.

(** * One verifier *)
Record verifierOutput : Type := {
  checkedSignatures : list signature;
  vo_err : option string;
  propagationErr : option string;
  validatingTrustRoot : string;
}.

(** [cosign.VerifyImageSignatures] on the reference of the image. *)
Variable VerifyImageSignatures : Image -> CheckOpts -> res (list signature).

Definition with_key (opts : CheckOpts) (key : verification_key) : CheckOpts := {|
  IgnoreTlog := IgnoreTlog opts; IgnoreSCT := IgnoreSCT opts; registry_auth := registry_auth opts;
  registry_keychain := registry_keychain opts; registry_cert := registry_cert opts;
  RekorClient := RekorClient opts; RekorPubKeys := RekorPubKeys opts; CTLogPubKeys := CTLogPubKeys opts;
  SigVerifier := Some key; RootCerts := RootCerts opts; IntermediateCerts := IntermediateCerts opts;
  Identities := Identities opts |}.
Definition with_identity (opts : CheckOpts) (root : cert_pool) (intermediate : option cert_pool)
    (i : Identity) : CheckOpts := {|
  IgnoreTlog := IgnoreTlog opts; IgnoreSCT := IgnoreSCT opts; registry_auth := registry_auth opts;
  registry_keychain := registry_keychain opts; registry_cert := registry_cert opts;
  RekorClient := RekorClient opts; RekorPubKeys := RekorPubKeys opts; CTLogPubKeys := CTLogPubKeys opts;
  SigVerifier := SigVerifier opts; RootCerts := Some root; IntermediateCerts := intermediate;
  Identities := Identities opts ++ [i] |}.

(** The options one verifier validates with. *)
Definition verifier_opts (cv : CosignValidator) (opts : CheckOpts) (verifier : Verifier) : res CheckOpts :=
  match KeyVerifier verifier with
  | Some key => Ok (with_key opts key)
  | None =>
      '(root, intermediate) ← getFulcioCerts cv;
      Ok (with_identity opts root intermediate (KeylessVerifier verifier))
  end.

(** [validateWithVerifier]: the one value it writes to the channel. *)
Definition validateWithVerifier (cv : CosignValidator) (img : Image) (opts : CheckOpts)
    (verifier : Verifier) : res verifierOutput :=
  let failed err := {| checkedSignatures := []; vo_err := Some err; propagationErr := None;
                       validatingTrustRoot := "" |} in
  match verifier_opts cv opts verifier with
  | Panic w => Panic w
  | Err err => Ok (failed err)
  | Ok opts =>
      match VerifyImageSignatures img opts with
      | Panic w => Panic w
      | Err err =>
          if has_prefix err "image tag not found:"
          then Ok (failed (sprintf "image %s does not exist: %s" [AStr (Name img); AStr err]))
          else Ok {| checkedSignatures := []; vo_err := None; propagationErr := Some err;
                     validatingTrustRoot := "" |}
      | Ok validSignatures =>
          Ok {| checkedSignatures := validSignatures; vo_err := None; propagationErr := None;
                validatingTrustRoot := vf_Name verifier |}
      end
  end.

(** * The payload of a signature *)

(** The fields of a JSON object (or null) that decode into the struct field [name]. *)
Definition struct_fields (v : json) : option (list (string * json)) :=
  match v with JObj l => Some l | JNull => Some [] | _ => None end.
Definition fields_named (name : string) (l : list (string * json)) : list json :=
  snd <$> List.filter (fun f => bool_decide (fold_name (fst f) = name)) l.
Definition all_fields (name : string) (vs : list json) : option (list json) :=
  ls ← mapM struct_fields vs; Some (fields_named name (concat ls)).
Definition string_values (vs : list json) : option (list string) :=
  (fun ls => concat ls) <$> mapM (fun v => match v with JStr s => Some [s] | JNull => Some [] | _ => None end) vs.

(** [payload.Critical.Image.Digest] after [json.Unmarshal]; a field of another type
    than the struct's is an error. *)
Definition payload_digest (payload : string) : res string :=
  let bad := "json: cannot unmarshal payload" in
  v ← of_opt "invalid JSON" (parse_json payload);
  critical ← of_opt bad (all_fields "critical" [v]);
  optional ← of_opt bad (all_fields "optional" [v] ≫= mapM struct_fields);
  _ ← of_opt bad (string_values (snd <$> concat optional));
  identity ← of_opt bad (all_fields "identity" critical);
  _ ← of_opt bad (all_fields "docker-reference" identity ≫= string_values);
  _ ← of_opt bad (all_fields "type" critical ≫= string_values);
  image ← of_opt bad (all_fields "image" critical);
  digests ← of_opt bad (all_fields "docker-manifest-digest" image ≫= string_values);
  Ok (List.last digests "").

Definition signature_digest (s : signature) : res string :=
  payload ← Payload s; payload_digest payload.

(** * The image *)
Definition trustRootReferences (cv : CosignValidator) (args : RuleOptions) : list string :=
  if decide (Policy.TrustRoot args = "*" /\
             ((Threshold args > Z.of_nat (length (Required args)))%Z \/ length (Required args) = 0))
  then Map (TrustRoots cv) tr_Name
  else if decide (Policy.TrustRoot args = "*" /\ 0 < length (Required args)) then Required args
  else [Policy.TrustRoot args].

Definition threshold_of (args : RuleOptions) (vs : list Verifier) : Z :=
  if decide (Policy.TrustRoot args = "*" /\ length (Required args) = 0 /\ ~ (Threshold args > 0)%Z)
  then Z.of_nat (length vs)
  else if decide (Policy.TrustRoot args = "*" /\ (Threshold args > 0)%Z) then Threshold args
  else 0%Z.

(** The receiving loop: it stops at the first error. *)
Fixpoint receive_outputs (acc : list signature * list string * list string)
    (outputs : list verifierOutput) : res (list signature * list string * list string) :=
  match outputs with
  | [] => Ok acc
  | output :: outputs' =>
      match vo_err output with
      | Some err => Err err
      | None =>
          let '(sigs, roots, errs) := acc in
          receive_outputs (sigs ++ checkedSignatures output, roots ++ [validatingTrustRoot output],
            match propagationErr output with Some e => errs ++ [e] | None => errs end) outputs'
      end
  end.

(** The loop over the signatures. *)
Definition collect_digests (sigs : list signature) : res (gset string) :=
  foldM_res (fun digests s => d ← signature_digest s; Ok ({[d]} ∪ digests)) ∅ sigs.

(** The checks after the loop. *)
Definition conclude (args : RuleOptions) (vs : list Verifier)
    (received : list signature * list string * list string) : res string :=
  let '(sigs, validatingTrustRoots, propagateErrors) := received in
  let threshold := threshold_of args vs in
  let numberOfCheckedSignatures := Z.of_nat (length sigs) in
  if decide ((threshold > 0)%Z /\ (numberOfCheckedSignatures < threshold)%Z)
  then Err (sprintf "validation threshold not reached (%d/%d)"
              [AInt (length sigs); AInt (Z.to_nat threshold)])
  else
  let missing := SetSubstract (Required args) validatingTrustRoots in
  if decide (Required args <> [] /\ missing <> [])
  then Err (sprintf "missing required signatures from %s" [AStr (show_slice missing)])
  else
  digests ← collect_digests sigs;
  if 1 <? size digests then Err "ambiguous digests"
  else match range 2 digests with
       | k :: _ => Ok k
       | [] => if 0 <? length propagateErrors
               then Err (sprintf "error validating image: %s" [AStr (show_slice propagateErrors)])
               else Err "no signed digests"
       end.

(** [ValidateImage]; with fewer verifiers than references the last receive would wait for
    ever, which needs a validator without trust roots. *)
Definition ValidateImage (cv : CosignValidator) (img : Image) (args : RuleOptions) : res string :=
  let refs := trustRootReferences cv args in
  opts ← map_err (fun err => sprintf "error setting up cosign options: %s" [AStr err])
           (setupOptions cv args img);
  vs ← map_err (fun err => sprintf "error getting verifiers: %s" [AStr err]) (verifiers cv refs);
  let numberOfTrustRoots := length refs in
  outputs ← mapM_res (validateWithVerifier cv img opts) vs;
  received ← receive_outputs ([], [], []) (take numberOfTrustRoots (arrival outputs));
  conclude args vs received.

Definition cosign_validate (cv : CosignValidator) : Validate :=
  {| validate img args := (img, ValidateImage cv img args) |}.
End Cosign.

(** * When a validation succeeds *)
Section Accepted.
Context `{CosignLib}.

Lemma receive_outputs_Ok sigs roots errs outputs r :
  receive_outputs (sigs, roots, errs) outputs = Ok r <->
  Forall (fun o => vo_err o = None) outputs /\
  r = (sigs ++ concat (checkedSignatures <$> outputs), roots ++ (validatingTrustRoot <$> outputs),
       errs ++ omap propagationErr outputs).
Proof.
  revert sigs roots errs. induction outputs as [|o outputs IH]; intros sigs roots errs; cbn.
  - rewrite !app_nil_r. split; [intros [= <-]; by repeat constructor|by intros [_ ->]].
  - destruct (vo_err o) eqn:Eo.
    + split; [done|]. intros [Hf _]. inversion Hf; congruence.
    + rewrite IH. rewrite Forall_cons, <- !app_assoc.
      assert (Herr : (match propagationErr o with Some e => errs ++ [e] | None => errs end)
          ++ omap propagationErr outputs = errs ++ omap propagationErr (o :: outputs)).
      { cbn. destruct (propagationErr o); [by rewrite <- app_assoc|done]. }
      rewrite Herr. cbn. naive_solver.
Qed.

Lemma collect_digests_Ok sigs ds :
  collect_digests sigs = Ok ds ->
  Forall (fun s => exists d, signature_digest s = Ok d) sigs /\
  forall d, d ∈ ds <-> exists s, s ∈ sigs /\ signature_digest s = Ok d.
Proof.
  unfold collect_digests. apply (foldM_res_inv (fun sigs ds =>
    Forall (fun s => exists d, signature_digest s = Ok d) sigs /\
    forall d, d ∈ ds <-> exists s, s ∈ sigs /\ signature_digest s = Ok d)).
  - split; [constructor|]. set_solver.
  - intros done s acc acc' [Hf Hd] _ (d & Hs & [= <-])%bind_Ok. split.
    + apply Forall_app. split; [done|]. repeat constructor. by exists d.
    + intros d'. rewrite elem_of_union, elem_of_singleton, Hd. split.
      * intros [->|(s' & ? & ?)]; [exists s|exists s']; set_solver.
      * intros (s' & [Hin|Hin]%elem_of_app & Hs'); [right; by exists s'|].
        apply list_elem_of_singleton in Hin as ->. left. congruence.
Qed.
Lemma collect_digests_total sigs :
  Forall (fun s => exists d, signature_digest s = Ok d) sigs ->
  exists ds, collect_digests sigs = Ok ds.
Proof.
  unfold collect_digests. generalize (∅ : gset string). intros acc Hf. revert acc.
  induction Hf as [|s sigs [d Hd] _ IH]; intros acc; cbn; [by eexists|]. rewrite Hd. apply IH.
Qed.

Lemma mapM_res_length {A B} (f : A -> res B) l l' : mapM_res f l = Ok l' -> length l' = length l.
Proof. intros Hm%mapM_res_Ok. by apply Forall2_length in Hm. Qed.

(** Outside of the star reference there is one verifier for each reference. *)
Lemma verifiers_length cv refs vs :
  refs <> ["*"] -> refs <> [] -> verifiers cv refs = Ok vs -> length vs = length refs.
Proof.
  intros Hstar Hne. unfold verifiers. intros (roots & Hr & Hvs)%bind_Ok. apply map_err_Ok in Hr.
  apply mapM_res_length in Hvs. rewrite Hvs. unfold GetTrustRoots in Hr. cbv zeta in Hr.
  set (refs' := if _ && _ then ["default"] else refs) in Hr.
  assert (Hl : length refs' = length refs).
  { unfold refs'. destruct (((length refs =? 0) || bool_decide (refs = [""])) && true) eqn:E; [|done].
    rewrite andb_true_r in E. apply orb_true_iff in E as [E|E].
    - apply Nat.eqb_eq in E. by destruct refs.
    - by apply bool_decide_eq_true in E as ->. }
  assert (Hs : refs' <> ["*"]) by (unfold refs'; by destruct (_ && true)).
  rewrite (trust_root_loop_names _ _ _ []) in Hr.
  - apply bind_Ok in Hr as (r & Hm & Hr). apply bind_Ok in Hm as (rs & Hm & [= <-]). cbn in Hr.
    apply mapM_res_length in Hm. destruct (length rs =? 0); [done|]. injection Hr as <-. congruence.
  - intros [H1 H2]. apply Nat.eqb_eq in H1. destruct refs' as [|x [|]]; try done.
    apply list_elem_of_singleton in H2. congruence.
Qed.
End Accepted.

(** The conditions on the outputs of the verifiers under which the digest [d] is
    accepted: no verifier ended in a fatal error, the number of signatures reaches
    the threshold, the required trust roots are among the validating ones, and all
    signatures, of which there is at least one, are for [d]. *)
Record accepted `{CosignLib} (args : RuleOptions) (vs : list Verifier) (outputs : list verifierOutput)
    (d : string) : Prop := {
  acc_no_error : Forall (fun o => vo_err o = None) outputs;
  acc_threshold : (threshold_of args vs <= Z.of_nat (length (concat (checkedSignatures <$> outputs))))%Z;
  acc_required : forall r, r ∈ Required args -> r ∈ validatingTrustRoot <$> outputs;
  acc_some : concat (checkedSignatures <$> outputs) <> [];
  acc_digest : forall s, s ∈ concat (checkedSignatures <$> outputs) -> signature_digest s = Ok d;
}.

Lemma accepted_perm `{CosignLib} args vs outs outs' d :
  outs ≡ₚ outs' -> accepted args vs outs d -> accepted args vs outs' d.
Proof.
  intros Hp [H1 H2 H3 H4 H5].
  assert (Hs : concat (checkedSignatures <$> outs) ≡ₚ concat (checkedSignatures <$> outs'))
    by (by rewrite Hp).
  split.
  - by rewrite <- Hp.
  - by rewrite <- Hs.
  - intros r Hr. rewrite <- Hp. by apply H3.
  - intros He. apply H4. rewrite He in Hs. by apply Permutation_nil_r in Hs.
  - intros s Hin. apply H5. by rewrite Hs.
Qed.

Lemma conclude_accepted `{CosignLib} `{MapOrder} args vs outs d :
  (r ← receive_outputs ([], [], []) outs; conclude args vs r) = Ok d <-> accepted args vs outs d.
Proof.
  rewrite bind_Ok. set (sigs := concat (checkedSignatures <$> outs)).
  set (roots := validatingTrustRoot <$> outs). split.
  - intros ([[ss rs] errs] & Hr & Hrun). apply receive_outputs_Ok in Hr as [Hf [= -> -> ->]].
    cbn [app] in Hrun. fold sigs roots in Hrun. unfold conclude in Hrun. cbv zeta in Hrun.
    destruct (decide _) as [|Hthr] in Hrun; [done|].
    destruct (decide _) as [|Hreq] in Hrun; [done|].
    apply bind_Ok in Hrun as (ds & Hd & Hrun). apply collect_digests_Ok in Hd as [Hsig Hds].
    destruct (Nat.ltb_spec 1 (size ds)) as [|Hsize]; [done|].
    destruct (range 2 ds) as [|k ks] eqn:Er; [by destruct (0 <? _)|]. injection Hrun as <-.
    assert (Hk : k ∈ ds) by (apply (elem_of_range 2); rewrite Er; by left).
    assert (Hone : forall d', d' ∈ ds -> d' = k).
    { intros d' Hd'. assert (size ds = 1) as H1'.
      { enough (size ds <> 0) by lia. intros Hz%size_empty_inv. set_solver. }
      apply size_1_elem_of in H1' as [x Hx]. set_solver. }
    split; [done| | | |].
    + fold sigs. apply not_and_r in Hthr. lia.
    + intros r Hr. fold roots. destruct (decide (r ∈ roots)) as [|Hn]; [done|]. destruct Hreq.
      split; [by intros E; rewrite E in Hr; apply elem_of_nil in Hr|]. intros E.
      rewrite SetSubstract_nil in E. by apply Hn, E.
    + intros E. apply Hds in Hk as (s & Hs & _). unfold sigs in Hs. rewrite E in Hs.
      by apply elem_of_nil in Hs.
    + intros s Hs. rewrite Forall_forall in Hsig. destruct (Hsig s Hs) as [d' Hd']. rewrite Hd'.
      f_equal. apply Hone, Hds. by exists s.
  - intros [Hf Hthr Hreq Hne Hdig]. fold sigs roots in Hthr, Hreq, Hne, Hdig.
    eexists. split; [apply receive_outputs_Ok; split; [done|reflexivity]|]. cbn [app].
    fold sigs roots. unfold conclude. cbv zeta. rewrite decide_False by lia.
    rewrite decide_False.
    2:{ intros [_ Hm]. apply Hm, SetSubstract_nil. exact Hreq. }
    destruct (collect_digests_total sigs) as [ds Hcd].
    { apply Forall_forall. intros s Hs. exists d. by apply Hdig. }
    rewrite Hcd. cbn [mbind res_bind]. apply collect_digests_Ok in Hcd as [_ Hds].
    assert (ds = {[d]}) as ->.
    { apply set_eq. intros d'. rewrite Hds, elem_of_singleton. split.
      - intros (s & Hs & Hs'). rewrite (Hdig s Hs) in Hs'. congruence.
      - intros ->. destruct sigs as [|s ss]; [done|]. exists s. split; [by left|]. apply Hdig. by left. }
    rewrite size_singleton. cbn [Nat.ltb Nat.leb].
    assert (Hr : range 2 {[d]} = [d]).
    { apply Permutation_singleton_r. by rewrite range_perm, elements_singleton. }
    by rewrite Hr.
Qed.

Lemma accepts_iff `{CosignLib} `{MapOrder} `{ArrivalOrder}
    (verify : Image -> CheckOpts -> res (list signature)) (cv : CosignValidator) (img : Image)
    (args : RuleOptions) (d : string) :
  trustRootReferences cv args <> ["*"] -> trustRootReferences cv args <> [] ->
  ValidateImage verify cv img args = Ok d <->
  exists opts vs outputs,
    setupOptions cv args img = Ok opts /\ verifiers cv (trustRootReferences cv args) = Ok vs /\
    mapM_res (validateWithVerifier verify cv img opts) vs = Ok outputs /\ accepted args vs outputs d.
Proof.
  intros Hstar Hne. unfold ValidateImage. cbv zeta.
  assert (Htake : forall opts vs outputs, verifiers cv (trustRootReferences cv args) = Ok vs ->
    mapM_res (validateWithVerifier verify cv img opts) vs = Ok outputs ->
    take (length (trustRootReferences cv args)) (arrival outputs) = arrival outputs).
  { intros opts vs outputs Hv Hm. apply take_ge. rewrite arrival_perm, (mapM_res_length _ _ _ Hm).
    by rewrite (verifiers_length _ _ _ Hstar Hne Hv). }
  split.
  - intros (opts & Ho & Hrun)%bind_Ok. apply map_err_Ok in Ho.
    apply bind_Ok in Hrun as (vs & Hv & Hrun). apply map_err_Ok in Hv.
    apply bind_Ok in Hrun as (outputs & Hm & Hrun). exists opts, vs, outputs.
    rewrite (Htake opts vs outputs) in Hrun by done. apply conclude_accepted in Hrun.
    repeat (split; [done|]). by apply (accepted_perm _ _ _ _ _ (arrival_perm outputs)).
  - intros (opts & vs & outputs & Ho & Hv & Hm & Hacc). rewrite Ho, Hv. cbn [map_err mbind res_bind].
    rewrite Hm. cbn [mbind res_bind]. rewrite (Htake opts vs outputs) by done.
    apply conclude_accepted, (accepted_perm _ _ outputs); [by rewrite arrival_perm|done].
Qed.

(** C12: with a reference that is not a bare star, cosign validation returns a digest
    exactly when the options and the verifiers of the referenced trust roots could
    be set up and the outputs of all verifiers are accepted for that digest; the
    order in which they arrive does not matter. *)
Theorem cosign_accepts `{CosignLib} `{MapOrder} `{ArrivalOrder}
    (verify : Image -> CheckOpts -> res (list signature)) (cv : CosignValidator) (img : Image)
    (args : RuleOptions) (d : string) :
  trustRootReferences cv args <> ["*"] -> trustRootReferences cv args <> [] ->
  ValidateImage verify cv img args = Ok d <->
  exists opts vs outputs,
    setupOptions cv args img = Ok opts /\ verifiers cv (trustRootReferences cv args) = Ok vs /\
    mapM_res (validateWithVerifier verify cv img opts) vs = Ok outputs /\ accepted args vs outputs d.
Proof. apply accepts_iff. Qed.

(** C13: what a star without threshold and required names demands is a number of
    signatures and not their makers: an image is accepted when one trust root returns
    at least as many signatures as there are trust roots, all signatures are for one
    digest, and no verifier ends in a fatal error, even if no other trust root has
    signed. *)
Theorem star_accepts_one_signer `{CosignLib} `{MapOrder} `{ArrivalOrder}
    (verify : Image -> CheckOpts -> res (list signature)) (cv : CosignValidator) (img : Image)
    (args : RuleOptions) (opts : CheckOpts) (vs : list Verifier) (outputs : list verifierOutput)
    (signer : verifierOutput) (d : string) :
  Policy.TrustRoot args = "*" -> Required args = [] -> (Threshold args <= 0)%Z ->
  TrustRoots cv <> [] -> tr_Name <$> TrustRoots cv <> ["*"] ->
  setupOptions cv args img = Ok opts -> verifiers cv (tr_Name <$> TrustRoots cv) = Ok vs ->
  mapM_res (validateWithVerifier verify cv img opts) vs = Ok outputs ->
  Forall (fun o => vo_err o = None) outputs ->
  signer ∈ outputs -> length (TrustRoots cv) <= length (checkedSignatures signer) ->
  (forall o s, o ∈ outputs -> s ∈ checkedSignatures o -> signature_digest s = Ok d) ->
  ValidateImage verify cv img args = Ok d.
Proof.
  intros Hstar Hreq Hthr Hne Hns Ho Hv Hm Hf Hin Hlen Hdig.
  assert (Hrefs : trustRootReferences cv args = tr_Name <$> TrustRoots cv).
  { unfold trustRootReferences. rewrite decide_True; [apply Map_fmap|]. rewrite Hreq. auto. }
  assert (Hrne : tr_Name <$> TrustRoots cv <> []) by (by destruct (TrustRoots cv)).
  pose proof (verifiers_length _ _ _ Hns Hrne Hv) as Hl. rewrite length_fmap in Hl.
  apply list_elem_of_lookup in Hin as [i Hi]. pose proof (list_elem_of_lookup_2 _ _ _ Hi) as Hin.
  apply take_drop_middle in Hi.
  assert (Hsum : length (TrustRoots cv) <= length (concat (checkedSignatures <$> outputs))).
  { rewrite <- Hi, fmap_app, concat_app, length_app. cbn. rewrite length_app. lia. }
  apply accepts_iff; [by rewrite Hrefs..|]. rewrite Hrefs. exists opts, vs, outputs.
  repeat (split; [done|]). split; [done| | | |].
  - unfold threshold_of. rewrite decide_True by (rewrite Hreq; auto with lia). lia.
  - intros r Hr. rewrite Hreq in Hr. by apply elem_of_nil in Hr.
  - intros E. rewrite E in Hsum. destruct (TrustRoots cv); [done|]. cbn in Hsum. lia.
  - intros s Hs. apply list_elem_of_In, in_concat in Hs as (l & Hl'%list_elem_of_In & Hs%list_elem_of_In).
    apply list_elem_of_fmap in Hl' as (o & -> & Ho'). by apply (Hdig o).
Qed.


(** * What cosign is asked for a trust root *)

(** The key of the trust root, or else its identity with the Fulcio certificates of the
    validator; a trust root with a certificate only is none. *)
Inductive checks_root `{CosignLib} (cv : CosignValidator) (tr : TrustRoot) (o : CheckOpts) : Prop :=
  | checks_key key :
      tr_Key tr <> "" ->
      (if has_prefix (tr_Key tr) "-----BEGIN PUBLIC KEY-----" then LoadPublicKeyRaw (tr_Key tr)
       else PublicKeyFromKeyRef (tr_Key tr)) = Ok key ->
      SigVerifier o = Some key -> Identities o = [] -> checks_root cv tr o
  | checks_identity root intermediate :
      tr_Key tr = "" -> Issuer (tr_Keyless tr) <> "" \/ IssuerRegex (tr_Keyless tr) <> "" ->
      Subject (tr_Keyless tr) <> "" \/ SubjectRegex (tr_Keyless tr) <> "" ->
      getFulcioCerts cv = Ok (root, intermediate) ->
      SigVerifier o = None -> RootCerts o = Some root -> IntermediateCerts o = intermediate ->
      Identities o = [{| id_Issuer := Issuer (tr_Keyless tr); id_IssuerRegExp := IssuerRegex (tr_Keyless tr);
                         id_Subject := Subject (tr_Keyless tr);
                         id_SubjectRegExp := SubjectRegex (tr_Keyless tr) |}] -> checks_root cv tr o.

(** The options for one trust root, with the settings of the rule and the credentials
    of the image's repository. *)
Record checked_under `{CosignLib} `{MapOrder} (cv : CosignValidator) (args : RuleOptions) (img : Image)
    (tr : TrustRoot) (o : CheckOpts) : Prop := {
  cu_root : checks_root cv tr o;
  cu_tlog : IgnoreTlog o = negb (default true (VerifyTLog args));
  cu_sct : IgnoreSCT o = negb (default true (VerifySCT args));
  cu_rekor : IgnoreTlog o = false -> exists keys, getRekorPubKey cv = Ok keys /\ RekorPubKeys o = Some keys;
  cu_ct : IgnoreSCT o = false -> exists keys, getCTLogPubKeys cv = Ok keys /\ CTLogPubKeys o = Some keys;
  cu_auth : registry_auth o = LookUp (cv_Auth cv) (ctx_string (ref img));
}.

Section Checked.
Context `{CosignLib} `{MapOrder}.
Variable verify : Image -> CheckOpts -> res (list signature).

Lemma LoadVerifier_checks cv tr vf opts o :
  LoadVerifier tr = Ok vf -> verifier_opts cv opts vf = Ok o ->
  SigVerifier opts = None -> Identities opts = [] ->
  vf_Name vf = tr_Name tr /\ checks_root cv tr o.
Proof.
  unfold LoadVerifier, verifier_opts. intros Hl Ho Hs Hi. case_decide as Hk.
  - apply bind_Ok in Hl as (key & Hkey & [= <-]). injection Ho as <-. split; [done|]. by eapply checks_key.
  - case_decide as Hid; [|discriminate Hl]. injection Hl as <-. split; [done|]. cbn in Ho.
    apply bind_Ok in Ho as ([root inter] & Hf & [= <-]). destruct Hid as [Hiss Hsub].
    eapply checks_identity; try done. cbn. by rewrite Hi.
Qed.

Lemma setup_checked cv args img opts tr vf o :
  setupOptions cv args img = Ok opts -> LoadVerifier tr = Ok vf -> verifier_opts cv opts vf = Ok o ->
  vf_Name vf = tr_Name tr /\ checked_under cv args img tr o.
Proof.
  unfold setupOptions. intros (rekor & Hr & Hs)%bind_Ok. apply bind_Ok in Hs as (ct & Hc & [= <-]).
  intros Hl Ho. destruct (LoadVerifier_checks _ _ _ _ _ Hl Ho eq_refl eq_refl) as [Hn Hck].
  split; [done|].
  assert (Hbase : IgnoreTlog o = negb (default true (VerifyTLog args)) /\
    IgnoreSCT o = negb (default true (VerifySCT args)) /\ RekorPubKeys o = rekor /\ CTLogPubKeys o = ct /\
    registry_auth o = LookUp (cv_Auth cv) (ctx_string (ref img))).
  { unfold verifier_opts in Ho. destruct (KeyVerifier vf); [by injection Ho as <-|].
    by apply bind_Ok in Ho as ([root inter] & _ & [= <-]). }
  destruct Hbase as (Ht & Hsct & Hrk & Hct & Ha). split; [done..| | |done].
  - rewrite Ht. intros Hb%negb_false_iff. unfold boolOrDefault in Hr.
    replace (match VerifyTLog args with Some b => b | None => true end) with true in Hr by done.
    apply bind_Ok in Hr as (keys & Hk & [= <-]). by exists keys.
  - rewrite Hsct. intros Hb%negb_false_iff. unfold boolOrDefault in Hc.
    replace (match VerifySCT args with Some b => b | None => true end) with true in Hc by done.
    apply bind_Ok in Hc as (keys & Hk%map_err_Ok & [= <-]). by exists keys.
Qed.

(** An output with signatures, or with the name of a trust root, is what cosign returned
    for the options of its verifier. *)
Lemma validateWithVerifier_signed cv img opts vf out :
  validateWithVerifier verify cv img opts vf = Ok out ->
  checkedSignatures out <> [] \/ validatingTrustRoot out <> "" ->
  exists o, verifier_opts cv opts vf = Ok o /\ verify img o = Ok (checkedSignatures out) /\
    validatingTrustRoot out = vf_Name vf.
Proof.
  unfold validateWithVerifier. intros Hv Hsig.
  destruct (verifier_opts cv opts vf) as [o|e|w]; [|injection Hv as <-; by destruct Hsig|done].
  destruct (verify img o) as [sigs|e|w] eqn:Es; [injection Hv as <-; by exists o| |done].
  destruct (has_prefix e _); injection Hv as <-; by destruct Hsig.
Qed.

Lemma verifiers_root cv args vs vf :
  verifiers cv (trustRootReferences cv args) = Ok vs -> vf ∈ vs ->
  exists tr, tr ∈ TrustRoots cv /\ LoadVerifier tr = Ok vf /\
    (Policy.TrustRoot args <> "*" -> tr_Name tr = StringDefault (Policy.TrustRoot args) "default").
Proof.
  unfold verifiers. intros (roots & Hr & Hm)%bind_Ok Hin. apply map_err_Ok in Hr.
  apply mapM_res_Ok in Hm. apply list_elem_of_lookup in Hin as [i Hi].
  destruct (Forall2_lookup_r _ _ _ _ _ Hm Hi) as (tr & Htr & Hl).
  apply list_elem_of_lookup_2 in Htr. exists tr. split; [by eapply GetTrustRoots_elem|]. split; [done|].
  intros Hns. assert (Hrefs : trustRootReferences cv args = [Policy.TrustRoot args])
    by (unfold trustRootReferences; by rewrite !decide_False by tauto).
  rewrite Hrefs, GetTrustRoots_by_name in Hr. rewrite decide_False in Hr by congruence.
  assert (Hname : forall name, root_named (TrustRoots cv) name = Ok tr -> tr_Name tr = name).
  { unfold root_named. intros name. destruct (List.find _ _) as [tr'|] eqn:E; [|done]. intros [= ->].
    apply List.find_some in E as [_ E]. by apply bool_decide_eq_true in E. }
  unfold StringDefault. cbn [andb] in Hr.
  destruct (decide (Policy.TrustRoot args = "")) as [E|E].
  - rewrite bool_decide_eq_true_2 in Hr by (right; by rewrite E).
    apply bind_Ok in Hr as (tr' & Hr & [= <-]). apply list_elem_of_singleton in Htr as ->. by apply Hname.
  - rewrite bool_decide_eq_false_2 in Hr by (intros [?|[= ?]]; congruence).
    apply bind_Ok in Hr as (tr' & Hr & [= <-]).
    apply list_elem_of_singleton in Htr as ->. by apply Hname.
Qed.

(** The outputs a validation ends on, which its verifiers have sent. *)
Lemma accepted_outputs `{ArrivalOrder} cv img args d :
  ValidateImage verify cv img args = Ok d ->
  exists vs outputs, accepted args vs outputs d /\
    forall out, out ∈ outputs -> checkedSignatures out <> [] \/ validatingTrustRoot out <> "" ->
    exists tr o, tr ∈ TrustRoots cv /\
      (Policy.TrustRoot args <> "*" -> tr_Name tr = StringDefault (Policy.TrustRoot args) "default") /\
      checked_under cv args img tr o /\ verify img o = Ok (checkedSignatures out) /\
      validatingTrustRoot out = tr_Name tr.
Proof.
  unfold ValidateImage. cbv zeta. intros (opts & Ho & Hrun)%bind_Ok. apply map_err_Ok in Ho.
  apply bind_Ok in Hrun as (vs & Hv & Hrun). apply map_err_Ok in Hv.
  apply bind_Ok in Hrun as (outs & Hm & Hrun). apply conclude_accepted in Hrun.
  eexists vs, _. split; [exact Hrun|]. intros out Hout Hsig.
  apply elem_of_take in Hout as (i & Hi & _).
  apply list_elem_of_lookup_2 in Hi. rewrite arrival_perm in Hi.
  apply mapM_res_Ok in Hm. apply list_elem_of_lookup in Hi as [j Hj].
  destruct (Forall2_lookup_r _ _ _ _ _ Hm Hj) as (vf & Hvf & Hval). apply list_elem_of_lookup_2 in Hvf.
  destruct (verifiers_root _ _ _ _ Hv Hvf) as (tr & Htr & Hl & Hname).
  destruct (validateWithVerifier_signed _ _ _ _ _ Hval Hsig) as (o & Hopt & Hver & Hroot).
  destruct (setup_checked _ _ _ _ _ _ _ Ho Hl Hopt) as [Hn Hck].
  exists tr, o. repeat (split; [done|]). congruence.
Qed.
End Checked.

(** C21: a digest that cosign validation accepts is the one in a signature that cosign
    returned when asked for a configured trust root: with the key of that trust root,
    or with its identity as the only one and the Fulcio certificates of the
    validator, with the credentials of the repository, and with the transparency
    logs unless the rule switches them off.  It is the trust root the rule names, if
    it names one; and for every required name cosign was asked for the trust root of
    that name and returned no signature for another digest. *)
Theorem accepted_signature `{CosignLib} `{MapOrder} `{ArrivalOrder}
    (verify : Image -> CheckOpts -> res (list signature)) (cv : CosignValidator) (img : Image)
    (args : RuleOptions) (d : string) :
  ValidateImage verify cv img args = Ok d ->
  (exists s tr o sigs, tr ∈ TrustRoots cv /\
     (Policy.TrustRoot args <> "*" -> tr_Name tr = StringDefault (Policy.TrustRoot args) "default") /\
     checked_under cv args img tr o /\ verify img o = Ok sigs /\ s ∈ sigs /\ signature_digest s = Ok d) /\
  forall name, name ∈ Required args -> name <> "" ->
    exists tr o sigs, tr ∈ TrustRoots cv /\ tr_Name tr = name /\ checked_under cv args img tr o /\
      verify img o = Ok sigs /\ forall s, s ∈ sigs -> signature_digest s = Ok d.
Proof.
  intros Hrun. destruct (accepted_outputs verify cv img args d Hrun) as (vs & outputs & Hacc & Hout).
  destruct Hacc as [_ _ Hreq Hsome Hdig].
  assert (Hin : forall out s, out ∈ outputs -> s ∈ checkedSignatures out ->
    s ∈ concat (checkedSignatures <$> outputs)).
  { intros out s Ho Hs. apply list_elem_of_In, in_concat. exists (checkedSignatures out).
    split; [apply list_elem_of_In, list_elem_of_fmap; by exists out|by apply list_elem_of_In]. }
  split.
  - destruct (concat (checkedSignatures <$> outputs)) as [|s ss] eqn:E; [done|].
    assert (Hs : s ∈ concat (checkedSignatures <$> outputs)) by (rewrite E; by left).
    apply list_elem_of_In, in_concat in Hs as (l & Hl%list_elem_of_In & Hs%list_elem_of_In).
    apply list_elem_of_fmap in Hl as (out & -> & Ho).
    destruct (Hout out Ho) as (tr & o & Htr & Hn & Hck & Hv & _); [left; intros Enil; rewrite Enil in Hs; by apply elem_of_nil in Hs|].
    exists s, tr, o, (checkedSignatures out). repeat (split; [done|]). apply Hdig. by left.
  - intros name Hname Hne. apply Hreq, list_elem_of_fmap in Hname as (out & -> & Ho).
    destruct (Hout out Ho) as (tr & o & Htr & _ & Hck & Hv & Hn); [by right|].
    exists tr, o, (checkedSignatures out). repeat (split; [done|]). intros s Hs. eapply Hdig, Hin; done.
Qed.

(** * Concrete runs *)
Definition demo_cosign : CosignLib := {|
  verification_key := string; log_keys := string; cert_pool := string; rekor_client := string;
  signature := string;
  LoadPublicKeyRaw k := Ok k; PublicKeyFromKeyRef k := Ok k; NewClient u := Ok u;
  AddTransparencyLogPubKey k := Ok k; AppendCertsFromPEM p := Some p;
  GetRekorPubs := Ok "rekor"; GetCTLogPubs := Ok "ct"; GetRoots := Ok "root";
  GetIntermediates := Ok "intermediate"; Payload s := Ok s |}.
Definition quoted (s : string) : string := dq +:+ s +:+ dq.
Definition demo_payload (digest : string) : string :=
  "{" +:+ quoted "critical" +:+ ":{" +:+ quoted "image" +:+ ":{" +:+ quoted "docker-manifest-digest"
  +:+ ":" +:+ quoted digest +:+ "}," +:+ quoted "type" +:+ ":" +:+ quoted "cosign container image signature"
  +:+ "}," +:+ quoted "optional" +:+ ":null}".
Definition demo_root (name key : string) : TrustRoot := {|
  tr_Name := name; tr_Key := key; tr_Cert := ""; tr_TSCert := "";
  tr_Keyless := {| Issuer := ""; Subject := ""; IssuerRegex := ""; SubjectRegex := "" |} |}.
Definition demo_cv : CosignValidator (H := demo_cosign) := {|
  cv_Name := "signed"; cv_Type := "cosign"; Rekor := "rekor" : @rekor_client demo_cosign;
  rekorPubkey := None; fulcioCert := None; ctLogPubkey := None; cv_Cert := None;
  cv_Auth := {| AuthConfigs := None; UseKeychain := false |};
  TrustRoots := [demo_root "alice" "A"; demo_root "bob" "B"] |}.
(** Alice has signed the image twice, Bob not at all. *)
Definition demo_verify (img : Image) (opts : CheckOpts (H := demo_cosign))
  : res (list (@signature demo_cosign)) :=
  match SigVerifier opts with
  | Some key => if decide ((key : string) = "A") then Ok [demo_payload "sha256:abc"; demo_payload "sha256:abc"]
                else Err "no matching signatures"
  | None => Err "no key"
  end.
Definition star_args : RuleOptions := {|
  Policy.TrustRoot := "*"; VerifyTLog := None; VerifySCT := None; Threshold := 0%Z; Required := [];
  Delegations := []; ValidationMode := ""; VerificationLevel := ""; VerifyTimestamp := "" |}.
Definition demo_image : Image := {|
  original := "reg.io/app:1";
  ref := {| ctx_name := "reg.io/app"; ctx_string := "reg.io/app"; ctx_registry := "reg.io";
            identifier := "1" |};
  tag := "1"; digest := "" |}.

(** One of two trust roots has signed the image twice. *)
Lemma star_accepts_one_signer_witness :
  length (TrustRoots demo_cv) = 2 /\
  ValidateImage (H := demo_cosign) (H1 := in_order) demo_verify demo_cv demo_image star_args
    = Ok "sha256:abc".
Proof.
  split; [reflexivity|].
  eapply (star_accepts_one_signer (H := demo_cosign) (H1 := in_order)) with (signer := {|
    checkedSignatures := [demo_payload "sha256:abc"; demo_payload "sha256:abc"] : list (@signature demo_cosign);
    vo_err := None; propagationErr := None; validatingTrustRoot := "alice" |}).
  1, 2: reflexivity.
  1: cbn; lia.
  1, 2: discriminate.
  1, 2, 3: vm_compute; reflexivity.
  - repeat constructor.
  - left.
  - cbn. lia.
  - intros o s Ho Hs. apply elem_of_cons in Ho as [->|Ho].
    + assert (s = demo_payload "sha256:abc") as -> by (cbn [checkedSignatures] in Hs; set_solver).
      vm_compute. reflexivity.
    + apply list_elem_of_singleton in Ho as ->. by apply elem_of_nil in Hs.
Defined.

Lemma cosign_accepts_witness :
  ValidateImage (H := demo_cosign) (H1 := in_order) demo_verify demo_cv demo_image star_args
    = Ok "sha256:abc" /\
  exists opts vs outputs,
    setupOptions demo_cv star_args demo_image = Ok opts /\
    verifiers demo_cv (trustRootReferences demo_cv star_args) = Ok vs /\
    mapM_res (validateWithVerifier demo_verify demo_cv demo_image opts) vs = Ok outputs /\
    accepted star_args vs outputs "sha256:abc".
Proof.
  split; [vm_compute; reflexivity|].
  refine (proj1 (cosign_accepts (H := demo_cosign) (H1 := in_order) demo_verify demo_cv demo_image
    star_args "sha256:abc" _ _) _); [vm_compute; discriminate|vm_compute; discriminate|].
  vm_compute. reflexivity.
Defined.

(** Alice is required and has signed; she is asked for by her key. *)
Definition alice_args : RuleOptions := {|
  Policy.TrustRoot := "*"; VerifyTLog := None; VerifySCT := None; Threshold := 0%Z;
  Required := ["alice"]; Delegations := []; ValidationMode := ""; VerificationLevel := "";
  VerifyTimestamp := "" |}.
Lemma accepted_signature_witness :
  (exists s tr o sigs, tr ∈ TrustRoots demo_cv /\
     (Policy.TrustRoot alice_args <> "*" ->
        tr_Name tr = StringDefault (Policy.TrustRoot alice_args) "default") /\
     checked_under demo_cv alice_args demo_image tr o /\ demo_verify demo_image o = Ok sigs /\
     s ∈ sigs /\ signature_digest s = Ok "sha256:abc") /\
  forall name, name ∈ ["alice"] -> name <> "" ->
    exists tr o sigs, tr ∈ TrustRoots demo_cv /\ tr_Name tr = name /\
      checked_under demo_cv alice_args demo_image tr o /\
      demo_verify demo_image o = Ok sigs /\ forall s, s ∈ sigs -> signature_digest s = Ok "sha256:abc".
Proof.
  apply (accepted_signature (H := demo_cosign) (H1 := in_order) demo_verify demo_cv demo_image alice_args).
  vm_compute. reflexivity.
Defined.
