(* ===== verification/NotaryServer.v ===== *)
(** [internal/validator/notaryv1/notaryserver]: the client of a notary server
    ([client.go], [simple_cred_store.go]) and the trust data of one repository
    ([repo.go]). *)
From S2P Require Import Prelude GoStrings Utils Image Auth Cosign.
From Stdlib Require Import Ascii.

(** * The TUF library

    Signed documents, keys, roles and hashes are opaque; the accessors are those the
    code uses: the delegation roles and the files of a targets document (each file
    with the hexadecimal form of its SHA-256 hash, empty if it has none) and the
    hashes that snapshot and timestamp list for other roles. *)
Class TufLib := {
  Signed : Type; Decoded : Type; SignedRoot : Type; SignedTargets : Type; SignedSnapshot : Type;
  SignedTimestamp : Type; PublicKey : Type; Signature : Type; BaseRole : Type; Hashes : Type;
  unmarshal_Signed : string -> res Signed;
  RootFromSigned : Signed -> res SignedRoot;
  TargetsFromSigned : Signed -> string -> res SignedTargets;
  SnapshotFromSigned : Signed -> res SignedSnapshot;
  TimestampFromSigned : Signed -> res SignedTimestamp;
  root_ToSigned : SignedRoot -> res Signed;
  targets_ToSigned : SignedTargets -> res Signed;
  snapshot_ToSigned : SignedSnapshot -> res Signed;
  timestamp_ToSigned : SignedTimestamp -> res Signed;
  (** the signed part, decoded into a map, and the canonical encoding *)
  decode_Signed : Signed -> res Decoded;
  MarshalCanonical : Decoded -> res string;
  root_Signatures : SignedRoot -> list Signature;
  (** [IsValid] of the signature after the call *)
  VerifySignature : string -> Signature -> PublicKey -> res bool;
  key_ID : PublicKey -> string;
  BuildBaseRole : SignedRoot -> string -> res BaseRole;
  BuildDelegationRole : SignedTargets -> string -> res BaseRole;
  VerifySignatures : Signed -> BaseRole -> bool;
  root_VerifyExpiry : SignedRoot -> bool;
  targets_VerifyExpiry : SignedTargets -> string -> bool;
  snapshot_VerifyExpiry : SignedSnapshot -> bool;
  timestamp_VerifyExpiry : SignedTimestamp -> bool;
  targets_Roles : SignedTargets -> list string;
  targets_Files : SignedTargets -> gmap string string;
  snapshot_Meta : SignedSnapshot -> gmap string Hashes;
  timestamp_Meta : SignedTimestamp -> gmap string Hashes;
  zero_Hashes : Hashes;
  CheckHashes : string -> string -> Hashes -> res unit;
}.

Definition CanonicalRootRole := "root".
Definition CanonicalTargetsRole := "targets".
Definition CanonicalSnapshotRole := "snapshot".
Definition CanonicalTimestampRole := "timestamp".
Definition BaseRoles : list string :=
  [CanonicalRootRole; CanonicalTargetsRole; CanonicalSnapshotRole; CanonicalTimestampRole].

(** * simple_cred_store.go *)
Record simpleCredentialStore : Type := { scs_Username : string; scs_Password : string; scs_IdentityToken : string }.
Definition Basic (scs : simpleCredentialStore) : string * string := (scs_Username scs, scs_Password scs).
Definition RefreshToken (scs : simpleCredentialStore) : string := scs_IdentityToken scs.
Definition SetRefreshToken (_ : simpleCredentialStore) : res unit :=
  Panic "function SetRefreshToken is not implemented".

(** What the transport of the client is made of: the root certificates, and, for
    servers that ask for authentication, the credentials and the scope of the
    token. *)
Record Authorizer : Type := {
  at_Credentials : simpleCredentialStore; at_Repository : string; at_Actions : list string }.
Record Transport : Type := { tp_RootCAs : option string; tp_Authorizer : option Authorizer }.

(** HTTP: the ping of the server (its status, and whether its challenge can be read),
    requests to status code, status line and body, and [AppendCertsFromPEM]. *)
Class NotaryHttp := {
  http_NewRequest : string -> res unit;
  append_certs : string -> bool;
  ping : Transport -> string -> res nat;
  add_challenge : string -> res unit;
  http_get : Transport -> string -> res (nat * string * res string);
}.

Section NotaryServer.
Context `{TufLib} `{NotaryHttp} `{NameLib} `{MapOrder} `{ArrivalOrder}.

(** * client.go *)
Record NotaryClient : Type := { nc_client : Transport; nc_host : string; nc_repo : string }.
Record TrustData : Type := { Role : string; Data : option Signed; Raw : string; td_Err : option string }.

Definition tlsConfig (cert : string) : res (option string) :=
  if decide (cert <> "") then
    if append_certs cert then Ok (Some cert) else Err "failed to parse root certificate"
  else Ok None.
Definition baseTransport (cert : string) : res Transport :=
  cfg ← map_err (fun err => sprintf "error setting up TLS config: %s" [AStr err]) (tlsConfig cert);
  Ok {| tp_RootCAs := cfg; tp_Authorizer := None |}.

(** The registry is that of the host; for a host that does not parse, the nil pointer
    is a panic. *)
Definition buildAuthTransport (base : Transport) (host : string) (authConf : Auth) (img : string)
  : res Transport :=
  match NewRegistryRepo host with
  | Ok rr =>
      let authCreds := LookUp authConf (RegistryRepo_String rr) in
      let creds := {| scs_Username := Username authCreds; scs_Password := Password authCreds;
                      scs_IdentityToken := "" |} in
      Ok {| tp_RootCAs := tp_RootCAs base;
            tp_Authorizer := Some {| at_Credentials := creds; at_Repository := img;
                                     at_Actions := ["pull"] |} |}
  | _ => Panic "invalid memory address or nil pointer dereference"
  end.

Definition newNotaryClient (host cert : string) (authCreds : Auth) (imageRef : Image)
  : res NotaryClient :=
  let notaryRef := NotaryReference imageRef in
  _ ← map_err (fun err => sprintf "error creating ping request: %s" [AStr err])
        (http_NewRequest (host +:+ "/v2/"));
  clientTransport ← map_err (fun err =>
        sprintf "unable configuring base transport settings for http client %s" [AStr err])
        (baseTransport cert);
  status ← map_err (fun err => sprintf "error pinging notary server: %s" [AStr err])
             (ping clientTransport (host +:+ "/v2/"));
  roundTripper ← (if status =? 401 then
      _ ← map_err (fun err => sprintf "error adding challenge response: %s" [AStr err])
            (add_challenge (host +:+ "/v2/"));
      buildAuthTransport clientTransport host authCreds notaryRef
    else Ok clientTransport);
  Ok {| nc_client := roundTripper; nc_host := host; nc_repo := notaryRef |}.

(** [FetchTrustData]: what it writes to the channel unless the context is done. *)
Definition FetchTrustData (nc : NotaryClient) (role : string) : res TrustData :=
  let fail raw err := Ok {| Role := role; Data := None; Raw := raw; td_Err := Some err |} in
  let url := sprintf "%s/v2/%s/_trust/tuf/%s.json" [AStr (nc_host nc); AStr (nc_repo nc); AStr role] in
  match http_NewRequest url with
  | Panic w => Panic w
  | Err err => fail "" (sprintf "error creating request for acquiring trust data %s: %s" [AStr role; AStr err])
  | Ok _ =>
      match http_get (nc_client nc) url with
      | Panic w => Panic w
      | Err err => fail "" (sprintf "error doing request trust data %s: %s" [AStr role; AStr err])
      | Ok (status, status_line, body) =>
          if negb (status =? 200)
          then fail "" (sprintf "error acquiring trust data %s: %s" [AStr role; AStr status_line])
          else
            match body with
            | Panic w => Panic w
            | Err err => fail "" (sprintf "error reading trust data %s: %s" [AStr role; AStr err])
            | Ok rawData =>
                match unmarshal_Signed rawData with
                | Panic w => Panic w
                | Err err =>
                    fail rawData (sprintf "error unmarshalling trust data %s: %s" [AStr role; AStr err])
                | Ok signed => Ok {| Role := role; Data := Some signed; Raw := rawData; td_Err := None |}
                end
            end
      end
  end.

(** * repo.go *)
Record Repo : Type := {
  Root : option SignedRoot;
  Targets : gmap string SignedTargets;
  Snapshot : option SignedSnapshot;
  Timestamp : option SignedTimestamp;
  notCheckedChecksums : gmap string string;
}.
Definition empty_repo : Repo := {| Root := None; Targets := ∅; Snapshot := None; Timestamp := None;
  notCheckedChecksums := ∅ |}.

(** Reading a field of a nil pointer. *)
Definition deref {A} (o : option A) : res A :=
  match o with Some a => Ok a | None => Panic "invalid memory address or nil pointer dereference" end.

(** One received document of a base role, parsed and stored. *)
Definition store_base (r : Repo) (td : TrustData) : res Repo :=
  d ← deref (Data td);
  r ← map_err (fun err => sprintf "error parsing trust data for %s: %s" [AStr (Role td); AStr err])
    (if decide (Role td = CanonicalRootRole) then
       x ← RootFromSigned d;
       Ok {| Root := Some x; Targets := Targets r; Snapshot := Snapshot r; Timestamp := Timestamp r;
             notCheckedChecksums := notCheckedChecksums r |}
     else if decide (Role td = CanonicalTargetsRole) then
       x ← TargetsFromSigned d CanonicalTargetsRole;
       Ok {| Root := Root r; Targets := <[CanonicalTargetsRole := x]> (Targets r);
             Snapshot := Snapshot r; Timestamp := Timestamp r;
             notCheckedChecksums := notCheckedChecksums r |}
     else if decide (Role td = CanonicalSnapshotRole) then
       x ← SnapshotFromSigned d;
       Ok {| Root := Root r; Targets := Targets r; Snapshot := Some x; Timestamp := Timestamp r;
             notCheckedChecksums := notCheckedChecksums r |}
     else if decide (Role td = CanonicalTimestampRole) then
       x ← TimestampFromSigned d;
       Ok {| Root := Root r; Targets := Targets r; Snapshot := Snapshot r; Timestamp := Some x;
             notCheckedChecksums := notCheckedChecksums r |}
     else Ok r);
  Ok {| Root := Root r; Targets := Targets r; Snapshot := Snapshot r; Timestamp := Timestamp r;
        notCheckedChecksums := <[Role td := Raw td]> (notCheckedChecksums r) |}.

(** A round of the receiving loop; [done i] is whether the context is done at the check
    of round [i].  A run in which the receive blocks for ever is none of these. *)
Definition receive_base (done : nat -> bool) (r : Repo) (round : nat * TrustData) : res Repo :=
  let '(i, td) := round in
  if done i then Err "context cancelled" else
  match td_Err td with
  | Some err => Err (sprintf "error acquiring trust data %s: %s" [AStr (Role td); AStr err])
  | None => store_base r td
  end.
Definition DownloadBaseTrustData (done : nat -> bool) (nc : NotaryClient) : res Repo :=
  tds ← mapM_res (FetchTrustData nc) BaseRoles;
  foldM_res (receive_base done) empty_repo (imap pair (arrival tds)).

(** The inner loop of [validateRoot]: the result of the last signature tried. *)
Fixpoint verified_with (msg : string) (sigs : list Signature) (key : PublicKey) (last : string)
  : res (bool * string) :=
  match sigs with
  | [] => Ok (false, last)
  | sig :: sigs' =>
      match VerifySignature msg sig key with
      | Ok true => Ok (true, last)
      | Ok false => verified_with msg sigs' key "%!s(<nil>)"
      | Err err => verified_with msg sigs' key err
      | Panic w => Panic w
      end
  end.

Definition validateRoot (r : Repo) (keys : list PublicKey) : res unit :=
  root ← deref (Root r);
  signedRoot ← map_err (fun err => sprintf "serialization error for root: %s" [AStr err]) (root_ToSigned root);
  decoded ← map_err (fun err => sprintf "error unmarshalling root: %s" [AStr err]) (decode_Signed signedRoot);
  msg ← map_err (fun err => sprintf "error marshalling root: %s" [AStr err]) (MarshalCanonical decoded);
  if length (root_Signatures root) <? 1 then Err "no signatures found for root" else
  _ ← mapM_res (fun key =>
        '(verified, err) ← verified_with msg (root_Signatures root) key "";
        if (verified : bool) then Ok ()
        else Err (sprintf "error validating root signature with key %s: %s" [AStr (key_ID key); AStr err]))
      keys;
  if negb (root_VerifyExpiry root) then Err "root trust data expired" else Ok ().

(** The signed object and the expiry of a base role. *)
Definition base_signed (r : Repo) (role : string) : res (Signed * bool) :=
  let ser r := map_err (fun err => sprintf "serialization error for %s: %s" [AStr role; AStr err]) r in
  if decide (role = CanonicalTargetsRole) then
    t ← deref (Targets r !! CanonicalTargetsRole); s ← ser (targets_ToSigned t);
    Ok (s, targets_VerifyExpiry t CanonicalTargetsRole)
  else if decide (role = CanonicalSnapshotRole) then
    t ← deref (Snapshot r); s ← ser (snapshot_ToSigned t); Ok (s, snapshot_VerifyExpiry t)
  else
    t ← deref (Timestamp r); s ← ser (timestamp_ToSigned t); Ok (s, timestamp_VerifyExpiry t).

Definition validate_base_role (r : Repo) (role : string) : res unit :=
  if decide (role = CanonicalRootRole) then Ok () else
  '(signedObj, valid) ← base_signed r role;
  root ← deref (Root r);
  verifyRole ← map_err (fun err => sprintf "error building base role %s: %s" [AStr role; AStr err])
                 (BuildBaseRole root role);
  if negb (VerifySignatures signedObj verifyRole)
  then Err (sprintf "error validating %s signatures" [AStr role])
  else if negb valid then Err (sprintf "%s trust data expired" [AStr role])
  else Ok ().
Definition validateRestOfBase (r : Repo) : res unit :=
  _ ← mapM_res (validate_base_role r) BaseRoles; Ok ().

(** [m[role].Hashes] of a metadata map: the zero value when missing. *)
Definition hashes_of (m : gmap string Hashes) (role : string) : Hashes := default zero_Hashes (m !! role).

Definition validate_checksum (r : Repo) (role : string) : res unit :=
  if decide (role = CanonicalTimestampRole) then Ok () else
  hashes ← (if decide (role = CanonicalSnapshotRole)
            then t ← deref (Timestamp r); Ok (hashes_of (timestamp_Meta t) role)
            else s ← deref (Snapshot r); Ok (hashes_of (snapshot_Meta s) role));
  match notCheckedChecksums r !! role with
  | None => Err (sprintf "no checksums found for %s" [AStr role])
  | Some payload =>
      map_err (fun err => sprintf "error validating %s checksums: %s" [AStr role; AStr err])
        (CheckHashes payload role hashes)
  end.
Definition validateBaseChecksums (r : Repo) : res unit :=
  _ ← mapM_res (validate_checksum r) BaseRoles; Ok ().

Definition ValidateBaseTrustData (r : Repo) (keys : list PublicKey) : res unit :=
  _ ← map_err (fun err => sprintf "error validating root: %s" [AStr err]) (validateRoot r keys);
  _ ← map_err (fun err => sprintf "error validating base trust data: %s" [AStr err]) (validateRestOfBase r);
  map_err (fun err => sprintf "error validating base trust data checksums: %s" [AStr err])
    (validateBaseChecksums r).

Definition HasDelegations (r : Repo) : res bool :=
  t ← deref (Targets r !! CanonicalTargetsRole); Ok (0 <? length (targets_Roles t)).

Definition HasDelegationHashes (r : Repo) (delegations : list string) : res bool :=
  s ← deref (Snapshot r);
  Ok (forallb (fun delegation => is_set (snapshot_Meta s !! delegation)) delegations).

Definition validate_delegation (r : Repo) (delegation : string) : res unit :=
  match Targets r !! delegation with
  | None => Err (sprintf "delegation %s not found" [AStr delegation])
  | Some delegationTarget =>
      t ← deref (Targets r !! CanonicalTargetsRole);
      role ← map_err (fun err => sprintf "error building delegation role %s: %s" [AStr delegation; AStr err])
               (BuildDelegationRole t delegation);
      signedObj ← map_err (fun err => sprintf
          "serialization error from signedTarget to signed for delegation %s: %s" [AStr delegation; AStr err])
        (targets_ToSigned delegationTarget);
      if negb (VerifySignatures signedObj role)
      then Err (sprintf "error validating delegation %s signatures" [AStr delegation])
      else if negb (targets_VerifyExpiry delegationTarget delegation)
      then Err (sprintf "%s trust data expired" [AStr delegation])
      else
        s ← deref (Snapshot r);
        match notCheckedChecksums r !! delegation with
        | None => Err (sprintf "no checksums found for %s" [AStr delegation])
        | Some payload =>
            map_err (fun err => sprintf "error validating %s checksums: %s" [AStr delegation; AStr err])
              (CheckHashes payload delegation (hashes_of (snapshot_Meta s) delegation))
        end
  end.
Definition validateDelegations (r : Repo) (delegations : list string) : res unit :=
  _ ← mapM_res (validate_delegation r) delegations; Ok ().

(** The receiving loop for delegations: the repository is changed in place, so it is
    part of the result also in the error case. *)
Fixpoint receive_delegations (done : nat -> bool) (i : nat) (r : Repo) (l : list TrustData)
  : Repo * res unit :=
  match l with
  | [] => (r, Ok ())
  | td :: l' =>
      if done i then (r, Err "context cancelled") else
      match td_Err td with
      | Some err => (r, Err (sprintf "error downloading delegation %s: %s" [AStr (Role td); AStr err]))
      | None =>
          match deref (Data td) ≫= (fun d => TargetsFromSigned d (Role td)) with
          | Panic w => (r, Panic w)
          | Err _ => (r, Err (sprintf "error parsing delegation %s" [AStr (Role td)]))
          | Ok t =>
              receive_delegations done (S i)
                {| Root := Root r; Targets := <[Role td := t]> (Targets r); Snapshot := Snapshot r;
                   Timestamp := Timestamp r;
                   notCheckedChecksums := <[Role td := Raw td]> (notCheckedChecksums r) |} l'
          end
      end
  end.

Definition DownloadAndValidateDelegations (done : nat -> bool) (nc : NotaryClient) (r : Repo)
    (delegations : list string) : Repo * res unit :=
  match deref (Targets r !! CanonicalTargetsRole) with
  | Err e => (r, Err e)
  | Panic w => (r, Panic w)
  | Ok t =>
      match List.find (fun d => negb (bool_decide (d ∈ targets_Roles t))) delegations with
      | Some d => (r, Err (sprintf "delegation %s not found" [AStr d]))
      | None =>
          match mapM_res (FetchTrustData nc) delegations with
          | Err e => (r, Err e)
          | Panic w => (r, Panic w)
          | Ok tds =>
              match receive_delegations done 0 r (arrival tds) with
              | (r, Ok _) => (r, validateDelegations r delegations)
              | (r, e) => (r, e)
              end
          end
      end
  end.
End NotaryServer.

(** * Trusted repositories

    What the validation of trust data establishes, said role by role. *)
Section Trusted.
Context `{TufLib} `{NotaryHttp}.

(** The document of a role as it was downloaded, parsed and stored. *)
Definition parsed_as (r : Repo) (role : string) (d : Signed) : Prop :=
  if decide (role = CanonicalRootRole) then exists x, RootFromSigned d = Ok x /\ Root r = Some x
  else if decide (role = CanonicalTargetsRole)
  then exists x, TargetsFromSigned d role = Ok x /\ Targets r !! role = Some x
  else if decide (role = CanonicalSnapshotRole)
  then exists x, SnapshotFromSigned d = Ok x /\ Snapshot r = Some x
  else if decide (role = CanonicalTimestampRole)
  then exists x, TimestampFromSigned d = Ok x /\ Timestamp r = Some x
  else True.
Definition stored (nc : NotaryClient) (r : Repo) (role : string) : Prop :=
  exists td d, FetchTrustData nc role = Ok td /\ td_Err td = None /\ Data td = Some d /\
    notCheckedChecksums r !! role = Some (Raw td) /\ parsed_as r role d.

(** Every key has signed the root, which is not expired. *)
Definition root_trusted (r : Repo) (keys : list PublicKey) : Prop :=
  exists root signedRoot decoded msg,
    Root r = Some root /\ root_ToSigned root = Ok signedRoot /\ decode_Signed signedRoot = Ok decoded /\
    MarshalCanonical decoded = Ok msg /\
    root_Signatures root <> [] /\ root_VerifyExpiry root = true /\
    forall key, key ∈ keys -> exists sig, sig ∈ root_Signatures root /\ VerifySignature msg sig key = Ok true.

(** Another base role: signed as the root demands, and not expired. *)
Definition role_trusted (r : Repo) (role : string) : Prop :=
  exists obj root verifyRole,
    base_signed r role = Ok (obj, true) /\ Root r = Some root /\
    BuildBaseRole root role = Ok verifyRole /\ VerifySignatures obj verifyRole = true.

(** The downloaded bytes have the hashes listed in the snapshot, those of the snapshot
    the hashes listed in the timestamp. *)
Definition bytes_trusted (r : Repo) (role : string) : Prop :=
  exists payload hashes, notCheckedChecksums r !! role = Some payload /\
    CheckHashes payload role hashes = Ok () /\
    if decide (role = CanonicalSnapshotRole)
    then exists t, Timestamp r = Some t /\ hashes = hashes_of (timestamp_Meta t) role
    else exists s, Snapshot r = Some s /\ hashes = hashes_of (snapshot_Meta s) role.

Record base_trusted (r : Repo) (keys : list PublicKey) : Prop := {
  bt_root : root_trusted r keys;
  bt_roles : forall role, role ∈ [CanonicalTargetsRole; CanonicalSnapshotRole; CanonicalTimestampRole] ->
    role_trusted r role;
  bt_bytes : forall role, role ∈ [CanonicalRootRole; CanonicalTargetsRole; CanonicalSnapshotRole] ->
    bytes_trusted r role;
}.

(** A delegation: its document signed with the keys the targets document gives the
    delegation, not expired, and with the hashes of the snapshot. *)
Definition delegation_trusted (r : Repo) (delegation : string) : Prop :=
  exists doc targets role obj,
    Targets r !! delegation = Some doc /\ Targets r !! CanonicalTargetsRole = Some targets /\
    BuildDelegationRole targets delegation = Ok role /\ targets_ToSigned doc = Ok obj /\
    VerifySignatures obj role = true /\ targets_VerifyExpiry doc delegation = true /\
    exists payload s, notCheckedChecksums r !! delegation = Some payload /\ Snapshot r = Some s /\
      CheckHashes payload delegation (hashes_of (snapshot_Meta s) delegation) = Ok ().

Lemma deref_Ok {A} (o : option A) a : deref o = Ok a <-> o = Some a.
Proof. destruct o; naive_solver. Qed.
Lemma mapM_res_unit {A} (f : A -> res ()) l :
  (_ ← mapM_res f l; Ok ()) = Ok () <-> forall a, a ∈ l -> f a = Ok ().
Proof.
  rewrite bind_Ok. split.
  - intros (us & Hm%mapM_res_Ok & _) a Ha. apply list_elem_of_lookup in Ha as [i Hi].
    destruct (Forall2_lookup_l _ _ _ _ _ Hm Hi) as ([] & _ & ?). done.
  - intros Hf. exists ((fun _ => ()) <$> l). split; [|done]. apply mapM_res_Ok.
    apply Forall2_fmap_r, Forall_Forall2_diag, Forall_forall. auto.
Qed.

Lemma verified_with_Ok msg sigs key last :
  (exists err, verified_with msg sigs key last = Ok (true, err)) ->
  exists sig, sig ∈ sigs /\ VerifySignature msg sig key = Ok true.
Proof.
  revert last. induction sigs as [|sig sigs IH]; intros last [err Hv]; cbn in Hv; [done|].
  destruct (VerifySignature msg sig key) as [[]|e|] eqn:E; [exists sig; by split; [left|]| | |done].
  all: destruct (IH _ (ex_intro _ err Hv)) as (s & ? & ?); exists s; split; [by right|done].
Qed.

Lemma validateRoot_trusted r keys : validateRoot r keys = Ok () -> root_trusted r keys.
Proof.
  unfold validateRoot. intros (root & Hr%deref_Ok & Hrun)%bind_Ok.
  apply bind_Ok in Hrun as (s & Hs%map_err_Ok & Hrun).
  apply bind_Ok in Hrun as (dec & Hdec%map_err_Ok & Hrun).
  apply bind_Ok in Hrun as (msg & Hm%map_err_Ok & Hrun).
  destruct (Nat.ltb_spec (length (root_Signatures root)) 1) as [|Hl]; [done|].
  apply bind_Ok in Hrun as (us & Hk%mapM_res_Ok & Hrun).
  destruct (root_VerifyExpiry root) eqn:He; [|done].
  exists root, s, dec, msg. repeat (split; [done|]). split; [by intros E; rewrite E in Hl; cbn in Hl; lia|].
  split; [done|]. intros key Hkey. apply list_elem_of_lookup in Hkey as [i Hi].
  destruct (Forall2_lookup_l _ _ _ _ _ Hk Hi) as (u & _ & Hu).
  apply bind_Ok in Hu as ([verified err] & Hv & Hu). destruct verified; [|done].
  eapply verified_with_Ok. by eexists.
Qed.

Lemma validate_base_role_trusted r role :
  role <> CanonicalRootRole -> validate_base_role r role = Ok () -> role_trusted r role.
Proof.
  intros Hrole. unfold validate_base_role. rewrite decide_False by done.
  intros ([obj valid] & Hb & Hrun)%bind_Ok.
  apply bind_Ok in Hrun as (root & Hr%deref_Ok & Hrun).
  apply bind_Ok in Hrun as (vr & Hv%map_err_Ok & Hrun).
  destruct (VerifySignatures obj vr) eqn:Es; [|done]. destruct valid; [|done].
  by exists obj, root, vr.
Qed.

Lemma validate_checksum_trusted r role :
  role <> CanonicalTimestampRole -> validate_checksum r role = Ok () -> bytes_trusted r role.
Proof.
  intros Hrole. unfold validate_checksum, bytes_trusted. rewrite decide_False by done.
  intros (hashes & Hh & Hrun)%bind_Ok. destruct (notCheckedChecksums r !! role) as [p|]; [|done].
  apply map_err_Ok in Hrun. exists p, hashes. repeat (split; [done|]).
  destruct (decide (role = CanonicalSnapshotRole)); apply bind_Ok in Hh as (t & Ht%deref_Ok & [= <-]);
    by exists t.
Qed.

Lemma validate_delegation_trusted r delegation :
  validate_delegation r delegation = Ok () -> delegation_trusted r delegation.
Proof.
  unfold validate_delegation. destruct (Targets r !! delegation) as [doc|] eqn:Ed; [|done].
  intros (t & Ht%deref_Ok & Hrun)%bind_Ok.
  apply bind_Ok in Hrun as (role & Hr%map_err_Ok & Hrun).
  apply bind_Ok in Hrun as (obj & Ho%map_err_Ok & Hrun).
  destruct (VerifySignatures obj role) eqn:Ev; [|done].
  destruct (targets_VerifyExpiry doc delegation) eqn:Ee; [|done]. cbn [negb] in Hrun.
  apply bind_Ok in Hrun as (s & Hs%deref_Ok & Hrun).
  destruct (notCheckedChecksums r !! delegation) as [p|] eqn:Ep; [|done].
  apply map_err_Ok in Hrun. exists doc, t, role, obj. repeat (split; [done|]). by exists p, s.
Qed.

Lemma ValidateBaseTrustData_trusted r keys :
  ValidateBaseTrustData r keys = Ok () -> base_trusted r keys.
Proof.
  unfold ValidateBaseTrustData. intros ([] & Hroot%map_err_Ok & Hrun)%bind_Ok.
  apply bind_Ok in Hrun as ([] & Hrest%map_err_Ok & Hsums%map_err_Ok).
  pose proof (proj1 (mapM_res_unit _ _) Hrest) as Hr. pose proof (proj1 (mapM_res_unit _ _) Hsums) as Hc.
  split; [by apply validateRoot_trusted| |].
  - intros role Hin. apply validate_base_role_trusted; [set_solver|]. apply Hr. set_solver.
  - intros role Hin. apply validate_checksum_trusted; [set_solver|]. apply Hc. set_solver.
Qed.
End Trusted.

Section Downloaded.
Context `{TufLib} `{NotaryHttp} `{ArrivalOrder}.

(** Storing a document leaves those of other roles alone. *)
Lemma store_base_stored nc r td r' :
  FetchTrustData nc (Role td) = Ok td -> td_Err td = None -> store_base r td = Ok r' ->
  stored nc r' (Role td) /\ forall role, role <> Role td -> stored nc r role -> stored nc r' role.
Proof.
  intros Hf He. unfold store_base. intros (d & Hd%deref_Ok & Hrun)%bind_Ok.
  apply bind_Ok in Hrun as (r1 & Hr1%map_err_Ok & [= <-]).
  assert (Hsame : notCheckedChecksums r1 = notCheckedChecksums r).
  { repeat case_decide; go_cases; done. }
  split.
  - exists td, d. repeat (split; [done|]). cbn [notCheckedChecksums]. split; [by rewrite lookup_insert_eq|].
    unfold parsed_as. repeat case_decide; go_cases; eauto using lookup_insert_eq.
    all: try congruence.
    eexists; split; [|by rewrite H3, lookup_insert_eq]. congruence.
  - intros role Hne (td0 & d0 & ? & ? & ? & Hraw & Hp). exists td0, d0. repeat (split; [done|]).
    cbn [notCheckedChecksums]. split; [by rewrite lookup_insert_ne, Hsame by done|].
    unfold parsed_as in *. repeat case_decide; go_cases; try congruence; eauto.
    all: try (eexists; split; [done|]; by rewrite lookup_insert_ne by congruence).
Qed.

Lemma FetchTrustData_role nc role td : FetchTrustData nc role = Ok td -> Role td = role.
Proof. unfold FetchTrustData. cbv zeta. intros Hf. repeat (step_match; try done); by simplify_eq. Qed.

Lemma fetched nc roles tds td :
  mapM_res (FetchTrustData nc) roles = Ok tds -> td ∈ arrival tds ->
  Role td ∈ roles /\ FetchTrustData nc (Role td) = Ok td.
Proof.
  intros Hm%mapM_res_Ok Hin. rewrite arrival_perm in Hin.
  apply list_elem_of_lookup in Hin as [i Hi].
  destruct (Forall2_lookup_r _ _ _ _ _ Hm Hi) as (role & Hl & Hf).
  rewrite (FetchTrustData_role _ _ _ Hf). split; [|done]. by eapply list_elem_of_lookup_2.
Qed.
Lemma fetched_all nc roles tds role :
  mapM_res (FetchTrustData nc) roles = Ok tds -> role ∈ roles ->
  exists td, td ∈ arrival tds /\ FetchTrustData nc role = Ok td.
Proof.
  intros Hm%mapM_res_Ok Hin. apply list_elem_of_lookup in Hin as [i Hi].
  destruct (Forall2_lookup_l _ _ _ _ _ Hm Hi) as (td & Hl & Hf).
  exists td. split; [|done]. rewrite arrival_perm. by eapply list_elem_of_lookup_2.
Qed.

(** A download that succeeds has stored all four documents, whatever order they
    arrived in, and the context was not done at any check. *)
Lemma DownloadBaseTrustData_stored done nc r :
  DownloadBaseTrustData done nc = Ok r ->
  forall role, role ∈ BaseRoles -> stored nc r role.
Proof.
  unfold DownloadBaseTrustData. intros (tds & Hm & Hrun)%bind_Ok.
  assert (Hall : forall p, p ∈ imap pair (arrival tds) -> stored nc r (Role (snd p))).
  { revert Hrun. apply (foldM_res_inv (fun l r => forall p, p ∈ l -> stored nc r (Role (snd p)))).
    - intros p Hp. by apply elem_of_nil in Hp.
    - intros l [i td] acc acc' IH Hin Hstep. cbn in Hstep. destruct (done i); [discriminate|].
      destruct (td_Err td) eqn:Ee; [discriminate|].
      apply elem_of_lookup_imap in Hin as (j & td' & [= -> ->] & Hj).
      apply list_elem_of_lookup_2 in Hj. destruct (fetched _ _ _ _ Hm Hj) as [_ Hf].
      destruct (store_base_stored _ _ _ _ Hf Ee Hstep) as [Hs Hother].
      intros p [Hp|Hp]%elem_of_app.
      + destruct (decide (Role (snd p) = Role td')) as [->|Hne]; [exact Hs|].
        by apply Hother, IH.
      + apply list_elem_of_singleton in Hp as ->. exact Hs. }
  intros role Hrole. destruct (fetched_all _ _ _ _ Hm Hrole) as (td & Hin & Hf).
  apply list_elem_of_lookup in Hin as [i Hi].
  rewrite <- (FetchTrustData_role _ _ _ Hf). apply (Hall (i, td)).
  apply elem_of_lookup_imap. by exists i, td.
Qed.

(** Receiving delegations changes the documents of those roles only. *)
Lemma receive_delegations_frame done l : forall i r r' e,
  receive_delegations done i r l = (r', e) ->
  Root r' = Root r /\ Snapshot r' = Snapshot r /\ Timestamp r' = Timestamp r /\
  forall role, role ∉ Role <$> l ->
    Targets r' !! role = Targets r !! role /\
    notCheckedChecksums r' !! role = notCheckedChecksums r !! role.
Proof.
  induction l as [|td l IH]; intros i r r' e Hr; cbn in Hr; [by simplify_eq|].
  destruct (done i); [by simplify_eq|]. destruct (td_Err td); [by simplify_eq|].
  destruct (_ ≫= _) as [t| |]; [|by simplify_eq..].
  apply IH in Hr as (H1' & H2' & H3' & H4'). cbn in *. repeat (split; [by etrans|]).
  intros role Hn. apply not_elem_of_cons in Hn as [Hne Hn].
  destruct (H4' role Hn) as [-> ->]. by rewrite !lookup_insert_ne by done.
Qed.

(** Validated delegations are roles of the targets document and are trusted; the base
    roles stay as they were. *)
Lemma DownloadAndValidateDelegations_frame done nc r delegations r' e :
  DownloadAndValidateDelegations done nc r delegations = (r', e) ->
  CanonicalTargetsRole ∉ delegations ->
  Root r' = Root r /\ Snapshot r' = Snapshot r /\ Timestamp r' = Timestamp r /\
  Targets r' !! CanonicalTargetsRole = Targets r !! CanonicalTargetsRole.
Proof.
  unfold DownloadAndValidateDelegations. intros Hrun Hno.
  destruct (deref _) as [t| |]; [|by simplify_eq..].
  destruct (List.find _ _); [by simplify_eq|].
  destruct (mapM_res _ _) as [tds| |] eqn:Em; [|by simplify_eq..].
  destruct (receive_delegations _ _ _ _) as [r1 e1] eqn:Er.
  assert (r' = r1) as -> by (destruct e1; by simplify_eq).
  apply receive_delegations_frame in Er as (-> & -> & -> & Ht). repeat (split; [done|]).
  apply Ht. intros (td & Hrole & Hin)%list_elem_of_fmap. apply Hno.
  destruct (fetched _ _ _ _ Em Hin) as [? _]. by rewrite Hrole.
Qed.
Lemma DownloadAndValidateDelegations_trusted done nc r delegations r' :
  DownloadAndValidateDelegations done nc r delegations = (r', Ok ()) ->
  (exists t, Targets r !! CanonicalTargetsRole = Some t /\
    forall d, d ∈ delegations -> d ∈ targets_Roles t) /\
  forall d, d ∈ delegations -> delegation_trusted r' d.
Proof.
  unfold DownloadAndValidateDelegations. intros Hrun.
  destruct (deref _) as [t| |] eqn:Et; [|discriminate..]. apply deref_Ok in Et.
  destruct (List.find _ _) eqn:Ef; [discriminate|].
  destruct (mapM_res _ _) as [tds| |] eqn:Em; [|discriminate..].
  destruct (receive_delegations _ _ _ _) as [r1 [[]| |]] eqn:Er; [|discriminate..].
  injection Hrun as <- Hv. split.
  - exists t. split; [done|]. intros d Hd. destruct (decide (d ∈ targets_Roles t)) as [|Hn]; [done|].
    apply list_elem_of_In in Hd. pose proof (find_none _ _ Ef d Hd) as Hfn. cbn in Hfn.
    by rewrite bool_decide_eq_false_2 in Hfn.
  - intros d Hd. apply validate_delegation_trusted. revert d Hd. by apply mapM_res_unit.
Qed.
End Downloaded.

(** * The order of arrival *)
Section Order.
Context `{TufLib} `{NotaryHttp}.

Definition store_received (r : Repo) (td : TrustData) : res Repo :=
  match td_Err td with
  | Some err => Err (sprintf "error acquiring trust data %s: %s" [AStr (Role td); AStr err])
  | None => store_base r td
  end.
Lemma receive_base_loop done l : forall n r,
  (forall i, done i = false) ->
  foldM_res (receive_base done) r (imap (fun i => pair (n + i)) l) = foldM_res store_received r l.
Proof.
  induction l as [|td l IH]; intros n r Hd; [done|]. cbn [imap foldM_res receive_base].
  rewrite Hd. fold (store_received r td). destruct (store_received r td); [|done..].
  cbn [mbind res_bind]. rewrite <- (IH (S n)) by done. f_equal. apply imap_ext. intros. cbn. f_equal. lia.
Qed.

Lemma store_base_commute r a b r' :
  Role a <> Role b -> store_base r a ≫= (fun x => store_base x b) = Ok r' ->
  store_base r b ≫= (fun x => store_base x a) = Ok r'.
Proof.
  intros Hne. unfold store_base. destruct (Data a) as [da|], (Data b) as [db|]; cbn; try done.
  2: { intros Hf. by destruct (map_err _ _). }
  pose proof (insert_insert_ne (notCheckedChecksums r) _ _ (Raw a) (Raw b) Hne) as Hins.
  repeat case_decide; try congruence;
    repeat match goal with
      | |- context [RootFromSigned ?d] => destruct (RootFromSigned d); [|done..]
      | |- context [TargetsFromSigned ?d ?n] => destruct (TargetsFromSigned d n); [|done..]
      | |- context [SnapshotFromSigned ?d] => destruct (SnapshotFromSigned d); [|done..]
      | |- context [TimestampFromSigned ?d] => destruct (TimestampFromSigned d); [|done..]
      end; cbn; by rewrite Hins.
Qed.

(** C22: the order in which the four documents arrive does not matter: if they can all
    be stored in one order, every other order ends with the same repository. *)
Theorem DownloadBaseTrustData_order (one other : ArrivalOrder) (done : nat -> bool) (nc : NotaryClient)
    (r : Repo) :
  (forall i, done i = false) ->
  DownloadBaseTrustData (H3 := one) done nc = Ok r -> DownloadBaseTrustData (H3 := other) done nc = Ok r.
Proof.
  intros Hd. unfold DownloadBaseTrustData. intros (tds & Hm & Hrun)%bind_Ok.
  rewrite Hm. cbn [mbind res_bind].
  rewrite (receive_base_loop done _ 0) in Hrun by done. rewrite (receive_base_loop done _ 0) by done.
  revert Hrun. apply foldM_res_perm; [by rewrite !arrival_perm|].
  intros acc a b r' Ha Hb. destruct (decide (Role a = Role b)) as [Hr|Hr].
  - destruct (fetched _ _ _ _ Hm Ha) as [_ Hfa]. destruct (fetched _ _ _ _ Hm Hb) as [_ Hfb].
    assert (a = b) as -> by congruence. done.
  - unfold store_received. destruct (td_Err a), (td_Err b); try done.
    + intros (x & _ & ?)%bind_Ok. done.
    + by apply store_base_commute.
Qed.
End Order.
