(* ===== verification/Notary.v ===== *)
(** [internal/validator/notaryv1/notaryv1_validator.go]: the validation of notary v1
    trust data. *)
From S2P Require Import Prelude GoStrings Utils Policy Image Json Auth Validator Cosign NotaryServer.
From Stdlib Require Import Ascii.

(** Keys: [pem.Decode] and [x509.ParsePKIXPublicKey] to the algorithm and the key (with
    the rest of the input), and [url.ParseRequestURI]. *)
Class KeyLib `{TufLib} := {
  pem_Decode : string -> option (string * string);
  ParsePKIXPublicKey : string -> res string;
  NewPublicKey : string -> string -> PublicKey;
  ParseRequestURI : string -> res unit;
}.

Section Notary.
Context `{KeyLib} `{NotaryHttp} `{NameLib} `{MapOrder} `{ArrivalOrder}.

Record NotaryV1Validator : Type := {
  nv_Name : string;
  nv_Type : string;
  Host : string;
  nv_Cert : string;
  nv_Auth : Auth;
  nv_TrustRoots : list TrustRoot;
}.

Definition DefaultNotaryHost := "notary.docker.io".

(** [UnmarshalYAML] on the decoded fields, which have the shape of the validator. *)
Definition UnmarshalYAML (valData : res NotaryV1Validator) : res NotaryV1Validator :=
  valData ← valData;
  if length (nv_TrustRoots valData) <? 1
  then Err (sprintf "no trust roots provided for validator %s" [AStr (nv_Name valData)])
  else
  host ← (if decide (Host valData <> "") then
      let host := if negb (HasPrefixes (to_lower (Host valData)) ["http://"; "https://"])
                  then sprintf "https://%s" [AStr (Host valData)] else Host valData in
      _ ← map_err (fun err => sprintf "invalid url for notary host: %s" [AStr err]) (ParseRequestURI host);
      Ok host
    else Ok ("https://" +:+ DefaultNotaryHost));
  let configs := auth_configs (nv_Auth valData) in
  configs ← (if size configs =? 1 then
      match configs !! EmptyAuthRegistry with
      | Some v =>
          rr ← map_err (fun err => sprintf "unable to parse registry %s: %s" [AStr host; AStr err])
                 (NewRegistryRepo host);
          Ok (Some (<[RegistryRepo_String rr := v]> (delete EmptyAuthRegistry configs)))
      | None => Ok (AuthConfigs (nv_Auth valData))
      end
    else Ok (AuthConfigs (nv_Auth valData)));
  _ ← (if decide (nv_Cert valData <> "") then
         if append_certs (nv_Cert valData) then Ok ()
         else Err (sprintf "invalid certificate for validator %s" [AStr (nv_Name valData)])
       else Ok ());
  Ok {| nv_Name := nv_Name valData; nv_Type := nv_Type valData; Host := host;
        nv_Cert := nv_Cert valData;
        nv_Auth := {| AuthConfigs := configs; UseKeychain := UseKeychain (nv_Auth valData) |};
        nv_TrustRoots := nv_TrustRoots valData |}.

(** * Keys *)
Definition root_key (nv : NotaryV1Validator) (tr : TrustRoot) : res PublicKey :=
  '(bytes, rest) ← of_opt (sprintf
      "error decoding public key %s: wrong format, provide a PEM encoded public key" [AStr (tr_Name tr)])
    (pem_Decode (tr_Key tr));
  keyType ← map_err (fun err => sprintf "error parsing public key %s: %s" [AStr (tr_Name tr); AStr err])
              (ParsePKIXPublicKey bytes);
  if negb (String.length rest =? 0)
  then Err (sprintf "key material for key %s of validator %s contains extraneous characters"
              [AStr (tr_Name tr); AStr (nv_Name nv)])
  else
    let alg := if decide (keyType = "*rsa.PublicKey") then "rsa"
               else if decide (keyType = "*ecdsa.PublicKey") then "ecdsa" else "unknown" in
    Ok (NewPublicKey alg bytes).

Definition trustRootKeys (nv : NotaryV1Validator) (keyRef : string) : res (list PublicKey) :=
  trs ← map_err (fun err => sprintf "error getting keys for validator %s: %s"
                   [AStr (nv_Name nv); AStr err]) (GetTrustRoots [keyRef] (nv_TrustRoots nv) true);
  mapM_res (root_key nv) trs.

(** * Targets *)
Definition toDelegationString (delegation : string) : string :=
  if has_prefix delegation "targets/" then delegation
  else sprintf "targets/%s" [AStr delegation].

(** [dgst.NewDigestFromEncoded(SHA256, hex).String()] *)
Definition digest_string (hex : string) : string := "sha256:" +:+ hex.

Definition searchTargetsForTag (targetFile : SignedTargets) (tag : string) : res string :=
  match targets_Files targetFile !! tag with
  | Some hex => Ok (digest_string hex)
  | None => Err (sprintf "no tag '%s' found in targets" [AStr tag])
  end.

Definition searchTargetsForDigest (targetFile : SignedTargets) (digest : string) : res string :=
  let files := targets_Files targetFile in
  let found := List.find (fun key => bool_decide (digest_string (default "" (files !! key)) = digest))
                 (range 0 (dom files)) in
  match found with
  | Some key => Ok (digest_string (default "" (files !! key)))
  | None => Err (sprintf "no digest '%s' found in targets" [AStr digest])
  end.

(** The digest of the image in one targets document. *)
Definition find_digest (r : Repo) (image : Image) (target : string) : res string :=
  signedTarget ← deref (Targets r !! target);
  if decide (Tag image <> "") then
    digest ← map_err (fun err => sprintf "validated targets don't contain reference: %s" [AStr err])
               (searchTargetsForTag signedTarget (Tag image));
    if decide (Digest image <> "" /\ Digest image <> digest)
    then Err (sprintf "digest %s resolved for tag %s doesn't match given digest %s"
                [AStr digest; AStr (Tag image); AStr (Digest image)])
    else Ok digest
  else
    map_err (fun err => sprintf "validated targets don't contain reference: %s" [AStr err])
      (searchTargetsForDigest signedTarget (Digest image)).

(** The choice of the targets documents, downloading and validating delegations where
    there are any. *)
Definition choose_targets (done : nat -> bool) (nv : NotaryV1Validator) (nc : NotaryClient)
    (r : Repo) (args : RuleOptions) : res (Repo * list string) :=
  has ← HasDelegations r;
  if (length (Delegations args) <? 1) && negb has then Ok (r, [CanonicalTargetsRole])
  else if negb has then
    Err (sprintf "no delegations found for validator %s, but following were required: %s"
           [AStr (nv_Name nv); AStr (show_slice (Required args))])
  else
    let targets := if 0 <? length (Delegations args) then Map (Delegations args) toDelegationString
                   else [toDelegationString "releases"] in
    match DownloadAndValidateDelegations done nc r targets with
    | (_, Panic w) => Panic w
    | (r, Ok _) => Ok (r, targets)
    | (r, Err err) =>
        hashes ← (if contains err "error acquiring trust data"
                  then h ← HasDelegationHashes r targets; Ok (negb h) else Ok false);
        if (hashes : bool) then Ok (r, [CanonicalTargetsRole])
        else Err (sprintf "error during download and validation of delegations for targets: %s"
                    [AStr (quote_slice targets)])
    end.

(** [ValidateImage]; [done1] and [done2] say when the context is seen to be done while
    the base roles and the delegations are received. *)
Definition ValidateImage (done1 done2 : nat -> bool) (nv : NotaryV1Validator) (image : Image)
    (args : RuleOptions) : res string :=
  nc ← map_err (fun err => sprintf "error creating notary client: %s" [AStr err])
         (newNotaryClient (Host nv) (nv_Cert nv) (nv_Auth nv) image);
  repo ← map_err (fun err => sprintf "error downloading trust data: %s" [AStr err])
           (DownloadBaseTrustData done1 nc);
  rootKeys ← map_err (fun err => sprintf "error getting trust root keys for validator %s: %s"
                        [AStr (nv_Name nv); AStr err]) (trustRootKeys nv (Policy.TrustRoot args));
  _ ← map_err (fun err => sprintf "error validating trust data: %s" [AStr err])
        (ValidateBaseTrustData repo rootKeys);
  '(repo, targets) ← choose_targets done2 nv nc repo args;
  digests ← foldM_res (fun digests target =>
      d ← find_digest repo image target; Ok ({[d]} ∪ digests : gset string)) ∅ targets;
  if negb (size digests =? 1) then
    Err (sprintf "validator %s found %d digests for image %s, expected 1"
           [AStr (nv_Name nv); AInt (size digests); AStr (Identifier image)])
  else index (range 1 digests) 0.

Definition notary_validate (done1 done2 : nat -> bool) (nv : NotaryV1Validator) : Validate :=
  {| validate img args := (img, ValidateImage done1 done2 nv img args) |}.
End Notary.

(** * When a validation succeeds *)
Section Sound.
Context `{KeyLib} `{NotaryHttp} `{NameLib} `{MapOrder} `{ArrivalOrder}.

(** The delegations a rule asks for, [releases] if it names none. *)
Definition wanted_delegations (args : RuleOptions) : list string :=
  if 0 <? length (Delegations args) then Map (Delegations args) toDelegationString
  else [toDelegationString "releases"].

(** The targets document lists the digest [d] for the image: under its tag, which
    must agree with the digest the image may have as well, or else as the digest. *)
Definition lists_digest (doc : SignedTargets) (image : Image) (d : string) : Prop :=
  if decide (Tag image <> "")
  then (exists hex, targets_Files doc !! Tag image = Some hex /\ d = digest_string hex) /\
       (Digest image = "" \/ Digest image = d)
  else (exists file hex, targets_Files doc !! file = Some hex /\ d = digest_string hex) /\
       Digest image = d.

Lemma toDelegationString_prefix s : has_prefix (toDelegationString s) "targets/" = true.
Proof.
  unfold toDelegationString. destruct (has_prefix s "targets/") eqn:E; [done|].
  cbn [sprintf show_arg]. apply has_prefix_true. by exists (s +:+ "").
Qed.
Lemma wanted_not_targets args : CanonicalTargetsRole ∉ wanted_delegations args.
Proof.
  assert (Hn : forall s, toDelegationString s <> CanonicalTargetsRole).
  { intros s E. pose proof (toDelegationString_prefix s) as Hp. by rewrite E in Hp. }
  unfold wanted_delegations. destruct (0 <? _).
  - rewrite Map_fmap. intros (s & Hs & _)%list_elem_of_fmap. by apply (Hn s), eq_sym.
  - intros Hs%list_elem_of_singleton. by apply (Hn "releases"), eq_sym.
Qed.
Lemma wanted_not_nil args : wanted_delegations args <> [].
Proof. unfold wanted_delegations. rewrite Map_fmap. by destruct (Delegations args). Qed.

Lemma find_digest_Ok r image target d :
  find_digest r image target = Ok d <->
  exists doc, Targets r !! target = Some doc /\ lists_digest doc image d.
Proof.
  unfold find_digest. rewrite bind_Ok. setoid_rewrite deref_Ok.
  split; intros (doc & Hdoc & Hd); exists doc; (split; [done|]); unfold lists_digest in *;
    unfold searchTargetsForTag, searchTargetsForDigest in *; cbv zeta in *.
  - destruct (decide (Tag image <> "")).
    + apply bind_Ok in Hd as (d' & Hs%map_err_Ok & Hd).
      destruct (targets_Files doc !! Tag image) as [hex|]; [|done]. injection Hs as <-.
      destruct (decide _) as [|Hn] in Hd; [done|]. injection Hd as <-.
      split; [by exists hex|]. destruct (decide (Digest image = "")); [by left|right].
      destruct (decide (Digest image = digest_string hex)); [done|by destruct Hn].
    + apply map_err_Ok in Hd. destruct (List.find _ _) as [k|] eqn:Ef; [|done]. injection Hd as <-.
      apply find_some in Ef as [Hk Hb%bool_decide_eq_true]. split; [|done].
      apply list_elem_of_In, elem_of_range, elem_of_dom in Hk as [hex Hk]. exists k, hex.
      by rewrite Hk.
  - destruct (decide (Tag image <> "")).
    + destruct Hd as [(hex & -> & ->) Hor]. cbn [map_err mbind res_bind].
      rewrite decide_False by naive_solver. done.
    + destruct Hd as [(file & hex & Hf & Hd) Hi]. apply map_err_Ok.
      destruct (List.find _ _) as [k|] eqn:Ef.
      * apply find_some in Ef as [_ Hb%bool_decide_eq_true]. congruence.
      * assert (Hk : List.In file (range 0 (dom (targets_Files doc)))).
        { apply list_elem_of_In, elem_of_range, elem_of_dom. by exists hex. }
        pose proof (find_none _ _ Ef file Hk) as Hn. cbn in Hn.
        rewrite bool_decide_eq_false in Hn. destruct Hn. rewrite Hf. cbn. congruence.
Qed.

(** The documents the digest is taken from.  Either they are the targets document,
    which has no delegations; or they are the wanted delegations, all trusted; or
    they are again the targets document, although it has delegations, since a
    delegation could not be downloaded that is not in the snapshot. *)
Inductive chosen (r r' : Repo) (args : RuleOptions) : list string -> Prop :=
  | Plain t :
      Targets r !! CanonicalTargetsRole = Some t -> targets_Roles t = [] ->
      Delegations args = [] -> r' = r -> chosen r r' args [CanonicalTargetsRole]
  | Delegated t :
      Targets r !! CanonicalTargetsRole = Some t ->
      (forall d, d ∈ wanted_delegations args -> d ∈ targets_Roles t /\ delegation_trusted r' d) ->
      chosen r r' args (wanted_delegations args)
  | Unused t s d :
      Targets r !! CanonicalTargetsRole = Some t -> targets_Roles t <> [] ->
      Snapshot r = Some s -> d ∈ wanted_delegations args -> snapshot_Meta s !! d = None ->
      chosen r r' args [CanonicalTargetsRole].

Lemma choose_targets_chosen done nv nc r args r' targets :
  choose_targets done nv nc r args = Ok (r', targets) ->
  chosen r r' args targets /\ targets <> [] /\
  Root r' = Root r /\ Snapshot r' = Snapshot r /\ Timestamp r' = Timestamp r /\
  Targets r' !! CanonicalTargetsRole = Targets r !! CanonicalTargetsRole.
Proof.
  unfold choose_targets, HasDelegations. cbv zeta. rewrite bind_assoc.
  intros (t & Ht%deref_Ok & Hrun)%bind_Ok. cbn [mbind res_bind] in Hrun.
  destruct (Nat.ltb_spec 0 (length (targets_Roles t))) as [Hroles|Hroles]; cbn [negb] in Hrun.
  - rewrite andb_false_r in Hrun. fold (wanted_delegations args) in Hrun.
    destruct (DownloadAndValidateDelegations _ _ _ _) as [r1 e] eqn:Ed.
    pose proof (DownloadAndValidateDelegations_frame _ _ _ _ _ _ Ed (wanted_not_targets args))
      as (HR & HS & HT & Htg).
    destruct e as [[]|err|]; [|destruct (contains err _)|discriminate].
    + injection Hrun as -> <-. split; [|split; [apply wanted_not_nil|done]].
      apply DownloadAndValidateDelegations_trusted in Ed as [(t' & Ht' & Hin) Htr].
      apply (Delegated _ _ _ t); [done|]. intros d Hd. split; [|by apply Htr].
      assert (t' = t) as -> by congruence. by apply Hin.
    + unfold HasDelegationHashes in Hrun. rewrite !bind_assoc in Hrun.
      apply bind_Ok in Hrun as (s & Hs%deref_Ok & Hrun). cbn [mbind res_bind] in Hrun.
      destruct (forallb _ _) eqn:Ef; [discriminate|]. injection Hrun as -> <-.
      split; [|done].
      apply forallb_false in Ef as (d & Hd & Hm).
      apply (Unused _ _ _ t s d); [done| |congruence| |].
      * intros E. rewrite E in Hroles. cbn in Hroles. lia.
      * done.
      * by destruct (snapshot_Meta s !! d).
    + discriminate.
  - destruct (Nat.ltb_spec (length (Delegations args)) 1) as [Hd|Hd]; [|discriminate].
    injection Hrun as <- <-. split; [|done].
    apply (Plain _ _ _ t); [done| | |done]; apply nil_length_inv; lia.
Qed.

Lemma digests_Ok r image targets (ds : gset string) :
  foldM_res (fun digests target =>
    d ← find_digest r image target; Ok ({[d]} ∪ digests : gset string)) ∅ targets = Ok ds ->
  forall target, target ∈ targets -> exists d, d ∈ ds /\ find_digest r image target = Ok d.
Proof.
  apply (foldM_res_inv (fun l (ds : gset string) =>
    forall target, target ∈ l -> exists d, d ∈ ds /\ find_digest r image target = Ok d)).
  - intros t Ht. by apply elem_of_nil in Ht.
  - intros l t acc acc' IH _ (d & Hd & [= <-])%bind_Ok t' [Ht'|Ht']%elem_of_app.
    + destruct (IH t' Ht') as (d' & ? & ?). exists d'. split; [set_solver|done].
    + apply list_elem_of_singleton in Ht' as ->. exists d. split; [set_solver|done].
Qed.

(** A validator with trust roots validates against at least one key. *)
Lemma trustRootKeys_not_nil nv keyRef keys :
  nv_TrustRoots nv <> [] -> trustRootKeys nv keyRef = Ok keys -> keys <> [].
Proof.
  intros Hne. unfold trustRootKeys. intros (trs & Ht%map_err_Ok & Hk)%bind_Ok.
  apply mapM_res_length in Hk. apply GetTrustRoots_not_nil in Ht; [|done]. by destruct keys, trs.
Qed.

(** C14: when notary validation returns a digest, the four base documents were
    downloaded and parsed, the root is signed by every key of the referenced trust
    roots (of which there is one at least, if the validator has any), targets,
    snapshot and timestamp are signed as the root demands, none has expired and the
    bytes have the listed hashes; the documents the digest is taken from are the
    trusted delegations the rule asks for, or the targets document in the two cases
    of [chosen]; and every one of them lists that digest for the image. *)
Theorem ValidateImage_trusted (done1 done2 : nat -> bool) (nv : NotaryV1Validator)
    (image : Image) (args : RuleOptions) (d : string) :
  ValidateImage done1 done2 nv image args = Ok d ->
  exists nc repo repo' keys targets,
    newNotaryClient (Host nv) (nv_Cert nv) (nv_Auth nv) image = Ok nc /\
    (forall role, role ∈ BaseRoles -> stored nc repo role) /\
    trustRootKeys nv (Policy.TrustRoot args) = Ok keys /\
    (nv_TrustRoots nv <> [] -> keys <> []) /\
    base_trusted repo keys /\
    chosen repo repo' args targets /\ targets <> [] /\
    Targets repo' !! CanonicalTargetsRole = Targets repo !! CanonicalTargetsRole /\
    forall target, target ∈ targets ->
      exists doc, Targets repo' !! target = Some doc /\ lists_digest doc image d.
Proof.
  unfold ValidateImage. intros (nc & Hnc%map_err_Ok & Hrun)%bind_Ok.
  apply bind_Ok in Hrun as (repo & Hd%map_err_Ok & Hrun).
  apply bind_Ok in Hrun as (keys & Hk%map_err_Ok & Hrun).
  apply bind_Ok in Hrun as ([] & Hv%map_err_Ok & Hrun).
  apply bind_Ok in Hrun as ([repo' targets] & Hc & Hrun).
  apply bind_Ok in Hrun as (ds & Hds & Hrun).
  apply choose_targets_chosen in Hc as (Hch & Hne & _ & _ & _ & Htg).
  destruct (Nat.eqb_spec (size ds) 1) as [Hone|]; [|done]. cbn [negb] in Hrun.
  apply index_Ok, list_elem_of_lookup_2, elem_of_range in Hrun.
  exists nc, repo, repo', keys, targets. repeat (split; [done|]).
  split; [by eapply DownloadBaseTrustData_stored|]. split; [done|].
  split; [intros; by eapply trustRootKeys_not_nil|].
  split; [by apply ValidateBaseTrustData_trusted|]. repeat (split; [done|]).
  intros t Ht. destruct (digests_Ok _ _ _ _ Hds t Ht) as (d' & Hin & Hf).
  apply find_digest_Ok. rewrite Hf. f_equal. apply size_1_elem_of in Hone as [x Hx]. set_solver.
Qed.

(** * Delegations without a document *)
Lemma contains_app a s sub : contains s sub = true -> contains (a +:+ s) sub = true.
Proof.
  intros Hs. induction a as [|c a IH]; [done|]. rewrite app_cons. cbn [contains].
  rewrite IH. by rewrite orb_true_r.
Qed.

Definition unavailable : string := "error acquiring trust data".

(** The documents of the delegations can be fetched and parsed, or the server has
    answered with a status other than OK. *)
Definition answered (nc : NotaryClient) (delegation : string) : Prop :=
  exists td, FetchTrustData nc delegation = Ok td /\
    match td_Err td with
    | Some err => contains err unavailable = true
    | None => exists x t, Data td = Some x /\ TargetsFromSigned x delegation = Ok t
    end.

Lemma receive_unavailable nc l : forall i r,
  (forall td, td ∈ l -> FetchTrustData nc (Role td) = Ok td /\ answered nc (Role td)) ->
  (exists td err, td ∈ l /\ td_Err td = Some err) ->
  exists r' err, receive_delegations (fun _ => false) i r l = (r', Err err) /\
    contains err unavailable = true.
Proof.
  induction l as [|td l IH]; intros i r Hall (td0 & err0 & Hin & Herr).
  { by apply elem_of_nil in Hin. }
  destruct (Hall td) as [Hf (td' & Hf' & Hans)]; [by left|].
  assert (td' = td) as -> by congruence. cbn [receive_delegations].
  destruct (td_Err td) as [err|] eqn:Et.
  - eexists _, _. split; [reflexivity|]. cbn [sprintf show_arg].
    rewrite app_empty_r. repeat (apply (contains_app (String _ "")) || apply contains_app). exact Hans.
  - destruct Hans as (x & t & -> & Hp). cbn [deref mbind res_bind]. rewrite Hp.
    apply IH; [intros; apply Hall; by right|].
    apply elem_of_cons in Hin as [->|Hin]; [congruence|by exists td0, err0].
Qed.

Lemma fetch_all nc roles :
  (forall role, role ∈ roles -> answered nc role) -> exists tds, mapM_res (FetchTrustData nc) roles = Ok tds.
Proof.
  induction roles as [|role roles IH]; intros Hall; cbn; [by eexists|].
  destruct (Hall role) as (td & -> & _); [by left|]. cbn [mbind res_bind].
  destruct IH as [tds ->]; [intros; apply Hall; by right|]. by eexists.
Qed.

Lemma delegations_unavailable nc r delegations t d :
  Targets r !! CanonicalTargetsRole = Some t ->
  (forall w, w ∈ delegations -> w ∈ targets_Roles t /\ answered nc w) -> d ∈ delegations ->
  (exists td err, FetchTrustData nc d = Ok td /\ td_Err td = Some err) ->
  exists r' err, DownloadAndValidateDelegations (fun _ => false) nc r delegations = (r', Err err) /\
    contains err unavailable = true.
Proof.
  intros Ht Hall Hd (td & err & Hf & Herr). unfold DownloadAndValidateDelegations.
  rewrite Ht. cbn [deref]. destruct (List.find _ _) as [x|] eqn:Ef.
  { apply find_some in Ef as [Hx Hb]. apply list_elem_of_In, Hall in Hx as [Hx _].
    by rewrite bool_decide_eq_true_2 in Hb. }
  destruct (fetch_all nc delegations) as [tds Hm]; [intros; by apply Hall|]. rewrite Hm.
  destruct (receive_unavailable nc (arrival tds) 0 r) as (r' & e & Hr & He).
  - intros td' Hin. destruct (fetched _ _ _ _ Hm Hin) as [Hrole Hf']. split; [done|]. by apply Hall.
  - destruct (fetched_all _ _ _ _ Hm Hd) as (td' & Hin & Hf'). exists td', err.
    split; [done|]. congruence.
  - rewrite Hr. by exists r', e.
Qed.

(** C15: one wanted delegation that is not in the snapshot and for which the server
    has no document is enough to drop all of them: although the rule names the
    delegations, the digest is then taken from the targets document, and what the
    other delegations sign does not matter. *)
Theorem missing_delegation_falls_back (nv : NotaryV1Validator) (nc : NotaryClient) (r : Repo)
    (args : RuleOptions) (t : SignedTargets) (s : SignedSnapshot) (d : string) :
  Targets r !! CanonicalTargetsRole = Some t -> Snapshot r = Some s ->
  (forall w, w ∈ wanted_delegations args -> w ∈ targets_Roles t /\ answered nc w) ->
  d ∈ wanted_delegations args -> snapshot_Meta s !! d = None ->
  (exists td err, FetchTrustData nc d = Ok td /\ td_Err td = Some err) ->
  exists r', choose_targets (fun _ => false) nv nc r args = Ok (r', [CanonicalTargetsRole]).
Proof.
  intros Ht Hs Hall Hd Hmeta Hf.
  destruct (delegations_unavailable nc r _ t d Ht Hall Hd Hf) as (r' & err & Hdv & Hc).
  destruct (DownloadAndValidateDelegations_frame _ _ _ _ _ _ Hdv (wanted_not_targets args))
    as (_ & HS & _ & _).
  exists r'. unfold choose_targets, HasDelegations. rewrite Ht. cbn [deref mbind res_bind].
  assert (Hroles : 0 <? length (targets_Roles t) = true).
  { destruct (Hall d Hd) as [Hin _]. destruct (targets_Roles t); [by apply elem_of_nil in Hin|done]. }
  rewrite Hroles. cbn [negb]. rewrite andb_false_r. cbv zeta. fold (wanted_delegations args).
  rewrite Hdv. fold unavailable. rewrite Hc. unfold HasDelegationHashes. rewrite HS, Hs.
  cbn [deref mbind res_bind]. destruct (forallb _ _) eqn:Ef; [|done].
  rewrite forallb_forall in Ef. apply list_elem_of_In, Ef in Hd. by rewrite Hmeta in Hd.
Qed.
End Sound.

(** * Concrete runs

    Bytes, documents and keys are strings.  The targets document has the delegations
    alice and bob; the snapshot lists alice only, and the server has no document for
    bob. *)
Definition demo_tuf : TufLib := {|
  Signed := string; Decoded := string; SignedRoot := string; SignedTargets := string; SignedSnapshot := string;
  SignedTimestamp := string; PublicKey := string; Signature := string; BaseRole := string;
  Hashes := string;
  unmarshal_Signed s := Ok s; RootFromSigned s := Ok s; TargetsFromSigned s _ := Ok s;
  SnapshotFromSigned s := Ok s; TimestampFromSigned s := Ok s;
  root_ToSigned s := Ok s; targets_ToSigned s := Ok s; snapshot_ToSigned s := Ok s;
  timestamp_ToSigned s := Ok s; decode_Signed s := Ok s; MarshalCanonical s := Ok s;
  root_Signatures _ := ["K"];
  VerifySignature _ sig key := if decide (sig = key) then Ok true else Err "invalid signature";
  key_ID k := k;
  BuildBaseRole _ role := Ok role; BuildDelegationRole _ role := Ok role;
  VerifySignatures doc role := bool_decide (doc = role);
  root_VerifyExpiry _ := true; targets_VerifyExpiry _ _ := true; snapshot_VerifyExpiry _ := true;
  timestamp_VerifyExpiry _ := true;
  targets_Roles doc := if decide (doc = "targets") then ["targets/alice"; "targets/bob"] else [];
  targets_Files doc := {["1" := if decide (doc = "targets") then "aaaa" else "bbbb"]};
  snapshot_Meta _ := {["targets/alice" := "h"]}; timestamp_Meta _ := ∅; zero_Hashes := "h";
  CheckHashes _ _ h := if decide (h = "h") then Ok () else Err "bad hash" |}.
Definition demo_http : NotaryHttp := {|
  http_NewRequest _ := Ok (); append_certs _ := true; ping _ _ := Ok 200; add_challenge _ := Ok ();
  http_get _ url :=
    let role := trim_suffix (trim_prefix url "https://notary.io/v2/reg.io/app/_trust/tuf/") ".json" in
    if decide (role = "targets/bob") then Ok (404, "404 Not Found", Ok "") else Ok (200, "200 OK", Ok role) |}.
Definition demo_keys : KeyLib (H := demo_tuf) := {|
  pem_Decode k := Some (k, ""); ParsePKIXPublicKey _ := Ok "*rsa.PublicKey";
  NewPublicKey _ k := k : @PublicKey demo_tuf; ParseRequestURI _ := Ok () |}.
Definition demo_nv : NotaryV1Validator := {|
  nv_Name := "notary"; nv_Type := "notaryv1"; Host := "https://notary.io"; nv_Cert := "";
  nv_Auth := {| AuthConfigs := None; UseKeychain := false |}; nv_TrustRoots := [demo_root "default" "K"] |}.
Definition signers (l : list string) : RuleOptions := {|
  Policy.TrustRoot := ""; VerifyTLog := None; VerifySCT := None; Threshold := 0%Z; Required := [];
  Delegations := l; ValidationMode := ""; VerificationLevel := ""; VerifyTimestamp := "" |}.
Definition never (_ : nat) : bool := false.
Definition demo_run (l : list string) : res string :=
  ValidateImage (H0 := demo_keys) (H1 := demo_http) (H2 := demo_lib) (H4 := in_order) never never
    demo_nv demo_image (signers l).

Example demo_alice : demo_run ["alice"] = Ok "sha256:bbbb".
Proof. vm_compute. reflexivity. Qed.
(** Demanding a second signer, who has not signed, changes the digest to the one the
    targets key has signed. *)
Example demo_alice_bob : demo_run ["alice"; "bob"] = Ok "sha256:aaaa".
Proof. vm_compute. reflexivity. Qed.

Lemma ValidateImage_trusted_witness :
  demo_run ["alice"] = Ok "sha256:bbbb" /\
  exists repo repo' : Repo (H := demo_tuf), exists targets,
    base_trusted (H := demo_tuf) repo ["K"] /\ chosen repo repo' (signers ["alice"]) targets /\
    forall target, target ∈ targets ->
      exists doc, Targets repo' !! target = Some doc /\ lists_digest doc demo_image "sha256:bbbb".
Proof.
  assert (Hrun : demo_run ["alice"] = Ok "sha256:bbbb") by (vm_compute; reflexivity).
  split; [exact Hrun|]. unfold demo_run in Hrun.
  destruct (ValidateImage_trusted (H := demo_tuf) (H0 := demo_keys) (H1 := demo_http) (H2 := demo_lib) (H4 := in_order)
    never never demo_nv demo_image (signers ["alice"]) "sha256:bbbb" Hrun)
    as (nc & repo & repo' & keys & targets & _ & _ & Hk & _ & Hb & Hc & _ & _ & Hall).
  vm_compute in Hk. injection Hk as <-. exists repo, repo', targets. auto.
Defined.

Definition demo_nc : NotaryClient := {|
  nc_client := {| tp_RootCAs := None; tp_Authorizer := None |}; nc_host := "https://notary.io"; nc_repo := "reg.io/app" |}.
Definition demo_repo : Repo (H := demo_tuf) := {|
  Root := Some "root" : option (@SignedRoot demo_tuf);
  Targets := {["targets" := "targets" : @SignedTargets demo_tuf]};
  Snapshot := Some "snapshot" : option (@SignedSnapshot demo_tuf);
  Timestamp := Some "timestamp" : option (@SignedTimestamp demo_tuf);
  notCheckedChecksums := ∅ |}.

Lemma missing_delegation_falls_back_witness :
  wanted_delegations (signers ["alice"; "bob"]) = ["targets/alice"; "targets/bob"] /\
  exists r', choose_targets (H := demo_tuf) (H1 := demo_http) (H4 := in_order) never demo_nv demo_nc
    demo_repo (signers ["alice"; "bob"]) = Ok (r', ["targets"]).
Proof.
  split; [vm_compute; reflexivity|].
  apply (missing_delegation_falls_back (H := demo_tuf) (H1 := demo_http) (H4 := in_order) demo_nv demo_nc
    demo_repo (signers ["alice"; "bob"]) "targets" "snapshot" "targets/bob").
  - vm_compute. reflexivity.
  - reflexivity.
  - intros w Hw. change (wanted_delegations _) with ["targets/alice"; "targets/bob"] in Hw.
    assert (w = "targets/alice" \/ w = "targets/bob") as [-> | ->] by set_solver.
    + split; [left|]. eexists. split; [vm_compute; reflexivity|]. cbn. eauto.
    + split; [right; left|]. eexists. split; [vm_compute; reflexivity|]. vm_compute. reflexivity.
  - right. left.
  - vm_compute. reflexivity.
  - do 2 eexists. split; [vm_compute; reflexivity|]. reflexivity.
Defined.

Definition in_reverse : ArrivalOrder := {| arrival A l := rev l; arrival_perm A l := symmetry (Permutation_rev l) |}.
Definition demo_download (arrival : ArrivalOrder) : res (Repo (H := demo_tuf)) :=
  DownloadBaseTrustData (H := demo_tuf) (H0 := demo_http) (H3 := arrival) never demo_nc.
Definition demo_downloaded : Repo (H := demo_tuf) :=
  match demo_download in_order with Ok r => r | _ => demo_repo end.
Lemma demo_download_Ok : demo_download in_order = Ok demo_downloaded.
Proof.
  assert (Hok : is_ok (demo_download in_order) = true) by (vm_compute; reflexivity).
  unfold demo_downloaded. by destruct (demo_download in_order).
Qed.
Lemma DownloadBaseTrustData_order_witness :
  demo_download in_order = Ok demo_downloaded /\ demo_download in_reverse = Ok demo_downloaded.
Proof.
  split; [exact demo_download_Ok|].
  apply (DownloadBaseTrustData_order (H := demo_tuf) (H0 := demo_http) in_order in_reverse never demo_nc).
  - reflexivity.
  - exact demo_download_Ok.
Defined.
