(* ===== verification/Notation.v ===== *)
(** [internal/validator/notation]: the trust store held in memory ([trust_store.go])
    and the validation of notation signatures ([notation_validator.go]). *)
From S2P Require Import Prelude GoStrings Utils Policy Image Auth Validator.
From Stdlib Require Import Ascii.

(** * The libraries

    Certificates and pools are opaque. *)
Inductive StoreType : Type := TypeCA | TypeTSA.
#[export] Instance StoreType_eq_dec : EqDecision StoreType.
Proof. solve_decision. Defined.
#[export] Instance StoreType_countable : Countable StoreType.
Proof.
  refine (inj_countable' (fun t => match t with TypeCA => true | TypeTSA => false end)
    (fun b : bool => if b then TypeCA else TypeTSA) _). by intros [].
Defined.
Definition show_type (t : StoreType) : string := match t with TypeCA => "ca" | TypeTSA => "tsa" end.

(** [trustpolicy.Document] with its one policy. *)
Record Document : Type := {
  Version : string; policy_Name : string; RegistryScopes : list string; VerificationLevel : string;
  VerifyTimestamp : string; TrustStores : list string; TrustedIdentities : list string }.

(** The credential callback of the client, a closure over the registry of the image
    and the credentials found for it. *)
Record credential : Type := { cred_registry : string; cred_auth : AuthEntry }.
Definition Credential (c : credential) (registry : string) : AuthEntry :=
  if decide (registry = cred_registry c) then cred_auth c else no_credentials.

(** [notation.VerifyOptions]. *)
Record VerifyOptions : Type := { ArtifactReference : string; MaxSignatureAttempts : nat }.

Class NotationLib := {
  certificate : Type;
  ca_pool : Type;
  pem_block : string -> option string;
  ParseCertificate : string -> res certificate;
  AppendCertsFromPEM : string -> option ca_pool;
  (** [verifier.New] on the policy: whether it is valid *)
  verifier_New : Document -> res unit;
  remote_NewRepository : string -> res unit;
}.

Section Notation_.
Context `{NotationLib} `{MapOrder}.

(** * trust_store.go *)
Definition TrustStoreKey : Type := string * StoreType.
Record InMemoryTrustStore : Type := {
  trustRoots : list TrustRoot;
  certs : gmap TrustStoreKey (list certificate);
}.

Definition parseCertificate (cert : string) : res certificate :=
  block ← of_opt "failed to decode certificate" (pem_block cert);
  map_err (fun err => sprintf "failed to parse certificate: %s" [AStr err]) (ParseCertificate block).

(** The body of the loop over the trust roots. *)
Definition store_root (certs : gmap TrustStoreKey (list certificate)) (trustRoot : TrustRoot)
  : res (gmap TrustStoreKey (list certificate)) :=
  if decide (tr_Cert trustRoot = "")
  then Err (sprintf "no certificate provided for trust root %s" [AStr (tr_Name trustRoot)])
  else
    cert ← map_err (fun err => sprintf "failed to parse certificate for trust root %s: %s"
                      [AStr (tr_Name trustRoot); AStr err]) (parseCertificate (tr_Cert trustRoot));
    let certs := <[(tr_Name trustRoot, TypeCA) := [cert]]> certs in
    if decide (tr_TSCert trustRoot <> "") then
      tsCert ← map_err (fun err => sprintf "failed to parse timestamp certificate for trust root %s: %s"
                          [AStr (tr_Name trustRoot); AStr err]) (parseCertificate (tr_TSCert trustRoot));
      Ok (<[(tr_Name trustRoot, TypeTSA) := [tsCert]]> certs)
    else Ok certs.
Definition NewInMemoryTrustStore (trustRoots : list TrustRoot) : res InMemoryTrustStore :=
  certs ← foldM_res store_root ∅ trustRoots;
  Ok {| trustRoots := trustRoots; certs := certs |}.

(** The loop over the map finds the one entry with both parts of the key. *)
Definition GetCertificates (imts : InMemoryTrustStore) (type_ : StoreType) (namedStore : string)
  : res (list certificate) :=
  of_opt (sprintf "no certificates found for trustRoot %s" [AStr namedStore])
    (certs imts !! (namedStore, type_)).

(** * notation_validator.go *)
Record NotationValidator : Type := {
  ov_Name : string;
  ov_Type : string;
  ov_Auth : Auth;
  RootCA : option ca_pool;
  TrustStore : InMemoryTrustStore;
}.
Record NotationValidatorYaml : Type := {
  oy_Name : string; oy_Type : string; oy_Auth : Auth; oy_Cert : string; oy_TrustRoots : list TrustRoot }.

Definition UnmarshalYAML (valData : res NotationValidatorYaml) : res NotationValidator :=
  valData ← valData;
  if length (oy_TrustRoots valData) <? 1
  then Err (sprintf "no trust roots provided for validator %s" [AStr (oy_Name valData)])
  else
    imts ← map_err (fun err => sprintf "failed to create trust store: %s" [AStr err])
             (NewInMemoryTrustStore (oy_TrustRoots valData));
    rootCA ← (if decide (oy_Cert valData <> "") then
                c ← of_opt "failed to parse certificate" (AppendCertsFromPEM (oy_Cert valData)); Ok (Some c)
              else Ok None);
    Ok {| ov_Name := oy_Name valData; ov_Type := oy_Type valData; ov_Auth := oy_Auth valData;
          RootCA := rootCA; TrustStore := imts |}.

Definition root_stores (tr : TrustRoot) : list string :=
  [sprintf "%s:%s" [AStr (show_type TypeCA); AStr (tr_Name tr)]] ++
  (if decide (tr_TSCert tr <> "") then [sprintf "%s:%s" [AStr (show_type TypeTSA); AStr (tr_Name tr)]]
   else []).

Definition setUpTrustPolicy (nv : NotationValidator) (image : Image) (args : RuleOptions) : res Document :=
  trs ← map_err (fun err => sprintf "failed to get trust roots: %s" [AStr err])
          (GetTrustRoots [Policy.TrustRoot args] (trustRoots (TrustStore nv)) true);
  let tss := foldl (fun tss tr => tss ++ root_stores tr) [] trs in
  Ok {| Version := "1.0"; policy_Name := "default"; RegistryScopes := [ctx_string (ref image)];
        VerificationLevel := StringDefault (Policy.VerificationLevel args) "strict";
        VerifyTimestamp := StringDefault (Policy.VerifyTimestamp args) "always";
        TrustStores := tss; TrustedIdentities := ["*"] |}.

(** The registry client: [orasAuth.DefaultClient] is one object for the whole process,
    and every validation writes to its fields. *)
Record Client : Type := { client_RootCAs : option ca_pool; client_Credential : option credential }.
Definition DefaultClient : Client := {| client_RootCAs := None; client_Credential := None |}.

(** Resolving a name, and [notation.Verify] on the client, the policy, the certificates
    of a trust store and the artifact reference. *)
Variable Resolve : Client -> string -> string -> res string.
Variable Verify : Client -> Document -> (StoreType -> string -> res (list certificate)) ->
  string -> VerifyOptions -> res string.

(** The writes to the client. *)
Definition setUpClient (client : Client) (nv : NotationValidator) (image : Image) : Client :=
  let client := match RootCA nv with
                | Some c => {| client_RootCAs := Some c; client_Credential := client_Credential client |}
                | None => client
                end in
  let authn := LookUp (ov_Auth nv) (ctx_name (ref image)) in
  if decide (Username authn <> "" /\ Password authn <> "")
  then {| client_RootCAs := client_RootCAs client;
          client_Credential := Some {| cred_registry := ctx_registry (ref image); cred_auth := authn |} |}
  else client.

Definition verifyOptions (repo digest : string) : VerifyOptions := {|
  ArtifactReference := sprintf "%s@%s" [AStr repo; AStr digest]; MaxSignatureAttempts := 10 |}.

(** [ValidateImage]: the client and the image it leaves, and the result. *)
Definition ValidateImage (client : Client) (nv : NotationValidator) (image : Image) (args : RuleOptions)
  : Client * Image * res string :=
  let setup :=
    trustPolicy ← map_err (fun err => sprintf "failed to set up trust policy: %s" [AStr err])
                    (setUpTrustPolicy nv image args);
    _ ← map_err (fun err => sprintf "failed to create verifier: %s" [AStr err]) (verifier_New trustPolicy);
    _ ← map_err (fun err => sprintf "failed to create remote repository: %s" [AStr err])
          (remote_NewRepository (ctx_string (ref image)));
    Ok trustPolicy in
  match setup with
  | Err e => (client, image, Err e)
  | Panic w => (client, image, Panic w)
  | Ok trustPolicy =>
      let client := setUpClient client nv image in
      let repo := ctx_string (ref image) in
      let resolved :=
        if decide (Digest image = "") then
          d ← map_err (fun err => sprintf "failed to resolve image tag: %s" [AStr err])
                (Resolve client repo (Name image));
          Ok (SetDigest image d)
        else Ok image in
      match resolved with
      | Err e => (client, image, Err e)
      | Panic w => (client, image, Panic w)
      | Ok image =>
          (client, image,
           map_err (fun err => sprintf "failed to verify image: %s" [AStr err])
             (Verify client trustPolicy (GetCertificates (TrustStore nv)) repo
                (verifyOptions repo (Digest image))))
      end
  end.

Definition notation_validate (client : Client) (nv : NotationValidator) : Validate :=
  {| validate img args := let '(_, img, r) := ValidateImage client nv img args in (img, r) |}.
Lemma notation_original client nv image args :
  original (fst (validate (notation_validate client nv) image args)) = original image.
Proof.
  cbn. unfold ValidateImage. destruct (_ ≫= _) as [doc| |]; [|done..]. case_decide; [|done].
  by destruct (map_err _ _) as [d| |].
Qed.
End Notation_.

(** * Trust stores *)
Section Stores.
Context `{NotationLib} `{MapOrder}.

(** What the store holds for a trust root. *)
Definition holds (m : gmap TrustStoreKey (list certificate)) (tr : TrustRoot) : Prop :=
  (exists cert, parseCertificate (tr_Cert tr) = Ok cert /\ m !! (tr_Name tr, TypeCA) = Some [cert]) /\
  if decide (tr_TSCert tr = "") then m !! (tr_Name tr, TypeTSA) = None
  else exists cert, parseCertificate (tr_TSCert tr) = Ok cert /\ m !! (tr_Name tr, TypeTSA) = Some [cert].

Lemma store_root_holds m tr m' :
  store_root m tr = Ok m' -> m !! (tr_Name tr, TypeTSA) = None ->
  holds m' tr /\ forall name t, name <> tr_Name tr -> m' !! (name, t) = m !! (name, t).
Proof.
  unfold store_root, holds. intros Hs Hnone. destruct (decide _) as [|Hc] in Hs; [discriminate|].
  apply bind_Ok in Hs as (cert & Hcert%map_err_Ok & Hs).
  destruct (decide (tr_TSCert tr = "")) as [Ht|Ht]; destruct (decide (tr_TSCert tr <> "")) in Hs;
    try done; [injection Hs as <-|apply bind_Ok in Hs as (ts & Hts%map_err_Ok & [= <-])].
  - split; [|intros; by rewrite lookup_insert_ne by congruence].
    split; [exists cert; by rewrite lookup_insert_eq|]. by rewrite lookup_insert_ne by congruence.
  - split; [|intros; by rewrite !lookup_insert_ne by congruence].
    split; [exists cert; by rewrite lookup_insert_ne, lookup_insert_eq by congruence|].
    exists ts. by rewrite lookup_insert_eq.
Qed.

Lemma store_holds trs imts :
  NewInMemoryTrustStore trs = Ok imts -> NoDup (tr_Name <$> trs) ->
  forall tr, tr ∈ trs -> holds (certs imts) tr.
Proof.
  unfold NewInMemoryTrustStore. intros (m & Hm & [= <-])%bind_Ok. cbn [certs]. revert Hm.
  intros Hm Hnd. enough (Hinv : NoDup (tr_Name <$> trs) -> (forall tr, tr ∈ trs -> holds m tr) /\
    forall name t, name ∉ tr_Name <$> trs -> m !! (name, t) = None) by (by apply Hinv).
  clear Hnd. revert Hm. apply (foldM_res_inv (fun l m => NoDup (tr_Name <$> l) ->
    (forall tr, tr ∈ l -> holds m tr) /\ forall name t, name ∉ tr_Name <$> l -> m !! (name, t) = None)).
  - intros _. split; [intros tr Htr; by apply elem_of_nil in Htr|done].
  - intros l tr acc acc' IH _ Hstep. rewrite fmap_app. intros (Hnd & Hdis & _)%NoDup_app.
    destruct (IH Hnd) as [Hh Hn].
    assert (Htr : tr_Name tr ∉ tr_Name <$> l) by (intros Hx; apply (Hdis _ Hx); by left).
    destruct (store_root_holds _ _ _ Hstep) as [Hnew Hold]; [by apply Hn|]. split.
    + intros tr' [Hin| ->%list_elem_of_singleton]%elem_of_app; [|done].
      assert (Hne : tr_Name tr' <> tr_Name tr).
      { intros E. apply Htr. rewrite <- E. by apply list_elem_of_fmap_2. }
      unfold holds. rewrite !Hold by done. by apply Hh.
    + intros name t Hx. apply not_elem_of_app in Hx as [Hx Hy].
      rewrite Hold; [by apply Hn|]. intros ->. apply Hy. by left.
Qed.

Lemma root_stores_foldl trs acc :
  foldl (fun tss tr => tss ++ root_stores tr) acc trs = acc ++ concat (root_stores <$> trs).
Proof.
  revert acc. induction trs as [|tr trs IH]; intros acc; cbn; [by rewrite app_nil_r|].
  by rewrite IH, <- app_assoc.
Qed.

Lemma UnmarshalYAML_store y nv :
  UnmarshalYAML (Ok y) = Ok nv -> NewInMemoryTrustStore (oy_TrustRoots y) = Ok (TrustStore nv).
Proof.
  unfold UnmarshalYAML. cbn [mbind res_bind]. destruct (_ <? 1); [discriminate|].
  intros (imts & Hs%map_err_Ok & Hrun)%bind_Ok. apply bind_Ok in Hrun as (ca & _ & [= <-]). done.
Qed.
Lemma NewInMemoryTrustStore_roots trs imts : NewInMemoryTrustStore trs = Ok imts -> trustRoots imts = trs.
Proof. unfold NewInMemoryTrustStore. by intros (m & _ & [= <-])%bind_Ok. Qed.

(** C19: for a configured validator whose trust roots have different names, the trust
    stores of the policy are those of the referenced trust roots of the validator,
    in order; each resolves to exactly the one certificate of its trust root, and
    there is a timestamping store exactly for a root with a timestamping
    certificate. *)
Theorem trust_policy_certificates (y : NotationValidatorYaml) (nv : NotationValidator) (image : Image)
    (args : RuleOptions) (doc : Document) :
  UnmarshalYAML (Ok y) = Ok nv -> NoDup (tr_Name <$> oy_TrustRoots y) ->
  setUpTrustPolicy nv image args = Ok doc ->
  exists trs, GetTrustRoots [Policy.TrustRoot args] (oy_TrustRoots y) true = Ok trs /\
    RegistryScopes doc = [ctx_string (ref image)] /\
    TrustStores doc = concat (root_stores <$> trs) /\
    forall tr, tr ∈ trs -> tr ∈ oy_TrustRoots y /\
      (exists cert, parseCertificate (tr_Cert tr) = Ok cert /\
         GetCertificates (TrustStore nv) TypeCA (tr_Name tr) = Ok [cert]) /\
      if decide (tr_TSCert tr = "")
      then is_ok (GetCertificates (TrustStore nv) TypeTSA (tr_Name tr)) = false
      else exists cert, parseCertificate (tr_TSCert tr) = Ok cert /\
        GetCertificates (TrustStore nv) TypeTSA (tr_Name tr) = Ok [cert].
Proof.
  intros Hy%UnmarshalYAML_store Hnd. pose proof (NewInMemoryTrustStore_roots _ _ Hy) as Hr.
  unfold setUpTrustPolicy. rewrite Hr. intros (trs & Ht%map_err_Ok & [= <-])%bind_Ok.
  exists trs. cbn [RegistryScopes TrustStores]. rewrite root_stores_foldl. repeat (split; [done|]).
  intros tr Htr. pose proof (GetTrustRoots_elem _ _ _ _ Ht tr Htr) as Hin. split; [done|].
  destruct (store_holds _ _ Hy Hnd tr Hin) as [(cert & Hc & Hl) Hts]. unfold GetCertificates.
  split; [exists cert; by rewrite Hl|].
  destruct (decide (tr_TSCert tr = "")); [by rewrite Hts|].
  destruct Hts as (ts & Hp & Hl'). exists ts. by rewrite Hl'.
Qed.
End Stores.

(** * Runs *)
Section Runs.
Context `{NotationLib} `{MapOrder}.
Variable Resolve : Client -> string -> string -> res string.
Variable Verify : Client -> Document -> (StoreType -> string -> res (list certificate)) ->
  string -> VerifyOptions -> res string.

(** What a successful validation has done. *)
Lemma accepted_run client nv image args client' image' d :
  ValidateImage Resolve Verify client nv image args = (client', image', Ok d) ->
  exists doc, setUpTrustPolicy nv image args = Ok doc /\ client' = setUpClient client nv image /\
    (if decide (Digest image = "")
     then exists r, Resolve client' (ctx_string (ref image)) (Name image) = Ok r /\ image' = SetDigest image r
     else image' = image) /\
    Verify client' doc (GetCertificates (TrustStore nv)) (ctx_string (ref image))
      (verifyOptions (ctx_string (ref image)) (Digest image')) = Ok d.
Proof.
  unfold ValidateImage. cbv zeta. destruct (_ ≫= _) as [doc| |] eqn:Es; [|discriminate..].
  apply bind_Ok in Es as (doc' & Hdoc%map_err_Ok & Es).
  apply bind_Ok in Es as (u & _ & Es). apply bind_Ok in Es as (u' & _ & [= ->]).
  destruct (decide (Digest image = "")) as [Hd|Hd]; cbn [mbind res_bind].
  - destruct (map_err _ (Resolve _ _ _)) as [r| |] eqn:Er; cbn [mbind res_bind]; [|discriminate..].
    apply map_err_Ok in Er. intros [= <- <- Hv%map_err_Ok]. exists doc. repeat (split; [done|]).
    split; [by exists r|done].
  - intros [= <- <- Hv%map_err_Ok]. by exists doc.
Qed.

(** A validation that succeeds changes at most the digest of the image. *)
Lemma accepted_image client nv image args client' image' d :
  ValidateImage Resolve Verify client nv image args = (client', image', Ok d) ->
  image' = SetDigest image (Digest image') \/ image' = image.
Proof.
  intros (doc & _ & _ & Hi & _)%accepted_run. destruct (decide _); [|by right].
  destruct Hi as (r & _ & ->). left. unfold SetDigest, Digest. cbn [digest]. f_equal.
  repeat case_decide; try done; destruct (has_prefix r _) eqn:E; rewrite ?E; done.
Qed.

(** C18: the registry client is shared by all validations of the process: after a
    validation by a validator with a root certificate and credentials for the image,
    a validator that has neither verifies an image of the same registry with the
    certificate and the credentials of the first. *)
Theorem client_remembers (c c1 c2 : Client) (nv1 nv2 : NotationValidator) (img1 img1' img2 img2' : Image)
    (args1 args2 : RuleOptions) (d1 d2 : string) (ca : ca_pool) (entry : AuthEntry) :
  ValidateImage Resolve Verify c nv1 img1 args1 = (c1, img1', Ok d1) ->
  RootCA nv1 = Some ca -> LookUp (ov_Auth nv1) (ctx_name (ref img1)) = entry ->
  Username entry <> "" -> Password entry <> "" ->
  ValidateImage Resolve Verify c1 nv2 img2 args2 = (c2, img2', Ok d2) ->
  RootCA nv2 = None -> LookUp (ov_Auth nv2) (ctx_name (ref img2)) = no_credentials ->
  ctx_registry (ref img2) = ctx_registry (ref img1) ->
  client_RootCAs c2 = Some ca /\
  (exists cred, client_Credential c2 = Some cred /\ Credential cred (ctx_registry (ref img2)) = entry) /\
  exists doc, Verify c2 doc (GetCertificates (TrustStore nv2)) (ctx_string (ref img2))
    (verifyOptions (ctx_string (ref img2)) (Digest img2')) = Ok d2.
Proof.
  intros (doc1 & _ & -> & _)%accepted_run Hca1 He Hu Hp (doc2 & _ & -> & _ & Hv)%accepted_run Hca2 He2 Hreg.
  assert (Hc : setUpClient (setUpClient c nv1 img1) nv2 img2 =
    {| client_RootCAs := Some ca;
       client_Credential := Some {| cred_registry := ctx_registry (ref img1); cred_auth := entry |} |}).
  { unfold setUpClient. rewrite Hca2, He2, Hca1, He. rewrite decide_False by naive_solver.
    by rewrite decide_True by done. }
  rewrite Hc in Hv |- *. split; [done|]. split; [|by exists doc2].
  eexists. split; [reflexivity|]. unfold Credential. by rewrite decide_True.
Qed.
End Runs.

(** * Concrete runs *)
Definition demo_notation : NotationLib := {|
  certificate := string; ca_pool := string; pem_block s := Some s; ParseCertificate s := Ok s;
  AppendCertsFromPEM s := Some s; verifier_New _ := Ok (); remote_NewRepository _ := Ok () |}.
Definition cert_root (name cert ts : string) : TrustRoot := {|
  tr_Name := name; tr_Key := ""; tr_Cert := cert; tr_TSCert := ts;
  tr_Keyless := {| Issuer := ""; Subject := ""; IssuerRegex := ""; SubjectRegex := "" |} |}.
Definition auth_of (auth : gmap string AuthEntry) : Auth :=
  {| AuthConfigs := if decide (auth = ∅) then None else Some auth; UseKeychain := false |}.
Definition demo_yaml (cert : string) (auth : gmap string AuthEntry) : NotationValidatorYaml := {|
  oy_Name := "n"; oy_Type := "notation"; oy_Auth := auth_of auth;
  oy_Cert := cert; oy_TrustRoots := [cert_root "default" "C1" "T1"; cert_root "alice" "C2" ""] |}.
Definition demo_validator (cert : string) (auth : gmap string AuthEntry)
  : NotationValidator (H := demo_notation) := {|
  ov_Name := "n"; ov_Type := "notation"; ov_Auth := auth_of auth;
  RootCA := if decide (cert <> "") then Some (cert : @ca_pool demo_notation) else None;
  TrustStore := {|
    trustRoots := [cert_root "default" "C1" "T1"; cert_root "alice" "C2" ""];
    certs := {[("alice", TypeCA) := ["C2" : @certificate demo_notation];
               ("default", TypeTSA) := ["T1"]; ("default", TypeCA) := ["C1"]]} |} |}.
Definition tagged (name : string) : Image := {|
  original := "reg.io/" +:+ name +:+ ":1";
  ref := {| ctx_name := "reg.io/" +:+ name; ctx_string := "reg.io/" +:+ name; ctx_registry := "reg.io";
            identifier := "1" |};
  tag := "1"; digest := "" |}.
Definition rule_args (root : string) : RuleOptions := {|
  Policy.TrustRoot := root; VerifyTLog := None; VerifySCT := None; Threshold := 0%Z; Required := [];
  Delegations := []; ValidationMode := ""; Policy.VerificationLevel := "";
  Policy.VerifyTimestamp := "" |}.

Lemma trust_policy_certificates_witness :
  exists doc, setUpTrustPolicy (demo_validator "" ∅) (tagged "app") (rule_args "*") = Ok doc /\
    TrustStores doc = ["ca:default"; "tsa:default"; "ca:alice"] /\
    exists trs, GetTrustRoots ["*"] (oy_TrustRoots (demo_yaml "" ∅)) true = Ok trs /\
      TrustStores doc = concat (root_stores <$> trs).
Proof.
  eexists. split; [vm_compute; reflexivity|]. split; [reflexivity|].
  edestruct (trust_policy_certificates (H := demo_notation) (demo_yaml "" ∅) (demo_validator "" ∅)
    (tagged "app") (rule_args "*")) as (trs & Ht & _ & Hs & _).
  - vm_compute. reflexivity.
  - cbn. apply NoDup_cons; split; [|apply NoDup_singleton]. intros H1%list_elem_of_singleton. done.
  - vm_compute. reflexivity.
  - exists trs. split; [exact Ht|exact Hs].
Defined.

Definition demo_auth : gmap string AuthEntry :=
  {["reg.io" := {| Username := "u"; Password := "p" |}]}.
Definition demo_resolve (_ : Client (H := demo_notation)) (_ _ : string) : res string := Ok "sha256:aa".
Definition demo_check (_ : Client (H := demo_notation)) (_ : Document)
    (_ : StoreType -> string -> res (list (@certificate demo_notation))) (_ : string) (o : VerifyOptions)
  : res string := Ok (str_drop (String.length (ArtifactReference o) - 9) (ArtifactReference o)).

Lemma client_remembers_witness :
  exists c2 cred, client_RootCAs c2 = Some ("CA" : @ca_pool demo_notation) /\
    client_Credential c2 = Some cred /\ Credential cred "reg.io" = {| Username := "u"; Password := "p" |}.
Proof.
  edestruct (client_remembers (H := demo_notation) demo_resolve demo_check DefaultClient)
    with (nv1 := demo_validator "CA" demo_auth) (nv2 := demo_validator "" ∅)
         (img1 := tagged "app") (img2 := tagged "other") (args1 := rule_args "") (args2 := rule_args "*")
    as (Hca & (cred & Hc & Hcr) & _).
  1: vm_compute; reflexivity.
  1: reflexivity.
  1: vm_compute; reflexivity.
  1, 2: discriminate.
  1: vm_compute; reflexivity.
  1: reflexivity.
  1: vm_compute; reflexivity.
  1: reflexivity.
  eexists _, cred. split; [exact Hca|]. split; [exact Hc|exact Hcr].
Defined.
