(* ===== verification/Alerting.v ===== *)
(** [internal/alert]: which receivers are notified ([alerting.go], [config.go]), how a
    notification is built from its template ([template.go]) and sent
    ([channel.go]). *)
From S2P Require Import Prelude GoStrings Utils FilePath Json Channels.
From Stdlib Require Import Ascii.

Definition NotificationResultSuccess := "success".
Definition NotificationResultError := "error".
Definition NotificationResultSkip := "skip".
Definition NotificationResultTimeout := "timeout".
Definition NotificationResultInvalid := "invalid".

(** * alerting.go: the values of a notification *)
Record NotificationValues : Type := {
  n_Result : string;
  n_Error : option string;
  n_Images : string;
  RequestId : string;
  n_Priority : Z;
  ConnaisseurPodId : string;
  Cluster : string;
  n_Namespace : string;
  Timestamp : string;
  AlertMessage : string;
}.
(** The exported fields of kind string, in place; [Error] is an interface and
    [Priority] an integer. *)
#[export] Instance NotificationValues_strings : StringFields NotificationValues := fun f n => {|
  n_Result := f (n_Result n); n_Error := n_Error n; n_Images := f (n_Images n);
  RequestId := f (RequestId n); n_Priority := n_Priority n;
  ConnaisseurPodId := f (ConnaisseurPodId n); Cluster := f (Cluster n);
  n_Namespace := f (n_Namespace n); Timestamp := f (Timestamp n);
  AlertMessage := f (AlertMessage n) |}.
Definition with_alert (n : NotificationValues) (cluster message : string) : NotificationValues := {|
  n_Result := n_Result n; n_Error := n_Error n; n_Images := n_Images n; RequestId := RequestId n;
  n_Priority := n_Priority n; ConnaisseurPodId := ConnaisseurPodId n; Cluster := cluster;
  n_Namespace := n_Namespace n; Timestamp := Timestamp n; AlertMessage := message |}.

(** * config.go *)

(** The interface [Sender]; [Send] is how its goroutine ends: without an error, with
    one, or with a panic. *)
Record Sender : Type := {
  FailOnError : bool;
  sender_Name : string;
  Send : NotificationValues -> res unit;
}.
Record Config : Type := {
  ClusterId : string;
  AdmitRequests : list Sender;
  RejectRequests : list Sender;
}.

(** * alerting.go: the selection of receivers *)
Definition select_receivers (a : Config) (opts : NotificationValues)
  : res (list Sender * string * string) :=
  let r := n_Result opts in
  if decide (r = NotificationResultSuccess \/ r = NotificationResultSkip) then
    Ok (AdmitRequests a, "admit", "CONNAISSEUR admitted a request")
  else if decide (r = NotificationResultError) then
    match n_Error opts with
    | Some e => Ok (RejectRequests a, "reject",
                    sprintf "CONNAISSEUR rejected a request: %s" [AStr e])
    | None => Panic "invalid memory address or nil pointer dereference"
    end
  else if decide (r = NotificationResultTimeout) then
    Ok (RejectRequests a, "reject",
        sprintf "CONNAISSEUR validation timed out for admission request %s" [AStr (RequestId opts)])
  else if decide (r = NotificationResultInvalid) then
    Ok (RejectRequests a, "reject",
        sprintf "CONNAISSEUR failed to parse admission request %s" [AStr (RequestId opts)])
  else Err (sprintf "unknown result type for alerting: %s" [AStr r]).

(** The config afterwards (a missing cluster id is filled in), and the values the
    senders get. *)
Definition eval_config (a : Config) : Config := {|
  ClusterId := if decide (ClusterId a = "") then "not specified" else ClusterId a;
  AdmitRequests := AdmitRequests a; RejectRequests := RejectRequests a |}.
Definition sent_values (a : Config) (opts : NotificationValues) (message : string)
  : NotificationValues := with_alert opts (ClusterId (eval_config a)) message.

(** What each sender's goroutine writes to the channel: nil unless it is set to fail.
    After a panic the deferred function still writes the error, which is nil. *)
Definition report (s : Sender) (opts : NotificationValues) : option string :=
  match Send s opts with
  | Err e => if FailOnError s then Some e else None
  | _ => None
  end.
Definition reports (receivers : list Sender) (opts : NotificationValues) : list (option string) :=
  (fun s => report s opts) <$> receivers.
Definition is_error (r : option string) : bool := is_set r.

(** The error the collecting loop returns in a state in which it has returned; the
    name is that of the receiver at the position of the loop. *)
Definition alert_outcome (receivers : list Sender) (stream : string)
    (s : state (A := option string)) : res unit :=
  let i := length (received s) in
  match coll s with
  | TimedOut => Err (sprintf "timeout during handling of receiver %d/%d of %s alerts"
                       [AInt i; AInt (length receivers); AStr stream])
  | StoppedAt (Some err) =>
      rec ← index receivers (i - 1);
      Err (sprintf "failed sending a notification for receiver %s with FailOnError set: %s"
             [AStr (sender_Name rec); AStr err])
  | _ => Ok ()
  end.

(** Nothing recovers a panic in the goroutine of a sender: whether it comes before or
    after the loop has returned, it ends the process.  The model takes that as the
    outcome of the call, though an answer may still have been written before. *)
Definition crashes (receivers : list Sender) (opts : NotificationValues) : res unit :=
  foldM_res (fun _ s => match Send s opts with Panic w => Panic w | _ => Ok () end) () receivers.

(** [EvalAndSendNotifications], in the final state [s] of its goroutines. *)
Definition EvalAndSendNotifications (a : Config) (opts : NotificationValues)
    (s : state (A := option string)) : res unit :=
  '(receivers, stream, message) ← select_receivers a opts;
  _ ← crashes receivers (sent_values a opts message);
  alert_outcome receivers stream s.

(** The states the goroutines and the loop can reach. *)
Definition alert_run (a : Config) (opts : NotificationValues) (s : state (A := option string)) : Prop :=
  match select_receivers a opts with
  | Ok (receivers, _, message) =>
      reachable Select (reports receivers (sent_values a opts message)) is_error s /\ returned s
  | _ => True
  end.

Lemma crashes_spec receivers opts :
  match crashes receivers opts with
  | Ok _ => forall r, r ∈ receivers -> safe (Send r opts)
  | Err _ => False
  | Panic w => exists r, r ∈ receivers /\ Send r opts = Panic w
  end.
Proof.
  unfold crashes. induction receivers as [|r receivers IH]; cbn [foldM_res].
  - intros r Hr. by apply elem_of_nil in Hr.
  - destruct (Send r opts) as [[]|e|w] eqn:E; cbn [mbind res_bind].
    3: { exists r. split; [by left|done]. }
    all: destruct (foldM_res _ () receivers) as [|?|w']; [|done|].
    all: try (intros r' [->|Hr]%elem_of_cons; [by rewrite E|by apply IH]).
    all: destruct IH as (r' & Hr & Hw); exists r'; (split; [by right|done]).
Qed.

Lemma report_none r opts :
  safe (Send r opts) -> FailOnError r = true -> report r opts = None -> Send r opts = Ok ().
Proof.
  unfold report. intros Hs Hf. rewrite Hf.
  destruct (Send r opts) as [[]|e|w]; [done|done|by destruct (Hs w)].
Qed.

Lemma eval_result (a : Config) (opts : NotificationValues)
    (s : state (A := option string)) :
  alert_run a opts s ->
  match select_receivers a opts, EvalAndSendNotifications a opts s with
  | Ok (receivers, _, message), Ok _ =>
      forall r, r ∈ receivers -> safe (Send r (sent_values a opts message)) /\
        (FailOnError r = true -> Send r (sent_values a opts message) = Ok ())
  | Ok (receivers, _, message), Err _ =>
      cancelled s = true \/
      exists r e, r ∈ receivers /\ FailOnError r = true /\
        Send r (sent_values a opts message) = Err e
  | Ok (receivers, _, message), Panic w =>
      exists r, r ∈ receivers /\ Send r (sent_values a opts message) = Panic w
  | Err _, r => r = Err (sprintf "unknown result type for alerting: %s" [AStr (n_Result opts)])
  | Panic _, _ => n_Result opts = NotificationResultError /\ n_Error opts = None
  end.
Proof.
  unfold alert_run, EvalAndSendNotifications.
  destruct (select_receivers a opts) as [[[receivers stream] message]|e|w] eqn:Es.
  - intros [Hr Hret]. cbn [mbind res_bind].
    pose proof (crashes_spec receivers (sent_values a opts message)) as Hcr.
    destruct (crashes _ _) as [[]|?|?]; [|done|exact Hcr]. cbn [mbind res_bind]. unfold alert_outcome.
    pose proof (fan_out_outcome _ _ _ _ Hr) as Ho. unfold returned in Hret.
    destruct (coll s) as [| |v| |] eqn:Hk; try done.
    + destruct Ho as (Hst & Hin & Hlen). destruct v as [err|]; [|done].
      destruct (index_safe receivers (length (received s) - 1)) as [rec Hrec].
      { unfold reports in Hlen. rewrite length_fmap in Hlen. lia. }
      rewrite Hrec. cbn [mbind res_bind]. right.
      apply list_elem_of_fmap in Hin as (r & Hv & Hr'). exists r, err. unfold report in Hv.
      destruct (Send r _), (FailOnError r); simplify_eq; done.
    + by left.
    + intros r Hin. split; [by apply Hcr|]. intros Hf. apply report_none; [by apply Hcr|done|].
      destruct Ho as [_ Hall]. rewrite Forall_forall in Hall.
      specialize (Hall (report r (sent_values a opts message))).
      destruct (report r _) as [e|] eqn:E; [|done]. discriminate Hall.
      apply list_elem_of_fmap. by exists r.
  - intros _. cbn. unfold select_receivers in Es. repeat case_decide; simplify_eq; [|done].
    by destruct (n_Error opts).
  - intros _. unfold select_receivers in Es. repeat case_decide; simplify_eq.
    by destruct (n_Error opts).
Qed.

(** C31: the notifications of an admission succeed only if every receiver of the
    stream that is set to fail on errors has sent its notification (with the
    configured or the default cluster id) and no receiver panics; an error means that
    the context is done, that such a receiver failed, or that the kind of result is
    unknown; and a panic is that of a receiver, or of a rejection without an error. *)
Theorem EvalAndSendNotifications_result (a : Config) (opts : NotificationValues)
    (s : state (A := option string)) :
  alert_run a opts s ->
  match select_receivers a opts, EvalAndSendNotifications a opts s with
  | Ok (receivers, _, message), Ok _ =>
      forall r, r ∈ receivers -> safe (Send r (sent_values a opts message)) /\
        (FailOnError r = true -> Send r (sent_values a opts message) = Ok ())
  | Ok (receivers, _, message), Err _ =>
      cancelled s = true \/
      exists r e, r ∈ receivers /\ FailOnError r = true /\
        Send r (sent_values a opts message) = Err e
  | Ok (receivers, _, message), Panic w =>
      exists r, r ∈ receivers /\ Send r (sent_values a opts message) = Panic w
  | Err _, r => r = Err (sprintf "unknown result type for alerting: %s" [AStr (n_Result opts)])
  | Panic _, _ => n_Result opts = NotificationResultError /\ n_Error opts = None
  end.
Proof. apply eval_result. Qed.

Definition demo_sender (fail : bool) (result : res unit) : Sender :=
  {| FailOnError := fail; sender_Name := "opsgenie-0"; Send _ := result |}.
Definition demo_alerting : Config :=
  {| ClusterId := ""; AdmitRequests := []; RejectRequests := [demo_sender true (Err "503")] |}.
Definition demo_values : NotificationValues := {|
  n_Result := "error"; n_Error := Some "no signature"; n_Images := "nginx"; RequestId := "1";
  n_Priority := 0; ConnaisseurPodId := "pod"; Cluster := ""; n_Namespace := "default";
  Timestamp := ""; AlertMessage := "" |}.
Definition demo_alert_state : state (A := option string) :=
  Build_state [Finished true] [] [Some "503"] false (StoppedAt (Some "503")).
Lemma demo_alert_run : alert_run demo_alerting demo_values demo_alert_state.
Proof.
  split; [|done]. unfold reachable, init, demo_alert_state. cbn.
  eapply relations.rtc_l; [eapply (step_ready _ _ _ 0); done|]. cbn.
  eapply relations.rtc_l; [eapply (step_send _ _ _ 0 (Some "503")); cbn; (done || lia)|]. cbn.
  eapply relations.rtc_l; [eapply (step_receive _ _ _ (Some "503") []); cbn; (done || lia)|].
  apply relations.rtc_refl.
Defined.

Lemma EvalAndSendNotifications_result_witness :
  EvalAndSendNotifications demo_alerting demo_values demo_alert_state =
    Err "failed sending a notification for receiver opsgenie-0 with FailOnError set: 503" /\
  (cancelled demo_alert_state = true \/
   exists r e, r ∈ [demo_sender true (Err "503")] /\ FailOnError r = true /\
     Send r (sent_values demo_alerting demo_values "CONNAISSEUR rejected a request: no signature")
       = Err e).
Proof.
  split; [reflexivity|].
  apply (EvalAndSendNotifications_result demo_alerting demo_values demo_alert_state demo_alert_run).
Defined.

(** * config.go: channels and their names *)
Record Channel : Type := {
  ChannelName : string;
  URL : string;
  ch_Priority : option Z;
  PayloadFields : list (string * json);
  Headers : list string;
  TemplateFile : string;
  Fail : bool;
}.
Definition with_name (ch : Channel) (name : string) : Channel := {|
  ChannelName := name; URL := URL ch; ch_Priority := ch_Priority ch;
  PayloadFields := PayloadFields ch; Headers := Headers ch; TemplateFile := TemplateFile ch;
  Fail := Fail ch |}.

(** [RequestSender.UnmarshalYAML] on the decoded receivers; a null entry of the list
    is a nil pointer. *)
Definition UnmarshalYAML (receivers : res (list (option Channel))) : res (list Channel) :=
  rData ← receivers;
  mapM_res (fun '(idx, s) =>
    match s with
    | Some s => Ok (with_name s (sprintf "%s-%d" [AStr (TemplateFile s); AInt idx]))
    | None => Panic "invalid memory address or nil pointer dereference"
    end) (imap pair rData).

(** * template.go *)

(** The longest prefix without braces, and what follows. *)
Fixpoint span_no_braces (s : string) : string * string :=
  match s with
  | "" => ("", "")
  | String c s' =>
      if (c =? "{")%char || (c =? "}")%char then ("", s)
      else let '(a, b) := span_no_braces s' in (String c a, b)
  end.
(** A match of [{{[^{}]*}}] at the start of [s]: its text between the braces, and the
    rest. *)
Definition match_placeholder (s : string) : option (string * string) :=
  match s with
  | String "{" (String "{" s') =>
      match span_no_braces s' with
      | (inner, String "}" (String "}" rest)) => Some (inner, rest)
      | _ => None
      end
  | _ => None
  end.
(** [ReplaceAllFunc]: the matches from left to right; [skip] bytes belong to the match
    before. *)
Fixpoint replace_placeholders (f : string -> string) (skip : nat) (s : string) : string :=
  match s with
  | "" => ""
  | String c s' =>
      match skip with
      | S n => replace_placeholders f n s'
      | 0 =>
          match match_placeholder s with
          | Some (inner, _) =>
              f ("{{" +:+ inner +:+ "}}") +:+ replace_placeholders f (String.length inner + 3) s'
          | None => String c (replace_placeholders f 0 s')
          end
      end
  end.

Definition AlertTemplateDir := "/app/alerts/templates".

(** [strcase.ToCamel], the template engine ([Parse] and [Execute] on the notification
    values), [json.Marshal] of a map, and the HTTP calls. *)
Class AlertLib := {
  ToCamel : string -> string;
  tmpl_Parse : string -> res unit;
  tmpl_Execute : string -> NotificationValues -> res string;
  json_Marshal : gmap string json -> res string;
  http_NewRequest : string -> string -> res unit;
  (** URL, headers and body to the status code and the body of the response *)
  http_Do : string -> gmap string string -> string -> res (Z * string);
}.

Definition is_blank (c : ascii) : bool := is_space c || (code c =? 11) || (code c =? 12).
Fixpoint trim_left (s : string) : string :=
  match s with String c s' => if is_blank c then trim_left s' else s | "" => "" end.
Fixpoint trim_right (s : string) : string :=
  match s with
  | "" => ""
  | String c s' =>
      match trim_right s' with
      | "" => if is_blank c then "" else String c ""
      | t => String c t
      end
  end.
Definition TrimSpace (s : string) : string := trim_right (trim_left s).

Section Template.
Context `{FileSystem} `{AlertLib}.

Definition transformJinjaToGo (m : string) : string :=
  let str := TrimSpace m in
  let camelCase := ToCamel str in
  sprintf "{{ .%s }}" [AStr camelCase].

Definition transformTemplate (template : string) : res string :=
  path ← map_err (fun err => sprintf "unable to get template file: %s" [AStr err])
           (SafeFileName AlertTemplateDir [sprintf "%s.json" [AStr template]]);
  bytes ← map_err (fun err => sprintf "failed to read template file: %s" [AStr err]) (read_file path);
  Ok (replace_placeholders transformJinjaToGo 0 bytes).

Definition templateWithPayloadFields (template : gmap string json)
    (payloadFields : list (string * json)) : gmap string json :=
  foldl (fun template '(key, value) => <[key := value]> template) template payloadFields.

(** [json.Unmarshal] into a map: a JSON object (later fields win), or null, which
    makes the map nil. *)
Definition unmarshal_map (s : string) : res (option (gmap string json)) :=
  match parse_json s with
  | Some (JObj fields) => Ok (Some (foldl (fun m '(k, v) => <[k := v]> m) ∅ fields))
  | Some JNull => Ok None
  | Some _ => Err "json: cannot unmarshal value into Go value of type map[string]interface {}"
  | None => Err "invalid JSON"
  end.

(** * channel.go *)
Definition generateNotificationMessage (ch : Channel) (opts : NotificationValues) : res string :=
  tmplStr ← map_err (fun err => sprintf "failed to transform template for receiver %s: %s"
                       [AStr (ChannelName ch); AStr err]) (transformTemplate (TemplateFile ch));
  _ ← map_err (fun err => sprintf "failed to parse template file: %s" [AStr err]) (tmpl_Parse tmplStr);
  let opts := JsonEscapeStruct opts in
  buf ← map_err (fun err => sprintf "failed to render template for receiver %s: %s"
                   [AStr (ChannelName ch); AStr err]) (tmpl_Execute tmplStr opts);
  if negb (bool_decide (buf = "")) && negb (bool_decide (buf = "{}")) then
    tmplMap ← map_err (fun err => sprintf "failed to unmarshal rendered template for receiver %s: %s"
                         [AStr (ChannelName ch); AStr err]) (unmarshal_map buf);
    match tmplMap, PayloadFields ch with
    | None, _ :: _ => Panic "assignment to entry in nil map"
    | None, [] => Ok "null"
    | Some m, _ =>
        map_err (fun err => sprintf "failed to marshal rendered template for receiver %s: %s"
                   [AStr (ChannelName ch); AStr err])
          (json_Marshal (templateWithPayloadFields m (PayloadFields ch)))
    end
  else Ok "".

(** [textproto.CanonicalMIMEHeaderKey], which [Header.Set] applies: letters after the
    start and after a dash in upper case, others in lower case; a key with a byte that
    may not stand in a header is left alone. *)
Definition upper_byte (c : ascii) : ascii :=
  if (97 <=? code c) && (code c <=? 122) then ascii_of_nat (code c - 32) else c.
Definition is_token_byte (c : ascii) : bool :=
  let n := code c in
  ((48 <=? n) && (n <=? 57)) || ((65 <=? n) && (n <=? 90)) || ((94 <=? n) && (n <=? 122)) ||
  existsb (fun m => n =? m) [33; 35; 36; 37; 38; 39; 42; 43; 45; 46; 124; 126].
Fixpoint all_token_bytes (s : string) : bool :=
  match s with "" => true | String c s' => is_token_byte c && all_token_bytes s' end.
Fixpoint capitalize (upper : bool) (s : string) : string :=
  match s with
  | "" => ""
  | String c s' => String (if upper then upper_byte c else lower_byte c) (capitalize (c =? "-")%char s')
  end.
Definition CanonicalHeaderKey (s : string) : string := if all_token_bytes s then capitalize true s else s.

Example canonical_content_type : CanonicalHeaderKey "content-TYPE" = "Content-Type".
Proof. reflexivity. Qed.

(** The headers of the request, or the error for one without a colon. *)
Definition set_header (ch : Channel) (headers : gmap string string) (header : string)
  : res (gmap string string) :=
  match index_byte ":" header with
  | Some i => Ok (<[CanonicalHeaderKey (str_take i header) := str_drop (S i) header]> headers)
  | None => Err (sprintf "header configuration for notification of receiver %s is invalid. Not all headers are valid: %s"
                   [AStr (ChannelName ch); AStr (show_slice (Headers ch))])
  end.

Definition sender_values (ch : Channel) (now : string) (opts : NotificationValues) : NotificationValues := {|
  n_Result := n_Result opts; n_Error := n_Error opts; n_Images := n_Images opts;
  RequestId := RequestId opts; n_Priority := default 3%Z (ch_Priority ch);
  ConnaisseurPodId := ConnaisseurPodId opts; Cluster := Cluster opts;
  n_Namespace := n_Namespace opts; Timestamp := now; AlertMessage := AlertMessage opts |}.

(** The body of [Channel.Send] up to the deferred function: [errOut], and the request
    that was sent, if any. *)
Definition send_body (ch : Channel) (now : string) (opts : NotificationValues)
  : res (option string * option (gmap string string * string)) :=
  match generateNotificationMessage ch (sender_values ch now opts) with
  | Panic w => Panic w
  | Err err => Ok (Some err, None)
  | Ok buf =>
      if decide (buf <> "") then
        match http_NewRequest (URL ch) buf with
        | Panic w => Panic w
        | Err err => Ok (Some (sprintf "failed to create request for notification of receiver %s: %s"
                                 [AStr (ChannelName ch); AStr err]), None)
        | Ok _ =>
            match foldM_res (set_header ch) {["Content-Type" := "application/json"]} (Headers ch) with
            | Panic w => Panic w
            | Err err => Ok (Some err, None)
            | Ok headers =>
                let failed err := Some (sprintf "failed to send notification for receiver %s: %s"
                                          [AStr (ChannelName ch); AStr err]) in
                match http_Do (URL ch) headers buf with
                | Panic w => Panic w
                | Err err => Ok (failed err, Some (headers, buf))
                | Ok (status, body) =>
                    if (status <? 200)%Z || (status >=? 300)%Z
                    then Ok (failed body, Some (headers, buf))
                    else Ok (None, Some (headers, buf))
                end
            end
        end
      else Ok (None, None)
  end.

(** [Channel.Send]: the values written to the channel, nil at once when failures are
    tolerated, else [errOut] at the end unless the context is done. *)
Definition channel_Send (ch : Channel) (now : string) (done : bool) (opts : NotificationValues)
  : res (list (option string)) :=
  '(errOut, _) ← send_body ch now opts;
  let first := if Fail ch then [] else [None] in
  if done then Ok first else Ok (if Fail ch then first ++ [errOut] else first).

(** A channel as a [Sender]. *)
Definition channel_sender (ch : Channel) (now : string) : Sender := {|
  FailOnError := Fail ch;
  sender_Name := ChannelName ch;
  Send opts :=
    '(errOut, _) ← send_body ch now opts;
    match errOut with Some err => Err err | None => Ok () end;
|}.

(** A channel panics exactly when its [Sender] does.  Otherwise it writes to its channel
    at most once, and what it writes is what the [Sender] reports; it is silent only
    when the context is done. *)
Lemma channel_Send_reports ch now done opts l :
  channel_Send ch now done opts = Ok l ->
  if Fail ch && done then l = []
  else l = reports [channel_sender ch now] opts.
Proof.
  unfold channel_Send, reports, report. cbn [fmap list_fmap FailOnError channel_sender Send].
  intros ([e r] & He & H1)%bind_Ok. rewrite He. cbn [mbind res_bind].
  by destruct e, (Fail ch), done; injection H1 as <-.
Qed.
Lemma channel_Send_panics ch now done opts w :
  channel_Send ch now done opts = Panic w <-> Send (channel_sender ch now) opts = Panic w.
Proof.
  unfold channel_Send. cbn [channel_sender Send].
  destruct (send_body ch now opts) as [[[e|] r]|e|w']; cbn;
    try destruct done, (Fail ch); (split; congruence).
Qed.
End Template.
