(* ===== verification/Settings.v ===== *)
(** [internal/utils/validation.go] and the [validate] tags of the configuration
    structs: what [utils.Validate] reports, what the tags say about a configuration,
    and that they say exactly that it is well formed. *)
From S2P Require Import Prelude GoStrings Utils Policy Image Json Validator Auth Cosign NotaryServer Notary Notation Alerting.
From Stdlib Require Import Ascii.

(** * Values and tags

    A value as the library sees it by reflection: pointers and interfaces are followed,
    a nil slice or map is [None], a struct has the name of its type and its fields with
    their tags.  Fields without tags whose type is no struct of the program are left
    out. *)
Inductive tag : Type :=
  | required | omitempty
  | min_ (n : Z) | gte (n : Z)
  | eq_ (s : string) | oneof (l : list string)
  | url | contains (s : string)
  | excluded_with (fields : list string)
  | required_without (fields : list string)
  | required_without_all (fields : list string)
  | eqcsfield (struct_ field : string)
  | dive (elements : list tag)
  | dive_keys (keys elements : list tag).

Inductive value : Type :=
  | VStr (s : string)
  | VInt (z : Z)
  | VPtr (o : option value)
  | VSlice (o : option (list value))
  | VMap (o : option (list (value * value)))
  | VStruct (type_ : string) (fields : list (string * list tag * value)).

(** The zero value of the type. *)
Fixpoint is_zero (v : value) : bool :=
  match v with
  | VStr s => bool_decide (s = "")
  | VInt z => bool_decide (z = 0%Z)
  | VPtr o => negb (is_set o)
  | VSlice o => negb (is_set o)
  | VMap o => negb (is_set o)
  | VStruct _ fields => forallb (fun '(_, v) => is_zero v) fields
  end.

Definition siblings (fields : list (string * list tag * value)) : list (string * value) :=
  (fun '(name, _, v) => (name, v)) <$> fields.
Fixpoint sibling (name : string) (parent : list (string * value)) : option value :=
  match parent with
  | [] => None
  | (n, v) :: parent' => if (n =? name)%string then Some v else sibling name parent'
  end.
Definition present (parent : list (string * value)) (name : string) : bool :=
  match sibling name parent with Some v => negb (is_zero v) | None => false end.
(** The struct a field holds, behind pointers and interfaces. *)
Fixpoint struct_of (v : value) : list (string * value) :=
  match v with
  | VPtr (Some v) => struct_of v
  | VStruct _ fields => siblings fields
  | _ => []
  end.
(** What [min] and [gte] compare: the value of an integer, the number of characters of
    a string (a byte that is not UTF-8 is one), the number of elements otherwise. *)
Definition size_of (v : value) : Z :=
  match v with
  | VStr s => Z.of_nat (length (chunks s))
  | VInt z => z
  | VSlice o => Z.of_nat (length (default [] o))
  | VMap o => Z.of_nat (length (default [] o))
  | _ => 0
  end.
Definition string_is (P : string -> bool) (v : value) : bool :=
  match v with VStr s => P s | _ => false end.

(** The library: [Struct] of a validator set up as in [Validate] gives the translated
    messages of the violations, none for nil, or its [InvalidValidationError]. *)
Class StructLib := {
  is_url : string -> bool;
  Struct : value -> res (list string);
}.

(** * What the tags mean

    The tags of a field are checked from left to right; [omitempty] ends the checks of a
    zero value; [dive] continues with the elements; a struct's fields come last. *)
Section Tags.
Context `{StructLib}.

Definition holds (parent : list (string * value)) (v : value) (t : tag) : bool :=
  match t with
  | required => negb (is_zero v)
  | min_ n | gte n => (n <=? size_of v)%Z
  | eq_ s => string_is (fun x => bool_decide (x = s)) v
  | oneof l => string_is (fun x => bool_decide (x ∈ l)) v
  | url => string_is is_url v
  | contains c => string_is (fun x => GoStrings.contains x c) v
  | excluded_with fields => if existsb (present parent) fields then is_zero v else true
  | required_without fields =>
      if existsb (fun f => negb (present parent f)) fields then negb (is_zero v) else true
  | required_without_all fields =>
      if forallb (fun f => negb (present parent f)) fields then negb (is_zero v) else true
  | eqcsfield struct_ field =>
      match v, sibling struct_ parent ≫= (fun s => sibling field (struct_of s)) with
      | VStr x, Some (VStr y) => bool_decide (x = y)
      | _, _ => false
      end
  | omitempty | dive _ | dive_keys _ _ => true
  end.

(** A pointer or interface that is not nil is there, whatever it refers to. *)
Definition of_target (tags : list tag) : list tag :=
  List.filter (fun t => match t with required | omitempty => false | _ => true end) tags.

Fixpoint satisfies (v : value) (parent : list (string * value)) (tags : list tag) {struct v} : bool :=
  match v with
  | VPtr (Some v) => satisfies v parent (of_target tags)
  | _ =>
      (fix go (ts : list tag) : bool :=
         match ts with
         | [] =>
             match v with
             | VStruct _ fields =>
                 forallb (fun '(_, ts', v') => satisfies v' (siblings fields) ts') fields
             | _ => true
             end
         | omitempty :: ts => if is_zero v then true else go ts
         | dive ts' :: _ =>
             match v with
             | VSlice (Some l) => forallb (fun v' => satisfies v' parent ts') l
             | VMap (Some l) => forallb (fun '(_, v') => satisfies v' parent ts') l
             | _ => true
             end
         | dive_keys ks ts' :: _ =>
             match v with
             | VMap (Some l) =>
                 forallb (fun '(k, v') => satisfies k parent ks && satisfies v' parent ts') l
             | _ => true
             end
         | t :: ts => holds parent v t && go ts
         end) tags
  end.
Definition valid (v : value) : bool := satisfies v [] [].
End Tags.

(** What the library documents: a struct, or a pointer to one, has no violations
    exactly when its tags are satisfied. *)
Class StructSpec `{StructLib} : Prop := {
  Struct_struct type_ fields : exists errs,
    Struct (VStruct type_ fields) = Ok errs /\ (errs = [] <-> valid (VStruct type_ fields) = true);
  Struct_pointer type_ fields :
    Struct (VPtr (Some (VStruct type_ fields))) = Struct (VStruct type_ fields);
}.

(** * validation.go *)

(** [reflect.TypeOf(s).Name()]: a pointer type has no name. *)
Definition type_name (v : value) : string := match v with VStruct name _ => name | _ => "" end.

Definition Validate `{StructLib} (s : value) : res unit :=
  match Struct s with
  | Panic w => Panic w
  | Err ive => Panic (sprintf "validation definitions are invalid: %s" [AStr ive])
  | Ok [] => Ok ()
  | Ok errs =>
      let ty := type_name s in
      let msg := foldl (fun msg '(i, err) =>
        msg +:+ sprintf ("%s error %d: %s" +:+ nl) [AStr ty; AInt i; AStr err]) "" (imap pair errs) in
      Err (sprintf ("%s has %d errors:" +:+ nl +:+ "%s") [AStr ty; AInt (length errs); AStr msg])
  end.

(** * The structs of the configuration *)

(** [policy.RuleOptions] and [policy.Rule] as the decoder fills them, and as the rest of
    the program reads them: a nil slice is an empty one. *)
Record OptionsSettings : Type := {
  os_TrustRoot : string;
  os_VerifyTLog : option bool;
  os_VerifySCT : option bool;
  os_Threshold : Z;
  os_Required : option (list string);
  os_Delegations : option (list string);
  os_ValidationMode : string;
  os_VerificationLevel : string;
  os_VerifyTimestamp : string;
}.
Record RuleSettings : Type := {
  rs_Pattern : string; rs_Validator : string; rs_With : OptionsSettings }.
Definition options_of (o : OptionsSettings) : RuleOptions := {|
  Policy.TrustRoot := os_TrustRoot o; VerifyTLog := os_VerifyTLog o; VerifySCT := os_VerifySCT o;
  Threshold := os_Threshold o; Required := default [] (os_Required o);
  Delegations := default [] (os_Delegations o); ValidationMode := os_ValidationMode o;
  Policy.VerificationLevel := os_VerificationLevel o;
  Policy.VerifyTimestamp := os_VerifyTimestamp o |}.
Definition rule_of (r : RuleSettings) : Rule :=
  {| Pattern := rs_Pattern r; Policy.Validator := rs_Validator r; With := options_of (rs_With r) |}.

Definition strings (o : option (list string)) : value := VSlice ((fun l : list string => VStr <$> l) <$> o).
Definition describe_options (o : OptionsSettings) : value := VStruct "RuleOptions" [
  ("TrustRoot", [], VStr (os_TrustRoot o));
  ("Threshold", [gte 0], VInt (os_Threshold o));
  ("Required", [excluded_with ["Delegations"]; omitempty; min_ 1; dive [required]],
     strings (os_Required o));
  ("Delegations", [excluded_with ["Required"]; omitempty; min_ 1; dive [required]],
     strings (os_Delegations o));
  ("ValidationMode", [omitempty; oneof ["mutate"; "insecureValidateOnly"]],
     VStr (os_ValidationMode o));
  ("VerificationLevel", [omitempty; oneof ["strict"; "permissive"; "audit"]],
     VStr (os_VerificationLevel o));
  ("VerifyTimestamp", [omitempty; oneof ["always"; "afterCertExpiry"]], VStr (os_VerifyTimestamp o))].
Definition describe_rule (r : RuleSettings) : value := VStruct "Rule" [
  ("Pattern", [required], VStr (rs_Pattern r));
  ("Validator", [], VStr (rs_Validator r));
  ("With", [], describe_options (rs_With r))].

(** [auth.TrustRoot], [auth.Keyless], [auth.Auth]. *)
Definition describe_keyless (k : Keyless) : value := VStruct "Keyless" [
  ("Issuer", [required_without ["IssuerRegex"]; excluded_with ["IssuerRegex"]], VStr (Issuer k));
  ("Subject", [required_without ["SubjectRegex"]; excluded_with ["SubjectRegex"]], VStr (Subject k));
  ("IssuerRegex", [required_without ["Issuer"]; excluded_with ["Issuer"]], VStr (IssuerRegex k));
  ("SubjectRegex", [required_without ["Subject"]; excluded_with ["Subject"]], VStr (SubjectRegex k))].
Definition describe_root (tr : TrustRoot) : value := VStruct "TrustRoot" [
  ("Name", [required], VStr (tr_Name tr));
  ("Key", [required_without_all ["Cert"; "Keyless"]; excluded_with ["Cert"; "Keyless"]; omitempty],
     VStr (tr_Key tr));
  ("Cert", [required_without_all ["Key"; "Keyless"]; excluded_with ["Key"; "Keyless"]; omitempty],
     VStr (tr_Cert tr));
  ("TSCert", [omitempty], VStr (tr_TSCert tr));
  ("Keyless", [required_without_all ["Key"; "Cert"]; excluded_with ["Key"; "Cert"]; omitempty],
     describe_keyless (tr_Keyless tr))].
Definition describe_entry (e : AuthEntry) : value := VStruct "AuthEntry" [
  ("Username", [], VStr (Username e)); ("Password", [], VStr (Password e))].
Definition describe_auth (a : Auth) : value := VStruct "Auth" [
  ("AuthConfigs", [omitempty; min_ 1; dive_keys [required] [required]],
     VMap ((fun m : gmap string AuthEntry => (fun '(k, e) => (VStr k, describe_entry e)) <$> map_to_list m)
            <$> AuthConfigs a))].

(** The specific validators, behind the interface [SpecificValidator]. *)
Inductive Specific `{CosignLib} `{NotationLib} : Type :=
  | SStatic (v : StaticValidator)
  | SCosign (v : CosignValidator)
  | SNotary (v : NotaryV1Validator)
  | SNotation (v : NotationValidator).
Record ValidatorSettings `{CosignLib} `{NotationLib} : Type := {
  vs_Name : string; vs_Type : string; vs_Specific : option Specific }.

(** [alert.Channel], [RequestSender] and [Config]; a channel as the rest of the program
    reads it. *)
Record ChannelSettings : Type := {
  cs_ChannelName : string;
  cs_URL : string;
  cs_Priority : option Z;
  cs_PayloadFields : option (list (string * json));
  cs_Headers : option (list string);
  cs_TemplateFile : string;
  cs_Fail : bool;
}.
Record AlertingSettings : Type := {
  al_ClusterId : string;
  al_AdmitRequests : option (list ChannelSettings);
  al_RejectRequests : option (list ChannelSettings);
}.
Definition channel_of (c : ChannelSettings) : Channel := {|
  ChannelName := cs_ChannelName c; URL := cs_URL c; ch_Priority := cs_Priority c;
  PayloadFields := default [] (cs_PayloadFields c); Headers := default [] (cs_Headers c);
  TemplateFile := cs_TemplateFile c; Fail := cs_Fail c |}.

(** The payload fields are decoded YAML, without tags of its own. *)
Definition describe_channel (c : ChannelSettings) : value := VStruct "Channel" [
  ("ChannelName", [], VStr (cs_ChannelName c));
  ("URL", [required; url], VStr (cs_URL c));
  ("Priority", [omitempty; gte 0], VPtr (VInt <$> cs_Priority c));
  ("PayloadFields", [omitempty; min_ 1; dive []],
     VMap ((fun l : list (string * json) => (fun '(k, _) => (VStr k, VPtr None)) <$> l) <$> cs_PayloadFields c));
  ("Headers", [omitempty; min_ 1; dive [required; contains ":"]], strings (cs_Headers c));
  ("TemplateFile", [required], VStr (cs_TemplateFile c))].
Definition describe_sender (receivers : option (list ChannelSettings)) : value :=
  VStruct "RequestSender" [
    ("Receivers", [dive []],
       VSlice ((fun l : list ChannelSettings => (fun c => VPtr (Some (VPtr (Some (describe_channel c))))) <$> l)
                <$> receivers))].
Definition describe_alerting (a : AlertingSettings) : value := VStruct "Config" [
  ("ClusterId", [], VStr (al_ClusterId a));
  ("AdmitRequests", [], describe_sender (al_AdmitRequests a));
  ("RejectRequests", [], describe_sender (al_RejectRequests a))].

Section Configuration.
Context `{CosignLib} `{NotationLib}.

Definition describe_specific (s : Specific) : value :=
  match s with
  | SStatic v => VStruct "StaticValidator" [
      ("Name", [required], VStr (s_Name v)); ("Type", [eq_ "static"], VStr (s_Type v))]
  | SCosign v => VStruct "CosignValidator" [
      ("Name", [required], VStr (cv_Name v)); ("Type", [eq_ "cosign"], VStr (cv_Type v));
      ("Auth", [], describe_auth (cv_Auth v));
      ("TrustRoots", [min_ 1; dive []], VSlice (Some (describe_root <$> TrustRoots v)))]
  | SNotary v => VStruct "NotaryV1Validator" [
      ("Name", [required], VStr (nv_Name v)); ("Type", [eq_ "notaryv1"], VStr (nv_Type v));
      ("Host", [url], VStr (Host v)); ("Cert", [], VStr (nv_Cert v));
      ("Auth", [], describe_auth (nv_Auth v));
      ("TrustRoots", [min_ 1; dive []], VSlice (Some (describe_root <$> nv_TrustRoots v)))]
  | SNotation v => VStruct "NotationValidator" [
      ("Name", [required], VStr (ov_Name v)); ("Type", [eq_ "notation"], VStr (ov_Type v));
      ("Auth", [], describe_auth (ov_Auth v))]
  end.
Definition describe_validator (v : ValidatorSettings) : value := VStruct "Validator" [
  ("Name", [required; eqcsfield "SpecificValidator" "Name"], VStr (vs_Name v));
  ("Type", [oneof ["static"; "notaryv1"; "cosign"; "notation"]; eqcsfield "SpecificValidator" "Type"],
     VStr (vs_Type v));
  ("SpecificValidator", [required],
     VPtr ((fun s => VPtr (Some (describe_specific s))) <$> vs_Specific v))].

Record ConfigSettings : Type := {
  c_Validators : list ValidatorSettings;
  c_Rules : list RuleSettings;
  c_Alerting : AlertingSettings;
}.
Definition describe_config (c : ConfigSettings) : value := VStruct "Config" [
  ("Validators", [min_ 1; dive []], VSlice (Some (describe_validator <$> c_Validators c)));
  ("Rules", [min_ 1; dive []], VSlice (Some (describe_rule <$> c_Rules c)));
  ("Alerting", [], describe_alerting (c_Alerting c))].

(** [config.go]: [validate] of both configurations; the one of the alerting has a
    pointer receiver. *)
Definition validate_config `{StructLib} (c : ConfigSettings) : res unit := Validate (describe_config c).
Definition validate_alerting `{StructLib} (a : AlertingSettings) : res unit :=
  Validate (VPtr (Some (describe_alerting a))).
End Configuration.

(** * Well-formed configurations *)

(** One of two settings is given, and not both. *)
Definition one_of (a b : string) : Prop := a <> "" /\ b = "" \/ a = "" /\ b <> "".
Definition no_keyless : Keyless := {| Issuer := ""; Subject := ""; IssuerRegex := ""; SubjectRegex := "" |}.

Record wf_options (o : OptionsSettings) : Prop := {
  wf_threshold : (0 <= os_Threshold o)%Z;
  wf_exclusive : os_Required o = None \/ os_Delegations o = None;
  wf_required l : os_Required o = Some l -> l <> [] /\ "" ∉ l;
  wf_delegations l : os_Delegations o = Some l -> l <> [] /\ "" ∉ l;
  wf_mode : os_ValidationMode o ∈ [""; "mutate"; "insecureValidateOnly"];
  wf_level : os_VerificationLevel o ∈ [""; "strict"; "permissive"; "audit"];
  wf_timestamp : os_VerifyTimestamp o ∈ [""; "always"; "afterCertExpiry"];
}.
Definition wf_rule (r : RuleSettings) : Prop := rs_Pattern r <> "" /\ wf_options (rs_With r).

(** A trust root is one key, one certificate, or one identity. *)
Inductive wf_root (tr : TrustRoot) : Prop :=
  | wf_key : tr_Name tr <> "" -> tr_Key tr <> "" -> tr_Cert tr = "" -> tr_Keyless tr = no_keyless -> wf_root tr
  | wf_cert : tr_Name tr <> "" -> tr_Key tr = "" -> tr_Cert tr <> "" -> tr_Keyless tr = no_keyless -> wf_root tr
  | wf_identity : tr_Name tr <> "" -> tr_Key tr = "" -> tr_Cert tr = "" ->
      one_of (Issuer (tr_Keyless tr)) (IssuerRegex (tr_Keyless tr)) ->
      one_of (Subject (tr_Keyless tr)) (SubjectRegex (tr_Keyless tr)) -> wf_root tr.
Definition wf_roots (trs : list TrustRoot) : Prop := trs <> [] /\ Forall wf_root trs.

(** Credentials that are given at all are not empty. *)
Definition wf_auth (a : Auth) : Prop :=
  forall m, AuthConfigs a = Some m -> m <> ∅ /\ forall k e, m !! k = Some e -> k <> "" /\ e <> no_credentials.

Record wf_channel `{StructLib} (c : ChannelSettings) : Prop := {
  wf_url : cs_URL c <> "" /\ is_url (cs_URL c) = true;
  wf_priority p : cs_Priority c = Some p -> (0 <= p)%Z;
  wf_payload l : cs_PayloadFields c = Some l -> l <> [];
  wf_headers l : cs_Headers c = Some l ->
    l <> [] /\ Forall (fun h => h <> "" /\ GoStrings.contains h ":" = true) l;
  wf_template : cs_TemplateFile c <> "";
}.
Definition wf_alerting `{StructLib} (a : AlertingSettings) : Prop :=
  Forall wf_channel (default [] (al_AdmitRequests a)) /\
  Forall wf_channel (default [] (al_RejectRequests a)).

Section WellFormed.
Context `{CosignLib} `{NotationLib} `{StructLib}.

Definition specific_name (s : Specific) : string :=
  match s with SStatic v => s_Name v | SCosign v => cv_Name v | SNotary v => nv_Name v | SNotation v => ov_Name v end.
Definition specific_type (s : Specific) : string :=
  match s with SStatic v => s_Type v | SCosign v => cv_Type v | SNotary v => nv_Type v | SNotation v => ov_Type v end.
(** The type names the kind of the validator. *)
Definition kind_of (s : Specific) : string :=
  match s with
  | SStatic _ => StaticValidatorType | SCosign _ => CosignValidatorType
  | SNotary _ => NotaryV1ValidatorType | SNotation _ => NotationValidatorType
  end.
Definition wf_specific (s : Specific) : Prop :=
  specific_name s <> "" /\ specific_type s = kind_of s /\
  match s with
  | SStatic _ => True
  | SCosign v => wf_auth (cv_Auth v) /\ wf_roots (TrustRoots v)
  | SNotary v => is_url (Host v) = true /\ wf_auth (nv_Auth v) /\ wf_roots (nv_TrustRoots v)
  | SNotation v => wf_auth (ov_Auth v)
  end.
Definition wf_validator (v : ValidatorSettings) : Prop :=
  exists s, vs_Specific v = Some s /\ wf_specific s /\
    vs_Name v = specific_name s /\ vs_Type v = specific_type s.
Record wf_config (c : ConfigSettings) : Prop := {
  wf_validators : c_Validators c <> [] /\ Forall wf_validator (c_Validators c);
  wf_rules : c_Rules c <> [] /\ Forall wf_rule (c_Rules c);
  wf_alerts : wf_alerting (c_Alerting c);
}.
End WellFormed.

(** * The tags say that a configuration is well formed *)
Section Tags_correct.
Context `{StructLib}.

Lemma forallb_Forall {A B} (f : A -> B) (p : B -> bool) (P : A -> Prop) l :
  (forall a, p (f a) = true <-> P a) -> forallb p (f <$> l) = true <-> Forall P l.
Proof.
  intros HP. induction l as [|a l IH]; cbn; [by split|].
  by rewrite andb_true_iff, HP, IH, Forall_cons.
Qed.
Lemma size_fmap {A B} (f : A -> B) (l : list A) :
  (1 <=? Z.of_nat (length (f <$> l)))%Z = true <-> l <> [].
Proof. rewrite length_fmap, Z.leb_le. destruct l; cbn; split; intros; (done || lia). Qed.

Lemma describe_keyless_valid k parent :
  satisfies (describe_keyless k) parent [] = true <->
  one_of (Issuer k) (IssuerRegex k) /\ one_of (Subject k) (SubjectRegex k).
Proof.
  unfold one_of. destruct k as [i s ir sr]. cbn. unfold present. cbn.
  repeat case_bool_decide; cbn; subst; intuition congruence.
Qed.

Lemma wf_root_iff tr :
  wf_root tr <-> tr_Name tr <> "" /\
    (tr_Key tr <> "" /\ tr_Cert tr = "" /\ tr_Keyless tr = no_keyless \/
     tr_Key tr = "" /\ tr_Cert tr <> "" /\ tr_Keyless tr = no_keyless \/
     tr_Key tr = "" /\ tr_Cert tr = "" /\ one_of (Issuer (tr_Keyless tr)) (IssuerRegex (tr_Keyless tr)) /\
       one_of (Subject (tr_Keyless tr)) (SubjectRegex (tr_Keyless tr))).
Proof.
  split; [intros []; tauto|].
  intros (Hn & [(? & ? & ?)|[(? & ? & ?)|(? & ? & ? & ?)]]); [by apply wf_key|by apply wf_cert|by apply wf_identity].
Qed.
Lemma describe_root_valid tr parent :
  satisfies (describe_root tr) parent [] = true <-> wf_root tr.
Proof.
  rewrite wf_root_iff. unfold one_of, no_keyless. destruct tr as [n k c ts [i s ir sr]]. cbn. unfold present. cbn.
  assert (Hts : forall b : bool, (if b then true else true) = true) by (by intros []). rewrite Hts.
  case_bool_decide; cbn; [intuition congruence|].
  repeat case_bool_decide; cbn; subst; intuition congruence.
Qed.
(** A list with at least one element, each of which is valid. *)
Lemma list_valid {A} (describe : A -> value) l parent (P : A -> Prop) :
  (forall a, satisfies (describe a) parent [] = true <-> P a) ->
  satisfies (VSlice (Some (describe <$> l))) parent [min_ 1; dive []] = true <-> l <> [] /\ Forall P l.
Proof.
  intros HP. change (satisfies _ _ _) with ((1 <=? Z.of_nat (length (describe <$> l)))%Z &&
    forallb (fun v => satisfies v parent []) (describe <$> l)).
  by rewrite andb_true_iff, size_fmap, (forallb_Forall _ _ P).
Qed.
Lemma describe_roots_valid trs parent :
  satisfies (VSlice (Some (describe_root <$> trs))) parent [min_ 1; dive []] = true <-> wf_roots trs.
Proof. apply list_valid. intros tr. apply describe_root_valid. Qed.

Lemma describe_entry_zero e : is_zero (describe_entry e) = true <-> e = no_credentials.
Proof.
  destruct e as [u p]. unfold no_credentials. cbn. rewrite !andb_true_iff, !bool_decide_eq_true.
  split; [intros (-> & -> & _); done|by intros [= -> ->]].
Qed.
Lemma describe_auth_valid a parent : satisfies (describe_auth a) parent [] = true <-> wf_auth a.
Proof.
  unfold wf_auth. destruct a as [[m|] kc]; cbn; [|by split].
  rewrite andb_true_r, andb_true_iff, size_fmap.
  rewrite (forallb_Forall _ _ (fun x => x.1 <> "" /\ x.2 <> no_credentials)).
  - rewrite map_to_list_empty_iff. split.
    + intros [Hne Hall] ? [= <-]. split; [done|]. intros k e Hk. rewrite Forall_forall in Hall.
      by apply (Hall (k, e)), elem_of_map_to_list.
    + intros Hm. destruct (Hm m eq_refl) as [Hne Hall]. split; [done|]. apply Forall_forall.
      intros [k e] Hk%elem_of_map_to_list. by apply Hall.
  - intros [k e]. cbn. rewrite !andb_true_r, !andb_true_iff, !negb_true_iff, bool_decide_eq_false.
    rewrite <- not_true_iff_false, <- describe_entry_zero. cbn. rewrite !andb_true_r. done.
Qed.

Lemma strings_valid o parent ts (P : string -> Prop) :
  (forall s, satisfies (VStr s) parent ts = true <-> P s) ->
  satisfies (strings o) parent [omitempty; min_ 1; dive ts] = true <->
  forall l, o = Some l -> l <> [] /\ Forall P l.
Proof.
  intros HP. destruct o as [l|]; cbn; [|by split].
  rewrite andb_true_iff, size_fmap, (forallb_Forall _ _ P) by done. naive_solver.
Qed.
Lemma strings_excluded o parent fs ts :
  satisfies (strings o) parent (excluded_with fs :: ts)
    = (if existsb (present parent) fs then negb (is_set o) else true) && satisfies (strings o) parent ts.
Proof. by destruct o. Qed.
Lemma oneof_valid s parent l :
  satisfies (VStr s) parent [omitempty; oneof l] = true <-> s ∈ "" :: l.
Proof.
  cbn. rewrite elem_of_cons. case_bool_decide; [naive_solver|].
  rewrite andb_true_r, bool_decide_eq_true. naive_solver.
Qed.
(** A struct without tags of its own. *)
Lemma struct_valid n fields parent :
  satisfies (VStruct n fields) parent [] = true <->
  Forall (fun '(_, ts, v) => satisfies v (siblings fields) ts = true) fields.
Proof.
  cbn. generalize (siblings fields) as p. intros p.
  induction fields as [|[[n' ts] v] fields IH]; cbn; [by split|].
  by rewrite andb_true_iff, IH, Forall_cons.
Qed.

Lemma describe_options_valid o parent :
  satisfies (describe_options o) parent [] = true <-> wf_options o.
Proof.
  unfold describe_options. rewrite struct_valid, !Forall_cons, Forall_nil, !oneof_valid, !strings_excluded.
  rewrite !andb_true_iff, !(strings_valid _ _ _ (fun s => s <> "")).
  2,3: intros s; cbn; by rewrite andb_true_r, negb_true_iff, bool_decide_eq_false.
  assert (Hall : forall l : list string, Forall (fun s => s <> "") l <-> "" ∉ l).
  { intros l. rewrite Forall_forall. split; [intros Hl He; by apply (Hl "")|]. by intros Hl s Hs ->. }
  setoid_rewrite Hall. cbn. rewrite andb_true_r, Z.leb_le. unfold present. cbn.
  destruct o as [t vt vs th rq dl m lv ts]; cbn. split.
  - intros (_ & Hth & [Hex Hrq] & [_ Hdl] & Hm & Hl & Ht & _). split; cbn; try done.
    destruct rq, dl; cbn in Hex; (discriminate || auto).
  - intros [Hth Hex Hrq Hdl Hm Hl Ht]; cbn in *.
    destruct rq, dl; [by destruct Hex|..]; cbn; tauto.
Qed.
Lemma describe_rule_valid r parent :
  satisfies (describe_rule r) parent [] = true <-> wf_rule r.
Proof.
  unfold describe_rule, wf_rule. rewrite struct_valid, !Forall_cons, Forall_nil.
  rewrite describe_options_valid. cbn. rewrite andb_true_r, negb_true_iff, bool_decide_eq_false. tauto.
Qed.

Lemma describe_channel_valid c parent :
  satisfies (describe_channel c) parent [] = true <-> wf_channel c.
Proof.
  unfold describe_channel. rewrite struct_valid, !Forall_cons, Forall_nil.
  rewrite (strings_valid _ _ _ (fun h => h <> "" /\ GoStrings.contains h ":" = true)).
  2: intros s; cbn; by rewrite andb_true_r, andb_true_iff, negb_true_iff, bool_decide_eq_false.
  destruct c as [n u p pf h t f]; cbn. rewrite !andb_true_r, !andb_true_iff, !negb_true_iff, !bool_decide_eq_false.
  split.
  - intros (_ & Hu & Hp & Hpf & Hh & Ht & _). split; cbn; try done.
    + intros z ->. cbn in Hp. by rewrite andb_true_r, Z.leb_le in Hp.
    + intros l -> ->. done.
  - intros [Hu Hp Hpf Hh Ht]; cbn in *. repeat (split; [done|]). repeat split; try done.
    + destruct p as [z|]; [|done]. cbn. rewrite andb_true_r, Z.leb_le. by apply Hp.
    + destruct pf as [l|]; [|done]. cbn. rewrite andb_true_iff, size_fmap. split; [by apply Hpf|].
      apply forallb_forall. intros x Hx%list_elem_of_In. apply list_elem_of_fmap in Hx as ([k j] & -> & _). done.
    + by apply Hh.
    + by apply Hh.
Qed.

Lemma describe_sender_valid receivers parent :
  satisfies (describe_sender receivers) parent [] = true <-> Forall wf_channel (default [] receivers).
Proof.
  unfold describe_sender. rewrite struct_valid, !Forall_cons, Forall_nil.
  destruct receivers as [l|]; cbn; [|naive_solver].
  rewrite (forallb_Forall _ _ wf_channel); [naive_solver|]. intros c. apply describe_channel_valid.
Qed.
Lemma describe_alerting_valid a parent :
  satisfies (describe_alerting a) parent [] = true <-> wf_alerting a.
Proof.
  unfold describe_alerting, wf_alerting. rewrite struct_valid, !Forall_cons, Forall_nil.
  rewrite !describe_sender_valid. cbn. tauto.
Qed.

Context `{CosignLib} `{NotationLib}.

Lemma name_valid s parent : satisfies (VStr s) parent [required] = true <-> s <> "".
Proof. cbn. by rewrite andb_true_r, negb_true_iff, bool_decide_eq_false. Qed.
Lemma type_valid s t parent : satisfies (VStr s) parent [eq_ t] = true <-> s = t.
Proof. cbn. by rewrite andb_true_r, bool_decide_eq_true. Qed.
Lemma host_valid s parent : satisfies (VStr s) parent [url] = true <-> is_url s = true.
Proof. cbn. by rewrite andb_true_r. Qed.
Lemma describe_specific_valid s parent :
  satisfies (describe_specific s) parent [] = true <-> wf_specific s.
Proof.
  unfold wf_specific. destruct s; cbn [describe_specific specific_name specific_type kind_of];
    rewrite struct_valid, !Forall_cons, Forall_nil, name_valid, type_valid,
      ?describe_auth_valid, ?describe_roots_valid, ?host_valid; cbn [satisfies]; tauto.
Qed.

(** The tags of [Validator] tie its name and type to those of the specific validator. *)
Lemma struct_of_specific s :
  sibling "Name" (struct_of (describe_specific s)) = Some (VStr (specific_name s)) /\
  sibling "Type" (struct_of (describe_specific s)) = Some (VStr (specific_type s)).
Proof. by destruct s. Qed.
Lemma describe_validator_valid v parent :
  satisfies (describe_validator v) parent [] = true <-> wf_validator v.
Proof.
  unfold describe_validator, wf_validator. rewrite struct_valid, !Forall_cons, Forall_nil.
  destruct v as [n t [s|]]; cbn [vs_Name vs_Type vs_Specific fmap option_fmap option_map].
  - destruct (struct_of_specific s) as [Hn Ht].
    change (siblings _) with [("Name", VStr n); ("Type", VStr t);
      ("SpecificValidator", VPtr (Some (VPtr (Some (describe_specific s)))))].
    change (satisfies (VPtr _) ?p [required]) with (satisfies (describe_specific s) p []).
    rewrite describe_specific_valid. unfold satisfies at 1 2, holds, string_is.
    cbn [sibling String.eqb Ascii.eqb Bool.eqb mbind option_bind struct_of is_zero]. rewrite Hn, Ht.
    rewrite !andb_true_r, !andb_true_iff, negb_true_iff, bool_decide_eq_false, !bool_decide_eq_true.
    split.
    + intros ((Hne & ->) & (Hty & ->) & Hs & _). by exists s.
    + intros (s' & [= <-] & (Hne & Hk & Hs) & -> & ->). split; [done|]. split; [|done].
      split; [|done]. rewrite Hk. destruct s; cbn; set_solver.
  - split; [|by intros (? & ? & _)]. by intros (_ & _ & Hp & _).
Qed.

Lemma describe_config_valid c parent :
  satisfies (describe_config c) parent [] = true <-> wf_config c.
Proof.
  unfold describe_config. rewrite struct_valid, !Forall_cons, Forall_nil.
  rewrite (list_valid _ _ _ wf_rule), (list_valid _ _ _ wf_validator), describe_alerting_valid
    by (intros; apply describe_rule_valid || apply describe_validator_valid).
  split; [intros (? & ? & ? & _); by split|]. by intros [? ? ?].
Qed.
End Tags_correct.

(** * What [Validate] reports *)
Section Validated.
Context `{StructLib} `{!StructSpec}.

Lemma Validate_struct n fields :
  (Validate (VStruct n fields) = Ok () <-> valid (VStruct n fields) = true) /\
  safe (Validate (VStruct n fields)).
Proof.
  destruct (Struct_struct n fields) as (errs & Hs & Herrs). unfold Validate. rewrite Hs, <- Herrs.
  destruct errs; split; try done; auto with go.
Qed.
Lemma Validate_pointer n fields :
  (Validate (VPtr (Some (VStruct n fields))) = Ok () <-> valid (VStruct n fields) = true) /\
  safe (Validate (VPtr (Some (VStruct n fields)))).
Proof.
  destruct (Struct_struct n fields) as (errs & Hs & Herrs). unfold Validate.
  rewrite Struct_pointer, Hs, <- Herrs. destruct errs; split; try done; auto with go.
Qed.

Lemma Validate_Err s e : Validate s = Err e -> has_prefix e (type_name s +:+ " has ") = true.
Proof.
  unfold Validate. destruct (Struct s) as [[|e0 errs]| |]; try done. cbv zeta. intros [= <-].
  apply has_prefix_true. cbn [sprintf show_arg]. eexists. rewrite str_app_assoc. cbn. reflexivity.
Qed.
(** The type that the message names is missing for the configuration of alerts, which is
    passed as a pointer. *)
Lemma validate_alerting_unnamed a e :
  validate_alerting a = Err e -> has_prefix e " has " = true.
Proof. intros He. by apply Validate_Err in He. Qed.

Lemma validate_config_iff `{CosignLib} `{NotationLib} (c : ConfigSettings) :
  validate_config c = Ok () <-> wf_config c.
Proof.
  unfold validate_config. rewrite <- (describe_config_valid c []). apply Validate_struct.
Qed.
Lemma validate_alerting_iff (a : AlertingSettings) : validate_alerting a = Ok () <-> wf_alerting a.
Proof.
  unfold validate_alerting. rewrite <- (describe_alerting_valid a []). apply Validate_pointer.
Qed.
End Validated.

(** C10: the struct tags of the configuration describe its well-formedness: validation
    passes exactly for well-formed configurations, those with validators whose name and
    type are those of the specific validator, trust roots of cosign and notary validators
    that are one key, one certificate or one identity (a notation validator keeps no
    trust roots with tags, so that its own are not validated), rules with a pattern, known modes and not both
    required trust roots and delegations, non-empty credentials, and receivers with a
    URL, a template and proper headers; and validation never panics. *)
Theorem validated_iff_well_formed `{StructLib} `{!StructSpec} `{CosignLib} `{NotationLib}
    (c : ConfigSettings) (a : AlertingSettings) :
  (validate_config c = Ok () <-> wf_config c) /\ (validate_alerting a = Ok () <-> wf_alerting a) /\
  safe (validate_config c) /\ safe (validate_alerting a).
Proof.
  split; [apply validate_config_iff|]. split; [apply validate_alerting_iff|].
  split; [apply Validate_struct|apply Validate_pointer].
Qed.

(** * A library for concrete runs: it reports one violation. *)
Definition demo_structs : StructLib := {|
  is_url s := has_prefix s "https://";
  Struct v :=
    let l := {| is_url s := has_prefix s "https://"; Struct _ := Ok [] |} in
    match v with
    | VPtr (Some v) | v => Ok (if valid (H := l) v then [] else ["a field is not valid"])
    end;
|}.
Definition demo_structs_spec : StructSpec (H := demo_structs).
Proof.
  split; [|done]. intros n fields. cbn [Struct demo_structs].
  set (l := {| is_url := _; Struct := _ |}).
  assert (Hv : valid (H := l) (VStruct n fields) = valid (H := demo_structs) (VStruct n fields)).
  { reflexivity. }
  rewrite Hv. eexists. split; [reflexivity|]. by destruct (valid _).
Defined.

Definition demo_alerts : AlertingSettings :=
  {| al_ClusterId := "test"; al_AdmitRequests := None; al_RejectRequests := None |}.
Definition demo_options : OptionsSettings := {|
  os_TrustRoot := "*"; os_VerifyTLog := None; os_VerifySCT := None; os_Threshold := 1;
  os_Required := None; os_Delegations := None; os_ValidationMode := ""; os_VerificationLevel := "";
  os_VerifyTimestamp := "" |}.
Definition deny_settings (pattern : string) : ConfigSettings (H := demo_cosign) (H0 := demo_notation) := {|
  c_Validators := [{| vs_Name := "deny"; vs_Type := "static"; vs_Specific :=
    Some (SStatic {| s_Name := "deny"; s_Type := "static"; Approve := false |}) |}];
  c_Rules := [{| rs_Pattern := pattern; rs_Validator := "deny"; rs_With := demo_options |}];
  c_Alerting := demo_alerts |}.

Definition validate_deny (pattern : string) : res unit :=
  validate_config (H := demo_cosign) (H0 := demo_notation) (H1 := demo_structs) (deny_settings pattern).

Lemma validated_iff_well_formed_witness :
  validate_deny "*:*" = Ok () /\ is_ok (validate_deny "") = false /\
  (validate_deny "*:*" = Ok () <-> wf_config (H1 := demo_structs) (deny_settings "*:*")) /\
  (validate_alerting (H1 := demo_structs) demo_alerts = Ok () <->
   wf_alerting (H := demo_structs) demo_alerts) /\
  safe (validate_deny "*:*") /\ safe (validate_alerting (H1 := demo_structs) demo_alerts).
Proof.
  split; [vm_compute; reflexivity|]. split; [vm_compute; reflexivity|].
  exact (validated_iff_well_formed (H := demo_structs) (H0 := demo_structs_spec) (H1 := demo_cosign)
    (H2 := demo_notation) (deny_settings "*:*") demo_alerts).
Defined.
