(* ===== verification/Mutate.v ===== *)
(** [internal/handler]: the admission webhook ([mutate.go]), the admission counters
    ([admission_metrics.go]) and the health check ([health.go]). *)
From S2P Require Import Prelude GoStrings Utils Policy Image Kube Json JsonPatch Caching.
From S2P Require Import Metrics Channels Validator Validation Alerting.
From Stdlib Require Import Ascii.

(** * The admission types *)
Record AdmissionResponse : Type := {
  r_UID : string;
  Allowed : bool;
  (** [Result.Message], when [Result] is set *)
  Result : option string;
  Patch : option string;
  PatchType : option string;
  Warnings : list string;
}.
Record AdmissionReview : Type := {
  review_APIVersion : string;
  review_Kind : string;
  Request : option AdmissionRequest;
}.

Definition deny (uid message : string) : AdmissionResponse := {|
  r_UID := uid; Allowed := false; Result := Some message; Patch := None; PatchType := None;
  Warnings := [] |}.
Definition allow (uid : string) : AdmissionResponse := {|
  r_UID := uid; Allowed := true; Result := None; Patch := None; PatchType := None; Warnings := [] |}.

(** [NotificationValues] with the fields [mutateReview] sets. *)
Definition notification (result : string) (err : option string) (images requestId pod ns : string)
  : NotificationValues := {|
  n_Result := result; n_Error := err; n_Images := images; RequestId := requestId; n_Priority := 0;
  ConnaisseurPodId := pod; Cluster := ""; n_Namespace := ns; Timestamp := ""; AlertMessage := "" |}.

(** * The JSON patch *)
Definition patch_string (path value : string) : string :=
  sprintf ("{" +:+ dq +:+ "op" +:+ dq +:+ ":" +:+ dq +:+ "replace" +:+ dq +:+ "," +:+ dq +:+ "path"
           +:+ dq +:+ ":" +:+ dq +:+ "%s" +:+ dq +:+ "," +:+ dq +:+ "value" +:+ dq +:+ ":" +:+ dq
           +:+ "%s" +:+ dq +:+ "}") [AStr path; AStr value].
Definition patch_path (wlo : WorkloadObject) (i : IdxType) : string :=
  sprintf (ContainerPathFormatString wlo) [AStr (Type_ i); AInt (Index i)].

(** The two loops over the validation results: the patches and the raw images they
    are for. *)
Definition is_patched (valOut : ValidationOutput) : bool :=
  bool_decide (out_ValidationMode valOut = MutateMode) &&
  negb (bool_decide (NewImage valOut = OldImage valOut)).
Definition patches_of (wlo : WorkloadObject) (valOut : ValidationOutput) : list (string * string) :=
  if is_patched valOut then
    (fun i => (patch_string (patch_path wlo i) (NewImage valOut), RawImage valOut)) <$> IdxsTypes valOut
  else [].
Definition jsonPatches (wlo : WorkloadObject) (validationResults : list ValidationOutput)
  : list (string * string) :=
  foldl (fun acc valOut => acc ++ patches_of wlo valOut) [] validationResults.
Definition all_skipped (validationResults : list ValidationOutput) : bool :=
  foldl (fun skipped valOut => skipped && Skipped valOut) true validationResults.

(** The response for results without an error. *)
Definition admission_response (uid : string) (wlo : WorkloadObject) (validationResults : list ValidationOutput)
  : AdmissionResponse :=
  let patches := (jsonPatches wlo validationResults).*1 in
  if 0 <? length patches then
    {| r_UID := uid; Allowed := true; Result := None;
       Patch := Some ("[" +:+ join "," patches +:+ "]"); PatchType := Some "JSONPatch";
       Warnings := [] |}
  else allow uid.

Definition failed (out : ValidationOutput) : bool := is_set (Error out).
Definition PodName := "POD_NAME".

(** [mutateReview], in the final state [s] of the validation goroutines and of the
    loop that receives their outputs. *)
Definition mutateReview `{Decoder} (env : environ) (req : AdmissionRequest)
    (s : WorkloadObject -> WorkloadObject -> state (A := ValidationOutput))
  : res (AdmissionResponse * NotificationValues) :=
  let uid := ar_UID req in
  let note result err images :=
    notification result err images uid (getenv env PodName) (ar_Namespace req) in
  match NewAdmissionRequestObjects req with
  | Panic w => Panic w
  | Err err => Ok (deny uid err, note NotificationResultInvalid None "")
  | Ok aro =>
      if Deleted (OldObj aro) then Ok (allow uid, note NotificationResultSuccess None "")
      else
        let s := s (NewObj aro) (OldObj aro) in
        let cap := length (workers s) in
        match coll s with
        | TimedOut =>
            Ok (deny uid (sprintf
                  "validation of admission request %s timed out after validating %d/%d images"
                  [AStr uid; AInt (length (received s)); AInt cap]),
                note NotificationResultTimeout None "")
        | StoppedAt valOut =>
            let err := default "" (Error valOut) in
            Ok (deny uid err, note NotificationResultError (Error valOut) (RawImage valOut))
        | _ =>
            let results := received s in
            let images := join ", " (jsonPatches (NewObj aro) results).*2 in
            let result := if all_skipped results then NotificationResultSkip
                          else NotificationResultSuccess in
            Ok (admission_response uid (NewObj aro) results, note result None images)
        end
  end.

(** * handleMutate *)

(** The effects of one request: the HTTP answer, and the counters it increments. *)
Inductive http_response : Type :=
  | http_Error (status : nat) (message : string)
  | http_Review (r : AdmissionResponse) (apiVersion kind : string).

(** The response after the alerts: an error in them denies the request. *)
Definition apply_alerts (alerts : res unit) (r : AdmissionResponse) : AdmissionResponse :=
  match alerts with
  | Err err => {| r_UID := r_UID r; Allowed := false;
                  Result := Some (sprintf " error sending notifications: %s" [AStr err]);
                  Patch := Patch r; PatchType := PatchType r; Warnings := Warnings r |}
  | _ => r
  end.

(** [response.Response.Result.Message], which needs [Result] to be set. *)
Definition result_message (r : AdmissionResponse) : res string :=
  match Result r with
  | Some m => Ok m
  | None => Panic "invalid memory address or nil pointer dereference"
  end.

(** Resource validation mode: only pods are blocked. *)
Definition resource_mode (env : environ) (kind : string) (r : AdmissionResponse)
  : res AdmissionResponse :=
  if negb (bool_decide (kind = "Pod")) && negb (BlockAllResources env) then
    warnings ← (if negb (Allowed r) then
                  m ← result_message r; Ok ["pod-only validation active"; m]
                else Ok (Warnings r));
    Ok {| r_UID := r_UID r; Allowed := true; Result := Result r; Patch := None; PatchType := None;
          Warnings := warnings |}
  else Ok r.

(** Detection mode: nothing is blocked. *)
Definition detection_mode (env : environ) (r : AdmissionResponse) : res AdmissionResponse :=
  if FeatureFlagOn env DetectionMode && negb (Allowed r) then
    m ← result_message r;
    Ok {| r_UID := r_UID r; Allowed := true; Result := Result r; Patch := Patch r;
          PatchType := PatchType r; Warnings := ["detection mode active"; m] |}
  else Ok r.

Definition count_admission (done : bool) (r : AdmissionResponse) : list counter :=
  if Allowed r then IncAdmissionsAdmitted else IncAdmissionsDenied done.

(** The request as the handler reads it: method, content type, body (an error when
    reading fails), and the decoded review (an error for invalid JSON). *)
Record http_Request : Type := {
  Method : string;
  ContentType : string;
  Body : res string;
}.

(** The concurrent parts of a request: the final state of the validations, the
    final state of the alerts, and whether the context is done at the end. *)
Record schedule : Type := {
  validations : WorkloadObject -> WorkloadObject -> state (A := ValidationOutput);
  alerts_state : NotificationValues -> state (A := option string);
  done_at_end : bool;
}.

Definition http_respond {A} (status : nat) (message : string) : res (http_response * list A) :=
  Ok (http_Error status message, []).

(** The two modes, the counters and the answer. *)
Definition answer_review (env : environ) (ar : AdmissionReview) (req : AdmissionRequest) (done : bool)
    (response : AdmissionResponse) : res (http_response * list counter) :=
  response ← resource_mode env (Kind (ar_Kind req)) response;
  response ← detection_mode env response;
  Ok (http_Review response (review_APIVersion ar) (review_Kind ar), count_admission done response).

Definition handleMutate `{Decoder} (env : environ) (unmarshal : string -> res AdmissionReview)
    (alerting : Alerting.Config) (sch : schedule) (r : http_Request)
  : res (http_response * list counter) :=
  if decide (Method r = "POST") then
    if decide (ContentType r <> "application/json") then
      http_respond 400 (sprintf "wrong content type: expected json, got %s" [AStr (ContentType r)])
    else
    match Body r with
    | Panic w => Panic w
    | Err err => http_respond 500 (sprintf "error reading request body: %s" [AStr err])
    | Ok body =>
        match unmarshal body with
        | Panic w => Panic w
        | Err err => http_respond 400 (sprintf "received invalid json: %s" [AStr err])
        | Ok ar =>
            match Request ar with
            | None => http_respond 400 "received empty admission request"
            | Some req =>
                '(reviewResponse, notificationValues) ← mutateReview env req (validations sch);
                match EvalAndSendNotifications alerting notificationValues
                        (alerts_state sch notificationValues) with
                | Panic w => Panic w
                | alerts =>
                    answer_review env ar req (done_at_end sch) (apply_alerts alerts reviewResponse)
                end
            end
        end
    end
  else http_respond 405 (sprintf "%s: %s" [AStr "Method not allowed."; AStr (Method r)]).

Definition HandleMutate `{Decoder} (env : environ) (unmarshal : string -> res AdmissionReview)
    (alerting : Alerting.Config) (sch : schedule) (r : http_Request)
  : res (http_response * list counter) :=
  '(resp, counted) ← handleMutate env unmarshal alerting sch r;
  Ok (resp, IncAdmissionsReceived ++ counted).

(** * health.go *)
Definition HandleHealth (method : string) : nat * string :=
  if decide (method = "GET") then (200, "") else (405, "Method not allowed.").

(** * The outputs of a workload's validations *)
Section Review.
Context `{NameLib} `{MapOrder} `{Decoder}.
Context (cache : Cacher).
Variable glob : string -> option (string -> bool).
Variable env : environ.
Variable config : Validation.Config.

(** [outputs] are what the goroutines send if the context stays open: one output for
    each input, validated in some state of the cache. *)
Definition validated (new old : WorkloadObject) (parents : res (list string))
    (outputs : list ValidationOutput) : Prop :=
  Forall2 (fun input out => exists st e st',
      ValidateImage cache glob env config false st input = Ok (Some out, e, st'))
    (workload_inputs new old parents) outputs.

(** A run of the goroutines and the loop that has come to its end. *)
Definition review_run (outputs : list ValidationOutput) (s : state (A := ValidationOutput)) : Prop :=
  reachable Select outputs failed s /\ returned s.

Lemma validated_output new old parents outputs out :
  validated new old parents outputs -> out ∈ outputs ->
  exists input st e st', input ∈ workload_inputs new old parents /\
    ValidateImage cache glob env config false st input = Ok (Some out, e, st').
Proof.
  intros Hv (i & Hi)%list_elem_of_lookup. unfold validated in Hv.
  destruct (Forall2_lookup_r _ _ _ _ _ Hv Hi) as (input & Hin & st & e & st' & Hrun).
  exists input, st, e, st'. split; [by eapply list_elem_of_lookup_2|done].
Qed.

Lemma elem_of_workload_inputs new old parents input :
  input ∈ workload_inputs new old parents ->
  in_Image input ∈ images_of new /\
  in_IdxsTypes input = default [] (ConsolidatedContainers new !! in_Image input) /\
  PreviousImages input = ImageSet old /\ ParentImages input = parents.
Proof.
  unfold workload_inputs. intros (img & -> & Hin)%list_elem_of_fmap. apply elem_of_range in Hin.
  split; [|done]. cbn. by apply ConsolidatedContainers_spec.
Qed.

Lemma validated_raw new old parents outputs :
  validated new old parents outputs ->
  RawImage <$> outputs = range 1 (dom (ConsolidatedContainers new)).
Proof.
  unfold validated, workload_inputs. intros Hv. revert outputs Hv.
  induction (range 1 (dom (ConsolidatedContainers new))) as [|img l IH]; intros outputs Hv;
    cbn [fmap list_fmap] in Hv; inversion Hv as [|? out ? outs Hout Hrest]; subst; [done|].
  destruct Hout as (st & e & st' & (l' & _ & Hd)%ValidateImage_sent).
  apply deferred_None in Hd as (_ & _ & Hraw & _). cbn in Hraw. cbn. rewrite Hraw. f_equal.
  by apply IH.
Qed.

(** The outputs cover the workload: each position of a container belongs to exactly
    one output, the one for its image. *)
Record covers (wlo : WorkloadObject) (outs : list ValidationOutput) : Prop := {
  covers_positions : forall out, out ∈ outs -> NoDup (IdxsTypes out) /\
    forall i, i ∈ IdxsTypes out <-> image_at wlo i = Some (RawImage out);
  covers_distinct : NoDup (RawImage <$> outs);
  covers_images : forall img, img ∈ images_of wlo <-> img ∈ RawImage <$> outs;
}.

Lemma validated_covers new old parents outputs :
  validated new old parents outputs -> covers new outputs.
Proof.
  intros Hv. pose proof (validated_raw _ _ _ _ Hv) as Hraw. split.
  - intros out Hout. destruct (validated_output _ _ _ _ _ Hv Hout) as (input & st & e & st' & Hin & Hrun).
    apply elem_of_workload_inputs in Hin as (Himg & Hidx & _).
    apply ValidateImage_sent in Hrun as (l & _ & Hd).
    apply deferred_None in Hd as (_ & _ & Hr & Hi & _). rewrite Hi, Hidx, Hr.
    destruct (ConsolidatedContainers_spec new (in_Image input)) as (Hpos & Hnd & _).
    split; [|done]. destruct (ConsolidatedContainers new !! in_Image input) as [l'|] eqn:E; cbn.
    + by apply (Hnd l').
    + constructor.
  - rewrite Hraw. apply NoDup_range.
  - intros img. rewrite Hraw, elem_of_range. symmetry. apply ConsolidatedContainers_spec.
Qed.

Lemma covers_perm wlo outs outs' : outs ≡ₚ outs' -> covers wlo outs -> covers wlo outs'.
Proof.
  intros Hp [H1' H2 H3]. split.
  - intros out Hout. apply H1'. by rewrite Hp.
  - by rewrite <- Hp.
  - intros img. by rewrite <- Hp.
Qed.

(** A review that allows the request: the old object is being deleted, or all
    outputs were received, without an error. *)
Lemma mutateReview_allowed req sch r n outputs aro :
  NewAdmissionRequestObjects req = Ok aro ->
  review_run outputs (sch (NewObj aro) (OldObj aro)) ->
  mutateReview env req sch = Ok (r, n) -> Allowed r = true ->
  Deleted (OldObj aro) = true \/
  Deleted (OldObj aro) = false /\ coll (sch (NewObj aro) (OldObj aro)) = Complete /\
  received (sch (NewObj aro) (OldObj aro)) ≡ₚ outputs /\
  Forall (fun out => Error out = None) outputs /\
  r = admission_response (ar_UID req) (NewObj aro) (received (sch (NewObj aro) (OldObj aro))).
Proof.
  intros Ha [Hr Hret] Hm Hall. unfold mutateReview in Hm. rewrite Ha in Hm.
  destruct (Deleted (OldObj aro)); [by left|]. right. split; [done|].
  pose proof (fan_out_outcome _ _ _ _ Hr) as Ho. unfold returned in Hret.
  destruct (coll (sch _ _)) eqn:Hk; try done; injection Hm as <- <-; try done.
  destruct Ho as [Hp Hf]. split; [done|]. split; [done|]. split; [|done].
  eapply Forall_impl; [exact Hf|]. intros out. unfold failed. by destruct (Error out).
Qed.
End Review.

(** C1: an admission review is allowed only if the old object is already being
    deleted or every image of the new workload was validated without an error: for
    each image the most specific rule was found and its validator returned the
    digest, or validation was skipped on one of the grounds the configuration
    permits. *)
Theorem mutateReview_admits_validated `{NameLib} `{MapOrder} `{Decoder} (cache : Cacher)
    (glob : string -> option (string -> bool)) (env : environ) (config : Validation.Config)
    (req : AdmissionRequest) (aro : AdmissionRequestObjects) (parents : res (list string))
    (outputs : list ValidationOutput)
    (sch : WorkloadObject -> WorkloadObject -> state (A := ValidationOutput))
    (r : AdmissionResponse) (n : NotificationValues) :
  NewAdmissionRequestObjects req = Ok aro ->
  validated cache glob env config (NewObj aro) (OldObj aro) parents outputs ->
  review_run outputs (sch (NewObj aro) (OldObj aro)) ->
  mutateReview env req sch = Ok (r, n) -> Allowed r = true ->
  Deleted (OldObj aro) = true \/
  forall image, image ∈ images_of (NewObj aro) ->
  exists img rule v digest img' st input,
    New image = Ok img /\ MatchingRule glob (Rules config) (Name img) = Ok rule /\
    FindValidator v_Name (Validators config) (Policy.Validator rule) = Ok v /\
    PreviousImages input = ImageSet (OldObj aro) /\ ParentImages input = parents /\
    grounds cache env st input img rule v digest img'.
Proof.
  intros Ha Hv Hrun Hm Hall.
  destruct (mutateReview_allowed env req sch r n outputs aro Ha Hrun Hm Hall)
    as [?|(_ & _ & _ & Hok & _)]; [by left|]. right. intros image Himg.
  apply (covers_images _ _ (validated_covers cache glob env config _ _ _ _ Hv)) in Himg.
  apply list_elem_of_fmap in Himg as (out & -> & Hout).
  destruct (validated_output cache glob env config _ _ _ _ _ Hv Hout)
    as (input & st & e & st' & Hin & Hrun').
  apply elem_of_workload_inputs in Hin as (_ & _ & Hprev & Hpar).
  rewrite Forall_forall in Hok.
  destruct (sound_output _ _ _ _ _ _ _ _ _ _ Hrun' (Hok out Hout))
    as (img & rule & v & digest & img' & H3 & H4 & H5 & H6 & _).
  exists img, rule, v, digest, img', st, input. done.
Qed.

(** * The JSON patch *)

(** The JSON pointer of a container's image, as a list of tokens. *)
Definition pointer (wlo : WorkloadObject) (i : IdxType) : list string :=
  (if decide (wlo_Kind wlo = "Pod") then ["spec"]
   else if decide (wlo_Kind wlo = "CronJob")
   then ["spec"; "jobTemplate"; "spec"; "template"; "spec"]
   else ["spec"; "template"; "spec"]) ++ [Type_ i; pretty (Index i); "image"].

Lemma pointer_inj wlo i j : pointer wlo i = pointer wlo j -> i = j.
Proof.
  unfold pointer. intros H%app_inv_head. injection H as H1 H2.
  apply (inj pretty) in H2. destruct i, j; cbn in *; congruence.
Qed.
Lemma pointer_length wlo i j : length (pointer wlo i) = length (pointer wlo j).
Proof. unfold pointer. by rewrite !length_app. Qed.

(** Decimal numerals are plain and have no slash. *)
Definition good_token (s : string) : Prop := json_plain s = true /\ count_byte "/" s = 0.
Lemma good_token_app a b : good_token a -> good_token b -> good_token (a +:+ b).
Proof.
  intros [H1 H2] [H3 H4]. split; [by rewrite json_plain_app, H1, H3|by rewrite count_byte_app; lia].
Qed.
Lemma good_token_pretty (n : nat) : good_token (pretty n).
Proof.
  assert (Hdig : forall d, good_token (String (pretty_N_char d) "")).
  { intros d. unfold pretty_N_char. repeat case_match; by vm_compute. }
  assert (Hgo : forall x s, good_token s -> good_token (pretty_N_go x s)).
  { intros x. induction (N.lt_wf_0 x) as [x _ IH]. intros s Hs.
    destruct (decide (0 < x)%N) as [Hx|Hx].
    - rewrite pretty_N_go_step by done. apply IH; [apply N.div_lt; lia|].
      change (String ?c s) with (String c "" +:+ s). by apply good_token_app.
    - assert (x = 0%N) as -> by lia. by rewrite pretty_N_go_0. }
  unfold pretty, pretty_nat, pretty, pretty_N. case_decide; [by vm_compute|]. apply Hgo.
  by vm_compute.
Qed.

Definition known_type (t : string) : Prop := t ∈ ["containers"; "initContainers"; "ephemeralContainers"].
Lemma image_at_type wlo i img : image_at wlo i = Some img -> known_type (Type_ i).
Proof.
  unfold image_at, containers_of, known_type. repeat case_decide; set_solver.
Qed.

Lemma patch_path_tokens wlo i : patch_path wlo i = "/" +:+ join "/" (pointer wlo i).
Proof.
  unfold patch_path, ContainerPathFormatString, pointer.
  repeat case_decide; cbn [sprintf show_arg app join]; rewrite ?app_cons, ?app_empty_l;
    by rewrite ?str_app_assoc, ?app_cons, ?app_empty_l.
Qed.

Lemma pointer_good wlo i : known_type (Type_ i) -> Forall good_token (pointer wlo i).
Proof.
  intros Ht. unfold pointer. apply Forall_app. split.
  - repeat case_decide; repeat constructor.
  - constructor; [|constructor; [apply good_token_pretty|by repeat constructor]].
    unfold known_type in Ht. rewrite !elem_of_cons, elem_of_nil in Ht.
    by destruct Ht as [->|[->|[->|[]]]].
Qed.

Lemma join_plain l : Forall good_token l -> json_plain (join "/" l) = true.
Proof.
  induction 1 as [|x l [Hx _] Hl IH]; [done|]. destruct l as [|y l]; [done|].
  cbn [join] in *. by rewrite !json_plain_app, Hx, IH.
Qed.
Lemma split_path wlo i :
  known_type (Type_ i) ->
  json_plain (patch_path wlo i) = true /\ split "/" (patch_path wlo i) = "" :: pointer wlo i.
Proof.
  intros Ht. pose proof (pointer_good wlo i Ht) as Hg. rewrite patch_path_tokens. split.
  - by rewrite json_plain_app, join_plain.
  - change ("/" +:+ join "/" (pointer wlo i)) with (join "/" ("" :: "" :: [])%list +:+ "" +:+
      join "/" (pointer wlo i)).
    change (join "/" [""; ""] +:+ "" +:+ ?x) with (String "/" x). cbn [split].
    rewrite decide_True by done. f_equal. apply FilePath.split_join.
    + unfold pointer. by destruct (decide _); [|destruct (decide _)].
    + eapply Forall_impl; [exact Hg|]. by intros x [_ ?].
Qed.

(** The edits of a list of outputs, and a patch operation as JSON. *)
Definition edits (outs : list ValidationOutput) : list (IdxType * string) :=
  concat ((fun out => if is_patched out then (fun i => (i, NewImage out)) <$> IdxsTypes out else [])
            <$> outs).
Definition edit_json (wlo : WorkloadObject) (e : IdxType * string) : json :=
  JObj [("op", JStr "replace"); ("path", JStr (patch_path wlo (fst e))); ("value", JStr (snd e))].
Definition edit_string (wlo : WorkloadObject) (e : IdxType * string) : string :=
  patch_string (patch_path wlo (fst e)) (snd e).

Lemma foldl_app_concat {A B} (f : A -> list B) l acc :
  foldl (fun acc x => acc ++ f x) acc l = acc ++ concat (f <$> l).
Proof.
  revert acc. induction l as [|x l IH]; intros acc; cbn; [by rewrite app_nil_r|].
  by rewrite IH, app_assoc.
Qed.

Lemma jsonPatches_edits wlo outs : (jsonPatches wlo outs).*1 = edit_string wlo <$> edits outs.
Proof.
  unfold jsonPatches, edits. rewrite foldl_app_concat. cbn [app].
  induction outs as [|out outs IH]; [done|]. cbn [fmap list_fmap concat].
  rewrite !fmap_app. cbn [fmap list_fmap] in IH. rewrite IH. f_equal. unfold patches_of.
  destruct (is_patched out); [|done]. by rewrite <- !list_fmap_compose.
Qed.

Definition op_tokens (path value : string) : list token :=
  [TPunct "{"; TStr "op"; TPunct ":"; TStr "replace"; TPunct ","; TStr "path"; TPunct ":"; TStr path;
   TPunct ","; TStr "value"; TPunct ":"; TStr value; TPunct "}"].
Lemma lex_op path value s :
  json_plain path = true -> json_plain value = true ->
  lex_from LNormal (patch_string path value +:+ s)
    = rest ← lex_from LNormal s; Some (op_tokens path value ++ rest).
Proof.
  intros Hp Hv.
  assert (E : patch_string path value +:+ s = String "{" (dq +:+ "op" +:+ dq +:+ String ":"
    (dq +:+ "replace" +:+ dq +:+ String "," (dq +:+ "path" +:+ dq +:+ String ":"
    (dq +:+ path +:+ dq +:+ String "," (dq +:+ "value" +:+ dq +:+ String ":"
    (dq +:+ value +:+ dq +:+ String "}" s))))))).
  { unfold patch_string. change dq with (String (Ascii false true false false false true false false) "").
    rewrite !app_cons, !app_empty_l. cbn [sprintf show_arg].
    rewrite !app_cons, ?str_app_assoc, !app_cons, ?str_app_assoc, ?app_cons, ?app_empty_l. done. }
  rewrite E. repeat first [rewrite lex_plain_quoted by done | rewrite lex_punct by done].
  by destruct (lex_from LNormal s).
Qed.

Lemma lex_ops l :
  Forall (fun pv => json_plain (fst pv) = true /\ json_plain (snd pv) = true) l -> l <> [] ->
  lex_from LNormal (join "," ((fun pv => patch_string (fst pv) (snd pv)) <$> l) +:+ "]")
    = Some (tail (concat ((fun pv => TPunct "," :: op_tokens (fst pv) (snd pv)) <$> l)) ++ [TPunct "]"]).
Proof.
  intros H Hne. induction H as [|[p v] l [Hp Hv] Hl IH]; [done|]. cbn in Hp, Hv.
  destruct l as [|pv l].
  - cbn [fmap list_fmap join concat fst snd]. rewrite lex_op by done. done.
  - cbn [fmap list_fmap join fst snd]. rewrite !str_app_assoc, lex_op by done.
    change ("," +:+ ?x) with (String "," x). rewrite lex_punct by done.
    cbn [fmap list_fmap join] in IH. rewrite IH by done. done.
Qed.

Lemma parse_op elems path value rest :
  parse_tokens (MValue, [FArr elems]) (op_tokens path value ++ rest)
    = parse_tokens (MAfter, [FArr (elems ++ [JObj [("op", JStr "replace"); ("path", JStr path);
        ("value", JStr value)]])]) rest.
Proof. reflexivity. Qed.

Lemma parse_patch l :
  Forall (fun pv => json_plain (fst pv) = true /\ json_plain (snd pv) = true) l -> l <> [] ->
  parse_json ("[" +:+ join "," ((fun pv => patch_string (fst pv) (snd pv)) <$> l) +:+ "]")
    = Some (JArr ((fun pv => JObj [("op", JStr "replace"); ("path", JStr (fst pv));
                                   ("value", JStr (snd pv))]) <$> l)).
Proof.
  intros H Hne. unfold parse_json. change ("[" +:+ ?x) with (String "[" x).
  rewrite lex_punct, lex_ops by done. cbn [mbind option_bind parse_tokens parse_token parse_value].
  assert (Hloop : forall l elems, parse_tokens (MAfter, [FArr elems])
      (concat ((fun pv => TPunct "," :: op_tokens (fst pv) (snd pv)) <$> l) ++ [TPunct "]"])
    = Some (JArr (elems ++ ((fun pv => JObj [("op", JStr "replace"); ("path", JStr (fst pv));
                                   ("value", JStr (snd pv))]) <$> l)))).
  { clear. induction l as [|[p v] l IH]; intros elems; [by cbn; rewrite app_nil_r|].
    cbn [fmap list_fmap concat fst snd]. rewrite <- app_assoc.
    change (parse_tokens (MAfter, [FArr elems]) ((TPunct "," :: ?x) ++ ?y)) with
      (parse_tokens (MValue, [FArr elems]) (x ++ y)).
    rewrite parse_op, IH, <- app_assoc. done. }
  destruct l as [|[p v] l]; [done|]. cbn [fmap list_fmap concat tail fst snd].
  change (tail ((TPunct "," :: ?x) ++ ?y)) with (x ++ y). rewrite <- app_assoc.
  change (parse_tokens (MElemOrEnd, [FArr []]) (op_tokens p v ++ ?x)) with
    (parse_tokens (MValue, [FArr []]) (op_tokens p v ++ x)).
  rewrite parse_op, Hloop. done.
Qed.

Lemma edit_operation wlo i n :
  known_type (Type_ i) -> patch_operation (edit_json wlo (i, n)) = Some (pointer wlo i, JStr n).
Proof.
  intros Ht. destruct (split_path wlo i Ht) as [_ Hs].
  unfold edit_json, patch_operation. cbn [fst snd].
  change (field "op" ?l) with (Some (JStr "replace")).
  change (field "path" ?l) with (Some (JStr (patch_path wlo i))).
  change (field "value" ?l) with (Some (JStr n)). cbn [mbind option_bind].
  by rewrite decide_True, Hs by done.
Qed.

(** Applying edits at distinct positions sets exactly those images. *)
Lemma apply_edits wlo es doc :
  Forall (fun e => known_type (Type_ (fst e))) es -> NoDup es.*1 ->
  (forall e, e ∈ es -> is_Some (pointer_get (pointer wlo (fst e)) doc)) ->
  exists doc', apply_operations (edit_json wlo <$> es) doc = Some doc' /\
    (forall i n, (i, n) ∈ es -> pointer_get (pointer wlo i) doc' = Some (JStr n)) /\
    (forall i, i ∉ es.*1 -> pointer_get (pointer wlo i) doc' = pointer_get (pointer wlo i) doc).
Proof.
  intros Ht. revert doc. induction Ht as [|[i n] es Hi Ht IH]; intros doc Hnd Hex.
  { exists doc. split; [done|]. split; [by intros i n ?%elem_of_nil|done]. }
  cbn in Hnd. apply NoDup_cons in Hnd as [Hni Hnd].
  destruct (Hex (i, n)) as [x Hx]; [by left|]. cbn in Hx, Hi.
  destruct (pointer_replace_same _ (JStr n) doc x Hx) as (d1 & Hd1 & Hg1).
  assert (Hother : forall j, j <> i ->
    pointer_get (pointer wlo j) d1 = pointer_get (pointer wlo j) doc).
  { intros j Hj. eapply pointer_replace_other; [apply (pointer_length wlo i j)| |exact Hd1].
    intros E. by apply pointer_inj in E. }
  destruct (IH d1 Hnd) as (d2 & Hd2 & Hin & Hout).
  { intros e He. destruct (decide (fst e = i)) as [<-|Hne].
    - destruct Hni. apply list_elem_of_fmap. by exists e.
    - rewrite Hother by done. apply Hex. by right. }
  exists d2. split; [|split].
  - cbn [fmap list_fmap apply_operations]. rewrite edit_operation by done.
    cbn [mbind option_bind]. by rewrite Hd1.
  - intros j m [[= -> ->]|Hj]%elem_of_cons; [|by apply Hin]. by rewrite Hout.
  - intros j [Hj1 Hj2]%not_elem_of_cons. cbn in Hj1. rewrite Hout by done. by apply Hother.
Qed.

Lemma elem_of_edits outs i n :
  (i, n) ∈ edits outs <->
  exists out, out ∈ outs /\ is_patched out = true /\ i ∈ IdxsTypes out /\ n = NewImage out.
Proof.
  unfold edits. rewrite list_elem_of_In, in_concat. split.
  - intros (l & Hl & Hin). apply list_elem_of_In, list_elem_of_fmap in Hl as (out & -> & Hout).
    destruct (is_patched out) eqn:E; [|done]. apply list_elem_of_In, list_elem_of_fmap in Hin.
    destruct Hin as (j & [= -> ->] & Hj). by exists out.
  - intros (out & Hout & E & Hi & ->).
    exists ((fun i => (i, NewImage out)) <$> IdxsTypes out). split.
    + apply list_elem_of_In, list_elem_of_fmap. exists out. by rewrite E.
    + apply list_elem_of_In, list_elem_of_fmap. by exists i.
Qed.

Lemma NoDup_edits wlo outs : covers wlo outs -> NoDup (edits outs).*1.
Proof.
  intros [Hpos Hdist _]. induction outs as [|out outs IH]; [constructor|].
  cbn in Hdist. apply NoDup_cons in Hdist as [Hnew Hdist].
  unfold edits. cbn [fmap list_fmap concat]. rewrite fmap_app. apply NoDup_app.
  destruct (Hpos out) as [Hnd Hout]; [by left|].
  assert (Hfst : (if is_patched out then (fun i => (i, NewImage out)) <$> IdxsTypes out else []).*1
    = if is_patched out then IdxsTypes out else []).
  { destruct (is_patched out); [|done]. rewrite <- list_fmap_compose. cbn. by apply list_fmap_id. }
  rewrite Hfst. split; [|split].
  - destruct (is_patched out); [done|constructor].
  - intros i Hi ([j n] & Hij & Hin)%list_elem_of_fmap. cbn in Hij. subst j.
    apply (elem_of_edits outs) in Hin as (out' & Hin' & _ & Hi' & _).
    destruct (is_patched out); [|by apply elem_of_nil in Hi].
    apply Hout in Hi. destruct (Hpos out') as [_ Hout']; [by right|]. apply Hout' in Hi'.
    destruct Hnew. apply list_elem_of_fmap. exists out'. split; [congruence|done].
  - apply IH; [|done]. intros o Ho. apply Hpos. by right.
Qed.

(** A document that holds the workload: the image of each container is found under its
    pointer. *)
Definition describes (wlo : WorkloadObject) (doc : json) : Prop :=
  forall i img, image_at wlo i = Some img -> pointer_get (pointer wlo i) doc = Some (JStr img).
(** The object after the API server has applied the patch of the response. *)
Definition patched (r : AdmissionResponse) (doc : json) : option json :=
  match Patch r with Some p => apply_patch p doc | None => Some doc end.

Lemma admit_patches uid wlo outs doc :
  covers wlo outs -> (forall out, out ∈ outs -> json_plain (NewImage out) = true) ->
  describes wlo doc ->
  exists doc', patched (admission_response uid wlo outs) doc = Some doc' /\
    forall i img, image_at wlo i = Some img ->
    exists out, out ∈ outs /\ RawImage out = img /\
      pointer_get (pointer wlo i) doc' = Some (JStr (if is_patched out then NewImage out else img)).
Proof.
  intros Hc Hplain Hdoc.
  assert (Hpos : forall i n, (i, n) ∈ edits outs -> exists img, image_at wlo i = Some img).
  { intros i n (out & Hout & _ & Hi & _)%elem_of_edits.
    exists (RawImage out). by apply (covers_positions _ _ Hc out Hout). }
  destruct (apply_edits wlo (edits outs) doc) as (doc' & Happ & Hin & Hout).
  - apply Forall_forall. intros [i n] He. destruct (Hpos _ _ He) as [img Hi].
    by eapply image_at_type.
  - by eapply NoDup_edits.
  - intros [i n] He. destruct (Hpos _ _ He) as [img Hi]. cbn. rewrite (Hdoc i img Hi). by eexists.
  - exists doc'. split.
    + unfold patched, admission_response. cbv zeta. rewrite jsonPatches_edits, length_fmap.
      destruct (edits outs) as [|e es] eqn:Ee; [done|]. rewrite <- Ee in *.
      rewrite (proj2 (Nat.ltb_lt 0 (length (edits outs)))) by (rewrite Ee; cbn; lia).
      cbn [Patch]. unfold apply_patch.
      replace (edit_string wlo <$> edits outs) with ((fun pv => patch_string (fst pv) (snd pv)) <$>
        ((fun e => (patch_path wlo (fst e), snd e)) <$> edits outs)) by
        (rewrite <- list_fmap_compose; done).
      rewrite parse_patch; [by rewrite <- list_fmap_compose| |by rewrite Ee].
      apply Forall_fmap, Forall_forall. intros [i n] He. destruct (Hpos _ _ He) as [img Hi].
      split; cbn; [by apply split_path, (image_at_type wlo i img)|].
      apply elem_of_edits in He as (o & Ho & _ & _ & ->). by apply Hplain.
    + intros i img Hi. assert (Himg : img ∈ RawImage <$> outs).
      { apply (covers_images _ _ Hc). rewrite <- entries_images.
        apply list_elem_of_fmap. exists (i, img). split; [done|]. by apply image_at_entries. }
      apply list_elem_of_fmap in Himg as (out & -> & Ho). exists out. split; [done|]. split; [done|].
      assert (Hio : i ∈ IdxsTypes out) by (by apply (covers_positions _ _ Hc out Ho)).
      destruct (is_patched out) eqn:E.
      * apply Hin, elem_of_edits. by exists out.
      * rewrite Hout; [by apply Hdoc|]. intros ([j n] & Hij & He)%list_elem_of_fmap. cbn in Hij. subst j.
        apply elem_of_edits in He as (o & Ho' & Ep & Hj & _).
        apply (covers_positions _ _ Hc o Ho') in Hj. rewrite Hi in Hj. injection Hj as Hj.
        assert (out = o) as ->; [|congruence].
        apply list_elem_of_lookup in Ho as [a Ha], Ho' as [b Hb].
        assert (a = b) as ->; [|congruence].
        eapply (NoDup_lookup _ _ _ (RawImage out) (covers_distinct _ _ Hc)).
        -- rewrite list_lookup_fmap, Ha. done.
        -- rewrite list_lookup_fmap, Hb. cbn. by rewrite Hj.
Qed.

(** C2: the patch of an allowed review, applied to the object under admission, gives
    every container the validated image of the output for its image, or leaves it
    alone if that output is in validate-only mode or has not changed the
    reference.  (The reference parser accepts only text that JSON needs not
    escape.) *)
Theorem mutateReview_patch `{NameLib} `{MapOrder} `{Decoder} (cache : Cacher)
    (glob : string -> option (string -> bool)) (env : environ) (config : Validation.Config)
    (req : AdmissionRequest) (aro : AdmissionRequestObjects) (parents : res (list string))
    (outputs : list ValidationOutput)
    (sch : WorkloadObject -> WorkloadObject -> state (A := ValidationOutput))
    (r : AdmissionResponse) (n : NotificationValues) (doc : json) :
  (forall s ref, ParseReference s = Ok ref -> json_plain s = true) ->
  NewAdmissionRequestObjects req = Ok aro -> Deleted (OldObj aro) = false ->
  validated cache glob env config (NewObj aro) (OldObj aro) parents outputs ->
  review_run outputs (sch (NewObj aro) (OldObj aro)) ->
  mutateReview env req sch = Ok (r, n) -> Allowed r = true ->
  describes (NewObj aro) doc ->
  exists doc', patched r doc = Some doc' /\
    forall i img, image_at (NewObj aro) i = Some img ->
    exists out, out ∈ outputs /\ RawImage out = img /\ Error out = None /\
      pointer_get (pointer (NewObj aro) i) doc'
        = Some (JStr (if is_patched out then NewImage out else img)).
Proof.
  intros Hplain Ha Hdel Hv Hrun Hm Hall Hdoc.
  destruct (mutateReview_allowed env req sch r n outputs aro Ha Hrun Hm Hall)
    as [?|(_ & _ & Hp & Hok & ->)]; [congruence|].
  pose proof (validated_covers cache glob env config _ _ _ _ Hv) as Hc.
  rewrite Forall_forall in Hok.
  destruct (admit_patches (ar_UID req) (NewObj aro) (received (sch (NewObj aro) (OldObj aro))) doc)
    as (doc' & Hd & Himg); [by eapply covers_perm| |done|].
  - intros out Hout. rewrite Hp in Hout.
    destruct (validated_output cache glob env config _ _ _ _ _ Hv Hout) as (inp & st & e & st' & _ & Hr).
    destruct (sound_output _ _ _ _ _ _ _ _ _ _ Hr (Hok out Hout))
      as (? & ? & ? & ? & ? & _ & _ & _ & _ & _ & _ & Hnew & _).
    unfold New in Hnew. destruct (ParseReference (NewImage out)) eqn:E; [|done..]. by eapply Hplain.
  - exists doc'. split; [done|]. intros i img Hi. destruct (Himg i img Hi) as (out & Hout & Hraw & Hg).
    exists out. rewrite Hp in Hout. split; [done|]. split; [done|]. split; [by apply Hok|done].
Qed.

(** * The whole request *)

(** A denied review carries a message. *)
Lemma denied_message `{Decoder} env req sch r n :
  mutateReview env req sch = Ok (r, n) -> Allowed r = false -> exists m, Result r = Some m.
Proof.
  unfold mutateReview. intros Hm Hd. destruct (NewAdmissionRequestObjects req) as [aro| |]; try done.
  - destruct (Deleted _); [injection Hm as <- <-; done|].
    destruct (coll _); injection Hm as <- <-; try (by eexists);
      unfold admission_response in Hd; by destruct (0 <? _) in Hd.
  - injection Hm as <- <-. by eexists.
Qed.

(** The runs of one request: whatever the decoded objects, the validations have come
    to their end, and so have the alerts. *)
Definition request_run `{Decoder} (env : environ) (alerting : Alerting.Config) (req : AdmissionRequest)
    (sch : schedule) : Prop :=
  (forall aro, NewAdmissionRequestObjects req = Ok aro ->
     exists outputs, review_run outputs (validations sch (NewObj aro) (OldObj aro))) /\
  (forall r n, mutateReview env req (validations sch) = Ok (r, n) ->
     alert_run alerting n (alerts_state sch n)).

Lemma notification_selects `{Decoder} env alerting req sch r n :
  request_run env alerting req sch -> mutateReview env req (validations sch) = Ok (r, n) ->
  exists rs, select_receivers alerting n = Ok rs.
Proof.
  intros [Hrev _] Hm. unfold mutateReview in Hm.
  destruct (NewAdmissionRequestObjects req) as [aro| |] eqn:Ea; [| |done].
  - destruct (Hrev aro eq_refl) as (outputs & Hr & Hret).
    pose proof (fan_out_outcome _ _ _ _ Hr) as Ho. unfold returned in Hret.
    destruct (Deleted _); [injection Hm as <- <-; by eexists|].
    destruct (coll _) as [| |v| |]; try done; injection Hm as <- <-; try (by eexists).
    + destruct Ho as [Hst _]. unfold failed in Hst. unfold select_receivers. cbn.
      destruct (Error v) as [e|]; [by eexists|done].
    + unfold select_receivers. cbn. destruct (all_skipped _); by eexists.
  - injection Hm as <- <-. by eexists.
Qed.

(** The alerts of a request panic only if one of its receivers does. *)
Lemma alerts_panic `{Decoder} env alerting req sch r n w :
  request_run env alerting req sch -> mutateReview env req (validations sch) = Ok (r, n) ->
  EvalAndSendNotifications alerting n (alerts_state sch n) = Panic w ->
  exists rs stream m s, select_receivers alerting n = Ok (rs, stream, m) /\ s ∈ rs /\
    Send s (sent_values alerting n m) = Panic w.
Proof.
  intros Hrun Hm Hw. destruct (notification_selects _ _ _ _ _ _ Hrun Hm) as [[[rs st] m] Hs].
  destruct Hrun as [_ Hal]. pose proof (eval_result _ _ _ (Hal r n Hm)) as H0.
  rewrite Hs, Hw in H0. destruct H0 as (s & Hin & Hp). by exists rs, st, m, s.
Qed.

(** What relaxes the verdict on a kind: pod-only validation for other kinds, or
    detection mode. *)
Definition relaxed (env : environ) (kind : string) : bool :=
  (negb (bool_decide (kind = "Pod")) && negb (BlockAllResources env)) || FeatureFlagOn env DetectionMode.

Lemma modes_spec env kind r :
  (Allowed r = false -> exists m, Result r = Some m) ->
  exists r', (r1 ← resource_mode env kind r; detection_mode env r1) = Ok r' /\
    Allowed r' = relaxed env kind || Allowed r /\
    Patch r' = (if negb (bool_decide (kind = "Pod")) && negb (BlockAllResources env)
                then None else Patch r).
Proof.
  intros Hmsg. unfold resource_mode, relaxed, result_message.
  destruct (negb (bool_decide (kind = "Pod")) && negb (BlockAllResources env)); cbn [orb].
  - destruct (Allowed r) eqn:Ea; cbn [negb mbind res_bind].
    + unfold detection_mode. cbn [Allowed negb]. rewrite andb_false_r. by eexists.
    + destruct (Hmsg eq_refl) as [m ->]. cbn [mbind res_bind]. unfold detection_mode.
      cbn [Allowed negb]. rewrite andb_false_r. by eexists.
  - cbn [mbind res_bind]. unfold detection_mode, result_message.
    destruct (FeatureFlagOn env DetectionMode) eqn:Ed; cbn [andb orb]; [|by eexists].
    destruct (Allowed r) eqn:Ea; cbn [negb]; [by eexists|].
    destruct (Hmsg eq_refl) as [m ->]. by eexists.
Qed.

Lemma answer_spec env ar req done r :
  (Allowed r = false -> exists m, Result r = Some m) ->
  exists r', answer_review env ar req done r =
      Ok (http_Review r' (review_APIVersion ar) (review_Kind ar), count_admission done r') /\
    Allowed r' = relaxed env (Kind (ar_Kind req)) || Allowed r /\
    Patch r' = (if negb (bool_decide (Kind (ar_Kind req) = "Pod")) && negb (BlockAllResources env)
                then None else Patch r).
Proof.
  intros Hmsg. destruct (modes_spec env (Kind (ar_Kind req)) r Hmsg) as (r' & Hr & Ha & Hp).
  exists r'. split; [|done]. unfold answer_review. apply bind_Ok in Hr as (r1 & -> & Hr2).
  cbn [mbind res_bind]. by rewrite Hr2.
Qed.

(** C3: a well-formed request whose review does not panic is answered with a review
    response and counted once as received and once as admitted or denied, unless a
    receiver of its alerts panics.  Outside pod-only validation and detection mode it
    is admitted exactly when the review allows it and no alert that must succeed
    failed; the patch is dropped only by pod-only validation.

    Both modes are applied after the alerts: they admit also when an alert of a
    receiver with [failIfAlertSendingFails] failed.  That is not what
    [charts/connaisseur/values.yaml] and [docs/features/alerting.md] say, by which such
    a failure denies the deployment even in detection mode. *)
Theorem HandleMutate_verdict `{Decoder} (env : environ) (unmarshal : string -> res AdmissionReview)
    (alerting : Alerting.Config) (sch : schedule) (r : http_Request) (body : string)
    (ar : AdmissionReview) (req : AdmissionRequest) (rev : AdmissionResponse) (n : NotificationValues) :
  Method r = "POST" -> ContentType r = "application/json" -> Body r = Ok body ->
  unmarshal body = Ok ar -> Request ar = Some req ->
  request_run env alerting req sch ->
  mutateReview env req (validations sch) = Ok (rev, n) ->
  let alerts := EvalAndSendNotifications alerting n (alerts_state sch n) in
  (exists w rs stream m s, alerts = Panic w /\ HandleMutate env unmarshal alerting sch r = Panic w /\
     select_receivers alerting n = Ok (rs, stream, m) /\ s ∈ rs /\
     Send s (sent_values alerting n m) = Panic w) \/
  safe alerts /\
  exists resp, HandleMutate env unmarshal alerting sch r =
      Ok (http_Review resp (review_APIVersion ar) (review_Kind ar),
          (numAdmissionsReceived, []) :: (if Allowed resp then [(numAdmissionsAdmitted, [])]
            else [(numAdmissionsDenied, [if done_at_end sch then "true" else "false"])])) /\
    Allowed resp = relaxed env (Kind (ar_Kind req)) || (Allowed rev && is_ok alerts) /\
    Patch resp = (if negb (bool_decide (Kind (ar_Kind req) = "Pod")) && negb (BlockAllResources env)
                  then None else Patch rev).
Proof.
  intros H1 H2 H3 H4 H5 Hrun Hm alerts.
  assert (Hreq : HandleMutate env unmarshal alerting sch r
    = ('(resp, counted) ← match alerts with
         | Panic w => Panic w
         | a => answer_review env ar req (done_at_end sch) (apply_alerts a rev)
         end; Ok (resp, IncAdmissionsReceived ++ counted))).
  { unfold HandleMutate, handleMutate. rewrite decide_True, H2, decide_False, H3, H4, H5, Hm by tauto.
    cbn [mbind res_bind]. fold alerts. by destruct alerts. }
  assert (Hcase : (exists w, alerts = Panic w) \/ safe alerts)
    by (destruct alerts as [| |w]; [by right|by right|left; by exists w]).
  destruct Hcase as [[w Hw]|Hok].
  - left. destruct (alerts_panic _ _ _ _ _ _ _ Hrun Hm Hw) as (rs & st & m & s & Hsel & Hin & Hs).
    exists w, rs, st, m, s. by rewrite Hreq, Hw.
  - right. split; [done|].
    destruct (answer_spec env ar req (done_at_end sch) (apply_alerts alerts rev))
      as (resp & Hans & Hall & Hp).
    { destruct alerts as [|e|w]; cbn; [by eapply denied_message|by eexists|by destruct (Hok w)]. }
    exists resp. split; [|split].
    + rewrite Hreq. destruct alerts as [u|e|w]; [| |by destruct (Hok w)];
        rewrite Hans; unfold count_admission, IncAdmissionsAdmitted, IncAdmissionsDenied, IncAdmissionsReceived;
        by destruct (Allowed resp), (done_at_end sch).
    + rewrite Hall. destruct alerts as [u|e|w]; cbn; [by rewrite andb_true_r|by rewrite andb_false_r|
        by destruct (Hok w)].
    + rewrite Hp. by destruct alerts.
Qed.

(** * A concrete request: a deployment with a container and an init container that
    share an image, validated by a signature *)
Definition plain_lib : NameLib := {|
  ParseReference s := if json_plain s then ParseReference (NameLib := demo_lib) s else Err "invalid";
  NewRegistry := NewRegistry (NameLib := demo_lib);
  NewRepository := NewRepository (NameLib := demo_lib) |}.
Definition app_decoder : Decoder := {| Decode raw kind into :=
  (Some (Deployment demo_meta {| spec_Containers := [{| c_Image := "reg.io/app:1" |}];
     spec_InitContainers := [{| c_Image := "reg.io/app:1" |}]; spec_EphemeralContainers := [] |}),
   None) |}.
Definition app_request : AdmissionRequest := {|
  ar_UID := "1"; ar_Kind := demo_kind "Deployment"; ar_Namespace := "default";
  ar_Operation := "CREATE"; ar_Object := "deployment"; ar_OldObject := "" |}.
Definition app_wlo : WorkloadObject := {|
  wlo_Name := "web"; wlo_Kind := "Deployment"; wlo_Namespace := "default";
  Containers := [{| c_Image := "reg.io/app:1" |}]; InitContainers := [{| c_Image := "reg.io/app:1" |}];
  EphemeralContainers := []; Owners := []; Deleted := false |}.
Definition app_aro : AdmissionRequestObjects := {|
  NewObj := app_wlo; OldObj := emptyWLO; aro_Kind := "Deployment"; aro_Namespace := "default";
  aro_Operation := "CREATE" |}.
Definition app_out : ValidationOutput := {|
  IdxsTypes := [{| Index := 0; Type_ := "containers" |}; {| Index := 0; Type_ := "initContainers" |}];
  RawImage := "reg.io/app:1"; NewImage := "reg.io/app:1@sha256:abc"; OldImage := "reg.io/app:1";
  Error := None; out_Validator := "signed"; Skipped := false; SkipReason := "";
  out_ValidationMode := "mutate" |}.
Definition app_schedule : WorkloadObject -> WorkloadObject -> state (A := ValidationOutput) :=
  fun _ _ => Build_state [Finished true] [] [app_out] false Complete.
Definition app_response : AdmissionResponse := admission_response "1" app_wlo [app_out].
Definition app_note : NotificationValues :=
  notification "success" None "reg.io/app:1, reg.io/app:1" "1" "" "default".

Lemma app_run : review_run [app_out] (app_schedule app_wlo emptyWLO).
Proof.
  split; [|done]. unfold reachable, init, app_schedule. cbn.
  eapply relations.rtc_l; [eapply (step_ready _ _ _ 0); done|]. cbn.
  eapply relations.rtc_l; [eapply (step_send _ _ _ 0 app_out); cbn; (done || lia)|]. cbn.
  eapply relations.rtc_l; [eapply (step_receive _ _ _ app_out []); cbn; (done || lia)|]. cbn.
  eapply relations.rtc_l; [eapply step_complete; done|]. apply relations.rtc_refl.
Defined.
Lemma app_validated :
  validated (H := plain_lib) EmptyCache demo_glob strict_env signed_config app_wlo emptyWLO (Ok [])
    [app_out].
Proof.
  unfold validated. vm_compute workload_inputs. constructor; [|constructor].
  exists tt, (Succeeded "cosign" "signed" None), tt. vm_compute. reflexivity.
Defined.

Lemma mutateReview_admits_validated_witness :
  Deleted (OldObj app_aro) = true \/
  forall image, image ∈ images_of app_wlo ->
  exists img rule v digest img' st input,
    New (H := plain_lib) image = Ok img /\
    MatchingRule demo_glob (Rules signed_config) (Name img) = Ok rule /\
    FindValidator v_Name (Validators signed_config) (Policy.Validator rule) = Ok v /\
    PreviousImages input = ImageSet emptyWLO /\ ParentImages input = Ok [] /\
    grounds EmptyCache strict_env st input img rule v digest img'.
Proof.
  apply (mutateReview_admits_validated (H := plain_lib) (H1 := app_decoder) EmptyCache demo_glob
    strict_env signed_config app_request app_aro (Ok []) [app_out] app_schedule app_response app_note).
  - vm_compute. reflexivity.
  - exact app_validated.
  - exact app_run.
  - vm_compute. reflexivity.
  - reflexivity.
Defined.

Definition app_container (image : string) : json := JArr [JObj [("name", JStr "app"); ("image", JStr image)]].
Definition app_doc (image : string) : json :=
  JObj [("kind", JStr "Deployment"); ("spec", JObj [("replicas", JNum "2");
    ("template", JObj [("spec", JObj [("containers", app_container image);
                                      ("initContainers", app_container image)])])])].

Lemma mutateReview_patch_witness :
  patched app_response (app_doc "reg.io/app:1") = Some (app_doc "reg.io/app:1@sha256:abc") /\
  exists doc', patched app_response (app_doc "reg.io/app:1") = Some doc' /\
    forall i img, image_at app_wlo i = Some img ->
    exists out, out ∈ [app_out] /\ RawImage out = img /\ Error out = None /\
      pointer_get (pointer app_wlo i) doc'
        = Some (JStr (if is_patched out then NewImage out else img)).
Proof.
  split; [vm_compute; reflexivity|].
  apply (mutateReview_patch (H := plain_lib) (H1 := app_decoder) EmptyCache demo_glob strict_env
    signed_config app_request app_aro (Ok []) [app_out] app_schedule app_response app_note).
  - intros s ref. cbn. by destruct (json_plain s).
  - vm_compute. reflexivity.
  - reflexivity.
  - exact app_validated.
  - exact app_run.
  - vm_compute. reflexivity.
  - reflexivity.
  - intros [idx t] img. unfold image_at, containers_of. cbn [Type_ Index].
    repeat case_decide; subst; try done; (destruct idx as [|[|idx]]; [|done..]); intros [= <-];
      vm_compute; reflexivity.
Defined.

(** Detection mode, and a receiver of admissions that must be notified but fails. *)
Definition detecting_env : environ := fun k =>
  if decide (k = DetectionMode) then Some "true" else strict_env k.
Definition failing_alerting : Alerting.Config :=
  {| ClusterId := ""; AdmitRequests := [demo_sender true (Err "503")]; RejectRequests := [] |}.
Definition app_sch : schedule := {|
  validations := app_schedule; alerts_state _ := demo_alert_state; done_at_end := false |}.
Definition app_review : AdmissionReview :=
  {| review_APIVersion := "v1"; review_Kind := "AdmissionReview"; Request := Some app_request |}.
Definition app_post : http_Request :=
  {| Method := "POST"; ContentType := "application/json"; Body := Ok "{}" |}.

Lemma app_request_run : request_run (H := app_decoder) detecting_env failing_alerting app_request app_sch.
Proof.
  split.
  - intros aro Ha. exists [app_out]. vm_compute in Ha. injection Ha as <-. exact app_run.
  - intros r n Hm. vm_compute in Hm. injection Hm as <- <-. exact demo_alert_run.
Defined.

(** The alert fails and the request is admitted. *)
Lemma HandleMutate_verdict_witness :
  EvalAndSendNotifications failing_alerting app_note demo_alert_state =
    Err "failed sending a notification for receiver opsgenie-0 with FailOnError set: 503" /\
  exists resp, HandleMutate (H := app_decoder) detecting_env (fun _ => Ok app_review) failing_alerting
      app_sch app_post =
      Ok (http_Review resp "v1" "AdmissionReview",
          (numAdmissionsReceived, []) :: (if Allowed resp then [(numAdmissionsAdmitted, [])]
            else [(numAdmissionsDenied, ["false"])])) /\
    Allowed resp = true /\ Patch resp = Patch app_response.
Proof.
  split; [reflexivity|].
  destruct (HandleMutate_verdict (H := app_decoder) detecting_env (fun _ => Ok app_review) failing_alerting
    app_sch app_post "{}" app_review app_request app_response app_note) as [Hbad|[_ Hok]];
    [reflexivity|reflexivity|reflexivity|reflexivity|reflexivity|exact app_request_run|reflexivity| |exact Hok].
  destruct Hbad as (w & rs & st & m & s & Hp & _). discriminate Hp.
Defined.
