(* ===== verification/Wiring.v ===== *)
(** [cmd/connaisseur/main.go], [internal/config/config.go] and
    [internal/alert/config.go]: the loading of the configuration, the choice of the
    specific validator and the set-up of the server, with what the validators mean
    for the patch of an admission. *)
From S2P Require Import Prelude GoStrings Utils Policy FilePath Image Kube Json Caching Metrics.
From S2P Require Import Validator Validation History Auth Cosign NotaryServer Notary Notation Alerting Settings Mutate.
From Stdlib Require Import Ascii.

(** * Loading *)
Definition ConfigDir := "/app/config".
Definition AlertDir := "/app/alerts".

(** A configuration file: the path is sanitized, the file read, decoded with known
    fields only and validated.  A configuration that is not valid ends the process
    ([logrus.Fatal]). *)
Definition load_file `{FileSystem} {C} (decode : string -> res C) (validate : C -> res ())
    (baseDir : string) (pathElements : list string) : res C :=
  match SafeFileName baseDir pathElements with
  | Panic w => Panic w
  | Err _ => Err (sprintf "error sanitizing file with baseDir %s and pathElements %s"
                    [AStr baseDir; AStr (quote_slice pathElements)])
  | Ok file =>
      text ← map_err (fun err => sprintf "error loading file: %s" [AStr err]) (read_file file);
      conf ← map_err (fun err => sprintf "error parsing file: %s" [AStr err]) (decode text);
      match validate conf with
      | Ok _ => Ok conf
      | Err err => Panic err
      | Panic w => Panic w
      end
  end.

Section Wiring.
Context `{FileSystem} `{CosignLib} `{NotationLib} `{StructLib}.
(** The decoders of [yaml.v3] for the two files. *)
Variable decode_config : string -> res ConfigSettings.
Variable decode_alerting : string -> res AlertingSettings.

Definition Load : string -> list string -> res ConfigSettings :=
  load_file decode_config validate_config.
Definition LoadConfig : string -> list string -> res AlertingSettings :=
  load_file decode_alerting validate_alerting.

(** [logrus.Fatalf] ends the process. *)
Definition fatal {A} (what : string) (r : res A) : res A :=
  match r with Err err => Panic (what +:+ err) | r => r end.
Definition loadConfigs : res (ConfigSettings * AlertingSettings) :=
  config ← fatal "error loading config: " (Load ConfigDir ["/config.yaml"]);
  alerting ← fatal "error loading alerting config: " (LoadConfig AlertDir ["/config.yaml"]);
  Ok (config, alerting).
End Wiring.

(** What the context of every request carries.  [NewForConfig] returns a client (or
    nil) and an error; the error is logged and the client kept. *)
Record server_context `{CosignLib} `{NotationLib} : Type := {
  sc_Config : ConfigSettings;
  sc_Alerting : AlertingSettings;
  sc_Cache : cacher_config;
  sc_KubeAPI : option Kube.Client;
}.
Definition startServer `{CosignLib} `{NotationLib} (env : environ) (InClusterConfig : res ())
    (NewForConfig : option Kube.Client * option string) (config : ConfigSettings)
    (alerting : AlertingSettings) : server_context := {|
  sc_Config := config; sc_Alerting := alerting; sc_Cache := NewCacher env;
  sc_KubeAPI :=
    if FeatureFlagOn env AutomaticChildApproval
    then if is_ok InClusterConfig then fst NewForConfig else None
    else None |}.

(** * The specific validators *)

(** What the decoder finds in the mapping of one validator, as each of the types. *)
Record validator_document `{CosignLib} `{NotationLib} : Type := {
  as_static : res StaticValidator;
  as_cosign : res CosignValidatorYaml;
  as_notary : res NotaryV1Validator;
  as_notation : res NotationValidatorYaml;
}.

Section Validators.
Context `{CosignLib} `{NotationLib} `{KeyLib} `{NotaryHttp} `{NameLib} `{MapOrder} `{ArrivalOrder}.
Variable VerifyImageSignatures : Image -> CheckOpts -> res (list signature).
Variable Resolve : Client -> string -> string -> res string.
Variable Verify : Client -> Document -> (StoreType -> string -> res (list certificate)) ->
  string -> VerifyOptions -> res string.
(** The state of the shared registry client and the progress of the context at the
    time of the call. *)
Variable client : Client.
Variables done1 done2 : nat -> bool.

(** The methods behind the interface [SpecificValidator]; a nil interface has none. *)
Definition interface (s : option Specific) : Validator.Validate :=
  match s with
  | Some (SStatic v) => static_validate v
  | Some (SCosign v) => cosign_validate VerifyImageSignatures v
  | Some (SNotary v) => notary_validate done1 done2 v
  | Some (SNotation v) => notation_validate Resolve Verify client v
  | None => {| validate img _ := (img, Panic "invalid memory address or nil pointer dereference") |}
  end.
Definition validator_of (v : ValidatorSettings) : Validator := {|
  v_Name := vs_Name v; v_Type := vs_Type v; SpecificValidator := interface (vs_Specific v) |}.
(** The configuration as the handlers read it. *)
Definition config_of (c : ConfigSettings) : Validation.Config := {|
  Validators := validator_of <$> c_Validators c; Rules := rule_of <$> c_Rules c |}.

Definition load_specific (doc : validator_document) (type_ : string) : res Specific :=
  if decide (type_ = StaticValidatorType) then v ← as_static doc; Ok (SStatic v)
  else if decide (type_ = CosignValidatorType) then v ← Cosign.UnmarshalYAML (as_cosign doc); Ok (SCosign v)
  else if decide (type_ = NotaryV1ValidatorType) then v ← Notary.UnmarshalYAML (as_notary doc); Ok (SNotary v)
  else v ← Notation.UnmarshalYAML (as_notation doc); Ok (SNotation v).

Definition load_validator (vData : res (list (string * yaml))) (doc : validator_document)
  : res ValidatorSettings :=
  Validator.UnmarshalYAML (fun name type_ s => {| vs_Name := name; vs_Type := type_; vs_Specific := Some s |})
    vData (load_specific doc).

(** Only the notation validator writes to the image. *)
Lemma interface_preserves s :
  (forall v, s <> Some (SNotation v)) -> preserves_image (interface s).
Proof.
  intros Hs. destruct s as [[v|v|v|v]|]; try by intros img opts.
  - apply static_preserves.
  - by destruct (Hs v).
Qed.
(** None writes to the text of its reference. *)
Lemma interface_original s img opts :
  original (fst (validate (interface s) img opts)) = original img.
Proof.
  destruct s as [[v|v|v|v]|]; cbn; try done.
  - unfold static_ValidateImage. by destruct (Approve v).
  - apply notation_original.
Qed.

(** A loaded validator has one of the four types and the specific validator of it. *)
Lemma load_validator_type vData doc v :
  load_validator vData doc = Ok v ->
  vs_Type v ∈ [StaticValidatorType; CosignValidatorType; NotaryV1ValidatorType; NotationValidatorType] /\
  exists s, vs_Specific v = Some s /\ load_specific doc (vs_Type v) = Ok s /\ kind_of s = vs_Type v.
Proof.
  unfold load_validator, Validator.UnmarshalYAML. intros (l & _ & Hl)%bind_Ok.
  apply bind_Ok in Hl as (n & _ & Hl). apply bind_Ok in Hl as (n' & _ & Hl).
  apply bind_Ok in Hl as (t & _ & Hl). apply bind_Ok in Hl as (t' & _ & Hl).
  case_decide as Ht; [|discriminate]. apply bind_Ok in Hl as (sv & Hs & [= <-]).
  split; [done|]. exists sv. split; [done|]. split; [done|]. cbn in Hs |- *. unfold load_specific in Hs.
  repeat case_decide; apply bind_Ok in Hs as (x & _ & [= <-]); cbn; try done. set_solver.
Qed.
End Validators.

(** * The patch and the validators *)
Section Patches.
Context `{NameLib} `{CosignLib} `{NotationLib} `{KeyLib} `{NotaryHttp} `{MapOrder} `{ArrivalOrder}.
Context `{StructLib} `{!StructSpec}.
Variable verify : Image -> CheckOpts -> res (list signature).
Variable resolve : Client -> string -> string -> res string.
Variable check : Client -> Document -> (StoreType -> string -> res (list certificate)) ->
  string -> VerifyOptions -> res string.
Variable client : Client.
Variables done1 done2 : nat -> bool.

Notation config_of := (config_of verify resolve check client done1 done2).
Notation interface := (interface verify resolve check client done1 done2).

(** The validator of a valid configuration that an output names. *)
Lemma config_validator (c : ConfigSettings) key v :
  validate_config c = Ok () ->
  FindValidator v_Name (Validators (config_of c)) key = Ok v ->
  exists w s, w ∈ c_Validators c /\ vs_Name w = v_Name v /\ vs_Type w = v_Type v /\
    vs_Specific w = Some s /\ SpecificValidator v = interface (Some s) /\ kind_of s = v_Type v.
Proof.
  intros Hc%validate_config_iff Hv%FindValidator_elem. destruct Hc as [[_ Hwf] _ _].
  apply list_elem_of_fmap in Hv as (w & -> & Hw). rewrite Forall_forall in Hwf.
  destruct (Hwf w Hw) as (s & Hs & (_ & Hk & _) & _ & Ht). exists w, s. cbn. rewrite Hs. repeat (split; [done|]).
  congruence.
Qed.

(** C16: unless its validator is a notation validator, an image admitted under a valid
    configuration is patched in the mode [mutate] exactly when the validated digest
    changes its name: the image the new reference is compared with is the one that
    was sent. *)
Theorem patched_if_changed (cache : Cacher) (glob : string -> option (string -> bool)) (env : environ)
    (c : ConfigSettings) (done : bool) (s s' : store) (input : ValidationInput)
    (out : ValidationOutput) (e : event) :
  validate_config c = Ok () ->
  (forall v, v ∈ c_Validators c -> vs_Name v = out_Validator out -> vs_Type v <> NotationValidatorType) ->
  Validation.ValidateImage cache glob env (config_of c) done s input = Ok (Some out, e, s') ->
  Error out = None ->
  exists img digest, New (RawImage out) = Ok img /\
    NewImage out = Name (SetDigest img digest) /\
    (is_patched out = true <->
     out_ValidationMode out = MutateMode /\ Name (SetDigest img digest) <> Name img).
Proof.
  intros Hc Hty Hrun Herr. destruct (sound_output _ _ _ _ _ _ _ _ _ _ Hrun Herr)
    as (img & rule & v & digest & img' & Hi & _ & Hv & Hg & Ho & Hn & _ & Hname & _).
  exists img, digest.
  assert (img' = img) as ->.
  { destruct Hg as [digest img' Hval| | |]; [|done..].
    destruct (config_validator _ _ _ Hc Hv) as (w & sp & Hw & Hwn & Hwt & _ & Hsp & Hk).
    assert (Hp : preserves_image (SpecificValidator v)).
    { rewrite Hsp. apply interface_preserves. intros nv [= ->].
      apply (Hty w Hw); [congruence|]. cbn in Hk. congruence. }
    specialize (Hp img (With rule)). unfold Validator.ValidateImage in Hval. by rewrite Hval in Hp. }
  split; [done|]. split; [done|]. unfold is_patched. rewrite andb_true_iff, negb_true_iff.
  rewrite bool_decide_eq_true, bool_decide_eq_false, Ho, Hn. done.
Qed.

(** C17: an image without a digest that a notation validator has just accepted is not
    patched, whatever the mode: the validator has written the digest it resolved
    into the shared image, so the old reference already has it (given that
    [notation.Verify] returns the digest of the reference it verified).  The object
    is admitted with the tag. *)
Theorem notation_tag_not_patched
    (check_digest : forall cl doc certs repo d d',
       check cl doc certs repo (verifyOptions repo d) = Ok d' -> d' = d)
    (cache : Cacher) (glob : string -> option (string -> bool)) (env : environ)
    (c : ConfigSettings) (done : bool) (s s' : store) (input : ValidationInput)
    (out : ValidationOutput) (e : event) :
  validate_config c = Ok () ->
  (forall v, v ∈ c_Validators c -> vs_Name v = out_Validator out -> vs_Type v = NotationValidatorType) ->
  Validation.ValidateImage cache glob env (config_of c) done s input = Ok (Some out, e, s') ->
  Error out = None -> Skipped out = false ->
  is_patched out = false /\ NewImage out = OldImage out.
Proof.
  intros Hc Hall Hrun Herr Hsk. destruct (sound_output_skipped _ _ _ _ _ _ _ _ _ _ Hrun Herr)
    as (img & rule & v & digest & img' & (Hi & _ & Hv & _ & Ho & Hn & _ & Hname & _) & Hval).
  specialize (Hval Hsk). unfold Validator.ValidateImage in Hval.
  destruct (config_validator _ _ _ Hc Hv) as (w & sp & Hw & Hwn & Hwt & _ & Hsp & Hk).
  rewrite <- Hwt, (Hall w Hw) in Hk by congruence.
  destruct sp as [?|?|?|nv]; [discriminate Hk..|]. rewrite Hsp in Hval. cbn in Hval.
  destruct (ValidateImage resolve check client nv img (With rule)) as [[cl i] r] eqn:Er.
  injection Hval as -> ->. pose proof (accepted_image _ _ _ _ _ _ _ _ _ Er) as Himg.
  apply accepted_run in Er as (doc & _ & _ & Hi' & Hcd). apply check_digest in Hcd as ->.
  assert (Hwf : wf_image img') by (destruct Himg as [-> | ->]; eauto with go).
  assert (Heq : NewImage out = OldImage out) by (by rewrite Hn, Ho, SetDigest_self).
  split; [|done]. unfold is_patched. rewrite (bool_decide_eq_true_2 _ Heq). apply andb_false_r.
Qed.
End Patches.

Lemma fatal_Ok {A} what (r : res A) a : fatal what r = Ok a <-> r = Ok a.
Proof. destruct r; naive_solver. Qed.

Lemma load_file_Ok `{FileSystem} {C} (decode : string -> res C) validate dir elems c :
  load_file decode validate dir elems = Ok c <-> exists file text,
    SafeFileName dir elems = Ok file /\ read_file file = Ok text /\ decode text = Ok c /\
    validate c = Ok ().
Proof.
  unfold load_file. destruct (SafeFileName dir elems) as [f| |];
    [|split; [done|intros (? & ? & ? & _); done]..].
  rewrite bind_Ok. setoid_rewrite map_err_Ok. setoid_rewrite bind_Ok. setoid_rewrite map_err_Ok. split.
  - intros (t & Ht & c' & Hc & Hv). exists f, t.
    destruct (validate c') as [[]| |] eqn:E; [|discriminate..]. injection Hv as <-. done.
  - intros (f' & t & [= <-] & Ht & Hc & Hv). exists t. split; [done|]. exists c. by rewrite Hv.
Qed.

Lemma SafeFileName_below `{FileSystem} dir file :
  SafeFileName dir ["/config.yaml"] = Ok file ->
  Abs dir = Ok dir -> Dir (Clean (dir +:+ "/" +:+ "/config.yaml")) = dir ->
  has_prefix file (dir +:+ "/") = true.
Proof.
  unfold SafeFileName. intros Hs Ha Hd. rewrite Ha in Hs. cbn [map_err mbind res_bind foldM_res] in Hs.
  unfold resolve_element in Hs. cbv zeta in Hs. destruct (has_prefix (Clean _) dir); [|discriminate].
  cbn [mbind res_bind] in Hs. apply bind_Ok in Hs as (f & _ & Hs). rewrite Hd in Hs.
  destruct (has_prefix f (dir +:+ "/")) eqn:E; [|discriminate]. by injection Hs as <-.
Qed.

Lemma loadConfigs_iff `{FileSystem} `{CosignLib} `{NotationLib} `{StructLib} `{!StructSpec}
    decode_config decode_alerting (config : ConfigSettings) (alerting : AlertingSettings) :
  loadConfigs decode_config decode_alerting = Ok (config, alerting) <->
  exists file text file' text',
    SafeFileName "/app/config" ["/config.yaml"] = Ok file /\ has_prefix file "/app/config/" = true /\
    read_file file = Ok text /\ decode_config text = Ok config /\ wf_config config /\
    SafeFileName "/app/alerts" ["/config.yaml"] = Ok file' /\ has_prefix file' "/app/alerts/" = true /\
    read_file file' = Ok text' /\ decode_alerting text' = Ok alerting /\ wf_alerting alerting.
Proof.
  unfold loadConfigs, Load, LoadConfig. split.
  - intros (c & Hl%fatal_Ok & Hrun)%bind_Ok. apply bind_Ok in Hrun as (a & Hl'%fatal_Ok & [= -> ->]).
    apply load_file_Ok in Hl as (f & t & Hf & Ht & Hc & Hv%validate_config_iff).
    apply load_file_Ok in Hl' as (f' & t' & Hf' & Ht' & Ha & Hv'%validate_alerting_iff).
    exists f, t, f', t'. split; [done|].
    split; [by apply (SafeFileName_below _ _ Hf)|]. repeat (split; [done|]).
    split; [by apply (SafeFileName_below _ _ Hf')|]. done.
  - intros (f & t & f' & t' & Hf & _ & Ht & Hc & Hv%validate_config_iff & Hf' & _ & Ht' & Ha & Hv'%validate_alerting_iff).
    apply bind_Ok. exists config. split; [apply fatal_Ok, load_file_Ok; by exists f, t|].
    apply bind_Ok. exists alerting. split; [apply fatal_Ok, load_file_Ok; by exists f', t'|done].
Qed.

Lemma loadConfigs_wf `{FileSystem} `{CosignLib} `{NotationLib} `{StructLib} `{!StructSpec}
    decode_config decode_alerting (config : ConfigSettings) (alerting : AlertingSettings) :
  loadConfigs decode_config decode_alerting = Ok (config, alerting) -> wf_config config /\ wf_alerting alerting.
Proof. intros (? & ? & ? & ? & _ & _ & _ & _ & ? & _ & _ & _ & _ & ?)%loadConfigs_iff. done. Qed.

Lemma fatal_no_error {A} what (r : res A) err : fatal what r <> Err err.
Proof. by destruct r. Qed.
Lemma loadConfigs_no_error `{FileSystem} `{CosignLib} `{NotationLib} `{StructLib}
    decode_config decode_alerting err : loadConfigs decode_config decode_alerting <> Err err.
Proof.
  unfold loadConfigs. destruct (fatal _ (Load _ _ _)) as [c|e|w] eqn:E; cbn [mbind res_bind]; [|by apply fatal_no_error in E|done].
  destruct (fatal _ (LoadConfig _ _ _)) as [a|e|w] eqn:E'; cbn [mbind res_bind]; [done|by apply fatal_no_error in E'|done].
Qed.

(** Why the configuration file below [dir] ends the start, with what is logged last:
    the messages of [loadConfigs] for the errors before the validation, and the error of
    the validation itself. *)
Inductive load_failure `{FileSystem} {C} (decode : string -> res C) (validate : C -> res ())
    (what dir : string) : string -> Prop :=
  | unsafe_name err :
      SafeFileName dir ["/config.yaml"] = Err err ->
      load_failure decode validate what dir
        (sprintf "%serror sanitizing file with baseDir %s and pathElements %s"
           [AStr what; AStr dir; AStr (quote_slice ["/config.yaml"])])
  | unreadable file err :
      SafeFileName dir ["/config.yaml"] = Ok file -> read_file file = Err err ->
      load_failure decode validate what dir (sprintf "%serror loading file: %s" [AStr what; AStr err])
  | undecodable file text err :
      SafeFileName dir ["/config.yaml"] = Ok file -> read_file file = Ok text -> decode text = Err err ->
      load_failure decode validate what dir (sprintf "%serror parsing file: %s" [AStr what; AStr err])
  | invalid file text c err :
      SafeFileName dir ["/config.yaml"] = Ok file -> read_file file = Ok text -> decode text = Ok c ->
      validate c = Err err -> load_failure decode validate what dir err.

Lemma load_failure_ends `{FileSystem} {C} (decode : string -> res C) validate what dir w :
  load_failure decode validate what dir w ->
  fatal what (load_file decode validate dir ["/config.yaml"]) = Panic w.
Proof.
  unfold load_file. intros [err Hf|f err Hf Hr|f t err Hf Hr Hd|f t c err Hf Hr Hd Hv]; rewrite Hf; try done;
    rewrite Hr; try done; cbn [map_err mbind res_bind]; rewrite Hd; try done; cbn [map_err mbind res_bind].
  by rewrite Hv.
Qed.

(** C34: the two configurations a start ends with were decoded from files below their
    directories and are well formed, and such files are enough.  In every other case the
    process has ended: loading never returns with an error, and a file whose name is not
    safe, or that cannot be read, decoded or validated, ends the process with the
    message that says so, the file of the alerts as soon as the first one is loaded. *)
Theorem loadConfigs_files `{FileSystem} `{CosignLib} `{NotationLib} `{StructLib} `{!StructSpec}
    (decode_config : string -> res ConfigSettings) (decode_alerting : string -> res AlertingSettings) :
  (forall config alerting, loadConfigs decode_config decode_alerting = Ok (config, alerting) <->
   exists file text file' text',
     SafeFileName "/app/config" ["/config.yaml"] = Ok file /\ has_prefix file "/app/config/" = true /\
     read_file file = Ok text /\ decode_config text = Ok config /\ wf_config config /\
     SafeFileName "/app/alerts" ["/config.yaml"] = Ok file' /\ has_prefix file' "/app/alerts/" = true /\
     read_file file' = Ok text' /\ decode_alerting text' = Ok alerting /\ wf_alerting alerting) /\
  (forall err, loadConfigs decode_config decode_alerting <> Err err) /\
  (forall w, load_failure decode_config validate_config "error loading config: " "/app/config" w ->
     loadConfigs decode_config decode_alerting = Panic w) /\
  (forall config w, Load decode_config "/app/config" ["/config.yaml"] = Ok config ->
     load_failure decode_alerting validate_alerting "error loading alerting config: " "/app/alerts" w ->
     loadConfigs decode_config decode_alerting = Panic w).
Proof.
  split; [apply loadConfigs_iff|]. split; [apply loadConfigs_no_error|]. unfold loadConfigs, LoadConfig. split.
  - intros w Hw%load_failure_ends. unfold Load. change ConfigDir with "/app/config". by rewrite Hw.
  - intros config w Hc Hw%load_failure_ends. change ConfigDir with "/app/config". rewrite Hc.
    cbn [fatal mbind res_bind]. change AlertDir with "/app/alerts". by rewrite Hw.
Qed.

(** * What validation buys *)

Lemma contains_byte c s : GoStrings.contains s (String c "") = true -> exists i, index_byte c s = Some i.
Proof.
  induction s as [|a s IH]; cbn; [discriminate|]. case_decide as Ha; [by exists 0|].
  intros [Hp|Hs]%orb_prop.
  - apply has_prefix_true in Hp as (r & [= -> _]). done.
  - destruct (IH Hs) as [i ->]. by exists (S i).
Qed.

(** Headers with a colon are split at the first one and set in their order. *)
Lemma headers_set `{StructLib} (ch : ChannelSettings) (m : gmap string string) :
  wf_channel ch -> exists kvs,
    default [] (cs_Headers ch) = (fun '(k, v) => k +:+ ":" +:+ v) <$> kvs /\
    Forall (fun '(k, _) => count_byte ":" k = 0) kvs /\
    foldM_res (set_header (channel_of ch)) m (Headers (channel_of ch))
      = Ok (foldl (fun m '(k, v) => <[CanonicalHeaderKey k := v]> m) m kvs).
Proof.
  intros Hwf. cbn [Headers channel_of].
  assert (Hh : Forall (fun h => exists i, index_byte ":" h = Some i) (default [] (cs_Headers ch))).
  { destruct (cs_Headers ch) as [l|] eqn:E; [|constructor]. apply (wf_headers _ Hwf) in E as [_ Hl].
    apply (Forall_impl _ _ _ Hl). intros h [_ Hc]. by apply contains_byte. }
  revert m. induction Hh as [|h l [i Hi] _ IH]; intros m; cbn [foldM_res]; [by exists []|].
  unfold set_header at 2. rewrite Hi. cbn [mbind res_bind].
  destruct (IH (<[CanonicalHeaderKey (str_take i h) := str_drop (S i) h]> m)) as (kvs & -> & Hk & Hf).
  apply index_byte_Some in Hi as [Hsplit Hno].
  exists ((str_take i h, str_drop (S i) h) :: kvs). split; [|split; [by constructor|exact Hf]].
  cbn. f_equal. exact Hsplit.
Qed.

(** A well-formed trust root without key and certificate is verified by its identity;
    the code has nothing to verify by a certificate. *)
Lemma LoadVerifier_identity `{CosignLib} (tr : TrustRoot) :
  wf_root tr -> tr_Key tr = "" -> tr_Cert tr = "" ->
  one_of (Issuer (tr_Keyless tr)) (IssuerRegex (tr_Keyless tr)) /\
  one_of (Subject (tr_Keyless tr)) (SubjectRegex (tr_Keyless tr)) /\
  LoadVerifier tr = Ok {| vf_Name := tr_Name tr; KeyVerifier := None;
    KeylessVerifier := {| id_Issuer := Issuer (tr_Keyless tr); id_IssuerRegExp := IssuerRegex (tr_Keyless tr);
                          id_Subject := Subject (tr_Keyless tr);
                          id_SubjectRegExp := SubjectRegex (tr_Keyless tr) |} |}.
Proof.
  intros Hwf Hk Hc. destruct Hwf as [| |_ _ _ Hi Hs]; [done..|]. split; [done|]. split; [done|].
  unfold LoadVerifier. rewrite decide_False by (intros Hne; by destruct Hne). rewrite decide_True; [done|].
  unfold one_of in *. tauto.
Qed.
Lemma LoadVerifier_certificate `{CosignLib} (tr : TrustRoot) :
  wf_root tr -> tr_Cert tr <> "" ->
  LoadVerifier tr = Err "no public key or keyless configuration found".
Proof.
  intros Hwf Hc. destruct Hwf as [|_ Hk _ Hno|]; [done| |done]. unfold LoadVerifier.
  rewrite decide_False by (intros Hne; by destruct Hne). rewrite Hno. rewrite decide_False; [done|].
  cbn. tauto.
Qed.

Lemma effective_mode_valid r :
  wf_rule r -> effective_mode (rule_of r) = StringDefault (os_ValidationMode (rs_With r)) MutateMode.
Proof.
  intros [_ Hwf]. apply wf_mode in Hwf. unfold effective_mode. cbn [With rule_of ValidationMode options_of].
  apply elem_of_cons in Hwf as [-> |Hwf]; [done|]. apply elem_of_cons in Hwf as [-> |Hwf]; [done|].
  by apply list_elem_of_singleton in Hwf as ->.
Qed.

(** C11: with a configuration that has passed validation, a missing rule means that no
    rule matches the image at all; every rule has the mode it is configured with, or
    [mutate]; the type of a validator, by which it is dispatched and static ones are
    preponed, is the kind of its specific validator; a cosign trust root without key
    and certificate has exactly one form of issuer and of subject and loads as the
    verifier of that identity, and one with a certificate never loads; and every header
    of a receiver is split at its first colon and set, so that no receiver fails in that
    loop (the HTTP client may still refuse what is set). *)
Theorem valid_configuration `{StructLib} `{!StructSpec} `{NameLib} `{CosignLib} `{NotationLib}
    `{KeyLib} `{NotaryHttp} `{MapOrder} `{ArrivalOrder} verify resolve check client done1 done2
    (c : ConfigSettings) (a : AlertingSettings) :
  validate_config c = Ok () -> validate_alerting a = Ok () ->
  (forall glob image e, MatchingRule glob
      (Rules (config_of verify resolve check client done1 done2 c)) image = Err e ->
     forall r, r ∈ c_Rules c -> rule_matches glob image (rule_of r) = false) /\
  (forall r, r ∈ c_Rules c ->
     effective_mode (rule_of r) = StringDefault (os_ValidationMode (rs_With r)) MutateMode) /\
  (forall v, v ∈ c_Validators c -> exists s, vs_Specific v = Some s /\ kind_of s = vs_Type v) /\
  (forall v cv tr, v ∈ c_Validators c -> vs_Specific v = Some (SCosign cv) -> tr ∈ TrustRoots cv ->
     (tr_Cert tr <> "" -> LoadVerifier tr = Err "no public key or keyless configuration found") /\
     (tr_Key tr = "" -> tr_Cert tr = "" ->
      one_of (Issuer (tr_Keyless tr)) (IssuerRegex (tr_Keyless tr)) /\
      one_of (Subject (tr_Keyless tr)) (SubjectRegex (tr_Keyless tr)) /\
      LoadVerifier tr = Ok {| vf_Name := tr_Name tr; KeyVerifier := None;
        KeylessVerifier := {| id_Issuer := Issuer (tr_Keyless tr); id_IssuerRegExp := IssuerRegex (tr_Keyless tr);
                              id_Subject := Subject (tr_Keyless tr);
                              id_SubjectRegExp := SubjectRegex (tr_Keyless tr) |} |})) /\
  (forall ch m, ch ∈ default [] (al_AdmitRequests a) ++ default [] (al_RejectRequests a) ->
     exists kvs, default [] (cs_Headers ch) = (fun '(k, v) => k +:+ ":" +:+ v) <$> kvs /\
       Forall (fun '(k, _) => count_byte ":" k = 0) kvs /\
       foldM_res (set_header (channel_of ch)) m (Headers (channel_of ch))
         = Ok (foldl (fun m '(k, v) => <[CanonicalHeaderKey k := v]> m) m kvs)).
Proof.
  intros Hc%validate_config_iff Ha%validate_alerting_iff. destruct Hc as [[_ Hvs] [_ Hrs] _].
  rewrite Forall_forall in Hvs; rewrite Forall_forall in Hrs. split; [|split; [|split; [|split]]].
  - intros glob image e Hm r Hr. apply MatchingRule_error in Hm as [_ Hm]. apply Hm.
    + cbn. apply list_elem_of_fmap. by exists r.
    + by apply Hrs in Hr as [? _].
  - intros r Hr. by apply effective_mode_valid, Hrs.
  - intros v Hv. destruct (Hvs v Hv) as (s & Hs & (_ & Hk & _) & _ & Ht). exists s. split; [done|]. congruence.
  - intros v cv tr Hv Hs Htr. destruct (Hvs v Hv) as (s & Hs' & (_ & _ & Hwf) & _).
    rewrite Hs in Hs'. injection Hs' as <-. destruct Hwf as [_ [_ Hroots]].
    rewrite Forall_forall in Hroots. specialize (Hroots tr Htr).
    split; [by apply LoadVerifier_certificate|by apply LoadVerifier_identity].
  - intros ch m Hch. apply headers_set. destruct Ha as [Ha Ha']. rewrite Forall_forall in Ha; rewrite Forall_forall in Ha'.
    apply elem_of_app in Hch as [Hch|Hch]; auto.
Qed.

(** The configurations of the server over time: the libraries behind the validators give
    their verdicts at the time of the call. *)
Section Live.
Context `{NameLib} `{CosignLib} `{NotationLib} `{KeyLib} `{NotaryHttp} `{MapOrder} `{ArrivalOrder}.
Variable verify : Z -> Image -> CheckOpts -> res (list signature).
Variable resolve : Z -> Client -> string -> string -> res string.
Variable check : Z -> Client -> Document -> (StoreType -> string -> res (list certificate)) ->
  string -> VerifyOptions -> res string.
Variable client : Z -> Client.
Variables done1 done2 : Z -> nat -> bool.

Definition deployment_of (c : ConfigSettings) : deployment := {|
  d_Validators := (fun v => {| lv_Name := vs_Name v; lv_Type := vs_Type v; behaviour := fun t =>
    interface (verify t) (resolve t) (check t) (client t) (done1 t) (done2 t) (vs_Specific v) |})
      <$> c_Validators c;
  d_Rules := rule_of <$> c_Rules c |}.

Lemma deployment_config c t :
  config_at (deployment_of c) t
    = config_of (verify t) (resolve t) (check t) (client t) (done1 t) (done2 t) c.
Proof. unfold config_at, config_of. cbn. by rewrite <- list_fmap_compose. Qed.

(** The condition of the theorems on the history of the server. *)
Lemma deployment_original (configs : nat -> ConfigSettings) n v t img opts :
  v ∈ d_Validators (deployment_of (configs n)) ->
  original (fst (validate (behaviour v t) img opts)) = original img.
Proof.
  cbn. intros (w & -> & _)%list_elem_of_fmap. apply interface_original.
Qed.
End Live.

(** * Concrete runs *)
Definition demo_document : validator_document (H := demo_cosign) (H0 := demo_notation) := {|
  as_static := Err "no static validator";
  as_cosign := Ok {| y_Name := "signed"; y_Type := "cosign"; y_Rekor := ""; y_RekorPubkey := "";
    y_FulcioCert := ""; y_CTLogPubkey := ""; y_Cert := "";
    y_Auth := {| AuthConfigs := None; UseKeychain := false |};
    y_TrustRoots := [demo_root "alice" "A"; demo_root "bob" "B"] |};
  as_notary := Err "no notary validator";
  as_notation := Ok (demo_yaml "" ∅) |}.
Definition demo_load (name type_ : string) : res (ValidatorSettings (H := demo_cosign) (H0 := demo_notation)) :=
  load_validator (H1 := demo_tuf) (H2 := demo_keys) (H3 := demo_http) (H4 := demo_lib)
    (Ok [("name", YStr name); ("type", YStr type_)]) demo_document.
Definition no_validator : ValidatorSettings (H := demo_cosign) (H0 := demo_notation) :=
  {| vs_Name := ""; vs_Type := ""; vs_Specific := None |}.
Definition loaded (name type_ : string) : ValidatorSettings (H := demo_cosign) (H0 := demo_notation) :=
  match demo_load name type_ with Ok v => v | _ => no_validator end.
(** One rule for all images, with all trust roots of one validator. *)
Definition star_settings (name type_ : string) : ConfigSettings (H := demo_cosign) (H0 := demo_notation) := {|
  c_Validators := [loaded name type_];
  c_Rules := [{| rs_Pattern := "*:*"; rs_Validator := name; rs_With := demo_options |}];
  c_Alerting := demo_alerts |}.
(** Verification gives the digest of the reference. *)
Definition demo_check_digest (c : Client (H := demo_notation)) (doc : Document)
    (certs : StoreType -> string -> res (list (@certificate demo_notation))) (repo : string)
    (o : VerifyOptions) : res string :=
  of_opt "no digest" (strip_prefix (repo +:+ "@") (ArtifactReference o)).
Definition star_config (name type_ : string) : Validation.Config :=
  config_of (H := demo_cosign) (H0 := demo_notation) (H1 := demo_tuf) (H2 := demo_keys) (H3 := demo_http)
    (H4 := demo_lib) (H6 := in_order) demo_verify demo_resolve demo_check_digest DefaultClient never never
    (star_settings name type_).
Definition fresh_input : ValidationInput := {|
  in_IdxsTypes := [{| Index := 0; Type_ := "containers" |}];
  in_Image := "reg.io/app:1"; PreviousImages := []; ParentImages := Ok [] |}.
Definition run_of (name type_ : string) : res (option ValidationOutput * event * ()) :=
  Validation.ValidateImage (H := demo_lib) EmptyCache demo_glob no_env (star_config name type_) false tt fresh_input.
Definition output_of (name type_ : string) : ValidationOutput :=
  match run_of name type_ with
  | Ok (Some out, _, _) => out
  | _ => {| IdxsTypes := []; RawImage := ""; NewImage := ""; OldImage := ""; Error := None;
            out_Validator := ""; Skipped := false; SkipReason := ""; out_ValidationMode := "" |}
  end.
Example types_loaded :
  is_ok (demo_load "signed" "cosign") = true /\ is_ok (demo_load "n" "notation") = true /\
  is_ok (demo_load "signed" "pgp") = false.
Proof. vm_compute. done. Qed.
Notation validate_demo := (validate_config (H := demo_cosign) (H0 := demo_notation) (H1 := demo_structs)).
(** Another name than that of the specific validator is not valid. *)
Example names_validated :
  is_ok (validate_demo (star_settings "signed" "cosign")) = true /\
  is_ok (validate_demo (star_settings "default" "cosign")) = false.
Proof. vm_compute. done. Qed.

Lemma patched_if_changed_witness :
  NewImage (output_of "signed" "cosign") = "reg.io/app:1@sha256:abc" /\
  exists img digest, New (H := demo_lib) "reg.io/app:1" = Ok img /\
    NewImage (output_of "signed" "cosign") = Name (SetDigest img digest) /\
    (is_patched (output_of "signed" "cosign") = true <->
     "mutate" = MutateMode /\ Name (SetDigest img digest) <> Name img).
Proof.
  split; [vm_compute; reflexivity|].
  apply (patched_if_changed (H := demo_lib) (H0 := demo_cosign) (H1 := demo_notation) (H2 := demo_tuf)
    (H3 := demo_keys) (H4 := demo_http) (H6 := in_order) (H7 := demo_structs) (H8 := demo_structs_spec)
    demo_verify demo_resolve demo_check_digest DefaultClient
    never never EmptyCache demo_glob no_env (star_settings "signed" "cosign") false tt tt fresh_input
    (output_of "signed" "cosign") (Succeeded "cosign" "signed" None)).
  - vm_compute. reflexivity.
  - intros v ->%list_elem_of_singleton _. vm_compute. discriminate.
  - vm_compute. reflexivity.
  - vm_compute. reflexivity.
Defined.

Lemma notation_tag_not_patched_witness :
  RawImage (output_of "n" "notation") = "reg.io/app:1" /\
  out_ValidationMode (output_of "n" "notation") = MutateMode /\
  NewImage (output_of "n" "notation") = "reg.io/app:1@sha256:aa" /\
  is_patched (output_of "n" "notation") = false /\
  NewImage (output_of "n" "notation") = OldImage (output_of "n" "notation").
Proof.
  split; [vm_compute; reflexivity|]. split; [vm_compute; reflexivity|]. split; [vm_compute; reflexivity|].
  assert (Hcd : forall c doc certs repo d d',
    demo_check_digest c doc certs repo (verifyOptions repo d) = Ok d' -> d' = d).
  { intros c doc certs repo d d'. unfold demo_check_digest. cbn [verifyOptions ArtifactReference sprintf show_arg].
    rewrite app_empty_r. replace (repo +:+ String "@" d) with ((repo +:+ "@") +:+ d) by (by rewrite str_app_assoc).
    rewrite strip_prefix_app. cbn. congruence. }
  apply (notation_tag_not_patched (H := demo_lib) (H0 := demo_cosign) (H1 := demo_notation) (H2 := demo_tuf)
    (H3 := demo_keys) (H4 := demo_http) (H6 := in_order) (H7 := demo_structs) (H8 := demo_structs_spec)
    demo_verify demo_resolve demo_check_digest DefaultClient never never Hcd EmptyCache demo_glob no_env
    (star_settings "n" "notation") false tt tt fresh_input (output_of "n" "notation")
    (Succeeded "notation" "n" None)).
  - vm_compute. reflexivity.
  - intros v ->%list_elem_of_singleton _. vm_compute. reflexivity.
  - vm_compute. reflexivity.
  - vm_compute. reflexivity.
  - vm_compute. reflexivity.
Defined.

Definition demo_receiver : ChannelSettings := {|
  cs_ChannelName := ""; cs_URL := "https://alerts.example.com"; cs_Priority := None;
  cs_PayloadFields := None; cs_Headers := Some ["Authorization: token"]; cs_TemplateFile := "slack";
  cs_Fail := true |}.
(** A validator with an identity as its trust root. *)
Definition keyless_root : TrustRoot := {|
  tr_Name := "ci"; tr_Key := ""; tr_Cert := ""; tr_TSCert := "";
  tr_Keyless := {| Issuer := "https://issuer.example.com"; Subject := ""; IssuerRegex := "";
                   SubjectRegex := "^https://ci/.*$" |} |}.
Definition keyless_cv : CosignValidator (H := demo_cosign) := {|
  cv_Name := "signed"; cv_Type := "cosign"; Rekor := "rekor" : @rekor_client demo_cosign;
  rekorPubkey := None; fulcioCert := None; ctLogPubkey := None; cv_Cert := None;
  cv_Auth := {| AuthConfigs := None; UseKeychain := false |}; TrustRoots := [keyless_root] |}.
Definition keyless_settings : ConfigSettings (H := demo_cosign) (H0 := demo_notation) := {|
  c_Validators := [{| vs_Name := "signed"; vs_Type := "cosign"; vs_Specific := Some (SCosign keyless_cv) |}];
  c_Rules := [{| rs_Pattern := "*:*"; rs_Validator := "signed"; rs_With := demo_options |}];
  c_Alerting := demo_alerts |}.

Lemma valid_configuration_witness :
  validate_demo keyless_settings = Ok () /\
  (exists vf, LoadVerifier (H := demo_cosign) keyless_root = Ok vf /\ KeylessVerifier vf =
     {| id_Issuer := "https://issuer.example.com"; id_IssuerRegExp := "";
        id_Subject := ""; id_SubjectRegExp := "^https://ci/.*$" |}) /\
  exists kvs, ["Authorization: token"] = (fun '(k, v) => k +:+ ":" +:+ v) <$> kvs /\
    Forall (fun '(k, _) => count_byte ":" k = 0) kvs /\
    foldM_res (set_header (channel_of demo_receiver)) ∅ ["Authorization: token"]
      = Ok (foldl (fun m '(k, v) => <[CanonicalHeaderKey k := v]> m) ∅ kvs).
Proof.
  split; [vm_compute; reflexivity|].
  destruct (valid_configuration (H := demo_structs) (H0 := demo_structs_spec) (H1 := demo_lib) (H2 := demo_cosign)
    (H3 := demo_notation) (H4 := demo_tuf) (H5 := demo_keys) (H6 := demo_http) (H8 := in_order)
    demo_verify demo_resolve demo_check_digest DefaultClient never never keyless_settings
    {| al_ClusterId := ""; al_AdmitRequests := Some [demo_receiver]; al_RejectRequests := None |})
    as (_ & _ & _ & Hroots & Hheaders); [vm_compute; reflexivity|vm_compute; reflexivity|]. split.
  - destruct (Hroots _ keyless_cv keyless_root (list_elem_of_here _ _) eq_refl (list_elem_of_here _ _))
      as [_ Hid]. destruct Hid as (_ & _ & Hid); [reflexivity..|]. eexists. split; [exact Hid|reflexivity].
  - apply (Hheaders demo_receiver ∅). left.
Defined.

Definition demo_start := loadConfigs (H := flat_fs) (H2 := demo_structs)
  (fun _ => Ok (star_settings "signed" "cosign")).
(** Both files load, or that of the alerts does not. *)
Lemma loadConfigs_files_witness :
  demo_start (fun _ => Ok demo_alerts) = Ok (star_settings "signed" "cosign", demo_alerts) /\
  demo_start (fun _ => Err "yaml: line 1")
    = Panic "error loading alerting config: error parsing file: yaml: line 1".
Proof.
  split.
  - destruct (loadConfigs_files (H := flat_fs) (H2 := demo_structs) (H3 := demo_structs_spec)
      (fun _ => Ok (star_settings "signed" "cosign")) (fun _ => Ok demo_alerts)) as [Hok _].
    apply Hok. exists "/app/config/config.yaml", "", "/app/alerts/config.yaml", "".
    split; [vm_compute; reflexivity|]. split; [vm_compute; reflexivity|].
    split; [reflexivity|]. split; [reflexivity|].
    split; [refine (proj1 (validate_config_iff (H := demo_structs) (H0 := demo_structs_spec) _) _);
      vm_compute; reflexivity|].
    split; [vm_compute; reflexivity|]. split; [vm_compute; reflexivity|].
    split; [reflexivity|]. split; [reflexivity|]. split; constructor.
  - destruct (loadConfigs_files (H := flat_fs) (H2 := demo_structs) (H3 := demo_structs_spec)
      (fun _ => Ok (star_settings "signed" "cosign")) (fun _ => Err "yaml: line 1")) as (_ & _ & _ & Hal).
    apply (Hal (star_settings "signed" "cosign")); [vm_compute; reflexivity|].
    apply (undecodable (H := flat_fs) _ _ "error loading alerting config: " "/app/alerts"
      "/app/alerts/config.yaml" "" "yaml: line 1"); [vm_compute; reflexivity|reflexivity|reflexivity].
Defined.
