(* ===== verification/Server.v ===== *)
(** [cmd/connaisseur/main.go]: what happens before the server listens, and which handler
    a request reaches. *)
From S2P Require Import Prelude GoStrings Utils FilePath Image Kube Json Caching Metrics Channels Validator Validation.
From S2P Require Import Auth Cosign NotaryServer Notary Notation Alerting Settings Mutate Wiring.
From Stdlib Require Import Ascii.

(** * Constants *)
Definition HTTPTimeoutSeconds : Z := 30.
Definition ValidationTimeoutSeconds : Z := 29.
Definition TLSHandshakeTimeoutSeconds : Z := 10.
Definition CertDir := "/app/certs".
Definition MethodNotAllowed := "Method not allowed.".
Definition LogLevelKey := "LOG_LEVEL".

(** The keys of the values in the context of every request. *)
Inductive ctxkey : Type := Logger | ConnaisseurConfig | AlertingConfig | Cache | KubeAPI | RequestIdKey.
#[export] Instance ctxkey_eq_dec : EqDecision ctxkey.
Proof. solve_decision. Defined.

(** * Routing: [http.ServeMux] *)


Inductive route : Type := HealthRoute | MutateRoute | MetricsRoute.
#[export] Instance route_eq_dec : EqDecision route.
Proof. solve_decision. Defined.


Section Serve.
Context `{Decoder}.
Variable env : environ.
Variable unmarshal : string -> res AdmissionReview.
Variable alerting : Alerting.Config.


End Serve.

(** * main *)


Record http_Server : Type := {
  Addr : string;
  ReadTimeout : Z;
  WriteTimeout : Z;
  certFile : string;
  keyFile : string;
}.
Definition server : http_Server := {|
  Addr := ":5000";
  ReadTimeout := HTTPTimeoutSeconds * Second;
  WriteTimeout := HTTPTimeoutSeconds * Second;
  certFile := CertDir +:+ "/tls.crt";
  keyFile := CertDir +:+ "/tls.key";
|}.


Section Main.
Context `{FileSystem} `{CosignLib} `{NotationLib} `{StructLib}.
Variable decode_config : string -> res ConfigSettings.
Variable decode_alerting : string -> res AlertingSettings.

End Main.

(** The receivers of alerts as the handler reads them, at the time of an alert. *)
Definition alerting_of `{FileSystem} `{AlertLib} (now : string) (a : AlertingSettings) : Alerting.Config := {|
  ClusterId := al_ClusterId a;
  AdmitRequests := (fun c => channel_sender (channel_of c) now) <$> default [] (al_AdmitRequests a);
  RejectRequests := (fun c => channel_sender (channel_of c) now) <$> default [] (al_RejectRequests a) |}.

(** * What requests reach *)

(** The time a review may take ends before the server closes the connection. *)
Lemma validation_in_time : (ValidationTimeoutSeconds * Second < WriteTimeout server)%Z.
Proof. done. Qed.





(** * A concrete start *)


